(* ===== verification/_CoqProject ===== *)
-Q . S2P
Prelude.v
GoErrors.v
Tables.v
Env.v
Logic.v
Script.v
SubStore.v
SagaStore.v
OutboxStore.v
TrackStore.v
Schema.v
Spec.v
Samples.v
GoStrings.v
RepoSpec.v
Json.v
JsonFuel.v
Wire.v
Metrics.v
Notification.v
SagaMachine.v
Orchestrator.v
Email.v
Service.v
Gateway.v
Scanner.v
Notifier.v
Handler.v
Config.v
Relay.v
ReplyConsumer.v
Sweeper.v
Wiring.v
Footprint.v
Commands.v
System.v
Growth.v
Threads.v
Stepwise.v
Interleave.v
Outcome.v
Verdict.v
Races.v
Issue.v
Ledger.v
History.v
Provenance.v
Courier.v
Cluster.v
Mingle.v
Completion.v
Recovery.v
Crash.v
Counters.v
Loops.v
Amqp.v
Main.v
Bench.v
BenchMain.v
