(* ===== verification/Prelude.v ===== *)
(** * GitHub release notifier: a verification library

    The program sends a mail when a GitHub repository that somebody subscribed
    to publishes a release. It is two processes. The monolith (main.go,
    internal/) serves the REST API, keeps the subscriptions in PostgreSQL, scans
    GitHub, and starts a saga for every subscription; the notifier
    (cmd/notifier/) takes commands from RabbitMQ, or over gRPC, sends the mails
    and answers. A subscription is first pending; the saga sends the
    confirmation mail through the transactional outbox, the relay and the
    notifier, whose reply completes the saga or compensates it; the link in the
    mail confirms the subscription, and confirmed subscribers get the releases.

    ** The model

    Go code that calls services is a function [World -> result * World]
    ([GoM], Env.v): the world holds the database, the view of an open
    transaction, the Prometheus counters, the trace of everything the process
    sent (publishes, mails, HTTP and gRPC calls, cache writes, sleeps, acks),
    and a state [X] of the services, which is a parameter. The class [Env X]
    gives their answers: any round trip of PostgreSQL can fail before or after
    it took effect, and so can a commit; Redis, GitHub, the broker, SMTP and the
    notifier can refuse; the context can be canceled. The theorems hold for
    every [Env X]; where one needs a service that answers it says so
    ([healthy_db], [broker_up]). What PostgreSQL decides in C code (which texts
    are UUIDs or JSON, the length of a VARCHAR, the order of rows without ORDER
    BY) is the class [PgServer], with the documented facts in [PgServerLaws].
    Go errors are chains ([error], GoErrors.v) so that [KindOf], and with it the
    HTTP status, is computed as errors.As does. Strings are bytes. The tables are
    lists of rows in insertion order, with the keys, widths and sequences of
    migrations/ checked by the statements (Tables.v).

    ** The files

    - Prelude.v: list operations of SQL, tactics, the hint database [go_db].
    - GoErrors.v (internal/subscription/errors.go), GoStrings.v (strings.Split,
      path.Base), Json.v (encoding/json on structs of strings: encoder, full
      parser with its limit on nesting, decoder with case folding, and the lemma that the one undoes the
      other), JsonFuel.v (the fuel of the parser is always enough).
    - Tables.v (the rows and the database), Env.v (effects), Logic.v (a
      weakest-precondition calculus over every answer of the environment,
      [keeps], [tx_triple] for code inside a transaction, [fails_infra]).
    - SubStore.v, SagaStore.v, OutboxStore.v, TrackStore.v: the four stores, a
      definition per method. Schema.v: the invariant [db_ok] and that every
      statement keeps it.
    - Wire.v (internal/notification/commands.go, the class [Codec]),
      Notification.v (broker_publisher.go, grpc_sender.go).
    - RepoSpec.v (internal/repospec), Email.v (emailRegex and ValidateEmail of
      service.go, by derivatives).
    - SagaMachine.v: the lifecycle of internal/orchestrator/saga.go as a relation
      and the specifications of the updates; Orchestrator.v (orchestrator.go,
      both transports), ReplyConsumer.v, Sweeper.v.
    - Relay.v (internal/outbox/relay.go).
    - Service.v (internal/subscription/service.go, against the interfaces
      [GitHubClientSpec] and [SagaStarterSpec]), Gateway.v
      (internal/githubgateway, internal/cache), Scanner.v
      (internal/releasetracking/scanner.go).
    - Notifier.v (cmd/notifier: consumer.go, dedup.go, grpc.go, smtp.go).
    - Handler.v (internal/handler, internal/app, internal/middleware, the
      middleware of internal/metrics), Config.v (internal/config, parseLevel of
      internal/logging, the durations and the transport of main.go).
    - Metrics.v (the collectors of internal/metrics and their registration).
    - Wiring.v: the objects [run] of main.go builds; the orchestrator and the
      GitHub client discharge the interfaces. Spec.v: the abstract subscription
      machine. System.v: the running monolith, any sequence of whole requests,
      scans, drains, replies and sweeps, and its refinement of Spec.v.
    - The goroutines of the monolith, statement by statement: Growth.v (what
      every statement keeps of the rows that exist), Threads.v (programs in
      steps, the scheduler, a rely/guarantee logic), Stepwise.v (the operations
      of System.v as programs in steps, and that uninterrupted they are those
      operations), Interleave.v (any number of goroutines, interleaved at every
      statement and killed between any two, refine Spec.v), Outcome.v (the
      verdict on a saga, and the steps of the reply consumer and the sweeper),
      Verdict.v (the same beside the other goroutines, with either transport,
      and a record of who decides which saga), Races.v (worked schedules, the
      races of the source included).
    - Footprint.v: which effects each operation may have on the world (its
      events, its messages, calls and mails, its series); Counters.v uses it
      for the metrics. Commands.v: which commands it may add to the outbox.
      Issue.v: what a request issues, its token followed through the row, the
      command and the call. Ledger.v: a ledger of the tokens given out and of
      the links opened, and the mails it accounts for.
    - The two processes, joined by the broker and by gRPC: with whole operations
      as steps in Cluster.v; statement by statement in History.v (the record of
      what arrived and which token each request drew, as a ghost state beside
      the world), Provenance.v (every program in steps of the monolith beside
      that record), Courier.v (the handlings of the notifier as programs in
      steps) and Mingle.v (the two pools of goroutines together).
      Completion.v: an accepted subscription carried to its verdict. Recovery.v:
      no waiting saga of a reachable state is stuck; Crash.v: the same when the
      goroutines were stopped between any two statements.
    - Loops.v: the ticker loops of the scanner, the relay and the sweeper.
      Amqp.v: the connections, queues and receive loops of the two consumers and
      of the publisher. Main.v: [run] of main.go and of cmd/notifier/main.go,
      from the first connection to the graceful stop, and cache.New.
    - Bench.v: the load driver, the percentiles and the byte counters of
      cmd/confirmbench; BenchMain.v: its main, as a program that prints a table.
    - Script.v, Samples.v: an environment that plays scripted answers, and small
      databases, on which the witnesses evaluate.

    ** What the theorems show

    - The whole program (Mingle.v; Cluster.v for whole operations): however the
      goroutines of the two processes interleave at their statements and are
      killed, with any loss, delay, reordering and repetition of messages,
      nobody gets a mail that was not asked for: a confirmation goes to the
      address of an authorized subscribe request, a release to that address
      after the link of its token was opened. Strings are followed exactly,
      U+FFFD for what is not UTF-8 included.
    - The whole monolith: with goroutines that interleave at every statement
      (Interleave.v) the tables stay well-formed, the subscriptions move by
      steps of the abstract machine of Spec.v, each turn by those of the
      operations of its goroutine, and nobody is confirmed whose token was not
      presented with the API key. With one reply consumer and either transport
      (Verdict.v) the verdict on a saga is never reversed, and each turn moves a
      saga by at most one transition of its documented lifecycle, but for the
      failed saga that a late reply begins to compensate again. With whole
      operations one after the other (System.v), which are among these
      interleavings, the lifecycle holds without exception.
    - The outbox (Crash.v): with the broker transport, at every point of every
      interleaving each saga has its command in the outbox, and what is marked
      published was accepted by the broker.
    - Liveness: with the broker transport, while the database and the broker
      answer, an accepted subscription can be carried to the verdict that its
      mail deserves (Completion.v). Wherever the goroutines of the monolith were
      stopped and whatever failed before, a waiting saga that the sweeper picks
      is decided by one sweep, the drains of the rows that wait, one delivery of
      the command that these drains publish and one of its reply (Recovery.v,
      Crash.v). These are possibility statements: they give the run, and the run
      redelivers nothing.
    - The processes: workers and receive loops end once their context is
      canceled (Loops.v, Amqp.v); both consumers set up before they consume and
      settle every delivery once (Amqp.v); the monolith starts its workers only
      when it is ready and releases what it opened on every way out, but for the
      Redis client of a failed ping and the instance that ran the migrations;
      the notifier starts and stops as its Redis URL and what woke it
      say (Main.v); no goroutine panics on a metric (Counters.v).
    - The saga: step T1 is atomic with either transport (Orchestrator.v); a reply
      moves one saga, with the documented effect, and is idempotent; a delivery
      is acked only when acted on (ReplyConsumer.v); a sweep recovers the stuck
      sagas and touches no others (Sweeper.v).
    - Messages: a drain publishes the oldest rows first, marks only what the
      broker took, and publishes the fetched batch in order while the services
      answer (Relay.v); the consumer loses no command silently, and the events of
      every branch are given exactly, the attempts and the report of a known
      command included (Notifier.v); the wire
      formats round-trip, also through JSONB (Wire.v), and the parser of a
      payload is complete (JsonFuel.v).
    - Releases: a scan writes only to confirmed subscribers and only of a tag
      that was not the last one seen and that it recorded, at most once per tag
      and, while the services answer, to all of them (Scanner.v).
    - The API: every branch of the service, each tied to GitHub's answer
      (Service.v), totality, statuses and authentication (Handler.v), the two
      validators (Email.v, RepoSpec.v).
    - GitHub: bounded retries, and a cache that adds no answers and no errors of
      its own (Gateway.v).
    - The benchmark: its driver makes each call once under every interleaving
      and its percentiles are in range (Bench.v); its table is printed row by
      row without a panic, and what the columns of bytes count is made precise
      (BenchMain.v).
    - Where the code departs from what its comments intend: every confirmation
      whose failure was reported is reported sent when its command comes again
      (Notifier.v); and, on closed traces, a release lost when its subscribers cannot be read
      (Scanner.v), a compensation that can never finish (Sweeper.v), a confirmed
      subscription marked failed, and mailed links that need the API key
      (Wiring.v); and worked interleavings
      (Races.v): a loser of two subscribes is answered 500, a failed saga is
      reopened by a reply that read it before, a recorded failure is undone by a
      confirmation that read the row before, and the confirmation of a row that
      was deleted meanwhile is answered 200; and a confirmation that comes over
      both transports at once is mailed twice (Courier.v).

    ** Bounds

    The loops that run until a context is canceled (tickers, receive loops, the
    reconnection loop) take a fuel and give None when it is used up; the classes
    [Cancelable] and [CancelablePlatform] say that the context is canceled after
    some number of selects, and with more fuel than that the loops return
    ([workers_terminate], [consumers_terminate]). The other loops are structural: on
    the rows fetched (at most 100 for the relay and the sweeper) and on the
    attempts left (3 for replies and mails, 3 before the last request to
    GitHub). The JSON parser takes the length of its input as fuel: every value,
    item and nesting level consumes a byte of it. Sequences stop at the bounds
    of SERIAL and BIGSERIAL; durations wrap at 64 bits (Config.v).

    ** What is not modelled

    In the interleavings two things are one step: the transaction T1, whose rows
    nobody sees before it commits and whose writes PostgreSQL orders by its
    locks, and a lookup at GitHub through the cache, which touches no table;
    Cluster.v, Completion.v and Recovery.v take whole operations as steps, the
    handling of a delivery or of a call by the notifier among them (in Crash.v
    the past is cut at every statement, the recovery is not). The broker of
    Cluster.v and Mingle.v may deliver more than RabbitMQ does, also what was
    acked: an over-approximation, used only for what holds in every run. gin's
    routing and JSON binding (the route is a field of the request, the binding a
    parameter), panic recovery, log records, the values of the histograms and of
    the gauge (that they are written is modelled).
    The goroutines of [run] are started and stopped (Main.v) but run in System.v
    and in the loops of Loops.v and Amqp.v, not in one trace with [run]. The generated gRPC code; the servers and clients
    that cmd/confirmbench drives. Time zones: instants are integers. *)

From stdpp Require Export base tactics option list strings gmap sorting.
From Stdlib Require Export ZArith Lia.
From Stdlib Require Export Strings.Ascii.

#[export] Set Default Goal Selector "!".

(** ** Automation

    [go_db] collects the lemmas that close the common side conditions of the
    components: every file adds its own with [#[export] Hint Resolve]. *)

Create HintDb go_db discriminated.
#[export] Hint Constants Opaque : go_db.
#[export] Hint Variables Opaque : go_db.

(** Case analysis on the scrutinee of every [match] of the goal, each time
    clearing the contradictory branches. *)
Ltac go_cases :=
  repeat (case_match; simplify_eq/=; try done).

(** ** Lists

    The tables of the model are lists of rows; an SQL [UPDATE] is a guarded
    map, a [DELETE] a filter, an [INSERT] a cons at the end. *)

Definition update_where {A} (P : A -> bool) (f : A -> A) (l : list A) : list A :=
  (fun a => if P a then f a else a) <$> l.

Definition delete_where {A} (P : A -> bool) (l : list A) : list A :=
  List.filter (fun a => negb (P a)) l.

Definition select_where {A} (P : A -> bool) (l : list A) : list A :=
  List.filter P l.

(** The number of rows a guarded statement matches (SQL's [RowsAffected]). *)
Definition count_where {A} (P : A -> bool) (l : list A) : nat :=
  length (select_where P l).

Section table_lemmas.
Context {A B : Type}.
Implicit Types (P : A -> bool) (f : A -> A) (g : A -> B) (l : list A).

Lemma elem_of_select_where P l a :
  a ∈ select_where P l <-> a ∈ l /\ P a = true.
Proof. unfold select_where. by rewrite !list_elem_of_In, filter_In. Qed.

Lemma elem_of_delete_where P l a :
  a ∈ delete_where P l <-> a ∈ l /\ P a = false.
Proof.
  unfold delete_where. rewrite !list_elem_of_In, filter_In.
  by rewrite negb_true_iff.
Qed.

Lemma elem_of_update_where P f l b :
  b ∈ update_where P f l <->
  exists a, a ∈ l /\ b = (if P a then f a else a).
Proof.
  unfold update_where. rewrite list_elem_of_fmap.
  split; intros (a & ? & ?); eauto.
Qed.

(** An update that does not touch the projection [g] keeps it. *)
Lemma fmap_update_where P f g l :
  (forall a, P a = true -> g (f a) = g a) ->
  g <$> update_where P f l = g <$> l.
Proof.
  intros Hg. unfold update_where. rewrite <- list_fmap_compose.
  apply list_fmap_ext. intros i a _. simpl.
  destruct (P a) eqn:E; auto.
Qed.

Lemma update_where_none P f l :
  (forall a, a ∈ l -> P a = false) -> update_where P f l = l.
Proof.
  intros HP. unfold update_where.
  rewrite <- (list_fmap_id l) at 2. apply list_fmap_ext.
  intros i a Ha. rewrite HP; [done|]. by eapply list_elem_of_lookup_2.
Qed.

Lemma update_where_ext P Q f l :
  (forall a, a ∈ l -> P a = Q a) -> update_where P f l = update_where Q f l.
Proof.
  intros HP. apply list_fmap_ext. intros i a Ha. rewrite (HP a); [done|].
  by eapply list_elem_of_lookup_2.
Qed.

Lemma length_update_where P f l : length (update_where P f l) = length l.
Proof. apply length_fmap. Qed.

Lemma delete_where_sublist P l : delete_where P l `sublist_of` l.
Proof.
  induction l as [|a l IH]; simpl; [done|].
  destruct (P a); simpl; [by apply sublist_cons|by apply sublist_skip].
Qed.

Lemma select_where_sublist P l : select_where P l `sublist_of` l.
Proof.
  induction l as [|a l IH]; simpl; [done|].
  destruct (P a); simpl; [by apply sublist_skip|by apply sublist_cons].
Qed.

Lemma count_where_zero P l :
  count_where P l = 0%nat <-> forall a, a ∈ l -> P a = false.
Proof.
  unfold count_where. split.
  - intros Hl a Ha. destruct (P a) eqn:E; [|done].
    assert (a ∈ select_where P l) as Hin by by apply elem_of_select_where.
    apply nil_length_inv in Hl. rewrite Hl in Hin. by apply elem_of_nil in Hin.
  - intros HP. destruct (select_where P l) as [|a l'] eqn:E; [done|].
    assert (a ∈ select_where P l) as Hin by (rewrite E; set_solver).
    apply elem_of_select_where in Hin as [Ha HPa].
    by rewrite HP in HPa.
Qed.

(** A projection with no duplicates identifies its row. *)
Lemma NoDup_fmap_inj g l a b :
  NoDup (g <$> l) -> a ∈ l -> b ∈ l -> g a = g b -> a = b.
Proof.
  induction l as [|c l IH]; simpl; [set_solver|].
  rewrite NoDup_cons. intros [Hc Hl] Ha Hb Hab.
  apply elem_of_cons in Ha as [->|Ha], Hb as [->|Hb]; auto.
  - exfalso. apply Hc. rewrite Hab. by apply list_elem_of_fmap_2.
  - exfalso. apply Hc. rewrite <- Hab. by apply list_elem_of_fmap_2.
Qed.

Lemma NoDup_fmap_sublist g l k :
  k `sublist_of` l -> NoDup (g <$> l) -> NoDup (g <$> k).
Proof.
  intros Hs Hl. apply (sublist_NoDup (g <$> k) (g <$> l)); [done|by apply fmap_sublist].
Qed.

Lemma NoDup_fmap_snoc g l a :
  NoDup (g <$> l) -> g a ∉ (g <$> l) -> NoDup (g <$> (l ++ [a])).
Proof.
  intros Hl Ha. rewrite fmap_app. apply NoDup_app. split; [done|].
  split; [|apply NoDup_singleton]. intros b Hb Hb'.
  simpl in Hb'. apply list_elem_of_singleton in Hb'. by subst.
Qed.

(** At most one row matches a test that decides equality with a key that
    has no duplicates. *)
Lemma select_where_unique P g k l a :
  NoDup (g <$> l) -> (forall b, P b = true <-> g b = k) ->
  a ∈ l -> g a = k -> select_where P l = [a].
Proof.
  intros Hl HP. induction l as [|c l IH]; simpl; [set_solver|].
  simpl in Hl. apply NoDup_cons in Hl as [Hc Hl]. intros Ha Hk.
  apply elem_of_cons in Ha as [->|Ha].
  - assert (P c = true) as -> by by apply HP. f_equal.
    destruct (select_where P l) as [|b l'] eqn:E; [done|].
    assert (b ∈ select_where P l) as Hin by (rewrite E; set_solver).
    apply elem_of_select_where in Hin as [Hb HPb].
    exfalso. apply Hc. apply HP in HPb. rewrite Hk, <- HPb.
    by apply list_elem_of_fmap_2.
  - destruct (P c) eqn:E; [|by apply IH].
    exfalso. apply Hc. apply HP in E. rewrite E, <- Hk.
    by apply list_elem_of_fmap_2.
Qed.

Lemma select_where_none P l :
  (forall a, a ∈ l -> P a = false) -> select_where P l = [].
Proof.
  intros HP. destruct (select_where P l) as [|a l'] eqn:E; [done|].
  assert (a ∈ select_where P l) as Hin by (rewrite E; set_solver).
  apply elem_of_select_where in Hin as [Ha HPa]. by rewrite HP in HPa.
Qed.

Lemma select_where_all P l : (forall a, a ∈ l -> P a = true) -> select_where P l = l.
Proof.
  induction l as [|a l IH]; [done|]. intros HP. unfold select_where in *. simpl.
  rewrite (HP a) by set_solver. f_equal. apply IH. intros b Hb. apply HP. set_solver.
Qed.
End table_lemmas.

Lemma Forall2_impl_elem {A B} (P Q : A -> B -> Prop) l k :
  Forall2 P l k -> (forall a b, a ∈ l -> P a b -> Q a b) -> Forall2 Q l k.
Proof.
  induction 1 as [|a b l k Hab Hlk IH]; intros HQ; constructor.
  - apply HQ; [set_solver|done].
  - apply IH. intros a' b' Ha'. apply HQ. set_solver.
Qed.

#[export] Hint Resolve delete_where_sublist select_where_sublist : go_db.

(** ** Strings

    A Go string is a sequence of bytes; [string] is a list of [ascii], which
    are the 256 byte values. Equality tests are the boolean [String.eqb]. *)

Definition is_empty (s : string) : bool := String.eqb s EmptyString.

Lemma is_empty_true s : is_empty s = true <-> s = EmptyString.
Proof. apply String.eqb_eq. Qed.

Lemma is_empty_false s : is_empty s = false <-> s <> EmptyString.
Proof. apply String.eqb_neq. Qed.

Lemma string_app_nil_r s : (s +:+ "")%string = s.
Proof. induction s as [|c s IH]; [done|]. exact (f_equal (String c) IH). Qed.

Lemma string_app_assoc (s t u : string) :
  (s +:+ (t +:+ u) = (s +:+ t) +:+ u)%string.
Proof. induction s as [|c s IH]; [done|]. exact (f_equal (String c) IH). Qed.

(** Text of ASCII bytes. *)
Fixpoint ascii_text (s : string) : bool :=
  match s with
  | EmptyString => true
  | String c s' => (N_of_ascii c <? 128)%N && ascii_text s'
  end.

(** Prefixing is injective: the keys built by concatenation stay distinct. *)
Lemma string_app_inj_l (p s t : string) :
  (p +:+ s = p +:+ t)%string -> s = t.
Proof. induction p as [|c p IH]; [done|].
  intros H. apply IH. by injection H. Qed.

(** A related element on the other side. *)
Lemma Forall2_elem_l {A B} (R : A -> B -> Prop) l l' a :
  Forall2 R l l' -> a ∈ l -> exists b, b ∈ l' /\ R a b.
Proof.
  intros H Ha. apply list_elem_of_lookup_1 in Ha as [i Hi].
  eapply Forall2_lookup_l in H as (b & Hb & Hr); [|done].
  exists b. split; [by eapply list_elem_of_lookup_2|done].
Qed.

Lemma Forall2_elem_r {A B} (R : A -> B -> Prop) l l' b :
  Forall2 R l l' -> b ∈ l' -> exists a, a ∈ l /\ R a b.
Proof.
  intros H Hb. apply Forall2_flip in H. by destruct (Forall2_elem_l _ _ _ _ H Hb) as (a & ? & ?); eauto.
Qed.

(** [NoDup] of a list given by its elements. *)
Ltac solve_nodup :=
  repeat (apply NoDup_cons; split;
          [rewrite ?elem_of_cons, ?elem_of_nil; naive_solver|]);
  try apply NoDup_nil_2.
