(* ===== verification/GoErrors.v ===== *)
(** * Go errors

    The [error] values of the program and the two standard-library functions
    it inspects them with. An error is a chain: a leaf (a [*DomainError] of
    internal/subscription/errors.go, or any other error, known by its text
    only) under the wrappers that [fmt.Errorf] with [%w] adds. *)

From S2P Require Import Prelude.

Local Open Scope string_scope.

(** [type ErrKind int] and its four values. *)
Inductive ErrKind :=
  | KindInternal
  | KindInvalid
  | KindNotFound
  | KindConflict.

#[export] Instance ErrKind_eq_dec : EqDecision ErrKind.
Proof. solve_decision. Defined.

Record DomainError := mkDomainError { Kind : ErrKind; Message : string }.

#[export] Instance DomainError_eq_dec : EqDecision DomainError.
Proof. solve_decision. Defined.

(** [EWrap m e] is [fmt.Errorf("m: %w", e)], [EJoin e1 e2] is
    [fmt.Errorf("%w: %w", e1, e2)], [EPlain] an error of a library or of
    [errors.New]. *)
Inductive error :=
  | EDomain (d : DomainError)
  | EPlain (msg : string)
  | EWrap (msg : string) (e : error)
  | EJoin (e1 e2 : error).

#[export] Instance error_eq_dec : EqDecision error.
Proof. solve_decision. Defined.

(** The [Error()] method: the text a caller or a client sees. *)
Fixpoint Error (e : error) : string :=
  match e with
  | EDomain d => Message d
  | EPlain m => m
  | EWrap m e' => m +:+ ": " +:+ Error e'
  | EJoin e1 e2 => Error e1 +:+ ": " +:+ Error e2
  end.

(** The sentinels of internal/subscription/errors.go. *)
Definition ErrInvalidEmail : DomainError :=
  mkDomainError KindInvalid "invalid email address".
Definition ErrInvalidRepoFormat : DomainError :=
  mkDomainError KindInvalid "invalid repository format, expected owner/repo".
Definition ErrRepoNotFound : DomainError :=
  mkDomainError KindNotFound "repository not found on GitHub".
Definition ErrAlreadySubscribed : DomainError :=
  mkDomainError KindConflict "email is already subscribed to this repository".
Definition ErrTokenNotFound : DomainError :=
  mkDomainError KindNotFound "subscription not found".

(** [errors.As(err, &de)] for [de *DomainError]: the first domain error met
    in a depth-first walk of the chain. *)
Fixpoint errors_As (e : error) : option DomainError :=
  match e with
  | EDomain d => Some d
  | EPlain _ => None
  | EWrap _ e' => errors_As e'
  | EJoin e1 e2 =>
      match errors_As e1 with
      | Some d => Some d
      | None => errors_As e2
      end
  end.

(** [KindOf] of internal/subscription/errors.go. *)
Definition KindOf (e : error) : ErrKind :=
  match errors_As e with
  | Some d => Kind d
  | None => KindInternal
  end.

(** An error that carries no domain error anywhere in its chain. *)
Definition infra_error (e : error) : Prop := errors_As e = None.

Lemma infra_plain m : infra_error (EPlain m).
Proof. done. Qed.

Lemma infra_wrap m e : infra_error e -> infra_error (EWrap m e).
Proof. done. Qed.

Lemma KindOf_wrap m e : KindOf (EWrap m e) = KindOf e.
Proof. done. Qed.

Lemma KindOf_infra e : infra_error e -> KindOf e = KindInternal.
Proof. unfold KindOf, infra_error. by intros ->. Qed.

#[export] Hint Resolve infra_plain infra_wrap : go_db.

(** ** Results: Go's [(T, error)] *)

Inductive result (A : Type) :=
  | Ok (a : A)
  | Err (e : error).
Arguments Ok {A} a.
Arguments Err {A} e.

#[export] Instance result_eq_dec {A} `{EqDecision A} : EqDecision (result A).
Proof. solve_decision. Defined.

Definition is_ok {A} (r : result A) : bool :=
  match r with Ok _ => true | Err _ => false end.
