(* ===== verification/Tables.v ===== *)
(** * Tables: the rows, the schema and its constraints

    The four tables of migrations/*.sql, with the row types of the components
    that own them, the constraints the schema states (primary and unique keys,
    column widths, sequences) and the statements that insert into them. *)

From S2P Require Import Prelude GoErrors.

Local Open Scope string_scope.
Local Open Scope Z_scope.

(** ** Rows *)

(** [Subscription] of internal/subscription/subscription.go. *)
Record Subscription := mkSubscription {
  sub_ID : Z; sub_Email : string; sub_Repo : string; sub_Token : string;
  sub_Confirmed : bool; sub_Status : string; sub_CreatedAt : Z }.

Definition StatusPending : string := "pending".
Definition StatusConfirmed : string := "confirmed".
Definition StatusFailed : string := "failed".

(** [State] of internal/orchestrator/saga.go. *)
Inductive SagaState :=
  | StateSubscriptionCreated
  | StateCompleted
  | StateCompensating
  | StateFailed.

#[export] Instance SagaState_eq_dec : EqDecision SagaState.
Proof. solve_decision. Defined.

Definition state_string (s : SagaState) : string :=
  match s with
  | StateSubscriptionCreated => "subscription_created"
  | StateCompleted => "completed"
  | StateCompensating => "compensating"
  | StateFailed => "failed"
  end.

(** [Saga] of internal/orchestrator/saga.go. *)
Record Saga := mkSaga {
  saga_ID : string; saga_SubscriptionID : Z; saga_Email : string;
  saga_Repo : string; saga_State : SagaState; saga_Attempts : Z;
  saga_LastError : option string; saga_CreatedAt : Z; saga_UpdatedAt : Z }.

(** [Message] of internal/outbox/store.go: one row of the outbox. *)
Record OutboxMessage := mkOutboxMessage {
  ob_ID : Z; ob_SagaID : option string; ob_RoutingKey : string;
  ob_MessageID : string; ob_Payload : string; ob_CreatedAt : Z;
  ob_PublishedAt : option Z }.

(** [Repository] of internal/releasetracking/store.go. *)
Record Repository := mkRepository {
  repo_ID : Z; repo_Repo : string; repo_LastSeenTag : string;
  repo_LastCheckedAt : option Z; repo_LastReleaseAt : option Z }.

#[export] Instance Subscription_eq_dec : EqDecision Subscription.
Proof. solve_decision. Defined.
#[export] Instance Saga_eq_dec : EqDecision Saga.
Proof. solve_decision. Defined.
#[export] Instance OutboxMessage_eq_dec : EqDecision OutboxMessage.
Proof. solve_decision. Defined.
#[export] Instance Repository_eq_dec : EqDecision Repository.
Proof. solve_decision. Defined.

(** The database: the tables and the last value each sequence gave. *)
Record DB := mkDB {
  subscriptions : list Subscription; subscriptions_id_seq : Z;
  repositories : list Repository; repositories_id_seq : Z;
  outbox : list OutboxMessage; outbox_id_seq : Z;
  saga : list Saga }.

#[export] Instance DB_eq_dec : EqDecision DB.
Proof. solve_decision. Defined.

Definition empty_db : DB := mkDB [] 0 [] 0 [] 0 [].

Definition set_subscriptions (l : list Subscription) (d : DB) : DB :=
  mkDB l (subscriptions_id_seq d) (repositories d) (repositories_id_seq d)
    (outbox d) (outbox_id_seq d) (saga d).
Definition set_repositories (l : list Repository) (d : DB) : DB :=
  mkDB (subscriptions d) (subscriptions_id_seq d) l (repositories_id_seq d)
    (outbox d) (outbox_id_seq d) (saga d).
Definition set_outbox (l : list OutboxMessage) (d : DB) : DB :=
  mkDB (subscriptions d) (subscriptions_id_seq d) (repositories d)
    (repositories_id_seq d) l (outbox_id_seq d) (saga d).
Definition set_saga (l : list Saga) (d : DB) : DB :=
  mkDB (subscriptions d) (subscriptions_id_seq d) (repositories d)
    (repositories_id_seq d) (outbox d) (outbox_id_seq d) l.

(** Sequences are not transactional: a rolled-back transaction leaves the
    tables of [d], but the sequence values its own view [t] had reached. *)
Definition keep_sequences (t d : DB) : DB :=
  mkDB (subscriptions d) (subscriptions_id_seq t `max` subscriptions_id_seq d)
    (repositories d) (repositories_id_seq t `max` repositories_id_seq d)
    (outbox d) (outbox_id_seq t `max` outbox_id_seq d) (saga d).

(** Two databases with the same rows: what a client can tell apart. *)
Definition same_rows (d1 d2 : DB) : Prop :=
  subscriptions d1 = subscriptions d2 /\ repositories d1 = repositories d2 /\
  outbox d1 = outbox d2 /\ saga d1 = saga d2.

Lemma keep_sequences_rows t d : same_rows (keep_sequences t d) d.
Proof. done. Qed.
#[export] Hint Resolve keep_sequences_rows : go_db.

#[export] Instance same_rows_equiv : Equivalence same_rows.
Proof.
  unfold same_rows. split; [done|..].
  - intros d1 d2 (?&?&?&?). intuition congruence.
  - intros d1 d2 d3 (?&?&?&?) (?&?&?&?). intuition congruence.
Qed.

(** ** The server

    What the schema leaves to PostgreSQL: which texts a [VARCHAR(n)] column
    takes, the canonical form of a [UUID], the text a [JSONB] value is given
    back as, the order of the rows a statement without [ORDER BY] returns. *)

Class PgServer := {
  pg_fits : nat -> string -> bool;
  pg_uuid : string -> option string;
  pg_jsonb : string -> option string;
  pg_scan : forall A : Type, list A -> list A }.
Arguments pg_scan {_ A} l.

(** Documented behaviour: a scan returns the rows of the table, in some order;
    the empty text is not a UUID, and a canonical UUID reads as itself. *)
Class PgServerLaws {P : PgServer} : Prop := {
  pg_scan_perm : forall A (l : list A), pg_scan l ≡ₚ l;
  pg_uuid_empty : pg_uuid "" = None;
  pg_uuid_canonical : forall s u, pg_uuid s = Some u -> pg_uuid u = Some u }.
Arguments PgServerLaws P : clear implicits.

Lemma pg_scan_nil `{!PgServer, !PgServerLaws _} (A : Type) : pg_scan (@nil A) = [].
Proof. apply Permutation_nil_r, pg_scan_perm. Qed.
Lemma pg_scan_singleton `{!PgServer, !PgServerLaws _} {A} (a : A) : pg_scan [a] = [a].
Proof. apply Permutation_singleton_r, pg_scan_perm. Qed.

(** The first row of a scan. *)
Lemma head_scan_Some `{!PgServer, !PgServerLaws _} {A} (l : list A) a :
  head (pg_scan l) = Some a -> a ∈ l.
Proof.
  intros Hl. rewrite <- (pg_scan_perm _ l). destruct (pg_scan l); [done|].
  simplify_eq/=. apply elem_of_cons. by left.
Qed.
Lemma head_scan_None `{!PgServer, !PgServerLaws _} {A} (l : list A) :
  head (pg_scan l) = None -> l = [].
Proof.
  intros Hl. apply Permutation_nil_r. rewrite <- (pg_scan_perm _ l).
  by destruct (pg_scan l).
Qed.

(** ** Statements that insert, and the errors of the constraints *)

Definition unique_violation : error :=
  EPlain "pq: duplicate key value violates unique constraint".
Definition too_long : error :=
  EPlain "pq: value too long or not valid text for the column type".
Definition sequence_limit : error :=
  EPlain "pq: nextval: reached maximum value of sequence".
Definition invalid_uuid : error :=
  EPlain "pq: invalid input syntax for type uuid".
Definition invalid_json : error :=
  EPlain "pq: invalid input syntax for type json".

(** [SERIAL] is a 32-bit sequence, [BIGSERIAL] a 64-bit one. *)
Definition serial_max : Z := 2 ^ 31 - 1.
Definition bigserial_max : Z := 2 ^ 63 - 1.

Section Inserts.
Context `{!PgServer}.

Definition varchar (s : string) : bool := pg_fits 255 s.

(** [INSERT INTO subscriptions (email, repo, token, confirmed)], with the
    default status, [RETURNING id]. *)
Definition insert_subscription (now : Z) (email repo token : string)
    (confirmed : bool) (d : DB) : result Z * DB :=
  let id := subscriptions_id_seq d + 1 in
  if (serial_max <? id) then (Err sequence_limit, d) else
  let d1 := mkDB (subscriptions d) id (repositories d) (repositories_id_seq d)
              (outbox d) (outbox_id_seq d) (saga d) in
  if negb (varchar email && varchar repo && varchar token)
  then (Err too_long, d1)
  else if existsb (fun s => String.eqb (sub_Token s) token ||
                   (String.eqb (sub_Email s) email && String.eqb (sub_Repo s) repo))
            (subscriptions d)
  then (Err unique_violation, d1)
  else (Ok id, set_subscriptions (subscriptions d ++
          [mkSubscription id email repo token confirmed StatusPending now]) d1).

(** [INSERT INTO saga (id, subscription_id, email, repo, state)]. *)
Definition insert_saga (now : Z) (sg : Saga) (d : DB) : result unit * DB :=
  match pg_uuid (saga_ID sg) with
  | None => (Err invalid_uuid, d)
  | Some id =>
      if negb (varchar (saga_Email sg) && varchar (saga_Repo sg) &&
               pg_fits 32 (state_string (saga_State sg)))
      then (Err too_long, d)
      else if existsb (fun s => String.eqb (saga_ID s) id) (saga d)
      then (Err unique_violation, d)
      else (Ok (), set_saga (saga d ++
              [mkSaga id (saga_SubscriptionID sg) (saga_Email sg) (saga_Repo sg)
                 (saga_State sg) 0 None now now]) d)
  end.

(** [INSERT INTO outbox (saga_id, routing_key, message_id, payload)]. *)
Definition insert_outbox (now : Z) (sid : option string)
    (routingKey messageID payload : string) (d : DB) : result unit * DB :=
  let id := outbox_id_seq d + 1 in
  if (bigserial_max <? id) then (Err sequence_limit, d) else
  let d1 := mkDB (subscriptions d) (subscriptions_id_seq d) (repositories d)
              (repositories_id_seq d) (outbox d) id (saga d) in
  match (match sid with
         | None => Some None
         | Some s => option_map Some (pg_uuid s)
         end), pg_jsonb payload with
  | None, _ => (Err invalid_uuid, d1)
  | _, None => (Err invalid_json, d1)
  | Some u, Some body =>
      if negb (varchar routingKey && varchar messageID)
      then (Err too_long, d1)
      else if existsb (fun m => String.eqb (ob_MessageID m) messageID) (outbox d)
      then (Err unique_violation, d1)
      else (Ok (), set_outbox (outbox d ++
              [mkOutboxMessage id u routingKey messageID body now None]) d1)
  end.

(** [INSERT INTO repositories ... ON CONFLICT (repo) DO UPDATE SET ...]: the
    sequence is advanced on a conflict too. [fresh] is the row to insert for
    the new id, [upd] the update of the conflicting row. *)
Definition upsert_repository (repo : string) (fresh : Z -> Repository)
    (upd : Repository -> Repository) (tag_fits : bool) (d : DB)
    : result unit * DB :=
  let id := repositories_id_seq d + 1 in
  if (serial_max <? id) then (Err sequence_limit, d) else
  let d1 := mkDB (subscriptions d) (subscriptions_id_seq d) (repositories d)
              id (outbox d) (outbox_id_seq d) (saga d) in
  if negb (varchar repo && tag_fits) then (Err too_long, d1)
  else if existsb (fun r => String.eqb (repo_Repo r) repo) (repositories d)
  then (Ok (), set_repositories
          (update_where (fun r => String.eqb (repo_Repo r) repo) upd
             (repositories d)) d1)
  else (Ok (), set_repositories (repositories d ++ [fresh id]) d1).
End Inserts.
