(* ===== verification/Env.v ===== *)
(** * The world of the two processes and the monad of their effects

    Everything outside src/ is an argument of the model: the class [Env] lists
    the calls the code makes to PostgreSQL (its failures, its row order, the
    texts it accepts), Redis, the GitHub HTTP API, RabbitMQ, the SMTP relay, the
    gRPC transport, the clock and the UUID generator, over a hidden state [X]
    that is theirs. The world of a computation is the database of the monolith,
    its open transaction, that hidden state, the trace of the external effects
    and the Prometheus counters. A Go function [f(...) (T, error)] is a function
    of the world to a [result T] and the next world: [GoM X T]. *)

From S2P Require Import Prelude GoErrors Tables.

Local Open Scope string_scope.
Local Open Scope Z_scope.

(** What a round trip to PostgreSQL does to the client: the statement runs, or
    it fails without an effect, or its effect is kept but the client sees an
    error (the connection is lost after the server has committed). *)
Inductive pg_outcome :=
  | PgOk
  | PgFailBefore (msg : string)
  | PgFailAfter (msg : string).

(** A request of net/http and its response. *)
Record HttpRequest := mkHttpRequest {
  rq_Method : string; rq_URL : string; rq_Header : list (string * string) }.
Record HttpResponse := mkHttpResponse { StatusCode : Z; Body : string }.

(** [amqp.Publishing] with the exchange and the key it is published under. *)
Record Publishing := mkPublishing {
  pub_Exchange : string; pub_Key : string; ContentType : string;
  Persistent : bool; MessageId : string; pub_Body : string }.

(** One call of [smtp.SendMail]; the credentials are those of [PlainAuth]. *)
Record Mail := mkMail {
  smtp_Addr : string; smtp_Auth : option (string * string * string);
  smtp_From : string; smtp_To : list string; smtp_Msg : string }.

(** [SendConfirmationRequest] of proto/notifier/v1/notifier.proto. *)
Record SendConfirmationRequest := mkSendConfirmationRequest {
  req_Email : string; req_Repo : string; req_ConfirmUrl : string }.

(** An external call returns a value or fails with an error text. *)
Abbreviation ext_result A := (string + A)%type.

Class Env (X : Type) := {
  env_pg : X -> pg_outcome * X;
  env_clock : X -> Z * X;
  env_uuid : X -> string * X;
  env_ctx_done : X -> bool * X;
  env_redis_get : string -> X -> ext_result (option string) * X;
  env_redis_set : string -> string -> Z -> X -> ext_result unit * X;
  env_redis_exists : string -> X -> ext_result Z * X;
  env_http : HttpRequest -> X -> ext_result HttpResponse * X;
  env_publish : Publishing -> X -> ext_result unit * X;
  env_smtp : Mail -> X -> ext_result unit * X;
  env_grpc : SendConfirmationRequest -> X -> ext_result unit * X;
  env_server :: PgServer }.

(** ** The processes: connections, workers and their life *)

(** A call of amqp091 on a connection or on its channel. *)
Inductive AmqpCall :=
  | AmqpDial (url : string)
  | AmqpChannel
  | ExchangeDeclare (name kind : string) (durable autoDelete internal noWait : bool)
  | QueueDeclare (name : string) (durable autoDelete exclusive noWait : bool)
      (args : list (string * string))
  | QueueBind (name key exchange : string) (noWait : bool)
  | Qos (prefetchCount prefetchSize : Z) (global : bool)
  | Consume (queue consumer : string) (autoAck exclusive noLocal noWait : bool)
  | CloseChannel
  | CloseConnection.

(** The goroutines the two processes start. *)
Inductive Worker :=
  | GoScanner | GoReplyConsumer | GoRelay | GoSweeper | GoHTTPServer
  | GoConsumer | GoGRPCServer.

(** The calls that open, start, stop and close the parts of a process. *)
Inductive ProcCall :=
  | SqlConnect (url : string) | SqlClose
  | MigrateNew (source url : string) | MigrateUp
  | RedisParseURL (url : string) | RedisNewClient | RedisPing | RedisClose
  | GrpcNewClient (addr : string) | GrpcClose
  | WithCancel | Cancel
  | GoStart (w : Worker)
  | GracefulStop
  | WithTimeout (d : Z) | CancelTimeout
  | Shutdown.

(** ** External effects, as an observer outside the processes sees them *)

Inductive Event :=
  | EvHttp (r : HttpRequest) (ok : bool)
  | EvPublish (p : Publishing) (ok : bool)
  | EvMail (m : Mail) (ok : bool)
  | EvGrpc (r : SendConfirmationRequest) (ok : bool)
  | EvRedisSet (key value : string) (ok : bool)
  | EvSleep (ns : Z)
  | EvAck
  | EvNack
  | EvAmqp (c : AmqpCall) (ok : bool)
  | EvProc (c : ProcCall) (ok : bool).

(** A Prometheus counter, by its name and its label values. *)
Abbreviation counter := (string * list string)%type.

Record World (X : Type) := mkWorld {
  w_db : DB;
  w_tx : option (DB * Z);
  w_ext : X;
  w_trace : list Event;
  w_metrics : gmap counter nat }.
Arguments mkWorld {X}.
Arguments w_db {X}. Arguments w_tx {X}. Arguments w_ext {X}.
Arguments w_trace {X}. Arguments w_metrics {X}.

Definition set_db {X : Type} (d : DB) (w : World X) : World X :=
  mkWorld d (w_tx w) (w_ext w) (w_trace w) (w_metrics w).
Definition set_tx {X : Type} (t : option (DB * Z)) (w : World X) : World X :=
  mkWorld (w_db w) t (w_ext w) (w_trace w) (w_metrics w).
Definition set_ext {X : Type} (x : X) (w : World X) : World X :=
  mkWorld (w_db w) (w_tx w) x (w_trace w) (w_metrics w).
Definition emit {X : Type} (ev : Event) (w : World X) : World X :=
  mkWorld (w_db w) (w_tx w) (w_ext w) (w_trace w ++ [ev]) (w_metrics w).
Definition set_metrics {X : Type} (m : gmap counter nat) (w : World X) : World X :=
  mkWorld (w_db w) (w_tx w) (w_ext w) (w_trace w) m.

(** ** The monad *)

Definition GoM (X A : Type) : Type := World X -> result A * World X.

#[export] Instance gom_ret {X : Type} : MRet (GoM X) := fun A a w => (Ok a, w).
#[export] Instance gom_bind {X : Type} : MBind (GoM X) := fun A B k m w =>
  match m w with
  | (Ok a, w') => k a w'
  | (Err e, w') => (Err e, w')
  end.

Definition throw {X A : Type} (e : error) : GoM X A := fun w => (Err e, w).

(** [if err != nil { return fmt.Errorf("msg: %w", err) }]. *)
Definition wrap {X A : Type} (msg : string) (m : GoM X A) : GoM X A := fun w =>
  match m w with
  | (Ok a, w') => (Ok a, w')
  | (Err e, w') => (Err (EWrap msg e), w')
  end.

(** The error as a value, for the code that goes on after it. *)
Definition try {X A : Type} (m : GoM X A) : GoM X (result A) := fun w =>
  (Ok (m w).1, (m w).2).

(** [for _, a := range l { body }] of a body that does not leave the loop. *)
Fixpoint for_each {X A : Type} (body : A -> GoM X unit) (l : list A) : GoM X unit :=
  match l with
  | [] => mret ()
  | a :: l' => body a ;; for_each body l'
  end.

(** [counter.Inc()]. *)
Definition inc {X : Type} (name : string) (labels : list string) : GoM X unit := fun w =>
  (Ok (), set_metrics
     (<[(name, labels) := S (default 0%nat (w_metrics w !! (name, labels)))]>
        (w_metrics w)) w).

(** A write to a histogram or to a gauge: that it was written is kept, as a
    count; the durations and the time written are not. *)
Definition observe {X : Type} (name : string) (labels : list string) : GoM X unit :=
  inc name labels.

Inductive ExtContext := OnDB | OnTx.

Section Effects.
Context {X : Type} `{!Env X}.

(** A call out of the process: its answer, with the event it leaves. *)
Definition ext_call {A} (f : X -> ext_result A * X)
    (ev : option (bool -> Event)) : GoM X A := fun w =>
  let '(r, x) := f (w_ext w) in
  let ok := match r with inr _ => true | inl _ => false end in
  let w1 := set_ext x w in
  let w2 := match ev with Some mk => emit (mk ok) w1 | None => w1 end in
  match r with
  | inr a => (Ok a, w2)
  | inl m => (Err (EPlain m), w2)
  end.

(** A reading that cannot fail: the clock, a fresh UUID, a closed context. *)
Definition ext_read {A} (f : X -> A * X) : GoM X A := fun w =>
  (Ok (f (w_ext w)).1, set_ext (f (w_ext w)).2 w).

Definition uuid_NewString : GoM X string := ext_read env_uuid.
Definition time_Now : GoM X Z := ext_read env_clock.

(** [select { case <-ctx.Done(): ...; case <-time.After(d): ... }]: [true]
    when the context is canceled before the timer fires. *)
Definition select_done_or_after (d : Z) : GoM X bool := fun w =>
  let '(b, x) := env_ctx_done (w_ext w) in
  (Ok b, if b then set_ext x w else emit (EvSleep d) (set_ext x w)).

(** [time.Sleep(d)]. *)
Definition sleep (d : Z) : GoM X unit := fun w => (Ok (), emit (EvSleep d) w).

(** ** PostgreSQL

    One statement: [f now d] is what the server does to the database when
    the statement reaches it; the outcome of the round trip decides what is
    kept and what the client sees. *)
Definition sql (A : Type) : Type := Z -> DB -> result A * DB.

Definition db_stmt {A} (f : sql A) : GoM X A := fun w =>
  let '(o, x1) := env_pg (w_ext w) in
  let '(now, x2) := env_clock x1 in
  let w' := set_ext x2 w in
  match o with
  | PgOk => ((f now (w_db w)).1, set_db (f now (w_db w)).2 w')
  | PgFailBefore m => (Err (EPlain m), w')
  | PgFailAfter m => (Err (EPlain m), set_db (f now (w_db w)).2 w')
  end.

(** The same statement on the open transaction: it works on the
    transaction's view, with the transaction's [NOW()]. *)
Definition tx_stmt {A} (f : sql A) : GoM X A := fun w =>
  match w_tx w with
  | None => (Err (EPlain "sql: transaction has already been committed or rolled back"), w)
  | Some (d, now) =>
      let '(o, x) := env_pg (w_ext w) in
      let w' := set_ext x w in
      match o with
      | PgOk => ((f now d).1, set_tx (Some ((f now d).2, now)) w')
      | PgFailBefore m => (Err (EPlain m), w')
      | PgFailAfter m =>
          (Err (EPlain m), set_tx (Some ((f now d).2, now)) w')
      end
  end.

(** [sqlx.ExtContext]: a statement runs on the [*sqlx.DB] or on the
    [*sqlx.Tx] the caller passes. *)
Definition ext_stmt {A} (e : ExtContext) (f : sql A) : GoM X A :=
  match e with
  | OnDB => db_stmt f
  | OnTx => tx_stmt f
  end.

(** [db.BeginTxx(ctx, nil)]. *)
Definition BeginTxx : GoM X unit := fun w =>
  let '(o, x1) := env_pg (w_ext w) in
  let '(now, x2) := env_clock x1 in
  let w' := set_ext x2 w in
  match o with
  | PgOk => (Ok (), set_tx (Some (w_db w, now)) w')
  | PgFailBefore m | PgFailAfter m => (Err (EPlain m), w')
  end.

(** [tx.Commit()]: the view becomes the database. A commit that fails may
    have been applied. What is not committed keeps its sequence numbers. *)
Definition Commit : GoM X unit := fun w =>
  match w_tx w with
  | None => (Err (EPlain "sql: transaction has already been committed or rolled back"), w)
  | Some (d, _) =>
      let '(o, x) := env_pg (w_ext w) in
      let w' := set_tx None (set_ext x w) in
      match o with
      | PgOk => (Ok (), set_db d w')
      | PgFailBefore m =>
          (Err (EPlain m), set_db (keep_sequences d (w_db w)) w')
      | PgFailAfter m => (Err (EPlain m), set_db d w')
      end
  end.

(** [defer func() { _ = tx.Rollback() }()]: a no-op once the transaction is
    over; otherwise the view is dropped, except for the sequences. *)
Definition Rollback (w : World X) : World X :=
  match w_tx w with
  | None => w
  | Some (d, _) => set_tx None (set_db (keep_sequences d (w_db w)) w)
  end.

Definition defer_rollback {A} (body : GoM X A) : GoM X A := fun w =>
  let '(r, w') := body w in (r, Rollback w').
End Effects.
