(* ===== verification/Logic.v ===== *)
(** * Reasoning about effects

    A weakest-precondition calculus for [GoM] whose rules quantify over every
    answer the environment can give, and the two notions the components'
    theorems are stated with: [keeps] (an operation keeps a property of the
    database whatever fails) and [healthy_db] (no PostgreSQL round trip fails,
    for the theorems that an operation succeeds). *)

From S2P Require Import Prelude GoErrors Tables Env.

Section WP.
Context {X : Type}.
Implicit Types (w : World X).

Definition wp {A} (m : GoM X A) (Q : result A -> World X -> Prop) (w : World X) : Prop :=
  Q (m w).1 (m w).2.

Lemma wp_mono {A} (m : GoM X A) (Q Q' : result A -> World X -> Prop) w :
  wp m Q w -> (forall r w', Q r w' -> Q' r w') -> wp m Q' w.
Proof. unfold wp. auto. Qed.

Lemma wp_elim {A} (m : GoM X A) (Q : result A -> World X -> Prop) w r w' :
  wp m Q w -> m w = (r, w') -> Q r w'.
Proof. unfold wp. intros H E. by rewrite E in H. Qed.

Lemma wp_conj {A} (m : GoM X A) (Q Q' : result A -> World X -> Prop) w :
  wp m Q w -> wp m Q' w -> wp m (fun r w' => Q r w' /\ Q' r w') w.
Proof. unfold wp. auto. Qed.

Lemma wp_impl {A} (P : Prop) (m : GoM X A) (Q : result A -> World X -> Prop) w :
  (P -> wp m Q w) -> wp m (fun r w' => P -> Q r w') w.
Proof. done. Qed.

Lemma wp_ret {A} (a : A) (Q : result A -> World X -> Prop) w :
  Q (Ok a) w -> wp (mret a) Q w.
Proof. done. Qed.

Lemma wp_throw {A} e (Q : result A -> World X -> Prop) w :
  Q (Err e) w -> wp (throw e) Q w.
Proof. done. Qed.

Lemma wp_bind {A B} (m : GoM X A) (k : A -> GoM X B)
    (Q : result B -> World X -> Prop) w :
  wp m (fun r w' => match r with
                    | Ok a => wp (k a) Q w'
                    | Err e => Q (Err e) w'
                    end) w ->
  wp (m ≫= k) Q w.
Proof.
  unfold wp, mbind, gom_bind. by destruct (m w) as [[a|e] w'].
Qed.

Lemma wp_wrap {A} s (m : GoM X A) (Q : result A -> World X -> Prop) w :
  wp m (fun r w' => match r with
                    | Ok a => Q (Ok a) w'
                    | Err e => Q (Err (EWrap s e)) w'
                    end) w ->
  wp (wrap s m) Q w.
Proof. unfold wp, wrap. by destruct (m w) as [[a|e] w']. Qed.

Lemma wp_try {A} (m : GoM X A) (Q : result (result A) -> World X -> Prop) w :
  wp m (fun r w' => Q (Ok r) w') w -> wp (try m) Q w.
Proof. done. Qed.

(** The invariant rule of [for] loops: [I k] holds with [k] still to do. *)
Lemma wp_for_each {A} (body : A -> GoM X unit) (I : list A -> World X -> Prop)
    (Q : result unit -> World X -> Prop) l w :
  I l w ->
  (forall a k w', I (a :: k) w' ->
     wp (body a) (fun r w'' => match r with
                               | Ok _ => I k w''
                               | Err e => Q (Err e) w''
                               end) w') ->
  (forall w', I [] w' -> Q (Ok ()) w') ->
  wp (for_each body l) Q w.
Proof.
  intros HI Hbody Hdone. revert w HI.
  induction l as [|a l IH]; intros w HI; simpl; [by apply Hdone|].
  apply wp_bind. eapply wp_mono; [by apply Hbody|].
  intros [[]|e] w' H; auto.
Qed.

Lemma wp_inc name ls (Q : result unit -> World X -> Prop) w :
  Q (Ok ()) (set_metrics
    (<[(name, ls) := S (default 0 (w_metrics w !! (name, ls)))]> (w_metrics w)) w) ->
  wp (inc name ls) Q w.
Proof. done. Qed.

Context `{!Env X}.

Lemma wp_ext_call {A} (f : X -> ext_result A * X) ev
    (Q : result A -> World X -> Prop) w :
  (forall a x, f (w_ext w) = (inr a, x) ->
     Q (Ok a) (match ev with Some mk => emit (mk true) (set_ext x w)
                           | None => set_ext x w end)) ->
  (forall m x, f (w_ext w) = (inl m, x) ->
     Q (Err (EPlain m)) (match ev with Some mk => emit (mk false) (set_ext x w)
                                     | None => set_ext x w end)) ->
  wp (ext_call f ev) Q w.
Proof.
  unfold wp, ext_call. destruct (f (w_ext w)) as [[m|a] x]; intros H1 H2.
  - by apply H2.
  - by apply H1.
Qed.

Lemma wp_ext_read {A} (f : X -> A * X) (Q : result A -> World X -> Prop) w :
  (forall x, x = (f (w_ext w)).2 -> Q (Ok (f (w_ext w)).1) (set_ext x w)) ->
  wp (ext_read f) Q w.
Proof. unfold wp, ext_read. intros H. by apply H. Qed.

Lemma wp_select d (Q : result bool -> World X -> Prop) w :
  (forall x, Q (Ok true) (set_ext x w)) ->
  (forall x, Q (Ok false) (emit (EvSleep d) (set_ext x w))) ->
  wp (select_done_or_after d) Q w.
Proof.
  unfold wp, select_done_or_after.
  destruct (env_ctx_done (w_ext w)) as [[] x]; simpl; auto.
Qed.

Lemma wp_sleep d (Q : result unit -> World X -> Prop) w :
  Q (Ok ()) (emit (EvSleep d) w) -> wp (sleep d) Q w.
Proof. done. Qed.

Lemma wp_db_stmt {A} (f : sql A) (Q : result A -> World X -> Prop) w :
  (forall x m, Q (Err (EPlain m)) (set_ext x w)) ->
  (forall x now, Q (f now (w_db w)).1 (set_db (f now (w_db w)).2 (set_ext x w))) ->
  (forall x now m, Q (Err (EPlain m)) (set_db (f now (w_db w)).2 (set_ext x w))) ->
  wp (db_stmt f) Q w.
Proof.
  unfold wp, db_stmt. intros. destruct (env_pg (w_ext w)) as [[] x1];
    destruct (env_clock x1) as [now x2]; simpl; auto.
Qed.

(** A statement that only reads. *)
Lemma wp_query {A} (f : DB -> result A) (Q : result A -> World X -> Prop) w :
  (forall x m, Q (Err (EPlain m)) (set_ext x w)) ->
  (forall x, Q (f (w_db w)) (set_ext x w)) ->
  wp (db_stmt (fun _ d => (f d, d))) Q w.
Proof. intros He Hok. apply wp_db_stmt; intros; [apply He|apply Hok|apply He]. Qed.

Lemma wp_tx_stmt {A} (f : sql A) (Q : result A -> World X -> Prop) w d now :
  w_tx w = Some (d, now) ->
  (forall x m, Q (Err (EPlain m)) (set_ext x w)) ->
  (forall x, Q (f now d).1 (set_tx (Some ((f now d).2, now)) (set_ext x w))) ->
  (forall x m, Q (Err (EPlain m)) (set_tx (Some ((f now d).2, now)) (set_ext x w))) ->
  wp (tx_stmt f) Q w.
Proof.
  unfold wp, tx_stmt. intros ->. intros.
  destruct (env_pg (w_ext w)) as [[] x1]; simpl; auto.
Qed.

Lemma wp_BeginTxx (Q : result unit -> World X -> Prop) w :
  (forall x m, Q (Err (EPlain m)) (set_ext x w)) ->
  (forall x now, Q (Ok ()) (set_tx (Some (w_db w, now)) (set_ext x w))) ->
  wp BeginTxx Q w.
Proof.
  unfold wp, BeginTxx. intros. destruct (env_pg (w_ext w)) as [[] x1];
    destruct (env_clock x1) as [now x2]; simpl; auto.
Qed.

Lemma wp_Commit (Q : result unit -> World X -> Prop) w d now :
  w_tx w = Some (d, now) ->
  (forall x, Q (Ok ()) (set_db d (set_tx None (set_ext x w)))) ->
  (forall x m, Q (Err (EPlain m))
     (set_db (keep_sequences d (w_db w)) (set_tx None (set_ext x w)))) ->
  (forall x m, Q (Err (EPlain m)) (set_db d (set_tx None (set_ext x w)))) ->
  wp Commit Q w.
Proof.
  unfold wp, Commit. intros ->. intros.
  destruct (env_pg (w_ext w)) as [[] x1]; simpl; auto.
Qed.

Lemma wp_defer_rollback {A} (body : GoM X A) (Q : result A -> World X -> Prop) w :
  wp body (fun r w' => Q r (Rollback w')) w -> wp (defer_rollback body) Q w.
Proof. unfold wp, defer_rollback. by destruct (body w). Qed.

(** ** No failure of the database *)

Class healthy_db : Prop := { pg_healthy : forall x, (env_pg x).1 = PgOk }.

Lemma wp_db_stmt_ok {A} (f : sql A) (Q : result A -> World X -> Prop) w :
  healthy_db ->
  (forall x now, Q (f now (w_db w)).1 (set_db (f now (w_db w)).2 (set_ext x w))) ->
  wp (db_stmt f) Q w.
Proof.
  intros [Hh] HQ. unfold wp, db_stmt. specialize (Hh (w_ext w)).
  destruct (env_pg (w_ext w)) as [o x1]. simpl in Hh. subst o.
  destruct (env_clock x1) as [now x2]. simpl. auto.
Qed.

Lemma wp_tx_stmt_ok {A} (f : sql A) (Q : result A -> World X -> Prop) w d now :
  healthy_db ->
  w_tx w = Some (d, now) ->
  (forall x, Q (f now d).1 (set_tx (Some ((f now d).2, now)) (set_ext x w))) ->
  wp (tx_stmt f) Q w.
Proof.
  intros [Hh] Htx HQ. unfold wp, tx_stmt. rewrite Htx. specialize (Hh (w_ext w)).
  destruct (env_pg (w_ext w)) as [o x1]. simpl in Hh. subst o. simpl. auto.
Qed.

Lemma wp_BeginTxx_ok (Q : result unit -> World X -> Prop) w :
  healthy_db ->
  (forall x now, Q (Ok ()) (set_tx (Some (w_db w, now)) (set_ext x w))) ->
  wp BeginTxx Q w.
Proof.
  intros [Hh] HQ. unfold wp, BeginTxx. specialize (Hh (w_ext w)).
  destruct (env_pg (w_ext w)) as [o x1]. simpl in Hh. subst o.
  destruct (env_clock x1) as [now x2]. simpl. auto.
Qed.

Lemma wp_Commit_ok (Q : result unit -> World X -> Prop) w d now :
  healthy_db ->
  w_tx w = Some (d, now) ->
  (forall x, Q (Ok ()) (set_db d (set_tx None (set_ext x w)))) ->
  wp Commit Q w.
Proof.
  intros [Hh] Htx HQ. unfold wp, Commit. rewrite Htx. specialize (Hh (w_ext w)).
  destruct (env_pg (w_ext w)) as [o x1]. simpl in Hh. subst o. simpl. auto.
Qed.
End WP.
Arguments healthy_db X {_}.

(** No publish is refused. *)
Class broker_up (X : Type) `{!Env X} : Prop :=
  { broker_accepts : forall p x, exists x', env_publish p x = (inr (), x') }.

(** ** Properties of the database that every operation keeps

    [winv P w]: [P] holds of the database and of the view of the transaction
    that is open, if there is one. [keeps P m]: [m] keeps [winv P] whatever the
    environment answers and whether [m] succeeds or fails. *)

Class seq_stable (P : DB -> Prop) : Prop :=
  { keep_sequences_stable : forall t d, P t -> P d -> P (keep_sequences t d) }.

Definition stmt_keeps {A} (P : DB -> Prop) (f : sql A) : Prop :=
  forall now d, P d -> P (f now d).2.

Section Keeps.
Context {X : Type}.
Variable P : DB -> Prop.

Definition winv (w : World X) : Prop :=
  P (w_db w) /\ forall d now, w_tx w = Some (d, now) -> P d.

Definition keeps {A} (m : GoM X A) : Prop :=
  forall w, winv w -> winv (m w).2.

Lemma keeps_wp {A} (m : GoM X A) :
  (forall w, winv w -> wp m (fun _ w' => winv w') w) -> keeps m.
Proof. done. Qed.

Lemma keeps_ret {A} (a : A) : keeps (mret a).
Proof. by intros w. Qed.
Lemma keeps_throw {A} e : keeps (throw (A := A) e).
Proof. by intros w. Qed.
Lemma keeps_inc n ls : keeps (inc n ls).
Proof. by intros w. Qed.
Lemma keeps_observe n ls : keeps (observe n ls).
Proof. apply keeps_inc. Qed.
Lemma keeps_sleep d : keeps (sleep d).
Proof. by intros w. Qed.

Lemma keeps_bind {A B} (m : GoM X A) (k : A -> GoM X B) :
  keeps m -> (forall a, keeps (k a)) -> keeps (m ≫= k).
Proof.
  intros Hm Hk w Hw. unfold mbind, gom_bind. specialize (Hm w Hw).
  destruct (m w) as [[a|e] w']; [by apply Hk|done].
Qed.

Lemma keeps_wrap {A} s (m : GoM X A) : keeps m -> keeps (wrap s m).
Proof.
  intros Hm w Hw. unfold wrap. specialize (Hm w Hw).
  by destruct (m w) as [[a|e] w'].
Qed.

Lemma keeps_try {A} (m : GoM X A) : keeps m -> keeps (try m).
Proof. intros Hm w Hw. by apply Hm. Qed.

Lemma keeps_if {A} (b : bool) (m1 m2 : GoM X A) :
  keeps m1 -> keeps m2 -> keeps (if b then m1 else m2).
Proof. by destruct b. Qed.

Lemma keeps_option {A B} (o : option A) (m1 : A -> GoM X B) m2 :
  (forall a, keeps (m1 a)) -> keeps m2 ->
  keeps (match o with Some a => m1 a | None => m2 end).
Proof. destruct o; auto. Qed.

Lemma keeps_result {A B} (r : result A) (m1 : A -> GoM X B) m2 :
  (forall a, keeps (m1 a)) -> (forall e, keeps (m2 e)) ->
  keeps (match r with Ok a => m1 a | Err e => m2 e end).
Proof. destruct r; auto. Qed.

Lemma keeps_for_each {A} (body : A -> GoM X unit) l :
  (forall a, keeps (body a)) -> keeps (for_each body l).
Proof.
  intros Hb. induction l as [|a l IH]; simpl; [apply keeps_ret|].
  by apply keeps_bind.
Qed.

Context `{!Env X} `{!seq_stable P}.

Lemma keeps_ext_call {A} (f : X -> ext_result A * X) ev : keeps (ext_call f ev).
Proof.
  intros w Hw. unfold ext_call. destruct (f (w_ext w)) as [[m|a] x];
    by destruct ev.
Qed.
Lemma keeps_ext_read {A} (f : X -> A * X) : keeps (ext_read f).
Proof. by intros w. Qed.
Lemma keeps_uuid : keeps uuid_NewString.
Proof. apply keeps_ext_read. Qed.
Lemma keeps_time : keeps time_Now.
Proof. apply keeps_ext_read. Qed.
Lemma keeps_select d : keeps (select_done_or_after d).
Proof.
  intros w Hw. unfold select_done_or_after.
  by destruct (env_ctx_done (w_ext w)) as [[] x].
Qed.

Lemma keeps_db_stmt {A} (f : sql A) : stmt_keeps P f -> keeps (db_stmt f).
Proof.
  intros Hf. apply keeps_wp. intros w [Hd Ht].
  apply wp_db_stmt; intros; split; simpl; auto.
Qed.

Lemma keeps_tx_stmt {A} (f : sql A) : stmt_keeps P f -> keeps (tx_stmt f).
Proof.
  intros Hf w [Hd Ht]. unfold tx_stmt. destruct (w_tx w) as [[d now]|] eqn:E.
  - specialize (Ht d now eq_refl).
    destruct (env_pg (w_ext w)) as [[] x]; split; simpl; try done;
      intros d' now'; rewrite ?E; intros [= <- <-]; auto.
  - split; [done|]. simpl. intros d now. by rewrite E.
Qed.

Lemma keeps_ext_stmt {A} e (f : sql A) : stmt_keeps P f -> keeps (ext_stmt e f).
Proof. destruct e; [apply keeps_db_stmt|apply keeps_tx_stmt]. Qed.

Lemma keeps_BeginTxx : keeps BeginTxx.
Proof.
  apply keeps_wp. intros w [Hd Ht]. apply wp_BeginTxx; intros; split; simpl; auto.
  by intros d' now' [= <- <-].
Qed.

Lemma keeps_Commit : keeps Commit.
Proof.
  intros w [Hd Ht]. unfold Commit. destruct (w_tx w) as [[d now]|] eqn:E.
  - specialize (Ht d now eq_refl).
    destruct (env_pg (w_ext w)) as [[] x]; split; simpl; try done.
    by apply keep_sequences_stable.
  - split; [done|]. simpl. intros d now. by rewrite E.
Qed.

Lemma keeps_defer_rollback {A} (body : GoM X A) :
  keeps body -> keeps (defer_rollback body).
Proof.
  intros Hb w Hw. unfold defer_rollback. specialize (Hb w Hw).
  destruct (body w) as [r w']. destruct Hb as [Hd Ht]. simpl in *.
  unfold Rollback. destruct (w_tx w') as [[d now]|] eqn:E; [|by split; simpl; [|rewrite E]].
  split; simpl; [|done]. apply keep_sequences_stable; eauto.
Qed.

(** A computation that leaves no transaction open keeps [P] of the database. *)
Lemma keeps_db {A} (m : GoM X A) w :
  keeps m -> w_tx w = None -> P (w_db w) -> P (w_db (m w).2).
Proof. intros Hm Htx HP. apply Hm. split; [done|]. by rewrite Htx. Qed.
End Keeps.
Arguments keeps {X} P {A} m.
Arguments winv {X} P w.

(** The invariant, once more, for the rest of a proof about [m]. *)
Lemma wp_keeps {X A : Type} (P : DB -> Prop) (m : GoM X A) (Q : result A -> World X -> Prop) w :
  keeps P m -> w_tx w = None -> P (w_db w) ->
  wp m (fun r w' => P (w_db w') -> Q r w') w -> wp m Q w.
Proof. intros Hm Htx HP H. apply H. by apply (keeps_db P m w Hm). Qed.

Lemma stmt_keeps_query {A} P (f : Z -> DB -> result A) :
  stmt_keeps P (fun now d => (f now d, d)).
Proof. by intros now d. Qed.

#[export] Hint Resolve keeps_ret keeps_throw keeps_inc keeps_observe keeps_sleep keeps_bind
  keeps_wrap keeps_try keeps_if keeps_option keeps_result keeps_for_each
  keeps_ext_call keeps_ext_read keeps_uuid keeps_time keeps_select keeps_db_stmt keeps_tx_stmt
  keeps_ext_stmt keeps_BeginTxx keeps_Commit keeps_defer_rollback
  stmt_keeps_query : go_db.

(** ** Computations that fail only with errors of the infrastructure *)

Definition infra_result {A} (r : result A) : Prop := forall e, r = Err e -> infra_error e.
Definition stmt_infra {A} (f : sql A) : Prop := forall now d, infra_result (f now d).1.

Section Infra.
Context {X : Type}.

Definition fails_infra {A} (m : GoM X A) : Prop :=
  forall w, wp m (fun r _ => infra_result r) w.

Lemma fails_infra_ret {A} (a : A) : fails_infra (mret a).
Proof. by intros w e. Qed.
Lemma fails_infra_throw {A} e : infra_error e -> fails_infra (throw (A := A) e).
Proof. intros He w e' [= <-]. done. Qed.
Lemma fails_infra_bind {A B} (m : GoM X A) (k : A -> GoM X B) :
  fails_infra m -> (forall a, fails_infra (k a)) -> fails_infra (m ≫= k).
Proof.
  intros Hm Hk w. apply wp_bind. eapply wp_mono; [apply Hm|].
  intros [a|e] w' He; [apply Hk|]. intros e' [= <-]. by apply He.
Qed.
Lemma fails_infra_wrap {A} s (m : GoM X A) : fails_infra m -> fails_infra (wrap s m).
Proof.
  intros Hm w. apply wp_wrap. eapply wp_mono; [apply Hm|].
  intros [a|e] w' He e'; [done|]. intros [= <-]. by apply infra_wrap, He.
Qed.
Lemma fails_infra_try {A} (m : GoM X A) : fails_infra (try m).
Proof. intros w. apply wp_try. by intros e. Qed.
Lemma fails_infra_if {A} (b : bool) (m1 m2 : GoM X A) :
  fails_infra m1 -> fails_infra m2 -> fails_infra (if b then m1 else m2).
Proof. by destruct b. Qed.
Lemma fails_infra_defer_rollback {A} (body : GoM X A) :
  fails_infra body -> fails_infra (defer_rollback body).
Proof. intros Hb w. apply wp_defer_rollback, Hb. Qed.

Context `{!Env X}.
Lemma fails_infra_ext_call {A} (f : X -> ext_result A * X) ev : fails_infra (ext_call f ev).
Proof. intros w. apply wp_ext_call; intros a x _ e; [done|]. by intros [= <-]. Qed.
Lemma fails_infra_ext_read {A} (f : X -> A * X) : fails_infra (ext_read f).
Proof. by intros w e. Qed.
Lemma fails_infra_uuid : fails_infra uuid_NewString.
Proof. apply fails_infra_ext_read. Qed.
Lemma fails_infra_db_stmt {A} (f : sql A) : stmt_infra f -> fails_infra (db_stmt f).
Proof.
  intros Hf w. apply wp_db_stmt; intros x; intros; intros e; [by intros [= <-]| |by intros [= <-]].
  apply Hf.
Qed.
Lemma fails_infra_tx_stmt {A} (f : sql A) : stmt_infra f -> fails_infra (tx_stmt f).
Proof.
  intros Hf w e. unfold tx_stmt. destruct (w_tx w) as [[d now]|]; [|by intros [= <-]].
  destruct (env_pg (w_ext w)) as [[] x]; simpl; [apply Hf|by intros [= <-]..].
Qed.
Lemma fails_infra_ext_stmt {A} ctx (f : sql A) : stmt_infra f -> fails_infra (ext_stmt ctx f).
Proof. destruct ctx; [apply fails_infra_db_stmt|apply fails_infra_tx_stmt]. Qed.
Lemma fails_infra_BeginTxx : fails_infra BeginTxx.
Proof. intros w. apply wp_BeginTxx; intros; intros e; by intros [= <-]. Qed.
Lemma fails_infra_Commit : fails_infra Commit.
Proof.
  intros w e. unfold Commit. destruct (w_tx w) as [[d now]|]; [|by intros [= <-]].
  destruct (env_pg (w_ext w)) as [[] x]; by intros [= <-].
Qed.
End Infra.

#[export] Hint Resolve fails_infra_ret fails_infra_throw fails_infra_bind fails_infra_wrap
  fails_infra_try fails_infra_if fails_infra_defer_rollback fails_infra_ext_call
  fails_infra_ext_read fails_infra_uuid fails_infra_db_stmt fails_infra_tx_stmt
  fails_infra_ext_stmt fails_infra_BeginTxx fails_infra_Commit : go_db.

(** A statement whose errors are plain texts. *)
Ltac solve_stmt_infra :=
  intros ? ? ?; simpl; repeat case_match; simpl; try discriminate; intros [= <-]; apply infra_plain.

(** ** Inside a transaction

    [tx_triple m Psi]: run in an open transaction, [m] touches nothing but the
    transaction's view and the environment, and when it succeeds with [a] the
    view went from [d] to [d'] as [Psi now d a d'] says. *)

Section Transactions.
Context {X : Type}.

Definition same_outside (w w' : World X) : Prop :=
  w_db w' = w_db w /\ w_trace w' = w_trace w /\ w_metrics w' = w_metrics w.

#[export] Instance same_outside_preorder : PreOrder same_outside.
Proof.
  split; [done|]. intros w1 w2 w3 (?&?&?) (?&?&?). repeat split; congruence.
Qed.

Context `{!Env X}.

Definition tx_triple {A} (m : GoM X A) (Psi : Z -> DB -> A -> DB -> Prop) : Prop :=
  forall w d now, w_tx w = Some (d, now) ->
    wp m (fun r w' => same_outside w w' /\
            exists d', w_tx w' = Some (d', now) /\
              forall a, r = Ok a -> Psi now d a d') w.

Lemma tx_triple_mono {A} (m : GoM X A) (Psi Psi' : Z -> DB -> A -> DB -> Prop) :
  tx_triple m Psi -> (forall now d a d', Psi now d a d' -> Psi' now d a d') ->
  tx_triple m Psi'.
Proof.
  intros Hm Himp w d now Htx. eapply wp_mono; [by apply Hm|].
  intros r w' (? & d' & ? & Hr). split; [done|]. exists d'. split; [done|].
  intros a Ha. by apply Himp, Hr.
Qed.

Lemma tx_triple_ret {A} (a : A) :
  tx_triple (mret a) (fun _ d b d' => b = a /\ d' = d).
Proof.
  intros w d now Htx. apply wp_ret. split; [done|]. exists d. split; [done|].
  by intros b [= ->].
Qed.

Lemma tx_triple_throw {A} e (Psi : Z -> DB -> A -> DB -> Prop) :
  tx_triple (throw e) Psi.
Proof.
  intros w d now Htx. apply wp_throw. split; [done|]. by exists d.
Qed.

Lemma tx_triple_stmt {A} (f : sql A) :
  tx_triple (tx_stmt f) (fun now d a d' => f now d = (Ok a, d')).
Proof.
  intros w d now Htx. eapply wp_tx_stmt; [done|..]; intros; (split; [done|]); simpl.
  - by exists d.
  - exists (f now d).2. split; [done|]. intros a Ha. rewrite <- Ha. by destruct (f now d).
  - by exists (f now d).2.
Qed.

Lemma tx_triple_read {A} (f : X -> A * X) :
  tx_triple (ext_read f) (fun _ d _ d' => d' = d).
Proof.
  intros w d now Htx. apply wp_ext_read. intros x _. split; [done|]. by exists d.
Qed.

Lemma tx_triple_wrap {A} s (m : GoM X A) Psi :
  tx_triple m Psi -> tx_triple (wrap s m) Psi.
Proof.
  intros Hm w d now Htx. apply wp_wrap. eapply wp_mono; [by apply Hm|].
  intros [a|e] w' (? & d' & ? & Hr); (split; [done|]); exists d'; auto.
  by split.
Qed.

Lemma tx_triple_bind {A B} (m : GoM X A) (k : A -> GoM X B) Psi (Phi : A -> _) :
  tx_triple m Psi -> (forall a, tx_triple (k a) (Phi a)) ->
  tx_triple (m ≫= k) (fun now d b d2 =>
    exists a d1, Psi now d a d1 /\ Phi a now d1 b d2).
Proof.
  intros Hm Hk w d now Htx. apply wp_bind. eapply wp_mono; [by apply Hm|].
  intros [a|e] w1 (Hout & d1 & Htx1 & Hr).
  - eapply wp_mono; [by apply Hk|]. intros r w2 (Hout2 & d2 & Htx2 & Hr2).
    split; [by etrans|]. exists d2. split; [done|]. intros b Hb.
    exists a, d1. auto.
  - split; [done|]. exists d1. by split.
Qed.

(** A step of a transaction in a longer computation: when it fails, the
    deferred rollback gives back the rows of before. *)
Lemma wp_tx_bind {A B} (m : GoM X A) (k : A -> GoM X B) Psi
    (Q : result B -> World X -> Prop) w d now :
  tx_triple m Psi -> w_tx w = Some (d, now) ->
  (forall e w' d', same_outside w w' -> w_tx w' = Some (d', now) -> Q (Err e) w') ->
  (forall a w' d', same_outside w w' -> w_tx w' = Some (d', now) ->
     Psi now d a d' -> wp (k a) Q w') ->
  wp (m ≫= k) Q w.
Proof.
  intros Hm Htx Herr Hok. apply wp_bind. eapply wp_mono; [by apply Hm|].
  intros [a|e] w' (? & d' & ? & ?); eauto.
Qed.
End Transactions.

#[export] Hint Resolve tx_triple_stmt tx_triple_read tx_triple_wrap tx_triple_throw
  tx_triple_ret : go_db.

(** ** What was handed to the broker *)

Definition publishes (tr : list Event) : list (Publishing * bool) :=
  omap (fun ev => match ev with EvPublish p ok => Some (p, ok) | _ => None end) tr.

Lemma publishes_app a b : publishes (app a b) = app (publishes a) (publishes b).
Proof. apply omap_app. Qed.

(** The database was not touched and nothing was published. *)
Definition quiet {X : Type} (w w' : World X) : Prop :=
  w_db w' = w_db w /\ w_tx w' = w_tx w /\ publishes (w_trace w') = publishes (w_trace w).

#[export] Instance quiet_preorder {X : Type} : PreOrder (@quiet X).
Proof. split; [done|]. intros w1 w2 w3 (?&?&?) (?&?&?). repeat split; congruence. Qed.

(** One rule of the calculus, by the head of the computation. The rules for a
    statement leave the cases of its outcome as subgoals. *)
Ltac wp_step :=
  lazymatch goal with
  | |- wp (mret _) _ _ => apply wp_ret
  | |- wp (throw _) _ _ => apply wp_throw
  | |- wp (mbind _ _) _ _ => apply wp_bind
  | |- wp (wrap _ _) _ _ => apply wp_wrap
  | |- wp (try _) _ _ => apply wp_try
  | |- wp (inc _ _) _ _ => apply wp_inc
  | |- wp (sleep _) _ _ => apply wp_sleep
  | |- wp (select_done_or_after _) _ _ => apply wp_select
  | |- wp (ext_read _) _ _ => apply wp_ext_read
  | |- wp (ext_call _ _) _ _ => apply wp_ext_call
  | |- wp (defer_rollback _) _ _ => apply wp_defer_rollback
  | |- wp BeginTxx _ _ =>
      first [apply wp_BeginTxx_ok; [assumption|] | apply wp_BeginTxx]
  | |- wp Commit _ _ =>
      first [eapply wp_Commit_ok; [assumption|reflexivity|]
            | eapply wp_Commit; [reflexivity|..]]
  | |- wp (tx_stmt _) _ _ =>
      first [eapply wp_tx_stmt_ok; [assumption|reflexivity|]
            | eapply wp_tx_stmt; [reflexivity|..]]
  | |- wp (db_stmt _) _ _ =>
      first [apply wp_db_stmt_ok; [assumption|] | apply wp_db_stmt]
  end; simpl.

(** From a property of a run [m w = (r, w')] to the calculus. *)
Ltac wp_run H :=
  lazymatch type of H with
  | ?m ?w = (?r, ?w') => pattern r, w'; refine (wp_elim m _ w r w' _ H); clear H
  end.
