(* ===== verification/Script.v ===== *)
(** * A concrete environment

    The parameters of [Env] instantiated by a finite script, on which the
    witnesses and the worked traces of the development evaluate. [script_env]
    plays the scripted answers of every service; [calm_env] is the same with a
    PostgreSQL and a broker that always answer. A list of answers that is used
    up answers with success. *)

From stdpp Require Import pretty.
From S2P Require Import Prelude GoErrors Tables Env Logic.

Local Open Scope string_scope.
Local Open Scope Z_scope.

Record Script := mkScript {
  sc_pg : list pg_outcome;
  sc_clock : Z;
  sc_uuid : nat;
  sc_canceled : list bool;
  sc_redis : gmap string string;
  sc_redis_up : list bool;
  sc_http : list (ext_result HttpResponse);
  sc_publish : list (ext_result unit);
  sc_smtp : list (ext_result unit);
  sc_grpc : list (ext_result unit) }.

Definition calm : Script := mkScript [] 0 0 [] ∅ [] [] [] [] [].

Definition pop {A} (dflt : A) (l : list A) : A * list A :=
  match l with [] => (dflt, []) | a :: l' => (a, l') end.

(** Twelve digits after the fixed part: the texts [uuid] gives. *)
Fixpoint zeros (n : nat) : string :=
  match n with O => "" | S k => String "0" (zeros k) end.
Definition script_uuid (n : nat) : string :=
  let d := pretty n in
  "00000000-0000-4000-8000-" +:+ zeros (12 - String.length d) +:+ d.

Definition script_server : PgServer := {|
  pg_fits n s := (String.length s <=? n)%nat;
  pg_uuid s := if (String.length s =? 36)%nat && ascii_text s then Some s else None;
  pg_jsonb s := Some s;
  pg_scan A l := l |}.

#[export] Instance script_server_laws : PgServerLaws script_server.
Proof.
  split; simpl; [done|done|]. intros s u. destruct (_ && _) eqn:E; [|done].
  intros [= <-]. by rewrite E.
Qed.

(** A Redis call: it fails when the next flag says so. *)
Definition redis {A} (f : gmap string string -> A * gmap string string) (x : Script)
    : ext_result A * Script :=
  let '(up, l) := pop true (sc_redis_up x) in
  let '(a, m) := f (sc_redis x) in
  if (up : bool)
  then (inr a, mkScript (sc_pg x) (sc_clock x) (sc_uuid x) (sc_canceled x) m l
                 (sc_http x) (sc_publish x) (sc_smtp x) (sc_grpc x))
  else (inl "redis: connection refused",
        mkScript (sc_pg x) (sc_clock x) (sc_uuid x) (sc_canceled x) (sc_redis x) l
          (sc_http x) (sc_publish x) (sc_smtp x) (sc_grpc x)).

Definition script_env (faults : bool) : Env Script := {|
  env_pg x :=
    if faults then
      let '(o, l) := pop PgOk (sc_pg x) in
      (o, mkScript l (sc_clock x) (sc_uuid x) (sc_canceled x) (sc_redis x)
            (sc_redis_up x) (sc_http x) (sc_publish x) (sc_smtp x) (sc_grpc x))
    else (PgOk, x);
  env_clock x :=
    (sc_clock x, mkScript (sc_pg x) (sc_clock x + 1) (sc_uuid x) (sc_canceled x)
       (sc_redis x) (sc_redis_up x) (sc_http x) (sc_publish x) (sc_smtp x) (sc_grpc x));
  env_uuid x :=
    (script_uuid (sc_uuid x), mkScript (sc_pg x) (sc_clock x) (S (sc_uuid x))
       (sc_canceled x) (sc_redis x) (sc_redis_up x) (sc_http x) (sc_publish x)
       (sc_smtp x) (sc_grpc x));
  env_ctx_done x :=
    let '(b, l) := pop false (sc_canceled x) in
    (b, mkScript (sc_pg x) (sc_clock x) (sc_uuid x) l (sc_redis x) (sc_redis_up x)
          (sc_http x) (sc_publish x) (sc_smtp x) (sc_grpc x));
  env_redis_get k x := redis (fun m => (m !! k, m)) x;
  env_redis_set k v _ x := redis (fun m => ((), <[k := v]> m)) x;
  env_redis_exists k x :=
    redis (fun m => (match m !! k with Some _ => 1 | None => 0 end, m)) x;
  env_http _ x :=
    let '(r, l) := pop (inr (mkHttpResponse 200 "{}")) (sc_http x) in
    (r, mkScript (sc_pg x) (sc_clock x) (sc_uuid x) (sc_canceled x) (sc_redis x)
          (sc_redis_up x) l (sc_publish x) (sc_smtp x) (sc_grpc x));
  env_publish _ x :=
    if faults then
      let '(r, l) := pop (inr ()) (sc_publish x) in
      (r, mkScript (sc_pg x) (sc_clock x) (sc_uuid x) (sc_canceled x) (sc_redis x)
            (sc_redis_up x) (sc_http x) l (sc_smtp x) (sc_grpc x))
    else (inr (), x);
  env_smtp _ x :=
    let '(r, l) := pop (inr ()) (sc_smtp x) in
    (r, mkScript (sc_pg x) (sc_clock x) (sc_uuid x) (sc_canceled x) (sc_redis x)
          (sc_redis_up x) (sc_http x) (sc_publish x) l (sc_grpc x));
  env_grpc _ x :=
    let '(r, l) := pop (inr ()) (sc_grpc x) in
    (r, mkScript (sc_pg x) (sc_clock x) (sc_uuid x) (sc_canceled x) (sc_redis x)
          (sc_redis_up x) (sc_http x) (sc_publish x) (sc_smtp x) l);
  env_server := script_server |}.

Definition calm_env : Env Script := script_env false.
Definition faulty_env : Env Script := script_env true.

Lemma calm_healthy : @healthy_db Script calm_env.
Proof. by split. Qed.

Lemma calm_broker : @broker_up Script calm_env.
Proof. split. intros p x. by exists x. Qed.

(** The world in which the database is [d] and the services play [x]. *)
Definition play (d : DB) (x : Script) : World Script := mkWorld d None x [] ∅.
