(* ===== verification/SubStore.v ===== *)
(** * internal/subscription/store.go: the subscriptions table

    One definition per method of [subscription.Store], each the SQL statement of
    the source as a function on the table, run on the database or on the
    caller's transaction. *)

From stdpp Require Import pretty.
From S2P Require Import Prelude GoErrors Tables Env Logic.

Local Open Scope string_scope.
Local Open Scope Z_scope.

Definition by_token (token : string) (s : Subscription) : bool :=
  String.eqb (sub_Token s) token.
Definition by_email_repo (email repo : string) (s : Subscription) : bool :=
  String.eqb (sub_Email s) email && String.eqb (sub_Repo s) repo.
Definition by_id (id : Z) (s : Subscription) : bool := sub_ID s =? id.
Definition has_status (st : string) (s : Subscription) : bool :=
  String.eqb (sub_Status s) st.

(** The assignments of the [SET] clauses. *)
Definition set_confirmed (s : Subscription) : Subscription :=
  mkSubscription (sub_ID s) (sub_Email s) (sub_Repo s) (sub_Token s) true
    StatusConfirmed (sub_CreatedAt s).
Definition set_failed (s : Subscription) : Subscription :=
  mkSubscription (sub_ID s) (sub_Email s) (sub_Repo s) (sub_Token s)
    (sub_Confirmed s) StatusFailed (sub_CreatedAt s).
Definition set_reactivated (token : string) (s : Subscription) : Subscription :=
  mkSubscription (sub_ID s) (sub_Email s) (sub_Repo s) token false
    StatusPending (sub_CreatedAt s).

Definition created_before (a b : Subscription) : Prop :=
  sub_CreatedAt a <= sub_CreatedAt b.
#[export] Instance created_before_dec : RelDecision created_before.
Proof. unfold RelDecision, created_before. intros. apply _. Defined.

(** [UPDATE subscriptions SET token = .., confirmed = false, status = 'pending'
    WHERE id = .. AND status = 'failed']: the width of the new token and its
    uniqueness are checked on the row that is updated. *)
Definition reactivate_stmt `{!PgServer} (id : Z) (token : string) : sql nat := fun _ d =>
  let hit s := by_id id s && has_status StatusFailed s in
  if (count_where hit (subscriptions d) =? 0)%nat then (Ok 0%nat, d)
  else if negb (varchar token) then (Err too_long, d)
  else if existsb (fun s => by_token token s && negb (hit s)) (subscriptions d)
  then (Err unique_violation, d)
  else (Ok (count_where hit (subscriptions d)),
        set_subscriptions
          (update_where hit (set_reactivated token) (subscriptions d)) d).

Section Store.
Context {X : Type} `{!Env X}.
Local Abbreviation M := (GoM X).

Definition CreateSubscription (sub : Subscription) : M unit :=
  db_stmt (fun now d =>
    match insert_subscription now (sub_Email sub) (sub_Repo sub) (sub_Token sub)
            (sub_Confirmed sub) d with
    | (Ok _, d') => (Ok (), d')
    | (Err e, d') => (Err e, d')
    end).

Definition CreateInTx (ext : ExtContext) (email repo token : string) : M Z :=
  ext_stmt ext (fun now d => insert_subscription now email repo token false d).

(** [db.Get] takes the first row; [sql.ErrNoRows] becomes a nil pointer. *)
Definition GetSubscriptionByToken (token : string) : M (option Subscription) :=
  db_stmt (fun _ d =>
    (Ok (head (pg_scan (select_where (by_token token) (subscriptions d)))), d)).

Definition GetSubscriptionByEmailAndRepo (email repo : string)
    : M (option Subscription) :=
  db_stmt (fun _ d =>
    (Ok (head (pg_scan (select_where (by_email_repo email repo)
                          (subscriptions d)))), d)).

Definition ConfirmSubscription (token : string) : M unit :=
  db_stmt (fun _ d =>
    (Ok (), set_subscriptions
      (update_where (by_token token) set_confirmed (subscriptions d)) d)).

(** The statement gives the number of rows it updated; none is an error. *)
Definition MarkFailed (id : Z) : M unit :=
  let msg := "mark subscription " +:+ pretty id +:+ " failed" in
  n ← wrap msg (db_stmt (fun _ d =>
        (Ok (count_where (by_id id) (subscriptions d)),
         set_subscriptions
           (update_where (by_id id) set_failed (subscriptions d)) d)));
  if (n =? 0)%nat then throw (EPlain (msg +:+ ": no rows updated")) else mret ().

Definition ReactivateInTx (ext : ExtContext) (id : Z) (token : string) : M unit :=
  let msg := "reactivate subscription " +:+ pretty id in
  n ← wrap msg (ext_stmt ext (reactivate_stmt id token));
  if (n =? 0)%nat
  then throw (EPlain (msg +:+ ": not in failed state (already reactivated?)"))
  else mret ().

Definition DeleteSubscription (token : string) : M unit :=
  db_stmt (fun _ d =>
    (Ok (), set_subscriptions
      (delete_where (by_token token) (subscriptions d)) d)).

Definition GetSubscriptionsByEmail (email : string) : M (list Subscription) :=
  db_stmt (fun _ d =>
    (Ok (merge_sort created_before
           (pg_scan (select_where (fun s => String.eqb (sub_Email s) email)
                       (subscriptions d)))), d)).

Definition GetActiveRepos : M (list string) :=
  db_stmt (fun _ d =>
    (Ok (pg_scan (remove_dups
           (sub_Repo <$> select_where sub_Confirmed (subscriptions d)))), d)).

Definition GetSubscribersByRepo (repo : string) : M (list Subscription) :=
  db_stmt (fun _ d =>
    (Ok (pg_scan (select_where
           (fun s => String.eqb (sub_Repo s) repo && sub_Confirmed s)
           (subscriptions d))), d)).
End Store.
