(* ===== verification/SagaStore.v ===== *)
(** * internal/orchestrator/store.go: the saga table *)

From S2P Require Import Prelude GoErrors Tables Env Logic.

Local Open Scope string_scope.
Local Open Scope Z_scope.

Definition by_saga_id (id : string) (sg : Saga) : bool := String.eqb (saga_ID sg) id.

(** [SET state = .., last_error = .., updated_at = NOW()]. *)
Definition set_state (st : SagaState) (le : option string) (now : Z) (sg : Saga) : Saga :=
  mkSaga (saga_ID sg) (saga_SubscriptionID sg) (saga_Email sg) (saga_Repo sg) st
    (saga_Attempts sg) le (saga_CreatedAt sg) now.

(** [state IN ('subscription_created', 'compensating')]. *)
Definition resumable (st : SagaState) : bool :=
  match st with
  | StateSubscriptionCreated | StateCompensating => true
  | StateCompleted | StateFailed => false
  end.

Definition updated_before (a b : Saga) : Prop := saga_UpdatedAt a <= saga_UpdatedAt b.
#[export] Instance updated_before_dec : RelDecision updated_before.
Proof. unfold RelDecision, updated_before. intros. apply _. Defined.

(** The [LIMIT] of [FindResumable]. *)
Definition resume_limit : nat := 100.

(** What [ORDER BY updated_at LIMIT] returns of the sagas left behind. *)
Definition resumable_rows `{!PgServer} (before : Z) (d : DB) : list Saga :=
  take resume_limit (merge_sort updated_before
    (pg_scan (select_where
       (fun sg => resumable (saga_State sg) && (saga_UpdatedAt sg <? before)) (saga d)))).

(** The update gives the number of rows it matched. *)
Definition update_state_stmt `{!PgServer} (id : string) (st : SagaState) (le : option string)
    : sql nat := fun now d =>
  match pg_uuid id with
  | None => (Err invalid_uuid, d)
  | Some u => (Ok (count_where (by_saga_id u) (saga d)),
               set_saga (update_where (by_saga_id u) (set_state st le now) (saga d)) d)
  end.

Section Store.
Context {X : Type} `{!Env X}.
Local Abbreviation M := (GoM X).

Definition CreateInTx (ext : ExtContext) (sg : Saga) : M unit :=
  wrap "insert saga" (ext_stmt ext (fun now d => insert_saga now sg d)).

(** A text that is not a UUID cannot be compared with the key column. *)
Definition GetByID (id : string) : M (option Saga) :=
  wrap ("get saga " +:+ id) (db_stmt (fun _ d =>
    match pg_uuid id with
    | None => (Err invalid_uuid, d)
    | Some u => (Ok (head (pg_scan (select_where (by_saga_id u) (saga d)))), d)
    end)).

Definition UpdateState (id : string) (st : SagaState) (lastErr : string) : M unit :=
  let le := if is_empty lastErr then None else Some lastErr in
  let msg := "update saga " +:+ id +:+ " state" in
  n ← wrap msg (db_stmt (update_state_stmt id st le));
  if (n =? 0)%nat
  then throw (EPlain (msg +:+ ": no rows updated (saga not found)"))
  else mret ().

Definition FindResumable (before : Z) : M (list Saga) :=
  wrap "find resumable sagas"
    (db_stmt (fun _ d => (Ok (resumable_rows before d), d))).
End Store.
