(* ===== verification/OutboxStore.v ===== *)
(** * internal/outbox/store.go: the outbox table *)

From stdpp Require Import pretty.
From S2P Require Import Prelude GoErrors Tables Env Logic.

Local Open Scope string_scope.
Local Open Scope Z_scope.

Definition by_outbox_id (id : Z) (m : OutboxMessage) : bool := ob_ID m =? id.
Definition of_saga (u : string) (m : OutboxMessage) : bool :=
  match ob_SagaID m with
  | Some s => String.eqb s u
  | None => false
  end.
(** [published_at IS NULL]. *)
Definition unpublished (m : OutboxMessage) : bool :=
  match ob_PublishedAt m with
  | None => true
  | Some _ => false
  end.

Definition set_published (t : option Z) (m : OutboxMessage) : OutboxMessage :=
  mkOutboxMessage (ob_ID m) (ob_SagaID m) (ob_RoutingKey m) (ob_MessageID m)
    (ob_Payload m) (ob_CreatedAt m) t.

Definition id_before (a b : OutboxMessage) : Prop := ob_ID a <= ob_ID b.
#[export] Instance id_before_dec : RelDecision id_before.
Proof. unfold RelDecision, id_before. intros. apply _. Defined.

(** What [ORDER BY id LIMIT limit] returns of the unpublished rows. *)
Definition unpublished_rows `{!PgServer} (limit : nat) (d : DB) : list OutboxMessage :=
  take limit (merge_sort id_before (pg_scan (select_where unpublished (outbox d)))).

Section Store.
Context {X : Type} `{!Env X}.
Local Abbreviation M := (GoM X).

Definition Enqueue (ext : ExtContext) (sagaID routingKey messageID payload : string)
    : M unit :=
  let sid := if is_empty sagaID then None else Some sagaID in
  wrap "enqueue outbox message"
    (ext_stmt ext (fun now d => insert_outbox now sid routingKey messageID payload d)).

Definition FetchUnpublished (limit : nat) : M (list OutboxMessage) :=
  wrap "fetch unpublished outbox messages"
    (db_stmt (fun _ d => (Ok (unpublished_rows limit d), d))).

Definition MarkPublished (id : Z) : M unit :=
  wrap ("mark outbox message " +:+ pretty id +:+ " published")
    (db_stmt (fun now d =>
      (Ok (), set_outbox
        (update_where (by_outbox_id id) (set_published (Some now)) (outbox d)) d))).

Definition Requeue (sagaID : string) : M unit :=
  wrap ("requeue outbox for saga " +:+ sagaID) (db_stmt (fun _ d =>
    match pg_uuid sagaID with
    | None => (Err invalid_uuid, d)
    | Some u => (Ok (), set_outbox
        (update_where (of_saga u) (set_published None) (outbox d)) d)
    end)).
End Store.
