(* ===== verification/TrackStore.v ===== *)
(** * internal/releasetracking/store.go: the repositories table *)

From S2P Require Import Prelude GoErrors Tables Env Logic.

Local Open Scope string_scope.
Local Open Scope Z_scope.

Definition by_repo (repo : string) (r : Repository) : bool :=
  String.eqb (repo_Repo r) repo.

Definition set_checked (now : Z) (r : Repository) : Repository :=
  mkRepository (repo_ID r) (repo_Repo r) (repo_LastSeenTag r) (Some now)
    (repo_LastReleaseAt r).
Definition set_release (tag : string) (now : Z) (r : Repository) : Repository :=
  mkRepository (repo_ID r) (repo_Repo r) tag (Some now) (Some now).

Section Store.
Context {X : Type} `{!Env X}.
Local Abbreviation M := (GoM X).

Definition GetRepoTracking (repo : string) : M (option Repository) :=
  db_stmt (fun _ d =>
    (Ok (head (pg_scan (select_where (by_repo repo) (repositories d)))), d)).

(** [ON CONFLICT (repo) DO NOTHING]; the default [last_seen_tag] is empty. *)
Definition RegisterRepo (repo : string) : M unit :=
  db_stmt (fun _ d =>
    upsert_repository repo (fun id => mkRepository id repo "" None None)
      (fun r => r) true d).

Definition TouchLastChecked (repo : string) : M unit :=
  db_stmt (fun now d =>
    upsert_repository repo (fun id => mkRepository id repo "" (Some now) None)
      (set_checked now) true d).

Definition RecordRelease (repo tag : string) : M unit :=
  db_stmt (fun now d =>
    upsert_repository repo
      (fun id => mkRepository id repo tag (Some now) (Some now))
      (set_release tag now) (varchar tag) d).
End Store.
