(* ===== verification/Schema.v ===== *)
(** * The invariant of the database and the statements that keep it

    [db_ok]: the keys of the schema are unique, every identifier was given by
    its sequence, the outbox is in the order of its identifiers, and the status
    of a subscription agrees with its [confirmed] flag. Every statement of the
    stores keeps it, so every operation built from them does ([keeps]). *)

From S2P Require Import Prelude GoErrors Tables Env Logic.
From S2P Require Import SubStore SagaStore OutboxStore TrackStore.

Local Open Scope string_scope.
Local Open Scope Z_scope.

(** ** Well-formed tables *)

Definition sub_key (s : Subscription) : string * string := (sub_Email s, sub_Repo s).

(** A pending subscription is not confirmed and a confirmed one is; a failed
    one may have been confirmed before its saga failed. *)
Inductive status_ok (s : Subscription) : Prop :=
  | status_pending : sub_Status s = StatusPending -> sub_Confirmed s = false -> status_ok s
  | status_confirmed : sub_Status s = StatusConfirmed -> sub_Confirmed s = true -> status_ok s
  | status_failed : sub_Status s = StatusFailed -> status_ok s.

Record subscriptions_ok (l : list Subscription) (seq : Z) : Prop := {
  sub_ids_unique : NoDup (sub_ID <$> l);
  sub_tokens_unique : NoDup (sub_Token <$> l);
  sub_keys_unique : NoDup (sub_key <$> l);
  sub_rows_ok : forall s, s ∈ l -> 1 <= sub_ID s <= seq /\ status_ok s }.

Record outbox_ok (l : list OutboxMessage) (seq : Z) : Prop := {
  ob_ids_sorted : StronglySorted Z.lt (ob_ID <$> l);
  ob_message_ids_unique : NoDup (ob_MessageID <$> l);
  ob_rows_ok : forall m, m ∈ l -> 1 <= ob_ID m <= seq }.

Record repositories_ok (l : list Repository) (seq : Z) : Prop := {
  repo_names_unique : NoDup (repo_Repo <$> l);
  repo_rows_ok : forall r, r ∈ l -> 1 <= repo_ID r <= seq }.

Record db_ok `{!PgServer} (d : DB) : Prop := {
  db_subscriptions_ok : subscriptions_ok (subscriptions d) (subscriptions_id_seq d);
  db_outbox_ok : outbox_ok (outbox d) (outbox_id_seq d);
  db_repositories_ok : repositories_ok (repositories d) (repositories_id_seq d);
  db_saga_ids_unique : NoDup (saga_ID <$> saga d);
  db_saga_ids_canonical : forall sg, sg ∈ saga d -> pg_uuid (saga_ID sg) = Some (saga_ID sg);
  db_sequences_pos : 0 <= subscriptions_id_seq d /\ 0 <= outbox_id_seq d /\
                     0 <= repositories_id_seq d }.

Lemma empty_db_ok `{!PgServer} : db_ok empty_db.
Proof.
  split; simpl; [split|split|split|..]; simpl;
    try apply NoDup_nil_2; try constructor; try set_solver; lia.
Qed.

(** ** Sequences only grow *)

Lemma subscriptions_ok_seq l n m :
  subscriptions_ok l n -> n <= m -> subscriptions_ok l m.
Proof.
  intros [] ?. split; try done. intros s Hs.
  destruct (sub_rows_ok0 s Hs). split; [lia|done].
Qed.
Lemma outbox_ok_seq l n m : outbox_ok l n -> n <= m -> outbox_ok l m.
Proof. intros [] ?. split; try done. intros s Hs. specialize (ob_rows_ok0 s Hs). lia. Qed.
Lemma repositories_ok_seq l n m :
  repositories_ok l n -> n <= m -> repositories_ok l m.
Proof. intros [] ?. split; try done. intros s Hs. specialize (repo_rows_ok0 s Hs). lia. Qed.

#[export] Instance db_ok_stable `{!PgServer} : seq_stable db_ok.
Proof.
  split. intros t d [_ _ _ _ _ Ht] []. split; simpl; try done; try lia.
  - eapply subscriptions_ok_seq; [done|lia].
  - eapply outbox_ok_seq; [done|lia].
  - eapply repositories_ok_seq; [done|lia].
Qed.

#[export] Hint Resolve db_ok_stable : go_db.

(** ** Changing the rows of one table *)

Section Changes.
Context `{!PgServer}.

Lemma db_ok_set_subscriptions l d :
  db_ok d -> subscriptions_ok l (subscriptions_id_seq d) -> db_ok (set_subscriptions l d).
Proof. intros [] ?. by split. Qed.
Lemma db_ok_set_outbox l d :
  db_ok d -> outbox_ok l (outbox_id_seq d) -> db_ok (set_outbox l d).
Proof. intros [] ?. by split. Qed.
Lemma db_ok_set_repositories l d :
  db_ok d -> repositories_ok l (repositories_id_seq d) -> db_ok (set_repositories l d).
Proof. intros [] ?. by split. Qed.
Lemma db_ok_set_saga l d :
  db_ok d -> NoDup (saga_ID <$> l) ->
  (forall sg, sg ∈ l -> pg_uuid (saga_ID sg) = Some (saga_ID sg)) ->
  db_ok (set_saga l d).
Proof. intros [] ? ?. by split. Qed.
End Changes.

(** Updating the rows that match [P] to rows with the new key [k], when at most
    one row matches and no other row has the key. *)
Lemma NoDup_fmap_update_one {A B C} (g : A -> B) (h : A -> C) (P : A -> bool)
    (f : A -> A) (k : B) (l : list A) :
  NoDup (g <$> l) -> NoDup (h <$> l) ->
  (forall a b, P a = true -> P b = true -> h a = h b) ->
  (forall a, P a = true -> g (f a) = k) ->
  (forall a, a ∈ l -> P a = false -> g a <> k) ->
  NoDup (g <$> update_where P f l).
Proof.
  intros Hg Hh Hone Hk Hother. induction l as [|a l IH]; simpl; [done|].
  simpl in Hg, Hh. apply NoDup_cons in Hg as [Hga Hg], Hh as [Hha Hh].
  assert (NoDup (g <$> update_where P f l)) as HIH.
  { apply IH; try done. intros b Hb. apply Hother. set_solver. }
  apply NoDup_cons. split; [|done]. intros Hin.
  apply list_elem_of_fmap in Hin as (b & Hb & Hin).
  apply elem_of_update_where in Hin as (c & Hc & ->).
  destruct (P a) eqn:Ha, (P c) eqn:Hc'.
  - apply Hha. rewrite (Hone a c); auto using list_elem_of_fmap_2.
  - rewrite Hk in Hb by done. eapply (Hother c); [set_solver|done|by rewrite <- Hb].
  - rewrite Hk in Hb by done. eapply (Hother a); [set_solver|done|done].
  - apply Hga. rewrite Hb. by apply list_elem_of_fmap_2.
Qed.

(** An update of subscriptions that leaves the keys alone. *)
Lemma subscriptions_ok_update P f l seq :
  (forall s, sub_ID (f s) = sub_ID s) -> (forall s, sub_Token (f s) = sub_Token s) ->
  (forall s, sub_key (f s) = sub_key s) -> (forall s, status_ok (f s)) ->
  subscriptions_ok l seq -> subscriptions_ok (update_where P f l) seq.
Proof.
  intros Hid Htok Hkey Hst []. split.
  - by rewrite fmap_update_where.
  - by rewrite fmap_update_where.
  - by rewrite fmap_update_where.
  - intros s (a & Ha & ->)%elem_of_update_where.
    destruct (sub_rows_ok0 a Ha) as [? ?]. destruct (P a); [by rewrite Hid|done].
Qed.

Lemma subscriptions_ok_sublist k l seq :
  k `sublist_of` l -> subscriptions_ok l seq -> subscriptions_ok k seq.
Proof.
  intros Hs []. split; try by eapply NoDup_fmap_sublist.
  intros s Hin. apply sub_rows_ok0. by eapply elem_of_sublist.
Qed.

(** ** The statements *)

Section Statements.
Context `{!PgServer}.

Lemma insert_subscription_keeps email repo token :
  stmt_keeps db_ok (fun now d => insert_subscription now email repo token false d).
Proof.
  intros now d Hok. unfold insert_subscription.
  case_match; [done|].
  assert (db_ok (mkDB (subscriptions d) (subscriptions_id_seq d + 1)
    (repositories d) (repositories_id_seq d) (outbox d) (outbox_id_seq d) (saga d)))
    as Hok1.
  { destruct Hok as [Hs ? ? ? ? ?]. split; simpl; try done; [|lia].
    eapply subscriptions_ok_seq; [done|lia]. }
  case_match; [done|]. case_match eqn:Hdup; [done|].
  apply db_ok_set_subscriptions; [done|]. simpl.
  destruct Hok as [[Hid Htok Hkey Hrows] _ _ _ _ Hseq].
  assert (forall s, s ∈ subscriptions d ->
    sub_Token s <> token /\ sub_key s <> (email, repo)) as Hfresh.
  { intros s Hs. unfold sub_key.
    destruct (String.eqb_spec (sub_Token s) token) as [Heq|Hne].
    { exfalso. apply not_true_iff_false in Hdup. apply Hdup.
      apply existsb_exists. exists s. apply list_elem_of_In in Hs.
      by rewrite Heq, String.eqb_refl. }
    split; [done|]. intros [= He Hr].
    apply not_true_iff_false in Hdup. apply Hdup. apply existsb_exists.
    exists s. apply list_elem_of_In in Hs. rewrite He, Hr, !String.eqb_refl.
    by rewrite orb_true_r. }
  split.
  - apply NoDup_fmap_snoc; [done|]. simpl.
    intros (s & ? & Hs)%list_elem_of_fmap. destruct (Hrows s Hs). lia.
  - apply NoDup_fmap_snoc; [done|]. simpl.
    intros (s & ? & Hs)%list_elem_of_fmap. by destruct (Hfresh s Hs).
  - apply NoDup_fmap_snoc; [done|].
    intros (s & ? & Hs)%list_elem_of_fmap. by destruct (Hfresh s Hs).
  - intros s [Hs| ->%list_elem_of_singleton]%elem_of_app; simpl.
    + destruct (Hrows s Hs). split; [lia|done].
    + split; [lia|]. by apply status_pending.
Qed.

Lemma insert_saga_keeps `{!PgServerLaws _} sg :
  stmt_keeps db_ok (fun now d => insert_saga now sg d).
Proof.
  intros now d Hok. unfold insert_saga.
  case_match; [|done]. case_match; [done|]. case_match eqn:Hdup; [done|].
  apply db_ok_set_saga; [done| |].
  2: { intros sg' [Hin| ->%list_elem_of_singleton]%elem_of_app; [by apply Hok|].
       simpl. by eapply pg_uuid_canonical. }
  apply NoDup_fmap_snoc; [apply Hok|]. simpl.
  intros (s' & -> & Hs)%list_elem_of_fmap.
  apply not_true_iff_false in Hdup. apply Hdup, existsb_exists.
  exists s'. apply list_elem_of_In in Hs. by rewrite String.eqb_refl.
Qed.

Lemma insert_outbox_keeps sid key mid payload :
  stmt_keeps db_ok (fun now d => insert_outbox now sid key mid payload d).
Proof.
  intros now d Hok. unfold insert_outbox. case_match; [done|].
  assert (db_ok (mkDB (subscriptions d) (subscriptions_id_seq d)
    (repositories d) (repositories_id_seq d) (outbox d) (outbox_id_seq d + 1) (saga d)))
    as Hok1.
  { destruct Hok as [? Hs ? ? ? ?]. split; simpl; try done; [|lia].
    eapply outbox_ok_seq; [done|lia]. }
  repeat (case_match; try done).
  all: apply db_ok_set_outbox; [done|]; simpl;
    destruct Hok as [_ [Hsort Hmid Hrows] _ _ _ Hseq].
  all: match goal with H : existsb _ _ = false |- _ => rename H into Hdup end.
  all: split;
    [|apply NoDup_fmap_snoc; [done|]; simpl; intros (m & Hm & Hin)%list_elem_of_fmap;
      apply not_true_iff_false in Hdup; apply Hdup, existsb_exists; exists m;
      apply list_elem_of_In in Hin; by rewrite Hm, String.eqb_refl
     |intros m [Hm| ->%list_elem_of_singleton]%elem_of_app; simpl;
      [specialize (Hrows m Hm); lia|lia]].
  all: rewrite fmap_app; simpl; apply StronglySorted_app_2;
    [intros x y (m & -> & Hm)%list_elem_of_fmap ->%list_elem_of_singleton;
      specialize (Hrows m Hm); lia|done|by repeat constructor].
Qed.

Lemma upsert_repository_keeps repo fresh upd b :
  (forall id, repo_ID (fresh id) = id /\ repo_Repo (fresh id) = repo) ->
  (forall r, repo_ID (upd r) = repo_ID r /\ repo_Repo (upd r) = repo_Repo r) ->
  forall d, db_ok d -> db_ok (upsert_repository repo fresh upd b d).2.
Proof.
  intros Hfresh Hupd d Hok. unfold upsert_repository. case_match; [done|].
  assert (db_ok (mkDB (subscriptions d) (subscriptions_id_seq d)
    (repositories d) (repositories_id_seq d + 1) (outbox d) (outbox_id_seq d) (saga d)))
    as Hok1.
  { destruct Hok as [? ? Hs ? ? ?]. split; simpl; try done; [|lia].
    eapply repositories_ok_seq; [done|lia]. }
  pose proof (db_sequences_pos _ Hok) as Hpos.
  case_match; [done|]. case_match eqn:Hdup; (apply db_ok_set_repositories; [done|]); simpl;
    destruct Hok1 as [_ _ [Hname Hrows] _ _ Hseq]; simpl in *; split.
  - rewrite fmap_update_where; [done|]. intros r _. apply Hupd.
  - intros r (a & Ha & ->)%elem_of_update_where. specialize (Hrows a Ha).
    case_match; [|done]. by destruct (Hupd a) as [-> _].
  - apply NoDup_fmap_snoc; [done|].
    intros (r & Hr & Hin)%list_elem_of_fmap.
    destruct (Hfresh (repositories_id_seq d + 1)) as [_ Hf]. rewrite Hf in Hr.
    apply not_true_iff_false in Hdup. apply Hdup, existsb_exists. exists r.
    apply list_elem_of_In in Hin. by rewrite <- Hr, String.eqb_refl.
  - intros r [Hr| ->%list_elem_of_singleton]%elem_of_app; [by apply Hrows|].
    destruct (Hfresh (repositories_id_seq d + 1)) as [-> _]. lia.
Qed.

End Statements.

(** ** The store operations *)

Section Stores.
Context {X : Type} `{!Env X}.

Lemma reactivate_stmt_keeps id token :
  stmt_keeps db_ok (reactivate_stmt id token).
Proof.
  intros now d Hok. unfold reactivate_stmt. case_match; [done|].
  case_match; [done|]. case_match eqn:Hdup; [done|]. simpl.
  apply db_ok_set_subscriptions; [done|].
  destruct Hok as [[Hid Htok Hkey Hrows] _ _ _ _ _].
  split.
  - by rewrite fmap_update_where.
  - apply (NoDup_fmap_update_one _ sub_ID _ _ token); try done.
    + unfold by_id. intros a b [Ha _]%andb_true_iff [Hb _]%andb_true_iff.
      apply Z.eqb_eq in Ha, Hb. congruence.
    + intros s Hs Hhit Heq. apply not_true_iff_false in Hdup. apply Hdup.
      apply existsb_exists. exists s. apply list_elem_of_In in Hs.
      unfold by_token. rewrite Hhit, Heq. by rewrite String.eqb_refl.
  - by rewrite fmap_update_where.
  - intros s (a & Ha & ->)%elem_of_update_where. destruct (Hrows a Ha).
    case_match; [|done]. split; [done|by apply status_pending].
Qed.

Lemma CreateInTx_sub_keeps e email repo token :
  keeps db_ok (SubStore.CreateInTx e email repo token).
Proof. apply keeps_ext_stmt. apply insert_subscription_keeps. Qed.

Lemma CreateSubscription_keeps sub :
  sub_Confirmed sub = false -> keeps db_ok (CreateSubscription sub).
Proof.
  intros Hc. apply keeps_db_stmt. intros now d Hok. rewrite Hc.
  pose proof (insert_subscription_keeps (sub_Email sub) (sub_Repo sub)
    (sub_Token sub) now d Hok) as H. by case_match eqn:E; destruct r.
Qed.

Lemma GetSubscriptionByToken_keeps P token : keeps P (GetSubscriptionByToken token).
Proof. apply keeps_db_stmt, stmt_keeps_query. Qed.
Lemma GetSubscriptionByEmailAndRepo_keeps P email repo :
  keeps P (GetSubscriptionByEmailAndRepo email repo).
Proof. apply keeps_db_stmt, stmt_keeps_query. Qed.
Lemma GetSubscriptionsByEmail_keeps P email : keeps P (GetSubscriptionsByEmail email).
Proof. apply keeps_db_stmt, stmt_keeps_query. Qed.
Lemma GetActiveRepos_keeps P : keeps P GetActiveRepos.
Proof. apply keeps_db_stmt, stmt_keeps_query. Qed.
Lemma GetSubscribersByRepo_keeps P repo : keeps P (GetSubscribersByRepo repo).
Proof. apply keeps_db_stmt, stmt_keeps_query. Qed.

Lemma ConfirmSubscription_keeps token : keeps db_ok (ConfirmSubscription token).
Proof.
  apply keeps_db_stmt. intros now d Hok. apply db_ok_set_subscriptions; [done|].
  apply subscriptions_ok_update; try done; [|apply Hok]. intros s. by apply status_confirmed.
Qed.

Lemma MarkFailed_keeps id : keeps db_ok (MarkFailed id).
Proof.
  apply keeps_bind; [|intros n; apply keeps_if; auto with go_db].
  apply keeps_wrap, keeps_db_stmt. intros now d Hok.
  apply db_ok_set_subscriptions; [done|].
  apply subscriptions_ok_update; try done; [|apply Hok]. intros s. by apply status_failed.
Qed.

Lemma ReactivateInTx_keeps e id token : keeps db_ok (ReactivateInTx e id token).
Proof.
  apply keeps_bind; [|intros n; apply keeps_if; auto with go_db].
  apply keeps_wrap, keeps_ext_stmt. apply reactivate_stmt_keeps.
Qed.

Lemma DeleteSubscription_keeps token : keeps db_ok (DeleteSubscription token).
Proof.
  apply keeps_db_stmt. intros now d Hok. apply db_ok_set_subscriptions; [done|].
  eapply subscriptions_ok_sublist; [|apply Hok]. apply delete_where_sublist.
Qed.

Lemma CreateInTx_saga_keeps `{!PgServerLaws env_server} e sg : keeps db_ok (SagaStore.CreateInTx e sg).
Proof. apply keeps_wrap, keeps_ext_stmt. apply insert_saga_keeps. Qed.

Lemma GetByID_keeps P id : keeps P (GetByID id).
Proof.
  apply keeps_wrap, keeps_db_stmt. intros now d Hok. by case_match.
Qed.

Lemma UpdateState_keeps id st le : keeps db_ok (UpdateState id st le).
Proof.
  apply keeps_bind; [|intros n; apply keeps_if; auto with go_db].
  apply keeps_wrap, keeps_db_stmt. intros now d Hok.
  unfold update_state_stmt. case_match; [|done].
  apply db_ok_set_saga; [done| |].
  - rewrite fmap_update_where; [apply Hok|done].
  - intros sg (a & Ha & ->)%elem_of_update_where.
    pose proof (db_saga_ids_canonical _ Hok a Ha). by case_match.
Qed.

Lemma FindResumable_keeps P before : keeps P (FindResumable before).
Proof. apply keeps_wrap, keeps_db_stmt, stmt_keeps_query. Qed.

Lemma Enqueue_keeps e sid key mid payload :
  keeps db_ok (Enqueue e sid key mid payload).
Proof. apply keeps_wrap, keeps_ext_stmt. apply insert_outbox_keeps. Qed.

Lemma FetchUnpublished_keeps P limit : keeps P (FetchUnpublished limit).
Proof. apply keeps_wrap, keeps_db_stmt, stmt_keeps_query. Qed.

Lemma outbox_published_ok P t l seq :
  outbox_ok l seq -> outbox_ok (update_where P (set_published t) l) seq.
Proof.
  intros []. split.
  - by rewrite fmap_update_where.
  - by rewrite fmap_update_where.
  - intros m (a & Ha & ->)%elem_of_update_where. specialize (ob_rows_ok0 a Ha).
    by case_match.
Qed.

Lemma MarkPublished_keeps id : keeps db_ok (MarkPublished id).
Proof.
  apply keeps_wrap, keeps_db_stmt. intros now d Hok.
  apply db_ok_set_outbox; [done|]. apply outbox_published_ok, Hok.
Qed.

Lemma Requeue_keeps id : keeps db_ok (Requeue id).
Proof.
  apply keeps_wrap, keeps_db_stmt. intros now d Hok. case_match; [|done].
  apply db_ok_set_outbox; [done|]. apply outbox_published_ok, Hok.
Qed.

Lemma GetRepoTracking_keeps P repo : keeps P (GetRepoTracking repo).
Proof. apply keeps_db_stmt, stmt_keeps_query. Qed.
Lemma RegisterRepo_keeps repo : keeps db_ok (RegisterRepo repo).
Proof. apply keeps_db_stmt. intros now d. by apply upsert_repository_keeps. Qed.
Lemma TouchLastChecked_keeps repo : keeps db_ok (TouchLastChecked repo).
Proof. apply keeps_db_stmt. intros now d. by apply upsert_repository_keeps. Qed.
Lemma RecordRelease_keeps repo tag : keeps db_ok (RecordRelease repo tag).
Proof. apply keeps_db_stmt. intros now d. by apply upsert_repository_keeps. Qed.
End Stores.

#[export] Hint Resolve CreateInTx_sub_keeps CreateSubscription_keeps
  GetSubscriptionByToken_keeps GetSubscriptionByEmailAndRepo_keeps
  GetSubscriptionsByEmail_keeps GetActiveRepos_keeps GetSubscribersByRepo_keeps
  ConfirmSubscription_keeps MarkFailed_keeps ReactivateInTx_keeps
  DeleteSubscription_keeps CreateInTx_saga_keeps GetByID_keeps UpdateState_keeps
  FindResumable_keeps Enqueue_keeps FetchUnpublished_keeps MarkPublished_keeps
  Requeue_keeps GetRepoTracking_keeps RegisterRepo_keeps TouchLastChecked_keeps
  RecordRelease_keeps : go_db.
