(* ===== verification/Spec.v ===== *)
(** * What the service promises: an abstract subscription machine

    A subscription, seen from outside, is a state for each pair of an address
    and a repository; requests and failures move it. [spec_step] is that machine,
    [abs] what it sees of the subscriptions table. Every operation of the
    monolith refines it, as a whole (System.v) and statement by statement
    (Interleave.v). *)

From S2P Require Import Prelude GoErrors Tables Env Logic Schema SubStore.

Local Open Scope string_scope.
Local Open Scope Z_scope.

Definition Key : Type := string * string.

(** [Waiting]: not confirmed yet; [Active]: confirmed; [Broken]: its confirmation
    failed, and [receiving] says whether it had been confirmed before. *)
Inductive SubState :=
  | Waiting (token : string)
  | Active (token : string)
  | Broken (token : string) (receiving : bool).

Definition token_of (st : SubState) : string :=
  match st with Waiting t | Active t | Broken t _ => t end.

(** Whether release notifications are sent for it. *)
Definition receives (st : SubState) : bool :=
  match st with Waiting _ => false | Active _ => true | Broken _ r => r end.

Abbreviation Spec := (gmap (string * string) SubState).

(** [LReconfirm] is the one step that no operation makes alone: the write of a
    confirmation that had read the row before another one confirmed it and a
    compensation marked it failed. *)
Inductive Label :=
  | LSubscribe (k : Key) (token : string)
  | LRevive (k : Key) (token : string)
  | LConfirm (token : string)
  | LReconfirm (token : string)
  | LUnsubscribe (token : string)
  | LFail (k : Key).

(** No subscription of [m] has the token. *)
Definition fresh (token : string) (m : Spec) : Prop :=
  forall k st, m !! k = Some st -> token_of st <> token.

Definition activate (st : SubState) : SubState :=
  if receives st then st else Active (token_of st).
Definition break (st : SubState) : SubState := Broken (token_of st) (receives st).

Inductive spec_step : Label -> Spec -> Spec -> Prop :=
  | sp_subscribe k tok m : m !! k = None -> fresh tok m ->
      spec_step (LSubscribe k tok) m (<[k := Waiting tok]> m)
  | sp_revive k old r tok m : m !! k = Some (Broken old r) -> fresh tok (delete k m) ->
      spec_step (LRevive k tok) m (<[k := Waiting tok]> m)
  | sp_confirm k st m : m !! k = Some st ->
      spec_step (LConfirm (token_of st)) m (<[k := activate st]> m)
  | sp_reconfirm k tok m : m !! k = Some (Broken tok true) ->
      spec_step (LReconfirm tok) m (<[k := Active tok]> m)
  | sp_unsubscribe k st m : m !! k = Some st ->
      spec_step (LUnsubscribe (token_of st)) m (delete k m)
  | sp_fail k st m : m !! k = Some st -> spec_step (LFail k) m (<[k := break st]> m).

Inductive spec_steps : list Label -> Spec -> Spec -> Prop :=
  | sp_done m : spec_steps [] m m
  | sp_more l ls m1 m2 m3 :
      spec_step l m1 m2 -> spec_steps ls m2 m3 -> spec_steps (l :: ls) m1 m3.

Lemma spec_steps_app ls ls' m1 m2 m3 :
  spec_steps ls m1 m2 -> spec_steps ls' m2 m3 -> spec_steps (app ls ls') m1 m3.
Proof. induction 1; [done|]. intros. simpl. econstructor; eauto. Qed.

Lemma spec_steps_one l m m' : spec_step l m m' -> spec_steps [l] m m'.
Proof. intros. by econstructor; [|constructor]. Qed.

(** [m] goes to [m'] by labels that [L] allows. *)
Definition evolves (L : Label -> Prop) (m m' : Spec) : Prop :=
  exists ls, Forall L ls /\ spec_steps ls m m'.

Lemma evolves_refl L m : evolves L m m.
Proof. exists []. split; constructor. Qed.
Lemma evolves_trans L m1 m2 m3 : evolves L m1 m2 -> evolves L m2 m3 -> evolves L m1 m3.
Proof.
  intros (ls & ? & ?) (ls' & ? & ?). exists (app ls ls').
  split; [by apply Forall_app|by eapply spec_steps_app].
Qed.
Lemma evolves_mono (L L' : Label -> Prop) m m' :
  (forall l, L l -> L' l) -> evolves L m m' -> evolves L' m m'.
Proof. intros HL (ls & Hls & Hs). exists ls. split; [|done]. by eapply Forall_impl. Qed.
Lemma evolves_one (L : Label -> Prop) l m m' : L l -> spec_step l m m' -> evolves L m m'.
Proof. intros. exists [l]. split; [by constructor|by apply spec_steps_one]. Qed.

(** ** What the machine guarantees *)

(** Tokens identify subscriptions, and no step breaks it. *)
Definition spec_ok (m : Spec) : Prop :=
  forall k k' st st', m !! k = Some st -> m !! k' = Some st' ->
    token_of st = token_of st' -> k = k'.

Lemma spec_ok_insert k st m :
  spec_ok m -> fresh (token_of st) (delete k m) -> spec_ok (<[k := st]> m).
Proof.
  intros Hm Hf k1 k2 st1 st2 H1 H2 Ht.
  rewrite lookup_insert_Some in H1. rewrite lookup_insert_Some in H2.
  destruct H1 as [[<- <-]|[Hn1 H1]], H2 as [[<- <-]|[Hn2 H2]]; [done|..].
  - exfalso. eapply Hf; [|by symmetry]. by rewrite lookup_delete_ne.
  - exfalso. eapply Hf; [|done]. by rewrite lookup_delete_ne.
  - by eapply Hm.
Qed.

Lemma spec_ok_same_token k st st' m :
  spec_ok m -> m !! k = Some st -> token_of st' = token_of st -> spec_ok (<[k := st']> m).
Proof.
  intros Hm Hk Ht. apply spec_ok_insert; [done|]. rewrite Ht.
  intros k' st1 [Hne H1]%lookup_delete_Some Heq. apply Hne. by eapply Hm.
Qed.

Lemma spec_step_ok l m m' : spec_step l m m' -> spec_ok m -> spec_ok m'.
Proof.
  destruct 1 as [k tok m Hk Hf|k old r tok m Hk Hf|k st m Hk|k tok m Hk|k st m Hk|k st m Hk]; intros Hm.
  - apply spec_ok_insert; [done|]. intros k' st' [_ H]%lookup_delete_Some. by eapply Hf.
  - by apply spec_ok_insert.
  - eapply spec_ok_same_token; [done..|]. unfold activate. by destruct (receives st).
  - by eapply spec_ok_same_token.
  - intros k1 k2 st1 st2 [_ H1]%lookup_delete_Some [_ H2]%lookup_delete_Some. by apply Hm.
  - by eapply spec_ok_same_token.
Qed.

(** Only the confirmation of its token makes a subscription receive. *)
Definition receiving_from (P : string -> Prop) (m m' : Spec) : Prop :=
  forall k st', m' !! k = Some st' -> receives st' = true ->
    P (token_of st') \/
    exists st, m !! k = Some st /\ receives st = true /\ token_of st = token_of st'.

Lemma spec_step_receives l m m' :
  spec_step l m m' -> receiving_from (fun tok => l = LConfirm tok) m m'.
Proof.
  destruct 1 as [k tok m Hk Hf|k old r tok m Hk Hf|k st m Hk|k tok m Hk|k st m Hk|k st m Hk];
    intros k' st' Hk' Hr.
  - apply lookup_insert_Some in Hk' as [[<- <-]|[_ Hk']]; [done|]. right. eauto.
  - apply lookup_insert_Some in Hk' as [[<- <-]|[_ Hk']]; [done|]. right. eauto.
  - apply lookup_insert_Some in Hk' as [[<- <-]|[_ Hk']]; [|right; eauto].
    unfold activate in *. destruct (receives st) eqn:E; [right; eauto|by left].
  - apply lookup_insert_Some in Hk' as [[<- <-]|[_ Hk']]; right; [by exists (Broken tok true)|eauto].
  - apply lookup_delete_Some in Hk' as [_ Hk']. right. eauto.
  - apply lookup_insert_Some in Hk' as [[<- <-]|[_ Hk']]; right; eauto.
Qed.

Lemma spec_steps_receives ls m m' :
  spec_steps ls m m' -> receiving_from (fun tok => LConfirm tok ∈ ls) m m'.
Proof.
  induction 1 as [m|l ls m1 m2 m3 Hstep Hsteps IH]; intros k st' Hk' Hr; [right; eauto|].
  destruct (IH k st' Hk' Hr) as [?|(st2 & Hk2 & Hr2 & Ht2)]; [left; set_solver|].
  destruct (spec_step_receives _ _ _ Hstep k st2 Hk2 Hr2) as [->|(st1 & Hk1 & Hr1 & Ht1)].
  - left. rewrite Ht2. set_solver.
  - right. exists st1. rewrite <- Ht2. done.
Qed.

(** ** What the machine sees of the table *)

Definition state_of (s : Subscription) : SubState :=
  if has_status StatusFailed s then Broken (sub_Token s) (sub_Confirmed s)
  else if sub_Confirmed s then Active (sub_Token s) else Waiting (sub_Token s).

Definition abs_rows (l : list Subscription) : Spec :=
  list_to_map ((fun s => (sub_key s, state_of s)) <$> l).
Definition abs (d : DB) : Spec := abs_rows (subscriptions d).

Lemma state_of_token s : token_of (state_of s) = sub_Token s.
Proof. unfold state_of. by repeat case_match. Qed.
Lemma state_of_receives s : receives (state_of s) = sub_Confirmed s.
Proof. unfold state_of. by repeat case_match. Qed.
Lemma state_of_failed s : state_of (set_failed s) = break (state_of s).
Proof. unfold break. by rewrite state_of_token, state_of_receives. Qed.

Lemma abs_keys l : ((fun s => (sub_key s, state_of s)) <$> l).*1 = sub_key <$> l.
Proof. by rewrite <- list_fmap_compose. Qed.

Lemma abs_rows_cons s l : abs_rows (s :: l) = <[sub_key s := state_of s]> (abs_rows l).
Proof. done. Qed.

Lemma abs_rows_lookup l k st :
  NoDup (sub_key <$> l) ->
  abs_rows l !! k = Some st <-> exists s, s ∈ l /\ sub_key s = k /\ state_of s = st.
Proof.
  intros Hnd. unfold abs_rows. rewrite <- elem_of_list_to_map by by rewrite abs_keys.
  rewrite list_elem_of_fmap. split.
  - intros (s & [= -> ->] & Hs). eauto.
  - intros (s & Hs & <- & <-). eauto.
Qed.

Lemma abs_rows_none l k :
  (forall s, s ∈ l -> sub_key s <> k) -> abs_rows l !! k = None.
Proof.
  intros Hk. apply not_elem_of_list_to_map_1. rewrite abs_keys.
  intros (s & -> & Hs)%list_elem_of_fmap. by eapply Hk.
Qed.

Lemma abs_rows_snoc l s :
  sub_key s ∉ (sub_key <$> l) -> abs_rows (app l [s]) = <[sub_key s := state_of s]> (abs_rows l).
Proof.
  intros Hs. unfold abs_rows. rewrite fmap_app. simpl. apply list_to_map_snoc. by rewrite abs_keys.
Qed.

(** An update that keeps the keys and matches the row [s] alone. *)
Lemma abs_rows_update P f l s :
  NoDup (sub_key <$> l) -> (forall a, sub_key (f a) = sub_key a) ->
  s ∈ l -> P s = true -> (forall a, a ∈ l -> P a = true -> a = s) ->
  abs_rows (update_where P f l) = <[sub_key s := state_of (f s)]> (abs_rows l).
Proof.
  intros Hnd Hf. induction l as [|a l IH]; [set_solver|]. intros Hs HP Hone.
  simpl in Hnd. apply NoDup_cons in Hnd as [Ha Hnd].
  change (update_where P f (a :: l)) with ((if P a then f a else a) :: update_where P f l).
  destruct (P a) eqn:Ea.
  - assert (a = s) as -> by (apply Hone; [set_solver|done]).
    rewrite update_where_none, !abs_rows_cons, Hf, insert_insert_eq; [done|].
    intros b Hb. destruct (P b) eqn:Eb; [|done]. exfalso. apply Ha.
    assert (b = s) as -> by (apply Hone; [set_solver|done]). by apply list_elem_of_fmap_2.
  - apply elem_of_cons in Hs as [->|Hs]; [congruence|].
    rewrite !abs_rows_cons, IH; [|done..|intros b Hb; apply Hone; set_solver].
    apply insert_insert_ne. intros Heq. apply Ha. rewrite Heq. by apply list_elem_of_fmap_2.
Qed.

Lemma abs_rows_delete P l s :
  NoDup (sub_key <$> l) -> s ∈ l -> P s = true -> (forall a, a ∈ l -> P a = true -> a = s) ->
  abs_rows (delete_where P l) = delete (sub_key s) (abs_rows l).
Proof.
  intros Hnd. induction l as [|a l IH]; [set_solver|]. intros Hs HP Hone.
  simpl in Hnd. apply NoDup_cons in Hnd as [Ha Hnd]. unfold delete_where. simpl.
  destruct (P a) eqn:Ea; simpl.
  - assert (a = s) as -> by (apply Hone; [set_solver|done]).
    rewrite abs_rows_cons, delete_insert_id.
    2: { apply abs_rows_none. intros b Hb Heq. apply Ha. rewrite <- Heq.
         by apply list_elem_of_fmap_2. }
    f_equal. apply (select_where_all (fun a => negb (P a))).
    intros b Hb. destruct (P b) eqn:Eb; [|done]. exfalso. apply Ha.
    assert (b = s) as -> by (apply Hone; [set_solver|done]). by apply list_elem_of_fmap_2.
  - apply elem_of_cons in Hs as [->|Hs]; [congruence|].
    rewrite !abs_rows_cons. rewrite delete_insert_ne.
    + f_equal. apply IH; [done..|]. intros b Hb. apply Hone. set_solver.
    + intros Heq. apply Ha. rewrite <- Heq. by apply list_elem_of_fmap_2.
Qed.

(** Rows that fail one by one are steps of the machine. *)
Lemma abs_rows_fail (L : Label -> Prop) l l' :
  NoDup (sub_key <$> l) -> (forall k, L (LFail k)) ->
  Forall2 (fun s s' => s' = s \/ s' = set_failed s) l l' ->
  evolves L (abs_rows l) (abs_rows l').
Proof.
  intros Hnd HL Hall.
  cut (exists ls, Forall (fun lb => exists k, lb = LFail k /\ k ∈ (sub_key <$> l)) ls /\
    spec_steps ls (abs_rows l) (abs_rows l')).
  { intros (ls & Hls & Hs). exists ls. split; [|done].
    eapply Forall_impl; [done|]. by intros lb (k & -> & _). }
  induction Hall as [|s s' l l' Hs Hall IH]; [by exists []; split; constructor|].
  simpl in Hnd. apply NoDup_cons in Hnd as [Hk Hnd]. destruct (IH Hnd) as (ls & Hls & Hsteps).
  assert (spec_steps ls (abs_rows (s :: l)) (<[sub_key s := state_of s]> (abs_rows l'))) as Hframe.
  { rewrite abs_rows_cons. clear IH Hall Hs. remember (abs_rows l) as m1.
    remember (abs_rows l') as m2. clear Heqm1 Heqm2.
    induction Hsteps as [m|lb ls m1 m2 m3 Hstep Hsteps IH]; [constructor|].
    apply Forall_cons in Hls as [(k & -> & Hkl) Hls'].
    assert (k <> sub_key s) as Hne by (intros ->; done).
    econstructor; [|by apply IH]. inversion_clear Hstep as [| | | | |? st ? Hst].
    rewrite insert_insert_ne by done. apply sp_fail. by rewrite lookup_insert_ne. }
  assert (Forall (fun lb => exists k, lb = LFail k /\ k ∈ (sub_key <$> s :: l)) ls) as Hls2.
  { eapply Forall_impl; [exact Hls|]. intros lb (k & -> & Hin). exists k. split; [done|].
    simpl. by apply elem_of_cons; right. }
  destruct Hs as [->| ->].
  - exists ls. split; [done|]. by rewrite (abs_rows_cons s l').
  - exists (app ls [LFail (sub_key s)]). split.
    + apply Forall_app. split; [done|]. constructor; [|constructor].
      exists (sub_key s). split; [done|]. simpl. by apply elem_of_cons; left.
    + eapply spec_steps_app; [exact Hframe|]. apply spec_steps_one.
      rewrite abs_rows_cons, state_of_failed. change (sub_key (set_failed s)) with (sub_key s).
      rewrite <- (insert_insert_eq (abs_rows l') (sub_key s) (break (state_of s)) (state_of s)).
      apply sp_fail. by rewrite lookup_insert_eq.
Qed.
