(* ===== verification/Samples.v ===== *)
(** * Sample databases, on which the witnesses evaluate the operations *)

From S2P Require Import Prelude GoErrors Tables Env Logic Script Schema.

Local Open Scope string_scope.
Local Open Scope Z_scope.

Definition sample_uuid : string := script_uuid 0.

Definition sample_sub : Subscription :=
  mkSubscription 1 "ann@example.com" "golang/go" "tok-1" false StatusPending 10.
Definition confirmed_sub : Subscription :=
  mkSubscription 2 "bob@example.com" "golang/go" "tok-2" true StatusConfirmed 11.
Definition failed_sub : Subscription :=
  mkSubscription 3 "eve@example.com" "rust-lang/rust" "tok-3" false StatusFailed 12.

Definition sample_saga (st : SagaState) : Saga :=
  mkSaga sample_uuid 1 "ann@example.com" "golang/go" st 0 None 10 10.
Definition sample_message : OutboxMessage :=
  mkOutboxMessage 1 (Some sample_uuid) "confirmation" "confirm:tok-1" "{}" 10 None.
Definition sample_repo : Repository :=
  mkRepository 1 "golang/go" "v1.0.0" (Some 10) None.

Definition sample_db (st : SagaState) : DB :=
  mkDB [sample_sub; confirmed_sub; failed_sub] 3 [sample_repo] 1
    [sample_message] 1 [sample_saga st].

Lemma sample_db_ok st : @db_ok script_server (sample_db st).
Proof.
  split; simpl; [split|split|split|..]; simpl; try solve_nodup; try lia.
  - intros s Hs. repeat (apply elem_of_cons in Hs as [->|Hs]); try by apply elem_of_nil in Hs.
    all: split; simpl; [lia|].
    + by apply status_pending.
    + by apply status_confirmed.
    + by apply status_failed.
  - repeat constructor.
  - intros m ->%list_elem_of_singleton. simpl. lia.
  - intros r ->%list_elem_of_singleton. simpl. lia.
  - by intros sg ->%list_elem_of_singleton.
Qed.
