(* ===== verification/GoStrings.v ===== *)
(** * Strings of the Go standard library

    What the source uses of packages strings and path: [strings.Split] on a
    one-byte separator and [path.Base]. *)

From S2P Require Import Prelude.

Local Open Scope string_scope.

Definition slash : ascii := "/"%char.

(** The bytes of [s], and its membership. *)
Fixpoint occurs (c : ascii) (s : string) : bool :=
  match s with
  | EmptyString => false
  | String a s' => Ascii.eqb a c || occurs c s'
  end.

(** [strings.Split(s, sep)] for a separator of one byte: never empty. *)
Fixpoint Split (sep : ascii) (s : string) : list string :=
  match s with
  | EmptyString => [""]
  | String a s' =>
      if Ascii.eqb a sep then "" :: Split sep s'
      else match Split sep s' with
           | [] => [String a ""]
           | p :: ps => String a p :: ps
           end
  end.

(** The suffix after the last occurrence of [c], or [s] itself. *)
Fixpoint after_last (c : ascii) (s : string) : string :=
  match s with
  | EmptyString => ""
  | String a s' =>
      if occurs c s' then after_last c s'
      else if Ascii.eqb a c then s' else s
  end.

(** [s] without the occurrences of [c] at its end. *)
Fixpoint trim_right (c : ascii) (s : string) : string :=
  match s with
  | EmptyString => ""
  | String a s' =>
      let t := trim_right c s' in
      if is_empty t && Ascii.eqb a c then "" else String a t
  end.

(** [path.Base]. *)
Definition path_Base (path : string) : string :=
  if is_empty path then "." else
  let p := after_last slash (trim_right slash path) in
  if is_empty p then "/" else p.

(** ** Lemmas *)

Lemma occurs_app c s t : occurs c (s +:+ t) = occurs c s || occurs c t.
Proof.
  induction s as [|a s IH]; [done|].
  change (String a s +:+ t) with (String a (s +:+ t)). simpl.
  by rewrite IH, orb_assoc.
Qed.

Lemma Split_not_nil sep s : Split sep s <> [].
Proof. destruct s; simpl; repeat case_match; done. Qed.

Lemma Split_no_sep sep s : occurs sep s = false -> Split sep s = [s].
Proof.
  induction s as [|a s IH]; simpl; [done|].
  intros [Ha Hs]%orb_false_iff. rewrite Ha, IH; done.
Qed.

Lemma Split_app_sep sep s t :
  occurs sep s = false -> Split sep (s +:+ String sep t) = s :: Split sep t.
Proof.
  induction s as [|a s IH]; simpl.
  - intros _. change ("" +:+ String sep t) with (String sep t). simpl.
    by rewrite Ascii.eqb_refl.
  - intros [Ha Hs]%orb_false_iff.
    change (String a s +:+ String sep t) with (String a (s +:+ String sep t)). simpl.
    by rewrite Ha, IH.
Qed.

(** Joining the parts with the separator gives the string back. *)
Fixpoint Join (sep : ascii) (ps : list string) : string :=
  match ps with
  | [] => ""
  | [p] => p
  | p :: ps' => p +:+ String sep (Join sep ps')
  end.

Lemma Join_cons_head sep a p ps :
  Join sep (String a p :: ps) = String a (Join sep (p :: ps)).
Proof. by destruct ps. Qed.

Lemma Join_Split sep s : Join sep (Split sep s) = s.
Proof.
  induction s as [|a s IH]; [done|]. simpl.
  destruct (Ascii.eqb_spec a sep) as [->|Hne].
  - destruct (Split sep s) as [|p ps] eqn:E; [by destruct (Split_not_nil sep s)|].
    change (Join sep ("" :: p :: ps)) with (String sep (Join sep (p :: ps))).
    by rewrite IH.
  - destruct (Split sep s) as [|p ps] eqn:E; [by destruct (Split_not_nil sep s)|].
    by rewrite Join_cons_head, IH.
Qed.

Lemma Split_parts sep s : Forall (fun p => occurs sep p = false) (Split sep s).
Proof.
  induction s as [|a s IH]; simpl; [by repeat constructor|].
  destruct (Ascii.eqb a sep) eqn:E; [by constructor|].
  destruct (Split sep s) as [|p ps]; simpl.
  - constructor; [|done]. simpl. by rewrite E.
  - inversion_clear IH. constructor; [|done]. simpl. by rewrite E.
Qed.

Lemma is_empty_app_r s t : is_empty t = false -> is_empty (s +:+ t) = false.
Proof. rewrite !is_empty_false. destruct s; [done|]. by destruct t. Qed.

Lemma trim_right_no_sep c s : occurs c s = false -> trim_right c s = s.
Proof.
  induction s as [|a s IH]; simpl; [done|]. intros [Ha Hs]%orb_false_iff.
  rewrite IH by done. by rewrite Ha, andb_false_r.
Qed.

Lemma trim_right_app c s t :
  is_empty t = false -> occurs c t = false -> trim_right c (s +:+ t) = s +:+ t.
Proof.
  intros Ht Hc. induction s as [|a s IH]; [by apply trim_right_no_sep|].
  change (String a s +:+ t) with (String a (s +:+ t)). simpl.
  rewrite IH. by rewrite (is_empty_app_r s t).
Qed.

Lemma after_last_no_sep c s : occurs c s = false -> after_last c s = s.
Proof.
  destruct s as [|a s]; simpl; [done|]. intros [Ha Hs]%orb_false_iff. by rewrite Hs, Ha.
Qed.

Lemma after_last_app c s t : occurs c t = false -> after_last c (s +:+ String c t) = t.
Proof.
  intros Ht. induction s as [|a s IH].
  - change ("" +:+ String c t) with (String c t). simpl. by rewrite Ht, Ascii.eqb_refl.
  - change (String a s +:+ String c t) with (String a (s +:+ String c t)). simpl.
    rewrite occurs_app. simpl. by rewrite Ascii.eqb_refl, orb_true_r.
Qed.

(** The last segment of a path that ends with it. *)
Lemma path_Base_last prefix seg :
  is_empty seg = false -> occurs slash seg = false ->
  path_Base (prefix +:+ String slash seg) = seg.
Proof.
  intros He Hs. unfold path_Base.
  rewrite is_empty_app_r by done.
  replace (prefix +:+ String slash seg) with ((prefix +:+ "/") +:+ seg)
    by by rewrite <- string_app_assoc.
  rewrite trim_right_app by done.
  replace ((prefix +:+ "/") +:+ seg) with (prefix +:+ String slash seg)
    by by rewrite <- string_app_assoc.
  rewrite after_last_app by done. by rewrite He.
Qed.
