(* ===== verification/RepoSpec.v ===== *)
(** * internal/repospec/repospec.go: the repository identifier *)

From S2P Require Import Prelude GoErrors GoStrings.

Local Open Scope string_scope.

(** [RepoSpec]. *)
Record RepoSpec := mkRepoSpec { Owner : string; Name : string }.

(** The package's own [ErrInvalidRepoFormat], which is not a domain error. *)
Definition repospec_ErrInvalidRepoFormat : error :=
  EPlain "invalid repository format, expected owner/repo".

Definition ParseRepoSpec (s : string) : result RepoSpec :=
  match Split slash s with
  | [p0; p1] =>
      if is_empty p0 || is_empty p1 then Err repospec_ErrInvalidRepoFormat
      else Ok (mkRepoSpec p0 p1)
  | _ => Err repospec_ErrInvalidRepoFormat
  end.

(** [func (r RepoSpec) String() string]. *)
Definition RepoSpec_String (r : RepoSpec) : string :=
  Owner r +:+ "/" +:+ Name r.

(** The identifiers the parser can return. *)
Definition well_formed (r : RepoSpec) : bool :=
  negb (is_empty (Owner r)) && negb (is_empty (Name r)) &&
  negb (occurs slash (Owner r)) && negb (occurs slash (Name r)).

Lemma RepoSpec_String_slash r :
  RepoSpec_String r = Owner r +:+ String slash (Name r).
Proof. done. Qed.

Lemma ParseRepoSpec_correct s r :
  ParseRepoSpec s = Ok r <-> well_formed r = true /\ s = RepoSpec_String r.
Proof.
  unfold ParseRepoSpec. split.
  - intros H. pose proof (Join_Split slash s) as HJ.
    pose proof (Split_parts slash s) as HP.
    destruct (Split slash s) as [|p0 [|p1 [|p2 ps]]]; try done.
    destruct (is_empty p0 || is_empty p1) eqn:E; [done|].
    apply orb_false_iff in E as [E0 E1]. simplify_eq.
    inversion_clear HP as [|? ? H0 HP']. inversion_clear HP' as [|? ? H1 _].
    unfold well_formed, RepoSpec_String. simpl. by rewrite E0, E1, H0, H1.
  - intros [Hwf ->]. unfold well_formed in Hwf.
    rewrite !andb_true_iff, !negb_true_iff in Hwf. destruct Hwf as [[[H0 H1] H2] H3].
    rewrite RepoSpec_String_slash, Split_app_sep, Split_no_sep by done.
    rewrite H0, H1. by destruct r.
Qed.

Section Properties.
(** Parsing accepts exactly the printed well-formed identifiers: it succeeds
    with [r] if and only if [r] has two non-empty halves without a slash and
    the text is its [String()]; every other text is refused. *)
Theorem ParseRepoSpec_iff s r :
  ParseRepoSpec s = Ok r <-> well_formed r = true /\ s = RepoSpec_String r.
Proof. apply ParseRepoSpec_correct. Qed.
End Properties.
