(* ===== verification/Json.v ===== *)
(** * encoding/json, as the source uses it

    [json.Marshal] of a struct of string fields (with the HTML escaping that is
    its default) and [json.Unmarshal] into one, on byte strings. The parser
    reads every JSON value, because an unknown member may hold any; it decodes
    a string as the library does, replacing what is not UTF-8 by U+FFFD, and
    refuses what is nested too deep. *)

From S2P Require Import Prelude GoErrors.

Local Open Scope string_scope.
Local Open Scope N_scope.

Definition dquote : ascii := "034"%char.
Definition backslash : ascii := "\"%char.
Definition code (c : ascii) : N := N_of_ascii c.
Definition byte (n : N) : ascii := ascii_of_N n.
Definition in_range (lo hi : N) (c : ascii) : bool := (lo <=? code c) && (code c <=? hi).

(** ** UTF-8 *)

Definition cont : ascii -> bool := in_range 128 191.

(** The length of the well-formed multi-byte sequence [s] begins with
    ([utf8.DecodeRuneInString], whose width is 1 on an ill-formed one). *)
Definition utf8_width (s : string) : option nat :=
  match s with
  | String a (String b s2) =>
      if in_range 194 223 a && cont b then Some 2%nat else
      match s2 with
      | String c s3 =>
          if (if code a =? 224 then in_range 160 191 b
              else if code a =? 237 then in_range 128 159 b
              else in_range 225 239 a && cont b) && cont c
          then Some 3%nat else
          match s3 with
          | String d _ =>
              if (if code a =? 240 then in_range 144 191 b
                  else if code a =? 244 then in_range 128 143 b
                  else in_range 241 243 a && cont b) && cont c && cont d
              then Some 4%nat else None
          | EmptyString => None
          end
      | EmptyString => None
      end
  | _ => None
  end.

(** The bytes of a rune below 0x110000. *)
Definition utf8_encode (r : N) : string :=
  if r <? 128 then String (byte r) ""
  else if r <? 2048
  then String (byte (192 + r / 64)) (String (byte (128 + r mod 64)) "")
  else if r <? 65536
  then String (byte (224 + r / 4096)) (String (byte (128 + (r / 64) mod 64))
         (String (byte (128 + r mod 64)) ""))
  else String (byte (240 + r / 262144)) (String (byte (128 + (r / 4096) mod 64))
         (String (byte (128 + (r / 64) mod 64)) (String (byte (128 + r mod 64)) ""))).

Definition rune_error : string := utf8_encode 65533.

(** ** Encoding *)

Definition hex_digit (n : N) : ascii :=
  if n <? 10 then byte (48 + n) else byte (87 + n).

Definition esc (c : ascii) : string := String backslash (String c "").

(** [appendString] on one ASCII byte, with [escapeHTML]. *)
Definition encode_ascii (c : ascii) : string :=
  let n := code c in
  if Ascii.eqb c dquote || Ascii.eqb c backslash then esc c
  else if n =? 8 then esc "b"
  else if n =? 12 then esc "f"
  else if n =? 10 then esc "n"
  else if n =? 13 then esc "r"
  else if n =? 9 then esc "t"
  else if (n <? 32) || Ascii.eqb c "<" || Ascii.eqb c ">" || Ascii.eqb c "&"
  then esc "u" +:+ "00" +:+ String (hex_digit (n / 16)) (String (hex_digit (n mod 16)) "")
  else String c "".

(** U+2028 and U+2029, which are escaped. *)
Definition line_separator (s : string) : option string :=
  match s with
  | String a (String b (String c _)) =>
      if (code a =? 226) && (code b =? 128) then
        if code c =? 168 then Some "\u2028"
        else if code c =? 169 then Some "\u2029" else None
      else None
  | _ => None
  end.

(** The inside of a JSON string: [copy] bytes are still to be copied, [drop]
    bytes to be passed over. *)
Fixpoint encode_body (copy drop : nat) (s : string) : string :=
  match s with
  | EmptyString => ""
  | String c s' =>
      match copy, drop with
      | S k, _ => String c (encode_body k drop s')
      | O, S k => encode_body O k s'
      | O, O =>
          if code c <? 128 then encode_ascii c +:+ encode_body O O s'
          else match line_separator s, utf8_width s with
               | Some e, _ => e +:+ encode_body O 2 s'
               | None, Some n => String c (encode_body (Nat.pred n) O s')
               | None, None => "\ufffd" +:+ encode_body O O s'
               end
      end
  end.

Definition encode_string (s : string) : string :=
  String dquote (encode_body 0 0 s +:+ String dquote "").

(** A struct whose fields are strings: [{"k1":"v1","k2":"v2"}]. *)
Fixpoint encode_members (ms : list (string * string)) : string :=
  match ms with
  | [] => ""
  | [(k, v)] => encode_string k +:+ ":" +:+ encode_string v
  | (k, v) :: ms' =>
      encode_string k +:+ ":" +:+ encode_string v +:+ "," +:+ encode_members ms'
  end.

Definition Marshal (ms : list (string * string)) : string :=
  "{" +:+ encode_members ms +:+ "}".

(** ** Parsing *)

Inductive json :=
  | JNull
  | JBool (b : bool)
  | JNumber (text : string)
  | JString (s : string)
  | JArray (l : list json)
  | JObject (ms : list (string * json)).

Definition is_space (c : ascii) : bool :=
  (code c =? 32) || (code c =? 9) || (code c =? 10) || (code c =? 13).

Fixpoint skip_space (s : string) : string :=
  match s with
  | String c s' => if is_space c then skip_space s' else s
  | EmptyString => ""
  end.

Definition hex_value (c : ascii) : option N :=
  if in_range 48 57 c then Some (code c - 48)
  else if in_range 97 102 c then Some (code c - 87)
  else if in_range 65 70 c then Some (code c - 55)
  else None.

Definition hex4 (a b c d : ascii) : option N :=
  match hex_value a, hex_value b, hex_value c, hex_value d with
  | Some x, Some y, Some z, Some t => Some (4096 * x + 256 * y + 16 * z + t)
  | _, _, _, _ => None
  end.

Definition is_surrogate (r : N) : bool := (55296 <=? r) && (r <? 57344).

(** [utf16.DecodeRune] of a high and a low surrogate. *)
Definition surrogate_pair (r1 r2 : N) : option N :=
  if (55296 <=? r1) && (r1 <? 56320) && (56320 <=? r2) && (r2 <? 57344)
  then Some (65536 + (r1 - 55296) * 1024 + (r2 - 56320)) else None.

Definition simple_escape (e : ascii) : option ascii :=
  if Ascii.eqb e dquote || Ascii.eqb e backslash || Ascii.eqb e "/" then Some e
  else if Ascii.eqb e "b" then Some (byte 8)
  else if Ascii.eqb e "f" then Some (byte 12)
  else if Ascii.eqb e "n" then Some (byte 10)
  else if Ascii.eqb e "r" then Some (byte 13)
  else if Ascii.eqb e "t" then Some (byte 9)
  else None.

Definition prepend (p : string) (o : option (string * string)) : option (string * string) :=
  match o with
  | Some (s, rest) => Some (p +:+ s, rest)
  | None => None
  end.

(** The value of a JSON string from after its opening quote, and the text after
    its closing quote; [copy] bytes of a multi-byte rune are still to be copied. *)
Fixpoint unquote (copy : nat) (s : string) {struct s} : option (string * string) :=
  match s with
  | EmptyString => None
  | String c s1 =>
      match copy with
      | S k => prepend (String c "") (unquote k s1)
      | O =>
          if Ascii.eqb c dquote then Some ("", s1)
          else if Ascii.eqb c backslash then
            match s1 with
            | EmptyString => None
            | String e s2 =>
                match simple_escape e with
                | Some ch => prepend (String ch "") (unquote O s2)
                | None =>
                    if negb (Ascii.eqb e "u") then None else
                    match s2 with
                    | String h1 (String h2 (String h3 (String h4 s3))) =>
                        match hex4 h1 h2 h3 h4 with
                        | None => None
                        | Some r =>
                            if negb (is_surrogate r)
                            then prepend (utf8_encode r) (unquote O s3)
                            else match s3 with
                                 | String b (String u (String l1 (String l2
                                     (String l3 (String l4 s4))))) =>
                                     match (if Ascii.eqb b backslash && Ascii.eqb u "u"
                                            then hex4 l1 l2 l3 l4 ≫= surrogate_pair r
                                            else None) with
                                     | Some r' => prepend (utf8_encode r') (unquote O s4)
                                     | None => prepend rune_error (unquote O s3)
                                     end
                                 | _ => prepend rune_error (unquote O s3)
                                 end
                        end
                    | _ => None
                    end
                end
            end
          else if code c <? 32 then None
          else if code c <? 128 then prepend (String c "") (unquote O s1)
          else match utf8_width s with
               | Some n => prepend (String c "") (unquote (Nat.pred n) s1)
               | None => prepend rune_error (unquote O s1)
               end
      end
  end.

Definition is_digit : ascii -> bool := in_range 48 57.

(** The longest run of digits, and the rest. *)
Fixpoint digits (s : string) : string * string :=
  match s with
  | String c s' => if is_digit c then let '(d, r) := digits s' in (String c d, r) else ("", s)
  | EmptyString => ("", "")
  end.

(** A part of a number that needs at least one digit. *)
Definition digits1 (pre s : string) : option (string * string) :=
  match digits s with
  | (EmptyString, _) => None
  | (d, r) => Some (pre +:+ d, r)
  end.

Definition number (s : string) : option (string * string) :=
  let '(sign, s1) := match s with
                     | String c s' => if Ascii.eqb c "-" then ("-", s') else ("", s)
                     | EmptyString => ("", s)
                     end in
  int ← match s1 with
        | String c s2 => if Ascii.eqb c "0" then Some (sign +:+ "0", s2) else digits1 sign s1
        | EmptyString => None
        end;
  frac ← match int with
         | (d, String c s2) => if Ascii.eqb c "." then digits1 (d +:+ ".") s2 else Some int
         | _ => Some int
         end;
  match frac with
  | (d, String c s2) =>
      if Ascii.eqb c "e" || Ascii.eqb c "E" then
        match s2 with
        | String g s3 =>
            if Ascii.eqb g "+" || Ascii.eqb g "-"
            then digits1 (d +:+ String c (String g "")) s3
            else digits1 (d +:+ String c "") s2
        | EmptyString => None
        end
      else Some frac
  | _ => Some frac
  end.

Fixpoint literal (p s : string) : option string :=
  match p, s with
  | EmptyString, _ => Some s
  | String a p', String b s' => if Ascii.eqb a b then literal p' s' else None
  | _, _ => None
  end.

(** A value, the members of an object and the elements of an array, up to the
    closing bracket. The fuel bounds the nesting and the number of items; the
    length of the text is enough, since each step reads at least a byte. *)
Fixpoint value (fuel : nat) (s : string) : option (json * string) :=
  match fuel with
  | O => None
  | S f =>
      match skip_space s with
      | EmptyString => None
      | String c r =>
          if Ascii.eqb c dquote then
            '(v, r') ← unquote O r; Some (JString v, r')
          else if Ascii.eqb c "{" then
            match skip_space r with
            | String d r' =>
                if Ascii.eqb d "}" then Some (JObject [], r')
                else '(ms, r'') ← members f r; Some (JObject ms, r'')
            | EmptyString => None
            end
          else if Ascii.eqb c "[" then
            match skip_space r with
            | String d r' =>
                if Ascii.eqb d "]" then Some (JArray [], r')
                else '(vs, r'') ← elements f r; Some (JArray vs, r'')
            | EmptyString => None
            end
          else if Ascii.eqb c "t" then r' ← literal "rue" r; Some (JBool true, r')
          else if Ascii.eqb c "f" then r' ← literal "alse" r; Some (JBool false, r')
          else if Ascii.eqb c "n" then r' ← literal "ull" r; Some (JNull, r')
          else '(n, r') ← number (String c r); Some (JNumber n, r')
      end
  end
with members (fuel : nat) (s : string) : option (list (string * json) * string) :=
  match fuel with
  | O => None
  | S f =>
      match skip_space s with
      | EmptyString => None
      | String c r =>
          if negb (Ascii.eqb c dquote) then None else
          '(k, r1) ← unquote O r;
          match skip_space r1 with
          | EmptyString => None
          | String d r2 =>
              if negb (Ascii.eqb d ":") then None else
              '(v, r3) ← value f r2;
              match skip_space r3 with
              | EmptyString => None
              | String e r4 =>
                  if Ascii.eqb e "}" then Some ([(k, v)], r4)
                  else if Ascii.eqb e "," then
                    '(ms, r5) ← members f r4; Some ((k, v) :: ms, r5)
                  else None
              end
          end
      end
  end
with elements (fuel : nat) (s : string) : option (list json * string) :=
  match fuel with
  | O => None
  | S f =>
      '(v, r1) ← value f s;
      match skip_space r1 with
      | EmptyString => None
      | String e r2 =>
          if Ascii.eqb e "]" then Some ([v], r2)
          else if Ascii.eqb e "," then
            '(vs, r3) ← elements f r2; Some (v :: vs, r3)
          else None
      end
  end.

(** How deep the arrays and objects of a value are nested; the scanner of the
    library gives up when there are more than [maxNestingDepth] of them. *)
Fixpoint nesting (v : json) : N :=
  match v with
  | JArray l => 1 + foldr (fun v m => N.max (nesting v) m) 0 l
  | JObject ms => 1 + foldr (fun kv m => N.max (nesting kv.2) m) 0 ms
  | _ => 0
  end.
Definition maxNestingDepth : N := 10000.

(** [Decoder.Decode] reads one value and leaves the rest; [Unmarshal] wants
    nothing but space after it. *)
Definition decode_value (s : string) : option json :=
  '(v, _) ← value (S (String.length s)) s;
  if nesting v <=? maxNestingDepth then Some v else None.

Definition parse_document (s : string) : option json :=
  '(v, r) ← value (S (String.length s)) s;
  if is_empty (skip_space r) && (nesting v <=? maxNestingDepth) then Some v else None.

(** ** Decoding into a struct of strings *)

(** [foldName]: upper case, with the two other runes that fold to ASCII
    letters, U+017F (S) and U+212A (K). *)
Fixpoint fold_name (s : string) : string :=
  match s with
  | EmptyString => ""
  | String a s1 =>
      let plain := String (if in_range 97 122 a then byte (code a - 32) else a) (fold_name s1) in
      match s1 with
      | String b s2 =>
          if (code a =? 197) && (code b =? 191) then String "S" (fold_name s2) else
          match s2 with
          | String c s3 =>
              if (code a =? 226) && (code b =? 132) && (code c =? 170)
              then String "K" (fold_name s3) else plain
          | EmptyString => plain
          end
      | EmptyString => plain
      end
  end.

(** The field a member name selects: an exact match first, then a folded one. *)
Definition field_of (names : list string) (k : string) : option string :=
  match List.find (String.eqb k) names with
  | Some n => Some n
  | None => List.find (fun n => String.eqb (fold_name n) (fold_name k)) names
  end.

(** The last value given to field [name], starting from [cur]; [None] when a
    member gives it a value that is neither a string nor null. *)
Fixpoint field_value (names : list string) (name : string)
    (ms : list (string * json)) (cur : string) : option string :=
  match ms with
  | [] => Some cur
  | (k, v) :: ms' =>
      if decide (field_of names k = Some name) then
        match v with
        | JString s => field_value names name ms' s
        | JNull => field_value names name ms' cur
        | _ => None
        end
      else field_value names name ms' cur
  end.

Definition syntax_error : error := EPlain "invalid character in JSON input".
Definition type_error : error := EPlain "json: cannot unmarshal into Go struct field".

(** A JSON value into the struct with string fields [names]; every field is
    empty before. *)
Definition decode_struct (names : list string) (v : json) : result (list string) :=
  match v with
  | JNull => Ok ((fun _ => "") <$> names)
  | JObject ms =>
      match mapM (fun n => field_value names n ms "") names with
      | Some vs => Ok vs
      | None => Err type_error
      end
  | _ => Err type_error
  end.

Definition Unmarshal (names : list string) (body : string) : result (list string) :=
  match parse_document body with
  | None => Err syntax_error
  | Some v => decode_struct names v
  end.

Definition Decode (names : list string) (body : string) : result (list string) :=
  match decode_value body with
  | None => Err syntax_error
  | Some v => decode_struct names v
  end.

(** ** Round trip *)

(** [s] is well-formed UTF-8, [copy] bytes of a rune being already read. *)
Fixpoint utf8_from (copy : nat) (s : string) : bool :=
  match s with
  | EmptyString => Nat.eqb copy 0
  | String c s' =>
      match copy with
      | S k => utf8_from k s'
      | O => if code c <? 128 then utf8_from O s'
             else match utf8_width s with
                  | Some n => utf8_from (Nat.pred n) s'
                  | None => false
                  end
      end
  end.

Definition valid_utf8 (s : string) : bool := utf8_from 0 s.

(** The string with U+FFFD for each byte that is not UTF-8, which is what the
    encoder writes and the decoder reads. *)
Fixpoint coerce_from (copy : nat) (s : string) : string :=
  match s with
  | EmptyString => ""
  | String c s' =>
      match copy with
      | S k => String c (coerce_from k s')
      | O => if code c <? 128 then String c (coerce_from O s')
             else match utf8_width s with
                  | Some n => String c (coerce_from (Nat.pred n) s')
                  | None => rune_error +:+ coerce_from O s'
                  end
      end
  end.

Definition coerce_utf8 (s : string) : string := coerce_from 0 s.

Lemma coerce_valid s : valid_utf8 s = true -> coerce_utf8 s = s.
Proof.
  unfold valid_utf8, coerce_utf8. generalize 0%nat. induction s as [|c s IH]; [done|].
  intros [|k]; cbn [utf8_from coerce_from]; [|intros H; by rewrite IH].
  destruct (code c <? 128); [intros H; by rewrite IH|].
  destruct (utf8_width _) as [n|]; [intros H; by rewrite IH|done].
Qed.

Lemma coerce_empty s : is_empty (coerce_utf8 s) = is_empty s.
Proof.
  destruct s as [|c s]; [done|]. unfold coerce_utf8. cbn [coerce_from].
  destruct (code c <? 128); [done|]. by destruct (utf8_width _).
Qed.

Lemma string_app_cons c (s t : string) : String c s +:+ t = String c (s +:+ t).
Proof. done. Qed.

(** Ascii facts are checked on the 256 bytes. *)
Ltac all_bytes c := destruct c as [[] [] [] [] [] [] [] []].

Lemma unquote_ascii c t :
  code c <? 128 = true ->
  unquote 0 (encode_ascii c +:+ t) = prepend (String c "") (unquote 0 t).
Proof. all_bytes c; intros H; first [discriminate H | reflexivity]. Qed.

(** The width of a sequence is read off its own bytes, so it is the same when
    the text after them changes. *)
Lemma utf8_width_app s n t :
  utf8_width s = Some n ->
  exists p s', s = p +:+ s' /\ String.length p = n /\
    utf8_width (p +:+ t) = Some n.
Proof.
  destruct s as [|a [|b [|c [|d s]]]]; simpl; try done;
    repeat case_match; intros [= <-].
  all: first
    [ exists (String a (String b "")); eexists; split; [reflexivity|];
      split; [done|]; simpl; rewrite ?string_app_cons; simpl
    | exists (String a (String b (String c ""))); eexists; split; [reflexivity|];
      split; [done|]; simpl
    | exists (String a (String b (String c (String d "")))); eexists;
      split; [reflexivity|]; split; [done|]; simpl ].
  all: repeat match goal with H : ?b = _ |- context [?b] => rewrite H end; try done.
Qed.

Lemma encode_copy p s :
  encode_body (String.length p) 0 (p +:+ s) = p +:+ encode_body 0 0 s.
Proof.
  induction p as [|c p IH]; [done|].
  rewrite !string_app_cons. simpl. by rewrite IH.
Qed.

Lemma prepend_nil o : prepend "" o = o.
Proof. by destruct o as [[]|]. Qed.

Lemma prepend_app p q o : prepend p (prepend q o) = prepend (p +:+ q) o.
Proof. destruct o as [[]|]; [|done]. simpl. by rewrite string_app_assoc. Qed.

Lemma unquote_copy p t :
  unquote (String.length p) (p +:+ t) = prepend p (unquote 0 t).
Proof.
  induction p as [|c p IH]; [by rewrite prepend_nil|].
  rewrite string_app_cons. simpl. by rewrite IH, prepend_app.
Qed.

Lemma utf8_copy p s : utf8_from (String.length p) (p +:+ s) = utf8_from 0 s.
Proof. induction p as [|c p IH]; [done|]. rewrite string_app_cons. simpl. done. Qed.

Lemma coerce_copy p s : coerce_from (String.length p) (p +:+ s) = p +:+ coerce_from 0 s.
Proof.
  induction p as [|c p IH]; [done|]. rewrite !string_app_cons. simpl. by rewrite IH.
Qed.

Lemma string_length_app (s t : string) :
  String.length (s +:+ t) = (String.length s + String.length t)%nat.
Proof. induction s as [|c s IH]; [done|]. rewrite string_app_cons. simpl. by rewrite IH. Qed.

Lemma line_separator_inv s e :
  line_separator s = Some e ->
  exists a b c s', s = String a (String b (String c s')) /\
    utf8_width s = Some 3%nat /\
    (forall t, unquote 0 (e +:+ t) =
       prepend (String a (String b (String c ""))) (unquote 0 t)).
Proof.
  assert (forall a n, (code a =? n) = true -> a = byte n) as Hbyte.
  { intros a n Hn%N.eqb_eq. unfold byte, code in *. subst n.
    by rewrite ascii_N_embedding. }
  destruct s as [|a [|b [|c s']]]; simpl; try done.
  destruct (code a =? 226) eqn:Ea, (code b =? 128) eqn:Eb; simpl; try done.
  apply Hbyte in Ea, Eb. subst a b.
  destruct (code c =? 168) eqn:Ec; [|destruct (code c =? 169) eqn:Ed; [|done]];
    intros [= <-]; exists (byte 226), (byte 128), c, s'; (split; [done|]).
  - apply Hbyte in Ec. by subst c.
  - apply Hbyte in Ed. by subst c.
Qed.

Lemma string_app_inv p q s t :
  p +:+ s = q +:+ t -> String.length q = String.length p -> p = q /\ s = t.
Proof.
  revert q. induction p as [|c p IH]; intros [|d q]; try done.
  rewrite !string_app_cons. intros [= -> H] [= Hl]. by destruct (IH q H Hl) as [-> ->].
Qed.

Lemma utf8_width_pos s n : utf8_width s = Some n -> (2 <= n)%nat.
Proof.
  destruct s as [|a [|b [|c [|d s]]]]; simpl; try done; repeat case_match;
    intros [= <-]; lia.
Qed.

#[local] Arguments utf8_width : simpl never.

Lemma coerce_cons c s :
  coerce_utf8 (String c s) =
  if code c <? 128 then String c (coerce_utf8 s)
  else match utf8_width (String c s) with
       | Some n => String c (coerce_from (Nat.pred n) s)
       | None => rune_error +:+ coerce_utf8 s
       end.
Proof. done. Qed.

Lemma encode_cons c s :
  encode_body 0 0 (String c s) =
  if code c <? 128 then encode_ascii c +:+ encode_body 0 0 s
  else match line_separator (String c s), utf8_width (String c s) with
       | Some e, _ => e +:+ encode_body O 2 s
       | None, Some n => String c (encode_body (Nat.pred n) O s)
       | None, None => "\ufffd" +:+ encode_body O O s
       end.
Proof. done. Qed.

Lemma unquote_rune_error t : unquote 0 ("\ufffd" +:+ t) = prepend rune_error (unquote 0 t).
Proof. done. Qed.

(** The body of an encoded string decodes to the string, coerced to UTF-8, and
    leaves what follows its closing quote. *)
Lemma unquote_encode s rest :
  unquote 0 (encode_body 0 0 s +:+ String dquote rest) = Some (coerce_utf8 s, rest).
Proof.
  remember (String.length s) as n eqn:Hn.
  assert (String.length s <= n)%nat as Hle by lia. clear Hn.
  revert s Hle. induction n as [|n IH]; intros s Hle.
  { destruct s; [done|simpl in Hle; lia]. }
  destruct s as [|c s]; [done|]. simpl in Hle. rewrite encode_cons, coerce_cons.
  destruct (code c <? 128) eqn:Hc.
  { rewrite <- string_app_assoc, unquote_ascii by done. by rewrite IH by lia. }
  destruct (line_separator (String c s)) as [e|] eqn:El.
  { apply line_separator_inv in El as (c' & b & d & s' & Heq & Hw & He).
    injection Heq as <- ->. rewrite Hw, <- string_app_assoc, He. simpl in *.
    rewrite IH by lia. done. }
  destruct (utf8_width (String c s)) as [w|] eqn:Ew.
  2: { by rewrite <- string_app_assoc, unquote_rune_error, IH by lia. }
  destruct (utf8_width_app _ _ (encode_body 0 0 s +:+ String dquote rest) Ew)
    as (p & s' & Heq & Hlen & _).
  destruct p as [|c' p]; [simpl in Hlen; apply utf8_width_pos in Ew; lia|].
  rewrite string_app_cons in Heq. injection Heq as <- ->.
  simpl in Hlen. subst w. simpl Nat.pred.
  rewrite coerce_copy, encode_copy, string_app_cons, <- string_app_assoc.
  destruct (utf8_width_app _ _ (encode_body 0 0 s' +:+ String dquote rest) Ew)
    as (q & s'' & Heq & Hlen & Hw).
  destruct q as [|c' q]; [done|]. injection Hlen as Hlen.
  rewrite !string_app_cons in Heq, Hw. injection Heq as <- Heq.
  apply string_app_inv in Heq as [<- <-]; [|done].
  rewrite string_length_app in Hle.
  simpl. rewrite Hc. replace (Ascii.eqb c dquote) with false;
    [replace (Ascii.eqb c backslash) with false|].
  - rewrite Hw. simpl. replace (code c <? 32) with false.
    { rewrite unquote_copy, IH by lia. done. }
    symmetry. apply N.ltb_ge in Hc. apply N.ltb_ge. lia.
  - symmetry. apply Ascii.eqb_neq. intros ->. done.
  - symmetry. apply Ascii.eqb_neq. intros ->. done.
Qed.

(** A member name or value between its quotes. *)
Lemma unquote_string s rest :
  exists t, encode_string s +:+ rest = String dquote t /\
    unquote 0 t = Some (coerce_utf8 s, rest).
Proof.
  eexists. split; [unfold encode_string; by rewrite string_app_cons|].
  rewrite <- string_app_assoc, string_app_cons. apply unquote_encode.
Qed.

(** A member as it is read back. *)
Definition coerce_member (kv : string * string) : string * string :=
  (coerce_utf8 kv.1, coerce_utf8 kv.2).

Lemma encode_members_cons k v ms rest :
  ms <> [] ->
  encode_members ((k, v) :: ms) +:+ rest =
  encode_string k +:+ (":" +:+ (encode_string v +:+ ("," +:+ (encode_members ms +:+ rest)))).
Proof. intros Hms. destruct ms; [done|]. simpl. by rewrite <- !string_app_assoc. Qed.

Lemma value_string f s rest :
  value (S f) (encode_string s +:+ rest) = Some (JString (coerce_utf8 s), rest).
Proof.
  destruct (unquote_string s rest) as (t & -> & Ht).
  simpl. by rewrite Ht.
Qed.

Lemma members_step f k v t :
  members (S (S f)) (encode_string k +:+ (":" +:+ (encode_string v +:+ t))) =
  match skip_space t with
  | EmptyString => None
  | String e r =>
      if Ascii.eqb e "}" then Some ([(coerce_utf8 k, JString (coerce_utf8 v))], r)
      else if Ascii.eqb e "," then
        '(ms, r') ← members (S f) r;
        Some ((coerce_utf8 k, JString (coerce_utf8 v)) :: ms, r')
      else None
  end.
Proof.
  change (":" +:+ (encode_string v +:+ t)) with (String ":" (encode_string v +:+ t)).
  destruct (unquote_string k (String ":" (encode_string v +:+ t))) as (u & -> & Hu).
  remember (S f) as g eqn:Hg. simpl. rewrite Hu. simpl. subst g.
  by rewrite value_string.
Qed.

(** The members of a struct, up to the closing brace. *)
Lemma members_encode ms f rest :
  ms <> [] -> (length ms < f)%nat ->
  members f (encode_members ms +:+ String "}" rest) =
  Some ((fun kv => (kv.1, JString kv.2)) <$> (coerce_member <$> ms), rest).
Proof.
  revert f. induction ms as [|[k v] ms IH]; intros f Hne Hf; [done|].
  destruct f as [|[|f]]; simpl in Hf; [lia|lia|].
  destruct ms as [|kv ms].
  - change (encode_members [(k, v)]) with (encode_string k +:+ (":" +:+ encode_string v)).
    by rewrite <- !string_app_assoc, members_step.
  - rewrite encode_members_cons by done. rewrite members_step.
    change ("," +:+ (encode_members (kv :: ms) +:+ String "}" rest))
      with (String "," (encode_members (kv :: ms) +:+ String "}" rest)).
    simpl skip_space. cbv iota. simpl Ascii.eqb. cbv iota.
    rewrite IH; [done|done|simpl in *; lia].
Qed.

Lemma encode_members_length ms :
  (length ms <= String.length (encode_members ms))%nat.
Proof.
  induction ms as [|[k v] [|kv ms] IH]; [done|..].
  - simpl. lia.
  - change (encode_members ((k, v) :: kv :: ms)) with
      (encode_string k +:+ ":" +:+ encode_string v +:+ "," +:+ encode_members (kv :: ms)).
    rewrite !string_length_app. simpl in *. lia.
Qed.

Lemma encode_members_head ms rest :
  ms <> [] ->
  exists t, encode_members ms +:+ rest = String dquote t.
Proof.
  destruct ms as [|[k v] [|kv ms]]; [done|..]; intros _; eexists; reflexivity.
Qed.

(** An object of strings is nested once. *)
Lemma nesting_flat {A} (f : A -> string * string) l :
  nesting (JObject ((fun a => ((f a).1, JString (f a).2)) <$> l)) = 1.
Proof.
  change (1 + foldr (fun kv m => N.max (nesting (snd kv)) m) 0
    ((fun a => ((f a).1, JString (f a).2)) <$> l) = 1 + 0).
  f_equal. induction l as [|a l IH]; [done|]. exact (f_equal (N.max 0) IH).
Qed.

(** What [Marshal] prints, the parser reads back as the same members, coerced
    to UTF-8. *)
Lemma parse_Marshal ms :
  ms <> [] ->
  parse_document (Marshal ms) =
  Some (JObject ((fun kv => (kv.1, JString kv.2)) <$> (coerce_member <$> ms))).
Proof.
  intros Hne. unfold parse_document, Marshal.
  assert (length ms < String.length ("{" +:+ encode_members ms +:+ "}"))%nat as Hlen.
  { pose proof (encode_members_length ms). rewrite !string_length_app. simpl. lia. }
  remember (String.length ("{" +:+ encode_members ms +:+ "}")) as fuel.
  destruct (encode_members_head ms (String "}" "") Hne) as (t & Ht).
  pose proof (members_encode ms fuel "" Hne Hlen) as Hm. rewrite Ht in Hm.
  change ("{" +:+ encode_members ms +:+ "}") with
    (String "{" (encode_members ms +:+ String "}" "")).
  rewrite Ht.
  change (value (S fuel) (String "{" (String dquote t))) with
    ('(ms', r) ← members fuel (String dquote t); Some (JObject ms', r)).
  rewrite Hm. cbn [mbind option_bind]. by rewrite (nesting_flat id (coerce_member <$> ms)).
Qed.
