(* ===== verification/JsonFuel.v ===== *)
(** * The fuel of the JSON parser

    [value] takes fuel. Whatever it reads with any amount of fuel it also reads
    with the length of what it consumed, so the fuel that [Unmarshal] and
    [Decode] give it, the length of the text, never makes it refuse a text. *)

From S2P Require Import Prelude GoErrors Json.

Local Open Scope string_scope.
Local Open Scope nat_scope.

Abbreviation slen := String.length.

(** ** What the lexer consumes *)

Lemma skip_space_length s : slen (skip_space s) <= slen s.
Proof. induction s as [|c s IH]; simpl; [done|]. destruct (is_space c); simpl; lia. Qed.

Lemma prepend_Some p o v r : prepend p o = Some (v, r) -> exists v', o = Some (v', r).
Proof. destruct o as [[v' r']|]; [|done]. intros [= <- <-]. eauto. Qed.

Lemma unquote_length copy s v r : unquote copy s = Some (v, r) -> slen r < slen s.
Proof.
  remember (slen s) as n eqn:Hn. revert copy s v Hn.
  induction n as [n IH] using lt_wf_ind. intros copy s v Hn Hu.
  assert (forall copy' s' p, slen s' < slen s ->
    prepend p (unquote copy' s') = Some (v, r) -> slen r < n) as Hrec.
  { intros copy' s' p Hl (v' & Hv)%prepend_Some. subst n.
    etrans; [eapply (IH (slen s')); [exact Hl|reflexivity|exact Hv]|exact Hl]. }
  destruct s as [|c s1]; [done|]. simpl in Hn. simpl in Hu.
  repeat match type of Hu with
  | match ?x with _ => _ end = _ => destruct x eqn:?; try done; simplify_eq
  | (if ?x then _ else _) = _ => destruct x eqn:?; try done; simplify_eq
  end; first [eapply Hrec; [|exact Hu]; simpl; lia | simpl in *; lia].
Qed.

Lemma digits_length s d r : digits s = (d, r) -> slen d + slen r = slen s.
Proof.
  revert d. induction s as [|c s IH]; intros d; simpl; [by intros [= <- <-]|].
  destruct (is_digit c); [|by intros [= <- <-]].
  destruct (digits s) as [d' r']. intros [= <- <-]. simpl. by rewrite (IH d').
Qed.

Lemma digits1_length p s d r : digits1 p s = Some (d, r) -> slen r < slen s.
Proof.
  unfold digits1. destruct (digits s) as [[|c d'] r'] eqn:E; [done|].
  apply digits_length in E. simpl in E. intros [= <- <-]. lia.
Qed.

Lemma number_length s d r : number s = Some (d, r) -> slen r < slen s.
Proof.
  unfold number. intros H.
  destruct (match s with String c s' => if Ascii.eqb c "-" then ("-", s') else ("", s)
            | EmptyString => ("", s) end) as [sign s1] eqn:E1.
  assert (slen s1 <= slen s) as H1.
  { destruct s as [|c s']; [by simplify_eq|].
    destruct (Ascii.eqb c "-"); simplify_eq; simpl; lia. }
  destruct (match s1 with String c s2 => if Ascii.eqb c "0" then Some (sign +:+ "0", s2)
              else digits1 sign s1 | EmptyString => None end) as [[d1 r1]|] eqn:E2; [|done].
  simpl in H.
  assert (slen r1 < slen s1) as H2.
  { destruct s1 as [|c s2]; [done|].
    destruct (Ascii.eqb c "0"); [simplify_eq; simpl; lia|by eapply digits1_length]. }
  destruct (match r1 with String c s2 => if Ascii.eqb c "." then digits1 (d1 +:+ ".") s2
              else Some (d1, r1) | EmptyString => Some (d1, r1) end) as [[d2 r2]|] eqn:E3; [|done].
  simpl in H.
  assert (slen r2 <= slen r1) as H3.
  { destruct r1 as [|c s2]; [by simplify_eq|]. destruct (Ascii.eqb c "."); [|by simplify_eq].
    apply digits1_length in E3. simpl. lia. }
  destruct r2 as [|c s2]; [simplify_eq; simpl in *; lia|].
  destruct (Ascii.eqb c "e" || Ascii.eqb c "E"); [|simplify_eq; simpl in *; lia].
  destruct s2 as [|g s3]; [done|].
  destruct (Ascii.eqb g "+" || Ascii.eqb g "-"); apply digits1_length in H; simpl in *; lia.
Qed.

Lemma literal_length p s r : literal p s = Some r -> slen r <= slen s.
Proof.
  revert s. induction p as [|a p IH]; intros s; simpl; [by intros [= ->]|].
  destruct s as [|b s]; [done|]. destruct (Ascii.eqb a b); [|done].
  intros H%IH. simpl. lia.
Qed.

(** ** What the parser consumes, and that this much fuel is enough *)

(** [enough p s a r]: [p] reads [a] from [s] with any fuel that is at least the
    number of bytes before the rest [r], of which there is one. *)
Definition enough {A} (p : nat -> string -> option (A * string)) (s : string) (a : A)
    (r : string) : Prop :=
  slen r < slen s /\ forall n, slen s - slen r <= n -> p n s = Some (a, r).

(** One level of the grammar, when [n] is enough for what is below. *)
Section Level.
Variable n : nat.
Hypothesis IHv : forall s v r, value n s = Some (v, r) -> enough value s v r.
Hypothesis IHm : forall s ms r, members n s = Some (ms, r) -> enough members s ms r.
Hypothesis IHe : forall s vs r, elements n s = Some (vs, r) -> enough elements s vs r.

(** A value that is not composed ends within the text. *)
Lemma flat_value_length c s1 v r :
  (if Ascii.eqb c "t" then r' ← literal "rue" s1; Some (JBool true, r')
   else if Ascii.eqb c "f" then r' ← literal "alse" s1; Some (JBool false, r')
   else if Ascii.eqb c "n" then r' ← literal "ull" s1; Some (JNull, r')
   else '(d, r') ← number (String c s1); Some (JNumber d, r')) = Some (v, r) ->
  slen r <= slen s1.
Proof.
  intros H.
  assert (forall (p : string) (a : json),
    (r' ← literal p s1; Some (a, r')) = Some (v, r) -> slen r <= slen s1) as Hlit.
  { intros p a. destruct (literal p s1) as [r'|] eqn:El; [|done].
    intros [= _ <-]. by eapply literal_length. }
  destruct (Ascii.eqb c "t"); [by eapply Hlit|].
  destruct (Ascii.eqb c "f"); [by eapply Hlit|].
  destruct (Ascii.eqb c "n"); [by eapply Hlit|].
  destruct (number (String c s1)) as [[d r']|] eqn:El; [|done].
  apply number_length in El. simpl in El. injection H as _ <-. lia.
Qed.

Lemma enough_value s v r : value (S n) s = Some (v, r) -> enough value s v r.
Proof.
  intros H. cbn [value] in H. pose proof (skip_space_length s) as Hs.
  destruct (skip_space s) as [|c s1] eqn:Es; [done|]. simpl in Hs.
  pose proof (skip_space_length s1) as Hs1.
  assert (forall (a : json) (r' : string), slen r' <= slen s1 ->
    (forall f, slen s - slen r' <= S f -> value (S f) s = Some (a, r')) ->
    enough value s a r') as Hen.
  { intros a r' Hr' Hv. split; [lia|]. intros [|f] Hf; [lia|]. by apply Hv. }
  destruct (Ascii.eqb c dquote) eqn:E1.
  { destruct (unquote 0 s1) as [[u r']|] eqn:Eu; [|done]. simplify_eq/=.
    pose proof (unquote_length _ _ _ _ Eu). apply Hen; [lia|]. intros f _. cbn [value].
    by rewrite Es, E1, Eu. }
  destruct (Ascii.eqb c "{") eqn:E2.
  { destruct (skip_space s1) as [|d s2] eqn:Es1; [done|]. simpl in Hs1.
    destruct (Ascii.eqb d "}") eqn:Ed; [simplify_eq|].
    - apply Hen; [lia|]. intros f _. cbn [value]. by rewrite Es, E1, E2, Es1, Ed.
    - destruct (members n s1) as [[ms r']|] eqn:Em; [|done]. simplify_eq/=.
      destruct (IHm _ _ _ Em) as [Hl Hen']. apply Hen; [lia|]. intros f Hf. cbn [value].
      by rewrite Es, E1, E2, Es1, Ed, Hen' by lia. }
  destruct (Ascii.eqb c "[") eqn:E3.
  { destruct (skip_space s1) as [|d s2] eqn:Es1; [done|]. simpl in Hs1.
    destruct (Ascii.eqb d "]") eqn:Ed; [simplify_eq|].
    - apply Hen; [lia|]. intros f _. cbn [value]. by rewrite Es, E1, E2, E3, Es1, Ed.
    - destruct (elements n s1) as [[vs r']|] eqn:Em; [|done]. simplify_eq/=.
      destruct (IHe _ _ _ Em) as [Hl Hen']. apply Hen; [lia|]. intros f Hf. cbn [value].
      by rewrite Es, E1, E2, E3, Es1, Ed, Hen' by lia. }
  pose proof (flat_value_length c s1 v r H) as Hr. apply Hen; [done|]. intros f _. cbn [value].
  rewrite Es, E1, E2, E3. exact H.
Qed.

Lemma enough_members s ms r : members (S n) s = Some (ms, r) -> enough members s ms r.
Proof.
  intros H. cbn [members] in H. pose proof (skip_space_length s) as Hs.
  destruct (skip_space s) as [|c s1] eqn:Es; [done|]. simpl in Hs.
  destruct (negb (Ascii.eqb c dquote)) eqn:E1; [done|].
  destruct (unquote 0 s1) as [[k r1]|] eqn:Eu; [|done]. simpl in H.
  pose proof (unquote_length _ _ _ _ Eu) as Hu. pose proof (skip_space_length r1) as Hr1.
  destruct (skip_space r1) as [|d r2] eqn:Er1; [done|]. simpl in Hr1.
  destruct (negb (Ascii.eqb d ":")) eqn:E2; [done|].
  destruct (value n r2) as [[v r3]|] eqn:Ev; [|done]. simpl in H.
  destruct (IHv _ _ _ Ev) as [Hl Hv]. pose proof (skip_space_length r3) as Hr3.
  destruct (skip_space r3) as [|e r4] eqn:Er3; [done|]. simpl in Hr3.
  destruct (Ascii.eqb e "}") eqn:E3.
  { simplify_eq/=. split; [lia|]. intros [|f] Hf; [lia|]. cbn [members].
    rewrite Es, E1, Eu. simpl. rewrite Er1, E2, Hv by lia. simpl. by rewrite Er3, E3. }
  destruct (Ascii.eqb e ",") eqn:E4; [|done].
  destruct (members n r4) as [[ms' r5]|] eqn:Em; [|done]. simplify_eq/=.
  destruct (IHm _ _ _ Em) as [Hl' Hm]. split; [lia|]. intros [|f] Hf; [lia|]. cbn [members].
  rewrite Es, E1, Eu. simpl. rewrite Er1, E2, Hv by lia. simpl.
  by rewrite Er3, E3, E4, Hm by lia.
Qed.

Lemma enough_elements s vs r : elements (S n) s = Some (vs, r) -> enough elements s vs r.
Proof.
  intros H. cbn [elements] in H.
  destruct (value n s) as [[v r1]|] eqn:Ev; [|done]. simpl in H.
  destruct (IHv _ _ _ Ev) as [Hl Hv]. pose proof (skip_space_length r1) as Hr1.
  destruct (skip_space r1) as [|e r2] eqn:Er1; [done|]. simpl in Hr1.
  destruct (Ascii.eqb e "]") eqn:E3.
  { simplify_eq/=. split; [lia|]. intros [|f] Hf; [lia|]. cbn [elements].
    rewrite Hv by lia. simpl. by rewrite Er1, E3. }
  destruct (Ascii.eqb e ",") eqn:E4; [|done].
  destruct (elements n r2) as [[vs' r3]|] eqn:Em; [|done]. simplify_eq/=.
  destruct (IHe _ _ _ Em) as [Hl' Hm]. split; [lia|]. intros [|f] Hf; [lia|]. cbn [elements].
  rewrite Hv by lia. simpl. by rewrite Er1, E3, E4, Hm by lia.
Qed.
End Level.

Lemma enough_fuel n :
  (forall s v r, value n s = Some (v, r) -> enough value s v r) /\
  (forall s ms r, members n s = Some (ms, r) -> enough members s ms r) /\
  (forall s vs r, elements n s = Some (vs, r) -> enough elements s vs r).
Proof.
  induction n as [|n (IHv & IHm & IHe)]; [done|].
  split_and!; [by apply enough_value|by apply enough_members|by apply enough_elements].
Qed.

(** The parser refuses no text for want of fuel. *)
Lemma value_fuel s v r :
  (exists fuel, value fuel s = Some (v, r)) <-> value (S (slen s)) s = Some (v, r).
Proof.
  split; [|by eauto]. intros (fuel & H).
  destruct (proj1 (enough_fuel fuel) s v r H) as [_ Hv]. apply Hv. lia.
Qed.

Section Properties.
(** The parser terminates with the answer: a document is accepted, with this value,
    exactly if some number of steps of the grammar reads it, only space follows
    and it is not nested too deep; the length of the text is always fuel enough. *)
Theorem parse_document_complete s v :
  parse_document s = Some v <->
  exists fuel r, value fuel s = Some (v, r) /\ skip_space r = EmptyString /\
    (nesting v <= maxNestingDepth)%N.
Proof.
  unfold parse_document. split.
  - destruct (value (S (slen s)) s) as [[v' r]|] eqn:E; [|done]. simpl.
    destruct (is_empty (skip_space r)) eqn:Hr; [|done]. simpl.
    destruct (N.leb_spec (nesting v') maxNestingDepth); [|done]. intros [= ->].
    apply is_empty_true in Hr. eauto 6.
  - intros (fuel & r & Hv & Hr & Hn%N.leb_le). assert (value (S (slen s)) s = Some (v, r)) as ->
      by (apply value_fuel; eauto). cbn [mbind option_bind]. by rewrite Hr, Hn.
Qed.
End Properties.
