(* ===== verification/Wire.v ===== *)
(** * internal/notification/commands.go: the messages on the wire

    The three JSON bodies exchanged over the broker. [Codec] is what the
    publishers and the consumers rely on: what is marshaled is read back. *)

From S2P Require Import Prelude GoErrors Tables Json.

Local Open Scope string_scope.

Record ConfirmationRequest := mkConfirmationRequest {
  cr_SagaID : string; cr_To : string; cr_ConfirmURL : string }.
Record ReleaseRequest := mkReleaseRequest {
  rr_To : string; rr_Repo : string; rr_Tag : string; rr_UnsubscribeURL : string }.
Record SagaReply := mkSagaReply { sr_SagaID : string; sr_Status : string }.

Definition SagaStatusSent : string := "sent".
Definition SagaStatusFailed : string := "failed".

(** ** The interface *)

Class Codec (A : Type) := {
  members_of : A -> list (string * string);
  unmarshal : string -> result A;
  coerced : A -> A;
  unmarshal_members : forall a ms,
    ms ≡ₚ members_of a ->
    forall body, parse_document body = Some (JObject (prod_map id JString <$> ms)) ->
    unmarshal body = Ok a;
  members_keys : forall a, NoDup (fst <$> members_of a);
  members_some : forall a, members_of a <> [];
  members_coerced : forall a, coerce_member <$> members_of a = members_of (coerced a) }.

Definition marshal {A} `{Codec A} (a : A) : string := Marshal (members_of a).

Lemma parse_marshal {A} `{Codec A} (a : A) :
  parse_document (marshal a) =
  Some (JObject (prod_map id JString <$> members_of (coerced a))).
Proof.
  unfold marshal. rewrite parse_Marshal, members_coerced by apply members_some. done.
Qed.

(** What is marshaled is read back, its strings coerced to UTF-8. *)
Lemma unmarshal_marshal {A} `{Codec A} (a : A) : unmarshal (marshal a) = Ok (coerced a).
Proof. apply (unmarshal_members (coerced a) (members_of (coerced a))); [done|apply parse_marshal]. Qed.

(** ** Decoding a struct whose keys are given once, in any order *)

Definition assoc (k : string) (ms : list (string * string)) : string :=
  default "" (list_to_map (M := gmap string string) ms !! k).

Lemma assoc_perm k ms ms' :
  NoDup (fst <$> ms) -> ms ≡ₚ ms' -> assoc k ms = assoc k ms'.
Proof.
  intros Hnd Hp. unfold assoc. f_equal.
  by rewrite (list_to_map_proper (M := gmap string) ms ms').
Qed.

Lemma field_of_exact names k : k ∈ names -> field_of names k = Some k.
Proof.
  intros Hk. unfold field_of. destruct (List.find (String.eqb k) names) as [n|] eqn:E.
  - apply List.find_some in E as [_ E]. apply String.eqb_eq in E. by subst.
  - apply list_elem_of_In in Hk. eapply List.find_none in E; [|done].
    by rewrite String.eqb_refl in E.
Qed.

Lemma field_value_assoc names n ms :
  Forall (fun kv => kv.1 ∈ names) ms -> NoDup (fst <$> ms) ->
  forall cur, field_value names n (prod_map id JString <$> ms) cur =
    Some (default cur (list_to_map (M := gmap string string) ms !! n)).
Proof.
  intros Hin. induction Hin as [|[k v] ms Hk Hms IH]; simpl; intros Hnd cur.
  { by rewrite lookup_empty. }
  apply NoDup_cons in Hnd as [Hfresh Hnd].
  rewrite field_of_exact by done. destruct (decide (Some k = Some n)) as [[= ->]|Hne].
  - rewrite IH, lookup_insert_eq by done. simpl.
    rewrite not_elem_of_list_to_map_1; [done|]. done.
  - rewrite IH by done. rewrite lookup_insert_ne; [done|].
    intros ->. by apply Hne.
Qed.

Lemma decode_struct_assoc names ms :
  Forall (fun kv => kv.1 ∈ names) ms -> NoDup (fst <$> ms) ->
  decode_struct names (JObject (prod_map id JString <$> ms)) =
  Ok ((fun n => assoc n ms) <$> names).
Proof.
  intros Hin Hnd. unfold decode_struct.
  rewrite (proj2 (mapM_Some (fun n => field_value names n
    (prod_map id JString <$> ms) "") names ((fun n => assoc n ms) <$> names))); [done|].
  apply Forall2_fmap_r, Forall_Forall2_diag, Forall_forall. intros n _.
  by rewrite field_value_assoc.
Qed.

(** Decoding any order of the members [base], which have distinct known keys. *)
Lemma Unmarshal_perm names base ms body :
  Forall (fun kv => kv.1 ∈ names) base -> NoDup (fst <$> base) -> ms ≡ₚ base ->
  parse_document body = Some (JObject (prod_map id JString <$> ms)) ->
  Unmarshal names body = Ok ((fun n => assoc n base) <$> names).
Proof.
  intros Hin Hnd Hp Hbody. unfold Unmarshal. rewrite Hbody.
  rewrite decode_struct_assoc.
  - f_equal. apply list_fmap_ext. intros i n _. symmetry. by apply assoc_perm.
  - by rewrite Hp.
  - by rewrite Hp.
Qed.

(** ** The three messages *)

(** The field tags, and [omitempty] on the saga id. *)
Definition confirmation_members (r : ConfirmationRequest) : list (string * string) :=
  (if is_empty (cr_SagaID r) then [] else [("saga_id", cr_SagaID r)]) ++
  [("to", cr_To r); ("confirm_url", cr_ConfirmURL r)].
Definition release_members (r : ReleaseRequest) : list (string * string) :=
  [("to", rr_To r); ("repo", rr_Repo r); ("tag", rr_Tag r);
   ("unsubscribe_url", rr_UnsubscribeURL r)].
Definition reply_members (r : SagaReply) : list (string * string) :=
  [("saga_id", sr_SagaID r); ("status", sr_Status r)].

Definition decode_confirmation (body : string) : result ConfirmationRequest :=
  match Unmarshal ["saga_id"; "to"; "confirm_url"] body with
  | Ok [s; t; u] => Ok (mkConfirmationRequest s t u)
  | Ok _ => Err type_error
  | Err e => Err e
  end.
Definition decode_release (body : string) : result ReleaseRequest :=
  match Unmarshal ["to"; "repo"; "tag"; "unsubscribe_url"] body with
  | Ok [t; r; g; u] => Ok (mkReleaseRequest t r g u)
  | Ok _ => Err type_error
  | Err e => Err e
  end.
Definition decode_reply (body : string) : result SagaReply :=
  match Unmarshal ["saga_id"; "status"] body with
  | Ok [i; s] => Ok (mkSagaReply i s)
  | Ok _ => Err type_error
  | Err e => Err e
  end.

Ltac solve_known := repeat (constructor; [simpl; set_solver|]); try constructor.

#[export] Instance ConfirmationRequest_codec : Codec ConfirmationRequest.
Proof.
  refine {| members_of := confirmation_members; unmarshal := decode_confirmation;
    coerced := fun r => mkConfirmationRequest (coerce_utf8 (cr_SagaID r))
                          (coerce_utf8 (cr_To r)) (coerce_utf8 (cr_ConfirmURL r)) |}.
  - intros [s t u] ms Hp body Hbody. unfold decode_confirmation.
    rewrite (Unmarshal_perm _ (confirmation_members (mkConfirmationRequest s t u)) ms);
      try done; unfold confirmation_members; simpl; destruct s; simpl;
      try done; try solve_known; solve_nodup.
  - intros [s t u]. unfold confirmation_members. simpl. destruct s; simpl; solve_nodup.
  - intros [s t u]. unfold confirmation_members. simpl. by destruct s.
  - intros [s t u]. unfold confirmation_members. cbn [cr_SagaID cr_To cr_ConfirmURL].
    rewrite coerce_empty. by destruct (is_empty s).
Defined.

#[export] Instance ReleaseRequest_codec : Codec ReleaseRequest.
Proof.
  refine {| members_of := release_members; unmarshal := decode_release;
    coerced := fun r => mkReleaseRequest (coerce_utf8 (rr_To r)) (coerce_utf8 (rr_Repo r))
                          (coerce_utf8 (rr_Tag r)) (coerce_utf8 (rr_UnsubscribeURL r)) |}.
  - intros [t r g u] ms Hp body Hbody. unfold decode_release.
    rewrite (Unmarshal_perm _ (release_members (mkReleaseRequest t r g u)) ms);
      try done; unfold release_members; simpl; try done; try solve_known; solve_nodup.
  - intros [t r g u]. simpl. solve_nodup.
  - by intros [t r g u].
  - by intros [t r g u].
Defined.

#[export] Instance SagaReply_codec : Codec SagaReply.
Proof.
  refine {| members_of := reply_members; unmarshal := decode_reply;
    coerced := fun r => mkSagaReply (coerce_utf8 (sr_SagaID r)) (coerce_utf8 (sr_Status r)) |}.
  - intros [i s] ms Hp body Hbody. unfold decode_reply.
    rewrite (Unmarshal_perm _ (reply_members (mkSagaReply i s)) ms);
      try done; unfold reply_members; simpl; try done; try solve_known; solve_nodup.
  - intros [i s]. simpl. solve_nodup.
  - by intros [i s].
  - by intros [i s].
Defined.

(** ** The property of the wire *)

(** C32: Round trip: each of the three messages is decoded to the struct that was
    encoded, with U+FFFD for every byte that is not UTF-8, hence to that very
    struct if its strings are UTF-8; and so is every other document with the
    same members in another order and spacing, such as the text that PostgreSQL
    gives back for a JSONB column. *)
Theorem wire_roundtrip :
  (forall c : ConfirmationRequest,
     unmarshal (marshal c) = Ok (coerced c) /\
     (valid_utf8 (cr_SagaID c) = true -> valid_utf8 (cr_To c) = true ->
      valid_utf8 (cr_ConfirmURL c) = true -> coerced c = c) /\
     forall ms body, ms ≡ₚ confirmation_members c ->
       parse_document body = Some (JObject (prod_map id JString <$> ms)) ->
       unmarshal body = Ok c) /\
  (forall r : ReleaseRequest,
     unmarshal (marshal r) = Ok (coerced r) /\
     (valid_utf8 (rr_To r) = true -> valid_utf8 (rr_Repo r) = true ->
      valid_utf8 (rr_Tag r) = true -> valid_utf8 (rr_UnsubscribeURL r) = true ->
      coerced r = r) /\
     forall ms body, ms ≡ₚ release_members r ->
       parse_document body = Some (JObject (prod_map id JString <$> ms)) ->
       unmarshal body = Ok r) /\
  (forall s : SagaReply,
     unmarshal (marshal s) = Ok (coerced s) /\
     (valid_utf8 (sr_SagaID s) = true -> valid_utf8 (sr_Status s) = true -> coerced s = s) /\
     forall ms body, ms ≡ₚ reply_members s ->
       parse_document body = Some (JObject (prod_map id JString <$> ms)) ->
       unmarshal body = Ok s).
Proof.
  split; [|split]; intros a; (split; [apply unmarshal_marshal|]);
    (split; [|intros ms body Hp Hb; exact (unmarshal_members a ms Hp body Hb)]);
    destruct a; simpl; intros; by rewrite !coerce_valid.
Qed.

Lemma wire_roundtrip_witness :
  let c := mkConfirmationRequest "s-1" "ann@example.com" "http://x/c?a=1&b=<2>" in
  unmarshal (marshal c) = Ok c /\
  unmarshal (Marshal [("to", cr_To c); ("confirm_url", cr_ConfirmURL c); ("saga_id", "s-1")])
    = Ok c.
Proof.
  intros c. destruct (proj1 wire_roundtrip c) as (H & Hv & _).
  split; [rewrite H, Hv by reflexivity; reflexivity|]. vm_compute. reflexivity.
Defined.
