(* ===== verification/Metrics.v ===== *)
(** * internal/metrics/metrics.go: the registry of collectors

    The collectors as the source declares them, their registration, and the
    lookup of a series by its label values, which panics when their number is
    not the declared one or one of them is not UTF-8. [counts w]: every series
    that was written is one of a registered collector. *)

From stdpp Require Import pretty.
From S2P Require Import Prelude GoErrors Tables Env Json.

Local Open Scope string_scope.

Inductive MetricKind := KCounter | KHistogram | KGauge.

Record Collector := mkCollector {
  m_Name : string; m_Kind : MetricKind; m_Labels : list string }.

#[export] Instance metric_kind_eq_dec : EqDecision MetricKind.
Proof. solve_decision. Defined.
#[export] Instance collector_eq_dec : EqDecision Collector.
Proof. solve_decision. Defined.

Definition HTTPRequestsTotal : Collector :=
  mkCollector "http_requests_total" KCounter ["method"; "path"; "status"].
Definition HTTPRequestDuration : Collector :=
  mkCollector "http_request_duration_seconds" KHistogram ["method"; "path"].
Definition SubscriptionsCreated : Collector :=
  mkCollector "subscriptions_created_total" KCounter [].
Definition SubscriptionsConfirmed : Collector :=
  mkCollector "subscriptions_confirmed_total" KCounter [].
Definition Unsubscribes : Collector := mkCollector "unsubscribes_total" KCounter [].
Definition ScannerRunsTotal : Collector := mkCollector "scanner_runs_total" KCounter [].
Definition ReleasesDetected : Collector := mkCollector "releases_detected_total" KCounter [].
Definition NotificationsSent : Collector := mkCollector "notifications_sent_total" KCounter [].
Definition ScannerCycleDuration : Collector :=
  mkCollector "scanner_cycle_duration_seconds" KHistogram [].
Definition ScannerLastRunTimestamp : Collector :=
  mkCollector "scanner_last_run_timestamp_seconds" KGauge [].
Definition ScannerErrorsTotal : Collector :=
  mkCollector "scanner_errors_total" KCounter ["stage"].
Definition GitHubAPICalls : Collector :=
  mkCollector "github_api_calls_total" KCounter ["endpoint"; "cache"].

(** [prometheus.MustRegister]: a name that is taken panics ([None]). *)
Fixpoint MustRegister (registered cs : list Collector) : option (list Collector) :=
  match cs with
  | [] => Some registered
  | c :: cs' =>
      if existsb (fun r => String.eqb (m_Name r) (m_Name c)) registered then None
      else MustRegister (app registered [c]) cs'
  end.

(** [init] of the package. *)
Definition init_metrics : option (list Collector) :=
  MustRegister []
    [HTTPRequestsTotal; HTTPRequestDuration; SubscriptionsCreated; SubscriptionsConfirmed;
     Unsubscribes; ScannerRunsTotal; ReleasesDetected; NotificationsSent;
     ScannerCycleDuration; ScannerLastRunTimestamp; ScannerErrorsTotal; GitHubAPICalls].

(** What [init] leaves in the default registry. *)
Definition registry : list Collector := default [] init_metrics.

(** [vec.WithLabelValues(vals...)]: the series, or a panic. *)
Definition WithLabelValues (c : Collector) (vals : list string) : option counter :=
  if (length vals =? length (m_Labels c))%nat && forallb valid_utf8 vals
  then Some (m_Name c, vals) else None.

(** A series [inc] or [observe] may write: one that a registered collector
    gives. (That a counter is incremented and a histogram observed is a matter of
    their Go types.) *)
Definition countable (k : counter) : Prop :=
  exists c, c ∈ registry /\ WithLabelValues c k.2 = Some k.

Lemma countable_by c k :
  c ∈ registry -> WithLabelValues c k.2 = Some k -> countable k.
Proof. intros. by exists c. Qed.

(** The registration does not panic, and every collector is in the registry. *)
Lemma init_registers : exists l, init_metrics = Some l /\ registry = l /\ NoDup (m_Name <$> l).
Proof.
  eexists. split; [reflexivity|]. split; [reflexivity|]. simpl. solve_nodup.
Qed.

(** The series of a collector with constant labels. *)
Ltac solve_countable c :=
  apply (countable_by c); [vm_compute; set_solver|vm_compute; reflexivity].

(** The typing of the counters: what every operation keeps. *)
Definition counts {X : Type} (w : World X) : Prop :=
  forall k n, w_metrics w !! k = Some n -> countable k.

(** ASCII text, such as a printed number, is a label value. *)
Lemma ascii_valid s : ascii_text s = true -> valid_utf8 s = true.
Proof.
  unfold valid_utf8. induction s as [|c s IH]; [done|]. simpl. unfold code.
  destruct (N_of_ascii c <? 128)%N; [exact IH|done].
Qed.

Lemma pretty_N_go_ascii x s : ascii_text s = true -> ascii_text (pretty_N_go x s) = true.
Proof.
  revert s. induction x as [x IH] using (well_founded_induction N.lt_wf_0). intros s Hs.
  destruct (decide (x = 0)%N) as [->|Hx]; [by rewrite pretty_N_go_0|].
  rewrite pretty_N_go_step by lia. apply IH; [apply N.div_lt; lia|]. simpl.
  unfold pretty_N_char. by repeat case_match.
Qed.

Lemma pretty_Z_ascii (z : Z) : ascii_text (pretty z) = true.
Proof.
  assert (forall x, ascii_text (pretty_N_go x "") = true) as H by (intros; by apply pretty_N_go_ascii).
  destruct z as [|p|p]; [done|exact (H (N.pos p))|exact (H (N.pos p))].
Qed.

Lemma pretty_Z_valid (z : Z) : valid_utf8 (pretty z) = true.
Proof. apply ascii_valid, pretty_Z_ascii. Qed.
