(* ===== verification/Notification.v ===== *)
(** * internal/notification: the publishers of the monolith

    [BrokerPublisher] turns a domain call into a routed, persistent AMQP
    message; [GRPCConfirmationSender] is the client of the notifier's RPC. *)

From S2P Require Import Prelude GoErrors Tables Env Logic GoStrings Json Wire.

Local Open Scope string_scope.

Definition ExchangeName : string := "notifications".
Definition RoutingConfirm : string := "confirmation".
Definition RoutingRelease : string := "release".
Definition RoutingSagaReply : string := "saga.reply".

(** The key the consumer deduplicates a release notification by. *)
Definition release_message_id (repo tag unsubscribeURL : string) : string :=
  "release:" +:+ repo +:+ ":" +:+ tag +:+ ":" +:+ path_Base unsubscribeURL.

Section Publishers.
Context {X : Type} `{!Env X}.
Local Abbreviation M := (GoM X).

(** [(p *BrokerPublisher) Publish]. *)
Definition Publish (routingKey messageID body : string) : M unit :=
  let msg := mkPublishing ExchangeName routingKey "application/json" true
               messageID body in
  ext_call (env_publish msg) (Some (EvPublish msg)).

(** [(p *BrokerPublisher) publish]: the payload is a struct of strings, which
    always marshals. *)
Definition publish {A} `{!Codec A} (routingKey messageID : string) (payload : A) : M unit :=
  Publish routingKey messageID (marshal payload).

(** [(p *BrokerPublisher) SendReleaseNotification]. *)
Definition SendReleaseNotification (to repo tag unsubscribeURL : string) : M unit :=
  publish RoutingRelease (release_message_id repo tag unsubscribeURL)
    (mkReleaseRequest to repo tag unsubscribeURL).

(** [(s *GRPCConfirmationSender) SendConfirmation]. *)
Definition SendConfirmation (email repo confirmURL : string) : M unit :=
  let req := mkSendConfirmationRequest email repo confirmURL in
  wrap "grpc send confirmation" (ext_call (env_grpc req) (Some (EvGrpc req))).

Lemma Publish_keeps P key mid body : keeps P (Publish key mid body).
Proof. apply keeps_ext_call. Qed.
Lemma SendReleaseNotification_keeps P to repo tag url :
  keeps P (SendReleaseNotification to repo tag url).
Proof. apply Publish_keeps. Qed.
Lemma SendConfirmation_keeps P email repo url :
  keeps P (SendConfirmation email repo url).
Proof. apply keeps_wrap, keeps_ext_call. Qed.
End Publishers.

#[export] Hint Resolve Publish_keeps SendReleaseNotification_keeps
  SendConfirmation_keeps : go_db.
