(* ===== verification/SagaMachine.v ===== *)
(** * The saga's state machine, and the specifications of its two updates

    The lifecycle documented in internal/orchestrator/saga.go as a step relation
    on states, lifted to tables ([saga_moves]); and what [UpdateState],
    [MarkFailed] and [GetByID] do, for the components that drive sagas. *)

From S2P Require Import Prelude GoErrors Tables Env Logic Schema.
From S2P Require Import SubStore SagaStore.

Local Open Scope Z_scope.

(** ** Transitions *)

Inductive transition : SagaState -> SagaState -> Prop :=
  | t_complete : transition StateSubscriptionCreated StateCompleted
  | t_compensate : transition StateSubscriptionCreated StateCompensating
  | t_again : transition StateCompensating StateCompensating
  | t_fail : transition StateCompensating StateFailed.

Definition terminal (st : SagaState) : bool := negb (resumable st).

Lemma terminal_stuck st st' : terminal st = true -> rtc transition st st' -> st' = st.
Proof. intros Ht. by destruct 1 as [|??? []]. Qed.

(** The identity of a saga, which no transition changes. *)
Definition saga_identity (sg : Saga) : string * Z * string * string * Z :=
  (saga_ID sg, saga_SubscriptionID sg, saga_Email sg, saga_Repo sg, saga_CreatedAt sg).

Definition saga_moves (l l' : list Saga) : Prop :=
  Forall2 (fun a b => saga_identity b = saga_identity a /\
                      rtc transition (saga_State a) (saga_State b)) l l'.

#[export] Instance saga_moves_preorder : PreOrder saga_moves.
Proof.
  split.
  - intros l. apply Forall_Forall2_diag, Forall_forall. by split.
  - intros l1 l2 l3 H12. revert l3.
    induction H12 as [|a b l1 l2 [Hid Hst] H12 IH]; intros l3 H23;
      inversion_clear H23 as [|? c ? l3' [Hid' Hst'] H23'];
      constructor; [|by apply IH].
    split; [congruence|by etrans].
Qed.

(** New sagas may have been added after the old ones, which only moved. *)
Definition sagas_grow (d d' : DB) : Prop :=
  exists l new, saga d' = app l new /\ saga_moves (saga d) l.

Lemma sagas_grow_moves d d' : saga_moves (saga d) (saga d') -> sagas_grow d d'.
Proof. intros H. exists (saga d'), []. by rewrite app_nil_r. Qed.

Lemma sagas_grow_same d d' : saga d' = saga d -> sagas_grow d d'.
Proof. intros H. apply sagas_grow_moves. by rewrite H. Qed.

#[export] Instance sagas_grow_preorder : PreOrder sagas_grow.
Proof.
  split; [intros d; by apply sagas_grow_same|].
  intros d1 d2 d3 (l1 & n1 & H1 & Hm1) (l2 & n2 & H2 & Hm2).
  rewrite H1 in Hm2. apply Forall2_app_inv_l in Hm2 as (k & m & Hk & Hm & ->).
  exists k, (app m n2). split; [by rewrite H2, app_assoc|]. by etrans.
Qed.

(** Setting the state of the rows with a key, when each may move to it. *)
Lemma saga_moves_update u st le now l :
  (forall sg, sg ∈ l -> saga_ID sg = u -> rtc transition (saga_State sg) st) ->
  saga_moves l (update_where (by_saga_id u) (set_state st le now) l).
Proof.
  intros Hst. apply Forall2_fmap_r, Forall_Forall2_diag, Forall_forall.
  intros sg Hsg. simpl. destruct (by_saga_id u sg) eqn:E; [|done].
  split; [done|]. apply Hst; [done|]. by apply String.eqb_eq.
Qed.

Lemma saga_moves_terminal l l' i sg :
  saga_moves l l' -> l !! i = Some sg -> terminal (saga_State sg) = true ->
  exists sg', l' !! i = Some sg' /\ saga_identity sg' = saga_identity sg /\
              saga_State sg' = saga_State sg.
Proof.
  intros Hm Hi Ht. eapply Forall2_lookup_l in Hm as (sg' & ? & ? & ?); [|done].
  exists sg'. repeat split; [done|done|]. by eapply terminal_stuck.
Qed.

(** The row with a key, in a table where it is unique. *)
Lemma saga_lookup_unique l u sg :
  NoDup (saga_ID <$> l) -> sg ∈ l -> saga_ID sg = u ->
  select_where (by_saga_id u) l = [sg].
Proof.
  intros Hnd Hin Hu. eapply (select_where_unique _ saga_ID u); try done.
  intros b. apply String.eqb_eq.
Qed.

Lemma update_saga_lookup u st le now l sg :
  sg ∈ l -> saga_ID sg = u ->
  set_state st le now sg ∈ update_where (by_saga_id u) (set_state st le now) l.
Proof.
  intros Hin Hu. apply elem_of_update_where. exists sg. split; [done|].
  unfold by_saga_id. by rewrite Hu, String.eqb_refl.
Qed.

(** ** The three operations *)

(** Nothing but the database and the environment changed. *)
Definition only_db {X : Type} (w w' : World X) : Prop :=
  w_tx w' = w_tx w /\ w_trace w' = w_trace w /\ w_metrics w' = w_metrics w.

#[export] Instance only_db_preorder {X : Type} : PreOrder (@only_db X).
Proof.
  split; [done|]. intros w1 w2 w3 (?&?&?) (?&?&?). repeat split; congruence.
Qed.

(** The last of two updates of the same saga wins. *)
Lemma update_state_twice u st1 le1 now1 st2 le2 now2 l :
  update_where (by_saga_id u) (set_state st2 le2 now2)
    (update_where (by_saga_id u) (set_state st1 le1 now1) l) =
  update_where (by_saga_id u) (set_state st2 le2 now2) l.
Proof.
  unfold update_where. rewrite <- list_fmap_compose. apply list_fmap_ext.
  intros i a _. simpl. destruct (by_saga_id u a) eqn:E; [|by rewrite E].
  assert (by_saga_id u (set_state st1 le1 now1 a) = true) as -> by done. done.
Qed.

Section Operations.
Context {X : Type} `{!Env X}.
Implicit Types (w : World X).

(** [saga_set u st le d d']: the state of saga [u] was set. *)
Definition saga_set (u : string) (st : SagaState) (d d' : DB) : Prop :=
  exists le now,
    d' = set_saga (update_where (by_saga_id u) (set_state st le now) (saga d)) d.

Definition sub_failed (id : Z) (d : DB) : DB :=
  set_subscriptions (update_where (by_id id) set_failed (subscriptions d)) d.

Lemma wp_UpdateState w id st le :
  wp (UpdateState id st le) (fun r w' => only_db w w' /\
    (w_db w' = w_db w \/
     exists u, pg_uuid id = Some u /\ saga_set u st (w_db w) (w_db w')) /\
    (r = Ok () -> exists u, pg_uuid id = Some u /\ saga_set u st (w_db w) (w_db w'))) w.
Proof.
  unfold UpdateState. apply wp_bind, wp_wrap.
  apply wp_db_stmt; intros; unfold update_state_stmt;
    destruct (pg_uuid id) as [u|] eqn:Hu; simpl;
    try (repeat split; try done; auto; fail).
  - case_match; [apply wp_throw|apply wp_ret]; (split; [done|]); simpl;
      (split; [right|intros ?; simplify_eq]); exists u; (split; [done|]); eexists _, now; done.
  - split; [done|]. split; [right|done]. exists u. split; [done|]. eexists _, now. done.
Qed.

(** On a database that answers, the update succeeds exactly on a saga. *)
Lemma wp_UpdateState_ok w id st le sg u :
  healthy_db X -> pg_uuid id = Some u -> sg ∈ saga (w_db w) -> saga_ID sg = u ->
  wp (UpdateState id st le) (fun r w' => r = Ok () /\ only_db w w' /\
    saga_set u st (w_db w) (w_db w')) w.
Proof.
  intros Hh Hu Hin Hid. unfold UpdateState. apply wp_bind, wp_wrap.
  apply wp_db_stmt_ok; [done|]. intros x now. unfold update_state_stmt. rewrite Hu. simpl.
  destruct (count_where (by_saga_id u) (saga (w_db w)) =? 0)%nat eqn:Hc.
  - exfalso. apply Nat.eqb_eq, count_where_zero with (a := sg) in Hc; [|done].
    unfold by_saga_id in Hc. by rewrite Hid, String.eqb_refl in Hc.
  - apply wp_ret. repeat split; try done. by eexists _, now.
Qed.

Lemma wp_MarkFailed w id :
  wp (MarkFailed id) (fun r w' => only_db w w' /\
    (w_db w' = w_db w \/ w_db w' = sub_failed id (w_db w)) /\
    (r = Ok () -> w_db w' = sub_failed id (w_db w) /\
                  exists s, s ∈ subscriptions (w_db w) /\ sub_ID s = id)) w.
Proof.
  unfold MarkFailed. apply wp_bind, wp_wrap.
  apply wp_db_stmt; intros; simpl; try (repeat split; try done; auto; fail).
  case_match eqn:Hn; [apply wp_throw|apply wp_ret];
    (split; [done|]); (split; [by right|]); [done|].
  intros _. split; [done|]. apply Nat.eqb_neq in Hn. unfold count_where in Hn.
  destruct (select_where _ _) as [|s l] eqn:E; [done|].
  assert (s ∈ s :: l) as Hin by set_solver. rewrite <- E in Hin.
  apply elem_of_select_where in Hin as [Hin Hid].
  exists s. split; [done|]. by apply Z.eqb_eq.
Qed.

Lemma wp_MarkFailed_ok w id s :
  healthy_db X -> s ∈ subscriptions (w_db w) -> sub_ID s = id ->
  wp (MarkFailed id) (fun r w' => r = Ok () /\ only_db w w' /\
    w_db w' = sub_failed id (w_db w)) w.
Proof.
  intros Hh Hin Hid. unfold MarkFailed. apply wp_bind, wp_wrap.
  apply wp_db_stmt_ok; [done|]. intros x now. simpl.
  destruct (count_where (by_id id) (subscriptions (w_db w)) =? 0)%nat eqn:Hc.
  - exfalso. apply Nat.eqb_eq, count_where_zero with (a := s) in Hc; [|done].
    unfold by_id in Hc. by rewrite Hid, Z.eqb_refl in Hc.
  - apply wp_ret. done.
Qed.

Lemma wp_GetByID `{!PgServerLaws env_server} w id :
  NoDup (saga_ID <$> saga (w_db w)) ->
  wp (GetByID id) (fun r w' => only_db w w' /\ w_db w' = w_db w /\
    match r with
    | Ok (Some sg) => sg ∈ saga (w_db w) /\ pg_uuid id = Some (saga_ID sg)
    | Ok None => forall sg, sg ∈ saga (w_db w) -> pg_uuid id <> Some (saga_ID sg)
    | Err _ => True
    end) w.
Proof.
  intros Hnd. unfold GetByID. apply wp_wrap.
  apply wp_db_stmt; intros; destruct (pg_uuid id) as [u|] eqn:Hu; simpl; try done.
  repeat split; try done.
  destruct (select_where (by_saga_id u) (saga (w_db w))) as [|sg l] eqn:E.
  - rewrite pg_scan_nil. simpl. intros sg Hin [= ->].
    by rewrite (saga_lookup_unique _ (saga_ID sg) sg) in E.
  - assert (sg ∈ sg :: l) as Hin by set_solver. rewrite <- E in Hin.
    apply elem_of_select_where in Hin as [Hin Hid]. apply String.eqb_eq in Hid.
    rewrite (saga_lookup_unique _ u sg) in E by done. simplify_eq.
    by rewrite pg_scan_singleton.
Qed.

Lemma wp_GetByID_found `{!PgServerLaws env_server} w id sg :
  healthy_db X -> NoDup (saga_ID <$> saga (w_db w)) ->
  sg ∈ saga (w_db w) -> pg_uuid id = Some (saga_ID sg) ->
  wp (GetByID id) (fun r w' => r = Ok (Some sg) /\ only_db w w' /\ w_db w' = w_db w) w.
Proof.
  intros Hh Hnd Hin Hu. unfold GetByID. apply wp_wrap, wp_db_stmt_ok; [done|].
  intros x now. rewrite Hu. simpl.
  rewrite (saga_lookup_unique _ (saga_ID sg) sg), pg_scan_singleton by done. done.
Qed.

(** ** The three updates of compensation C1, in order, as both the reply
    consumer and the synchronous transport make them *)
Definition c1 (id : string) (subID : Z) (reason e1 e2 e3 : string) : GoM X unit :=
  wrap e1 (UpdateState id StateCompensating reason) ;;
  wrap e2 (MarkFailed subID) ;;
  wrap e3 (UpdateState id StateFailed reason).

Definition c1_done (u : string) (subID : Z) (d d' : DB) : Prop :=
  exists le now, d' = sub_failed subID (set_saga
    (update_where (by_saga_id u) (set_state StateFailed le now) (saga d)) d).

(** Where it can stop: before, in [compensating] with the subscription failed
    or not, or done; without an error only when it is done. *)
Definition c1_partial (u : string) (subID : Z) (d d' : DB) : Prop :=
  d' = d \/
  (exists d1, saga_set u StateCompensating d d1 /\ (d' = d1 \/ d' = sub_failed subID d1)) \/
  c1_done u subID d d'.

Lemma c1_last u subID d d1 d' :
  saga_set u StateCompensating d d1 -> saga_set u StateFailed (sub_failed subID d1) d' ->
  c1_done u subID d d'.
Proof.
  intros (le1 & now1 & ->) (le2 & now2 & ->). exists le2, now2.
  unfold sub_failed, set_saga, set_subscriptions. simpl. by rewrite update_state_twice.
Qed.

Lemma wp_c1 w id u subID reason e1 e2 e3 :
  pg_uuid id = Some u ->
  wp (c1 id subID reason e1 e2 e3) (fun r w' => only_db w w' /\
    c1_partial u subID (w_db w) (w_db w') /\
    (r = Ok () -> c1_done u subID (w_db w) (w_db w'))) w.
Proof.
  intros Hu. unfold c1, c1_partial. apply wp_bind, wp_wrap.
  eapply wp_mono; [apply wp_UpdateState|]. intros [[]|e] w1 (Hf1 & Hdb1 & Hok1).
  2: { split; [done|]. split; [|done]. destruct Hdb1 as [-> |(u' & Hu' & Hset)]; [by left|].
       simplify_eq. right. left. eauto. }
  destruct (Hok1 eq_refl) as (u' & Hu' & Hset1). simplify_eq. clear Hdb1 Hok1.
  apply wp_bind, wp_wrap. eapply wp_mono; [apply wp_MarkFailed|].
  intros [[]|e] w2 (Hf2 & Hdb2 & Hok2).
  2: { split; [by etrans|]. split; [|done]. right. left. eauto. }
  destruct (Hok2 eq_refl) as [Hdb _]. clear Hdb2 Hok2.
  apply wp_wrap. eapply wp_mono; [apply wp_UpdateState|].
  rewrite Hdb. intros [[]|e] w3 (Hf3 & Hdb3 & Hok3);
    (split; [by do 2 (etrans; [done|])|]).
  - destruct (Hok3 eq_refl) as (u' & Hu' & Hset3). simplify_eq.
    enough (c1_done u subID (w_db w) (w_db w3)) by auto. by eapply c1_last.
  - split; [|done]. destruct Hdb3 as [-> |(u' & Hu' & Hset3)].
    + right. left. eauto.
    + simplify_eq. right. right. by eapply c1_last.
Qed.

Lemma wp_c1_ok w id u subID reason e1 e2 e3 sg s :
  healthy_db X -> pg_uuid id = Some u -> sg ∈ saga (w_db w) -> saga_ID sg = u ->
  s ∈ subscriptions (w_db w) -> sub_ID s = subID ->
  wp (c1 id subID reason e1 e2 e3) (fun r w' => r = Ok () /\ only_db w w' /\
    c1_done u subID (w_db w) (w_db w')) w.
Proof.
  intros Hh Hu Hin Hid Hs Hsid. unfold c1. apply wp_bind, wp_wrap.
  eapply wp_mono; [by eapply wp_UpdateState_ok|]. intros r w1 (-> & Hf1 & Hset1).
  apply wp_bind, wp_wrap. eapply wp_mono.
  { eapply (wp_MarkFailed_ok _ _ s); [done| |done]. by destruct Hset1 as (le & now & ->). }
  intros r w2 (-> & Hf2 & Hdb2). apply wp_wrap.
  destruct Hset1 as (le1 & now1 & Hdb1). eapply wp_mono.
  { eapply (wp_UpdateState_ok _ _ _ _ (set_state StateCompensating le1 now1 sg)); [done|done| |done].
    rewrite Hdb2, Hdb1. simpl. by apply update_saga_lookup. }
  intros r w3 (-> & Hf3 & Hset3). split; [done|]. split; [by do 2 (etrans; [done|])|].
  rewrite Hdb2, Hdb1 in Hset3. eapply c1_last; [|done]. by exists le1, now1.
Qed.
End Operations.
