(* ===== verification/Orchestrator.v ===== *)
(** * internal/orchestrator/orchestrator.go: the subscribe saga

    Step T1 writes the subscription, the saga and the confirmation command of
    the outbox in one transaction; with a synchronous sender (gRPC) it writes
    no command, calls the notifier and advances the saga from the answer. *)

From S2P Require Import Prelude GoErrors Tables Env Logic Script Schema Samples Json Wire.
From S2P Require Import SubStore SagaStore OutboxStore Notification SagaMachine.

Local Open Scope string_scope.
Local Open Scope Z_scope.

Section Orchestrator.
Context {X : Type} `{!Env X}.
Local Abbreviation M := (GoM X).

(** [confirmationSender]; [None] selects the broker transport. *)
Definition confirmationSender : Type := string -> string -> string -> M unit.
Variable sender : option confirmationSender.

Definition enqueueConfirmation (subID : Z) (email repo token confirmURL : string)
    : M unit :=
  sagaID ← uuid_NewString;
  let payload := marshal (mkConfirmationRequest sagaID email confirmURL) in
  let sg := mkSaga sagaID subID email repo StateSubscriptionCreated 0 None 0 0 in
  wrap "create saga" (SagaStore.CreateInTx OnTx sg) ;;
  wrap "enqueue confirmation command"
    (Enqueue OnTx sagaID RoutingConfirm ("confirm:" +:+ token) payload).

(** [createSubscriptionAndSaga]: [reactivateID = 0] means a new row. *)
Definition createSubscriptionAndSaga (email repo token : string) (reactivateID : Z)
    : M (Z * string) :=
  wrap "begin saga transaction" BeginTxx ;;
  defer_rollback (
    subID ← (if reactivateID =? 0
             then wrap "create subscription" (SubStore.CreateInTx OnTx email repo token)
             else wrap "reactivate subscription" (ReactivateInTx OnTx reactivateID token) ;;
                  mret reactivateID);
    sagaID ← uuid_NewString;
    let sg := mkSaga sagaID subID email repo StateSubscriptionCreated 0 None 0 0 in
    wrap "create saga" (SagaStore.CreateInTx OnTx sg) ;;
    wrap "commit saga transaction" Commit ;;
    mret (subID, sagaID)).

Definition compensateSync (sagaID : string) (subID : Z) : M unit :=
  let reason := "confirmation email failed (grpc)" in
  wrap ("mark saga " +:+ sagaID +:+ " compensating")
    (UpdateState sagaID StateCompensating reason) ;;
  wrap ("compensate saga " +:+ sagaID) (MarkFailed subID) ;;
  wrap ("fail saga " +:+ sagaID) (UpdateState sagaID StateFailed reason).

Definition dispatchSync (send : confirmationSender) (sagaID : string) (subID : Z)
    (email repo confirmURL : string) : M unit :=
  r ← try (send email repo confirmURL);
  match r with
  | Err _ => compensateSync sagaID subID
  | Ok _ => wrap ("complete saga " +:+ sagaID) (UpdateState sagaID StateCompleted "")
  end.

Definition startConfirmationSync (send : confirmationSender)
    (email repo token confirmURL : string) : M unit :=
  '(subID, sagaID) ← createSubscriptionAndSaga email repo token 0;
  dispatchSync send sagaID subID email repo confirmURL.

Definition reactivateConfirmationSync (send : confirmationSender)
    (subscriptionID : Z) (email repo token confirmURL : string) : M unit :=
  '(subID, sagaID) ← createSubscriptionAndSaga email repo token subscriptionID;
  dispatchSync send sagaID subID email repo confirmURL.

Definition StartConfirmation (email repo token confirmURL : string) : M unit :=
  match sender with
  | Some send => startConfirmationSync send email repo token confirmURL
  | None =>
      wrap "begin saga transaction" BeginTxx ;;
      defer_rollback (
        subID ← wrap "create subscription" (SubStore.CreateInTx OnTx email repo token);
        enqueueConfirmation subID email repo token confirmURL ;;
        wrap "commit saga transaction" Commit)
  end.

Definition ReactivateConfirmation (subscriptionID : Z)
    (email repo token confirmURL : string) : M unit :=
  match sender with
  | Some send =>
      reactivateConfirmationSync send subscriptionID email repo token confirmURL
  | None =>
      wrap "begin saga transaction" BeginTxx ;;
      defer_rollback (
        wrap "reactivate subscription" (ReactivateInTx OnTx subscriptionID token) ;;
        enqueueConfirmation subscriptionID email repo token confirmURL ;;
        wrap "commit saga transaction" Commit)
  end.
End Orchestrator.
Arguments confirmationSender X : clear implicits.

(** ** Step T1 is atomic *)

(** What a committed T1 leaves: the subscriptions are [subs'], one saga that
    waits for the notifier was added for subscription [subID], and one
    unpublished command that carries the saga and the confirmation link. *)
Definition t1_effect `{!PgServer} (subID : Z) (subs' : list Subscription)
    (email repo token confirmURL : string) (now : Z) (d d' : DB) : Prop :=
  exists sagaID u body,
    pg_uuid sagaID = Some u /\
    pg_jsonb (marshal (mkConfirmationRequest sagaID email confirmURL)) = Some body /\
    subscriptions d' = subs' /\ repositories d' = repositories d /\
    saga d' = app (saga d)
      [mkSaga u subID email repo StateSubscriptionCreated 0 None now now] /\
    outbox d' = app (outbox d)
      [mkOutboxMessage (outbox_id_seq d + 1) (Some u) RoutingConfirm
         ("confirm:" +:+ token) body now None].

(** The row T1 creates, and the rows it revives. *)
Definition created_row (d : DB) (email repo token : string) (now : Z) : Subscription :=
  mkSubscription (subscriptions_id_seq d + 1) email repo token false StatusPending now.
Definition reactivated_rows (id : Z) (token : string) (d : DB) : list Subscription :=
  update_where (fun s => by_id id s && has_status StatusFailed s)
    (set_reactivated token) (subscriptions d).

Lemma insert_subscription_ok `{!PgServer} now email repo token c d id d' :
  insert_subscription now email repo token c d = (Ok id, d') ->
  id = subscriptions_id_seq d + 1 /\
  subscriptions d' = app (subscriptions d)
    [mkSubscription id email repo token c StatusPending now] /\
  repositories d' = repositories d /\ outbox d' = outbox d /\ saga d' = saga d /\
  outbox_id_seq d' = outbox_id_seq d.
Proof. unfold insert_subscription. repeat case_match; by intros [= <- <-]. Qed.

Lemma insert_saga_ok `{!PgServer} now sg d d' :
  insert_saga now sg d = (Ok (), d') ->
  exists u, pg_uuid (saga_ID sg) = Some u /\
    saga d' = app (saga d) [mkSaga u (saga_SubscriptionID sg) (saga_Email sg)
      (saga_Repo sg) (saga_State sg) 0 None now now] /\
    subscriptions d' = subscriptions d /\ repositories d' = repositories d /\
    outbox d' = outbox d /\ outbox_id_seq d' = outbox_id_seq d.
Proof. unfold insert_saga. repeat case_match; intros [= <-]. eauto 10. Qed.

Lemma insert_outbox_ok `{!PgServer} now sid key mid payload d d' :
  insert_outbox now (Some sid) key mid payload d = (Ok (), d') ->
  exists u body, pg_uuid sid = Some u /\ pg_jsonb payload = Some body /\
    outbox d' = app (outbox d)
      [mkOutboxMessage (outbox_id_seq d + 1) (Some u) key mid body now None] /\
    subscriptions d' = subscriptions d /\ repositories d' = repositories d /\
    saga d' = saga d.
Proof.
  unfold insert_outbox. destruct (pg_uuid sid); simpl; repeat case_match;
    intros [= <-]; simplify_eq; eauto 10.
Qed.

Lemma reactivate_stmt_ok `{!PgServer} id token now d n d' :
  reactivate_stmt id token now d = (Ok n, d') -> n <> 0%nat ->
  subscriptions d' = reactivated_rows id token d /\
  n = count_where (fun s => by_id id s && has_status StatusFailed s) (subscriptions d) /\
  repositories d' = repositories d /\ outbox d' = outbox d /\ saga d' = saga d /\
  outbox_id_seq d' = outbox_id_seq d.
Proof. unfold reactivate_stmt. repeat case_match; by intros [= <- <-]. Qed.

Section T1.
Context {X : Type} `{!Env X} `{!PgServerLaws env_server}.

Lemma enqueueConfirmation_triple subID email repo token url :
  tx_triple (enqueueConfirmation subID email repo token url) (fun now d _ d' =>
    t1_effect subID (subscriptions d) email repo token url now d d').
Proof.
  unfold enqueueConfirmation.
  eapply tx_triple_mono.
  - eapply tx_triple_bind; [apply tx_triple_read|]. intros sagaID.
    eapply (tx_triple_bind _ _ _ (fun _ => _)); [apply tx_triple_wrap, tx_triple_wrap, tx_triple_stmt|].
    intros []. apply tx_triple_wrap, tx_triple_wrap, tx_triple_stmt.
  - intros now d [] d'. simpl. intros (sagaID & d1 & -> & [] & d2 & Hsaga & Hout).
    apply insert_saga_ok in Hsaga as (u & Hu & Hsg & Hsubs & Hrepos & Hob & Hseq).
    simpl in *. destruct (is_empty sagaID) eqn:He.
    { apply is_empty_true in He. subst sagaID. by rewrite pg_uuid_empty in Hu. }
    apply insert_outbox_ok in Hout as (u' & body & Hu' & Hbody & Hout & ? & ? & ?).
    simplify_eq. exists sagaID, u, body. rewrite Hob, Hseq in Hout.
    repeat split; congruence.
Qed.

(** How a transaction ends: committed, or with the rows of before. *)
Definition tx_result {A} (eff : A -> Z -> DB -> DB -> Prop) (w : World X)
    (r : result A) (w' : World X) : Prop :=
  w_tx w' = None /\ w_trace w' = w_trace w /\ w_metrics w' = w_metrics w /\
  match r with
  | Ok a => exists now, eff a now (w_db w) (w_db w')
  | Err _ => same_rows (w_db w') (w_db w) \/ exists a now, eff a now (w_db w) (w_db w')
  end.

Lemma rollback_result {A} (eff : A -> Z -> DB -> DB -> Prop) w e w' d' now :
  same_outside w w' -> w_tx w' = Some (d', now) -> tx_result eff w (Err e) (Rollback w').
Proof.
  intros (Hdb & Htr & Hm) Htx. unfold Rollback. rewrite Htx.
  repeat split; simpl; try done. left. rewrite Hdb. apply keep_sequences_rows.
Qed.

Lemma commit_result {A} (eff : A -> Z -> DB -> DB -> Prop) (a : A) s w w1 d' now :
  same_outside w w1 -> w_tx w1 = Some (d', now) -> eff a now (w_db w) d' ->
  wp (wrap s Commit ;; mret a) (fun r w' => tx_result eff w r (Rollback w')) w1.
Proof.
  intros (Hdb & Htr & Hm) Htx Heff. apply wp_bind, wp_wrap.
  eapply wp_Commit; [done|..]; intros; try apply wp_ret; unfold Rollback; simpl;
    repeat split; simpl; try done; eauto.
  left. rewrite Hdb. apply keep_sequences_rows.
Qed.

(** The same of a body that ends in the commit. *)
Lemma commit_result_unit (eff : unit -> Z -> DB -> DB -> Prop) s w w1 d' now :
  same_outside w w1 -> w_tx w1 = Some (d', now) -> eff () now (w_db w) d' ->
  wp (wrap s Commit) (fun r w' => tx_result eff w r (Rollback w')) w1.
Proof.
  intros Hout Htx Heff. pose proof (commit_result eff () s w w1 d' now Hout Htx Heff) as H.
  unfold wp, mbind, gom_bind in *. by destruct (wrap s Commit w1) as [[[]|e] w2].
Qed.

Lemma begin_result {A} (eff : A -> Z -> DB -> DB -> Prop) s w (body : GoM X A) :
  w_tx w = None ->
  (forall w1 now, same_outside w w1 -> w_tx w1 = Some (w_db w, now) ->
     wp body (fun r w' => tx_result eff w r (Rollback w')) w1) ->
  wp (wrap s BeginTxx ;; defer_rollback body) (tx_result eff w) w.
Proof.
  intros Htx Hbody. apply wp_bind, wp_wrap, wp_BeginTxx.
  - intros x m. repeat split; try done. by left.
  - intros x now. apply wp_defer_rollback. by eapply Hbody.
Qed.

(** The effects of the two forms of T1. *)
Definition started (email repo token url : string) (now : Z) (d d' : DB) : Prop :=
  t1_effect (subscriptions_id_seq d + 1)
    (app (subscriptions d) [created_row d email repo token now])
    email repo token url now d d'.
Definition reactivated (id : Z) (email repo token url : string) (now : Z)
    (d d' : DB) : Prop :=
  (exists s, s ∈ subscriptions d /\ sub_ID s = id /\ sub_Status s = StatusFailed) /\
  t1_effect id (reactivated_rows id token d) email repo token url now d d'.

Lemma StartConfirmation_broker_result w email repo token url :
  w_tx w = None ->
  wp (StartConfirmation None email repo token url)
    (tx_result (fun _ : unit => started email repo token url) w) w.
Proof.
  intros Htx. apply begin_result; [done|]. intros w1 now Hout1 Htx1.
  eapply wp_tx_bind; [apply tx_triple_wrap, tx_triple_stmt|done|..].
  { intros e w2 d2 Hout2 Htx2. eapply rollback_result; [by etrans|done]. }
  intros id w2 d2 Hout2 Htx2 Hins.
  eapply wp_tx_bind; [apply enqueueConfirmation_triple|done|..].
  { intros e w3 d3 Hout3 Htx3. eapply rollback_result; [|done].
    by do 2 (etrans; [done|]). }
  intros [] w3 d3 Hout3 Htx3 Henq. eapply commit_result_unit; [|done|].
  { by do 2 (etrans; [done|]). }
  apply insert_subscription_ok in Hins as (-> & Hs & Hr & Ho & Hg & Hseq).
  destruct Henq as (sagaID & u & body & ? & ? & Hs' & Hr' & Hg' & Ho').
  exists sagaID, u, body. rewrite Hs in Hs'. rewrite Hr in Hr'. rewrite Hg in Hg'.
  rewrite Ho, Hseq in Ho'. by repeat split.
Qed.

Lemma reactivate_triple id token :
  tx_triple (ReactivateInTx OnTx id token) (fun now d _ d' =>
    (exists s, s ∈ subscriptions d /\ sub_ID s = id /\ sub_Status s = StatusFailed) /\
    subscriptions d' = reactivated_rows id token d /\
    repositories d' = repositories d /\ outbox d' = outbox d /\
    saga d' = saga d /\ outbox_id_seq d' = outbox_id_seq d).
Proof.
  unfold ReactivateInTx. intros w d now Htx.
  eapply wp_tx_bind; [apply tx_triple_wrap, tx_triple_stmt|done|..].
  { intros e w' d' Hout Htx'. split; [done|]. by exists d'. }
  intros n w' d' Hout Htx' Hf. destruct (n =? 0)%nat eqn:Hn.
  { apply wp_throw. split; [done|]. by exists d'. }
  apply wp_ret. split; [done|]. exists d'. split; [done|]. intros [] _.
  apply Nat.eqb_neq in Hn. apply reactivate_stmt_ok in Hf as (Hs & Hcount & Hrest); [|done].
  split; [|done]. subst n. unfold count_where in Hn.
  destruct (select_where _ _) as [|s l] eqn:E; [done|].
  assert (s ∈ s :: l) as Hin by set_solver. rewrite <- E in Hin.
  apply elem_of_select_where in Hin as [Hin [Hid Hst]%andb_true_iff].
  exists s. apply Z.eqb_eq in Hid. by apply String.eqb_eq in Hst.
Qed.

Lemma ReactivateConfirmation_broker_result w id email repo token url :
  w_tx w = None ->
  wp (ReactivateConfirmation None id email repo token url)
    (tx_result (fun _ : unit => reactivated id email repo token url) w) w.
Proof.
  intros Htx. apply begin_result; [done|]. intros w1 now Hout1 Htx1.
  eapply wp_tx_bind; [apply tx_triple_wrap, reactivate_triple|done|..].
  { intros e w2 d2 Hout2 Htx2. eapply rollback_result; [by etrans|done]. }
  intros [] w2 d2 Hout2 Htx2 (Hfailed & Hs & Hr & Ho & Hg & Hseq).
  eapply wp_tx_bind; [apply enqueueConfirmation_triple|done|..].
  { intros e w3 d3 Hout3 Htx3. eapply rollback_result; [|done].
    by do 2 (etrans; [done|]). }
  intros [] w3 d3 Hout3 Htx3 Henq. eapply commit_result_unit; [|done|].
  { by do 2 (etrans; [done|]). }
  split; [done|].
  destruct Henq as (sagaID & u & body & ? & ? & Hs' & Hr' & Hg' & Ho').
  exists sagaID, u, body. rewrite Hs in Hs'. rewrite Hr in Hr'. rewrite Hg in Hg'.
  rewrite Ho, Hseq in Ho'. by repeat split.
Qed.
End T1.

(** ** The synchronous transport *)

(** How [dispatchSync] can leave the saga and its subscription: [sent] is the
    answer of the notifier, [ok] whether the caller sees an error, [failed]
    whether the subscription was marked failed. *)
Inductive sync_outcome : forall (sent ok : bool) (st : SagaState) (failed : bool), Prop :=
  | so_completed ok : sync_outcome true ok StateCompleted false
  | so_unrecorded : sync_outcome true false StateSubscriptionCreated false
  | so_uncompensated : sync_outcome false false StateSubscriptionCreated false
  | so_compensating f : sync_outcome false false StateCompensating f
  | so_failed ok : sync_outcome false ok StateFailed true.

(** The rows of the synchronous T1: a subscription and a saga, no command. *)
Definition t1_sync `{!PgServer} (subID : Z) (subs' : list Subscription)
    (email repo sagaID : string) (now : Z) (d d' : DB) : Prop :=
  exists u, pg_uuid sagaID = Some u /\
    subscriptions d' = subs' /\ repositories d' = repositories d /\ outbox d' = outbox d /\
    saga d' = app (saga d)
      [mkSaga u subID email repo StateSubscriptionCreated 0 None now now].

Definition created_sync `{!PgServer} (email repo token : string) (a : Z * string) (now : Z)
    (d d' : DB) : Prop :=
  a.1 = subscriptions_id_seq d + 1 /\
  t1_sync a.1 (app (subscriptions d) [created_row d email repo token now])
    email repo a.2 now d d'.

Definition reactivated_sync `{!PgServer} (id : Z) (email repo token : string)
    (a : Z * string) (now : Z) (d d' : DB) : Prop :=
  (exists s, s ∈ subscriptions d /\ sub_ID s = id /\ sub_Status s = StatusFailed) /\
  a.1 = id /\ t1_sync id (reactivated_rows id token d) email repo a.2 now d d'.

(** The table after the one row of a new key was updated. *)
Lemma update_where_app_last {A} (P : A -> bool) (f : A -> A) l a :
  (forall b, b ∈ l -> P b = false) -> P a = true ->
  update_where P f (app l [a]) = app l [f a].
Proof.
  intros Hl Ha. unfold update_where. rewrite fmap_app. simpl. rewrite Ha. f_equal.
  by apply update_where_none.
Qed.

Section Sync.
Context {X : Type} `{!Env X} `{!PgServerLaws env_server}.

Lemma createSubscriptionAndSaga_result w email repo token :
  w_tx w = None ->
  wp (createSubscriptionAndSaga email repo token 0)
    (tx_result (created_sync email repo token) w) w.
Proof.
  intros Htx. apply begin_result; [done|]. intros w1 now Hout1 Htx1. simpl.
  eapply wp_tx_bind; [apply tx_triple_wrap, tx_triple_stmt|done|..].
  { intros e w2 d2 Hout2 Htx2. eapply rollback_result; [by etrans|done]. }
  intros id w2 d2 Hout2 Htx2 Hins.
  eapply wp_tx_bind; [apply tx_triple_read|done|..].
  { intros e w3 d3 Hout3 Htx3. eapply rollback_result; [|done]. by do 2 (etrans; [done|]). }
  intros sagaID w3 d3 Hout3 Htx3 ->.
  eapply wp_tx_bind; [apply tx_triple_wrap, tx_triple_wrap, tx_triple_stmt|done|..].
  { intros e w4 d4 Hout4 Htx4. eapply rollback_result; [|done]. by do 3 (etrans; [done|]). }
  intros [] w4 d4 Hout4 Htx4 Hsaga. eapply commit_result; [|done|].
  { by do 3 (etrans; [done|]). }
  apply insert_subscription_ok in Hins as (-> & Hs & Hr & Ho & Hg & _).
  apply insert_saga_ok in Hsaga as (u & Hu & Hg' & Hs' & Hr' & Ho' & _). simpl in *.
  split; [done|]. exists u. split; [done|]. rewrite Hs', Hr', Ho', Hg', Hs, Hr, Ho, Hg. done.
Qed.

(** The same of a reactivation: the failed subscription [id] is pending again. *)
Lemma createSubscriptionAndSaga_reactivate w email repo token id :
  id <> 0 -> w_tx w = None ->
  wp (createSubscriptionAndSaga email repo token id)
    (tx_result (reactivated_sync id email repo token) w) w.
Proof.
  intros Hid Htx. apply begin_result; [done|]. intros w1 now Hout1 Htx1.
  apply Z.eqb_neq in Hid as ->.
  eapply wp_tx_bind; [|done|..].
  { eapply (tx_triple_bind _ _ _ (fun _ _ d b d' => b = id /\ d' = d)).
    { apply tx_triple_wrap, reactivate_triple. }
    intros []. apply (tx_triple_ret id). }
  { intros e w2 d2 Hout2 Htx2. eapply rollback_result; [by etrans|done]. }
  intros subID w2 d2 Hout2 Htx2 ([] & d1 & (Hfailed & Hs & Hr & Ho & Hg & _) & -> & ->).
  eapply wp_tx_bind; [apply tx_triple_read|done|..].
  { intros e w3 d3 Hout3 Htx3. eapply rollback_result; [|done]. by do 2 (etrans; [done|]). }
  intros sagaID w3 d3 Hout3 Htx3 ->.
  eapply wp_tx_bind; [apply tx_triple_wrap, tx_triple_wrap, tx_triple_stmt|done|..].
  { intros e w4 d4 Hout4 Htx4. eapply rollback_result; [|done]. by do 3 (etrans; [done|]). }
  intros [] w4 d4 Hout4 Htx4 Hsaga. eapply commit_result; [|done|].
  { by do 3 (etrans; [done|]). }
  apply insert_saga_ok in Hsaga as (u & Hu & Hg' & Hs' & Hr' & Ho' & _). simpl in *.
  split; [done|]. split; [done|]. exists u. split; [done|].
  rewrite Hs', Hr', Ho', Hg', Hs, Hr, Ho, Hg. done.
Qed.

Lemma createSubscriptionAndSaga_keeps email repo token id :
  keeps db_ok (createSubscriptionAndSaga email repo token id).
Proof.
  unfold createSubscriptionAndSaga. apply keeps_bind; [auto with go_db|]. intros _.
  apply keeps_defer_rollback. { apply _. }
  apply keeps_bind; [apply keeps_if; auto with go_db|auto 12 with go_db].
Qed.

Lemma dispatchSync_result (w : World X) sagaID u subID email repo url :
  pg_uuid sagaID = Some u ->
  wp (dispatchSync SendConfirmation sagaID subID email repo url) (fun r w' =>
    w_tx w' = w_tx w /\ w_metrics w' = w_metrics w /\ exists sent,
    w_trace w' = app (w_trace w) [EvGrpc (mkSendConfirmationRequest email repo url) sent] /\
    if (sent : bool) then
      w_db w' = w_db w /\ r <> Ok () \/ saga_set u StateCompleted (w_db w) (w_db w')
    else c1_partial u subID (w_db w) (w_db w') /\
         (r = Ok () -> c1_done u subID (w_db w) (w_db w'))) w.
Proof.
  intros Hu. unfold dispatchSync, SendConfirmation.
  apply wp_bind, wp_try, wp_wrap, wp_ext_call; intros a x _; simpl.
  - apply wp_wrap. eapply wp_mono; [apply wp_UpdateState|]. intros r w' ((Ht & Hr & Hm) & Hdb & Hok).
    assert ((w_db w' = w_db w /\ r <> Ok ()) \/ saga_set u StateCompleted (w_db w) (w_db w')) as H.
    { destruct Hdb as [Hdb|(u' & Hu' & Hset)]; [|simplify_eq; by right].
      destruct r as [[]|e]; [|by left]. destruct (Hok eq_refl) as (u' & Hu' & Hset).
      simplify_eq. by right. }
    destruct r as [[]|e]; (split; [done|]); (split; [done|]); exists true; (split; [done|]);
      destruct H as [[??]|?]; auto.
  - change (compensateSync sagaID subID) with
      (c1 (X := X) sagaID subID "confirmation email failed (grpc)"
         ("mark saga " +:+ sagaID +:+ " compensating")
         ("compensate saga " +:+ sagaID) ("fail saga " +:+ sagaID)).
    eapply wp_mono; [by apply wp_c1|]. intros r w' ((Ht & Hr & Hm) & Hp & Hok).
    split; [done|]. split; [done|]. exists false. done.
Qed.
End Sync.

(** ** The whole synchronous start *)

Section SyncStart.
Context {X : Type} `{!Env X} `{!PgServerLaws env_server}.

(** The rows that the synchronous start leaves: one more subscription and one
    more saga, the latter in state [st]; [failed] as in [sync_outcome]. *)
Definition sync_rows (email repo token : string) (st : SagaState) (failed : bool)
    (d d' : DB) : Prop :=
  exists u now le later,
    let row := created_row d email repo token now in
    subscriptions d' = app (subscriptions d) [if failed then set_failed row else row] /\
    saga d' = app (saga d) [mkSaga u (sub_ID row) email repo st 0 le now later] /\
    outbox d' = outbox d /\ repositories d' = repositories d.

(** An update of the new saga, in the table that [created_sync] leaves. *)
Lemma created_set email repo token a now d d1 d2 u st :
  created_sync email repo token a now d d1 -> pg_uuid a.2 = Some u ->
  NoDup (saga_ID <$> saga d1) -> saga_set u st d1 d2 ->
  sync_rows email repo token st false d d2.
Proof.
  intros (Hid & u' & Hu' & Hs & Hr & Ho & Hg) Hu Hnd (le & later & ->).
  exists u, now, le, later. simplify_eq/=. repeat split; try done.
  rewrite Hg in Hnd |- *. rewrite update_where_app_last.
  - by rewrite Hid.
  - intros b Hb. apply String.eqb_neq. intros Heq. rewrite fmap_app in Hnd.
    apply NoDup_app in Hnd as (_ & Hnd & _). apply (Hnd (saga_ID b)).
    + by apply list_elem_of_fmap_2.
    + rewrite Heq. apply elem_of_cons. by left.
  - apply String.eqb_refl.
Qed.

(** Marking the new subscription failed. *)
Lemma sync_rows_failed email repo token st d d1 :
  db_ok d -> sync_rows email repo token st false d d1 ->
  sync_rows email repo token st true d (sub_failed (subscriptions_id_seq d + 1) d1).
Proof.
  intros Hok (u & now & le & later & Hs & Hg & Ho & Hr).
  exists u, now, le, later. simpl in *. repeat split; try done. rewrite Hs.
  apply update_where_app_last; [|apply Z.eqb_refl].
  intros b Hb. apply Z.eqb_neq.
  destruct (sub_rows_ok _ _ (db_subscriptions_ok _ Hok) b Hb) as [? _]. lia.
Qed.

Lemma created_start email repo token a now d d1 :
  created_sync email repo token a now d d1 ->
  sync_rows email repo token StateSubscriptionCreated false d d1.
Proof.
  intros (Hid & u & Hu & Hs & Hr & Ho & Hg). exists u, now, None, now.
  rewrite Hs, Hg, Ho, Hr, Hid. done.
Qed.

(** C1 on the new saga, wherever it stops. *)
Lemma created_c1 email repo token a now d d1 d2 u (r : result unit) :
  db_ok d -> db_ok d1 -> created_sync email repo token a now d d1 ->
  pg_uuid a.2 = Some u -> c1_partial u a.1 d1 d2 -> (r = Ok () -> c1_done u a.1 d1 d2) ->
  exists st failed, sync_outcome false (is_ok r) st failed /\
    sync_rows email repo token st failed d d2.
Proof.
  intros Hok Hok1 Hc Hu Hp Hd. assert (a.1 = subscriptions_id_seq d + 1) as Hid by apply Hc.
  assert (c1_done u a.1 d1 d2 -> sync_rows email repo token StateFailed true d d2) as Hdone.
  { intros (le & t & ->). rewrite Hid. apply sync_rows_failed; [done|].
    eapply created_set; [done|done|apply Hok1|]. by exists le, t. }
  destruct r as [[]|e]; simpl.
  { exists StateFailed, true. split; [constructor|]. by apply Hdone, Hd. }
  destruct Hp as [-> |[(d3 & Hset & H)|H]].
  - exists StateSubscriptionCreated, false. split; [constructor|]. by eapply created_start.
  - assert (sync_rows email repo token StateCompensating false d d3) as Hrows
      by (eapply created_set; [done|done|apply Hok1|done]).
    exists StateCompensating. destruct H as [-> | ->]; [exists false|exists true];
      (split; [constructor|]); [done|]. rewrite Hid. by apply sync_rows_failed.
  - exists StateFailed, true. split; [constructor|]. by apply Hdone.
Qed.

Lemma startConfirmationSync_result (w : World X) email repo token url :
  db_ok (w_db w) -> w_tx w = None ->
  wp (StartConfirmation (Some SendConfirmation) email repo token url) (fun r w' =>
    w_tx w' = None /\ w_metrics w' = w_metrics w /\
    (is_ok r = false /\ w_trace w' = w_trace w /\
       (same_rows (w_db w') (w_db w) \/
        sync_rows email repo token StateSubscriptionCreated false (w_db w) (w_db w')) \/
     exists sent st failed,
       w_trace w' = app (w_trace w) [EvGrpc (mkSendConfirmationRequest email repo url) sent] /\
       sync_outcome sent (is_ok r) st failed /\
       sync_rows email repo token st failed (w_db w) (w_db w'))) w.
Proof.
  intros Hok Htx. unfold StartConfirmation, startConfirmationSync. apply wp_bind.
  pose proof (keeps_db _ _ _ (createSubscriptionAndSaga_keeps email repo token 0) Htx Hok) as Hok1.
  pose proof (createSubscriptionAndSaga_result w email repo token Htx) as H. unfold wp in *.
  destruct (createSubscriptionAndSaga email repo token 0 w) as [[[subID sagaID]|e] w1];
    simpl in *; destruct H as (Htx1 & Htr1 & Hm1 & H).
  2: { split; [done|]. split; [done|]. left. split; [done|]. split; [done|].
       destruct H as [H|(a & now & H)]; [by left|right]. by eapply created_start. }
  destruct H as (now & Hc). pose proof Hc as (Hid & u & Hu & _). simpl in *.
  pose proof (dispatchSync_result w1 sagaID u subID email repo url Hu) as H. unfold wp in H.
  destruct (dispatchSync SendConfirmation sagaID subID email repo url w1) as [r w2].
  simpl in *. destruct H as (Htx2 & Hm2 & sent & Htr2 & Hdb2).
  split; [congruence|]. split; [congruence|]. right. exists sent. rewrite Htr2, Htr1.
  destruct sent.
  - destruct Hdb2 as [[-> Hr]|Hset].
    + exists StateSubscriptionCreated, false. split; [done|].
      split; [|by eapply created_start]. destruct r as [[]|e]; [done|constructor].
    + exists StateCompleted, false. split; [done|]. split; [constructor|].
      by eapply created_set; [done|done|apply Hok1|].
  - destruct Hdb2 as [Hp Hd].
    destruct (created_c1 email repo token (subID, sagaID) now (w_db w) (w_db w1) (w_db w2) u r)
      as (st & failed & ? & ?); eauto.
Qed.
End SyncStart.

(** ** The properties of the orchestrator *)

Section Properties.
Context {X : Type} `{!Env X} `{!PgServerLaws env_server}.
Implicit Types w : World X.

(** C9: Atomicity (broker transport): when [StartConfirmation] returns no error the
    pending subscription, a saga that waits for the notifier and one
    unpublished confirmation command for that saga are in the database, and
    nothing else changed; when it returns an error the database has either
    none of the three (up to sequence numbers) or, when the answer to the
    commit was lost, all of them. No message leaves the process, and the
    transaction is over. *)
Theorem StartConfirmation_atomic w w' email repo token url r :
  w_tx w = None -> StartConfirmation None email repo token url w = (r, w') ->
  tx_result (fun _ : unit => started email repo token url) w r w'.
Proof.
  intros Htx. exact (wp_elim _ _ _ _ _ (StartConfirmation_broker_result w email repo token url Htx)).
Qed.

(** Atomicity of a reactivation: the same, for a subscription that exists and
    is failed: it gets the new token and is pending again. A subscription that
    is not failed is never touched. *)
Theorem ReactivateConfirmation_atomic w w' id email repo token url r :
  w_tx w = None -> ReactivateConfirmation None id email repo token url w = (r, w') ->
  tx_result (fun _ : unit => reactivated id email repo token url) w r w'.
Proof.
  intros Htx.
  exact (wp_elim _ _ _ _ _ (ReactivateConfirmation_broker_result w id email repo token url Htx)).
Qed.

(** C25: Synchronous transport: the notifier is called at most once, only after the
    subscription and its saga are committed, and never with a command in the
    outbox. If it is called, the saga ends [completed] when it accepted and,
    unless the database fails, [failed] with its subscription failed when it
    refused; an error of the database can only leave the saga earlier on the
    same path, and is always returned. *)
Theorem StartConfirmation_sync_outcome w w' email repo token url r :
  db_ok (w_db w) -> w_tx w = None ->
  StartConfirmation (Some SendConfirmation) email repo token url w = (r, w') ->
  w_tx w' = None /\ w_metrics w' = w_metrics w /\
  (is_ok r = false /\ w_trace w' = w_trace w /\
     (same_rows (w_db w') (w_db w) \/
      sync_rows email repo token StateSubscriptionCreated false (w_db w) (w_db w')) \/
   exists sent st failed,
     w_trace w' = app (w_trace w) [EvGrpc (mkSendConfirmationRequest email repo url) sent] /\
     sync_outcome sent (is_ok r) st failed /\
     sync_rows email repo token st failed (w_db w) (w_db w')).
Proof.
  intros Hok Htx.
  exact (wp_elim _ _ _ _ _ (startConfirmationSync_result w email repo token url Hok Htx)).
Qed.
End Properties.

Section Witnesses.
#[local] Existing Instance calm_env.
Definition fresh_world : World Script :=
  play (sample_db StateCompleted)
    (mkScript [] 100 7 [] ∅ [] [] [] [] [inl "unavailable"]).

Lemma StartConfirmation_atomic_witness :
  (StartConfirmation None "new@example.com" "golang/go" "tok-9" "http://x/c/tok-9"
     fresh_world).1 = Ok () /\
  tx_result (fun _ : unit => started "new@example.com" "golang/go" "tok-9" "http://x/c/tok-9")
    fresh_world (Ok ())
    (StartConfirmation None "new@example.com" "golang/go" "tok-9" "http://x/c/tok-9"
       fresh_world).2.
Proof.
  split; [vm_compute; reflexivity|].
  refine (StartConfirmation_atomic fresh_world _ _ _ _ _ _ eq_refl _). vm_compute. reflexivity.
Defined.

Lemma ReactivateConfirmation_atomic_witness :
  tx_result (fun _ : unit => reactivated 3 "eve@example.com" "rust-lang/rust" "tok-9" "http://x")
    fresh_world (Ok ())
    (ReactivateConfirmation None 3 "eve@example.com" "rust-lang/rust" "tok-9" "http://x"
       fresh_world).2.
Proof.
  refine (ReactivateConfirmation_atomic fresh_world _ _ _ _ _ _ _ eq_refl _).
  vm_compute. reflexivity.
Defined.

Lemma StartConfirmation_sync_outcome_witness :
  w_metrics (StartConfirmation (Some SendConfirmation) "new@example.com" "golang/go" "tok-9"
               "http://x" fresh_world).2 = w_metrics fresh_world /\
  saga_State <$> saga (w_db (StartConfirmation (Some SendConfirmation) "new@example.com"
    "golang/go" "tok-9" "http://x" fresh_world).2) = [StateCompleted; StateFailed].
Proof.
  split; [|vm_compute; reflexivity].
  exact (proj1 (proj2 (StartConfirmation_sync_outcome fresh_world _ _ _ _ _ _
    (sample_db_ok _) eq_refl (surjective_pairing _)))).
Defined.
End Witnesses.
