(* ===== verification/Email.v ===== *)
(** * The email pattern of internal/subscription/service.go

    Regular expressions with their language and a matcher by derivatives (what
    Go's regexp package decides), and [ValidateEmail] as the match of the
    pattern the source writes. *)

From S2P Require Import Prelude GoStrings.

Local Open Scope string_scope.

(** ** Regular expressions on bytes *)

Inductive regexp :=
  | RNone
  | REmpty
  | RClass (p : ascii -> bool)
  | RSeq (a b : regexp)
  | RAlt (a b : regexp)
  | RStar (a : regexp).

Inductive matches : regexp -> string -> Prop :=
  | m_empty : matches REmpty ""
  | m_class p c : p c = true -> matches (RClass p) (String c "")
  | m_seq a b s t : matches a s -> matches b t -> matches (RSeq a b) (s +:+ t)
  | m_left a b s : matches a s -> matches (RAlt a b) s
  | m_right a b s : matches b s -> matches (RAlt a b) s
  | m_done a : matches (RStar a) ""
  | m_more a s t : matches a s -> matches (RStar a) t -> matches (RStar a) (s +:+ t).

Fixpoint nullable (r : regexp) : bool :=
  match r with
  | RNone | RClass _ => false
  | REmpty | RStar _ => true
  | RSeq a b => nullable a && nullable b
  | RAlt a b => nullable a || nullable b
  end.

(** Constructors that drop the branches which cannot match. *)
Definition seq (a b : regexp) : regexp :=
  match a with RNone => RNone | REmpty => b | _ => RSeq a b end.
Definition alt (a b : regexp) : regexp :=
  match a, b with RNone, _ => b | _, RNone => a | _, _ => RAlt a b end.

Fixpoint deriv (c : ascii) (r : regexp) : regexp :=
  match r with
  | RNone | REmpty => RNone
  | RClass p => if p c then REmpty else RNone
  | RSeq a b =>
      if nullable a then alt (seq (deriv c a) b) (deriv c b) else seq (deriv c a) b
  | RAlt a b => alt (deriv c a) (deriv c b)
  | RStar a => seq (deriv c a) (RStar a)
  end.

Fixpoint MatchString (r : regexp) (s : string) : bool :=
  match s with
  | EmptyString => nullable r
  | String c s' => MatchString (deriv c r) s'
  end.

(** ** The matcher decides the language *)

Lemma matches_seq a b s :
  matches (RSeq a b) s <-> exists t u, s = t +:+ u /\ matches a t /\ matches b u.
Proof.
  split.
  - intros H. inversion H; subst. eauto.
  - intros (t & u & -> & ? & ?). by apply m_seq.
Qed.

Lemma matches_alt a b s : matches (RAlt a b) s <-> matches a s \/ matches b s.
Proof.
  split; [intros H; inversion H; subst; auto|]. intros []; [by apply m_left|by apply m_right].
Qed.

Lemma seq_correct a b s :
  matches (seq a b) s <-> exists t u, s = t +:+ u /\ matches a t /\ matches b u.
Proof.
  destruct a; simpl; try apply matches_seq.
  - split; [intros H; inversion H|]. intros (t & u & -> & H & _). inversion H.
  - split.
    + intros H. exists "", s. repeat split; [constructor|done].
    + intros (t & u & -> & H & ?). by inversion H.
Qed.

Lemma alt_correct a b s : matches (alt a b) s <-> matches a s \/ matches b s.
Proof.
  assert (matches RNone s <-> False) as Hnone by (split; [intros H; inversion H|done]).
  destruct a, b; simpl; rewrite ?matches_alt, ?Hnone; tauto.
Qed.

Lemma nullable_correct r : nullable r = true <-> matches r "".
Proof.
  induction r as [| |p|a IHa b IHb|a IHa b IHb|a IHa]; simpl.
  - split; [done|intros H; inversion H].
  - split; [constructor|done].
  - split; [done|intros H; inversion H].
  - rewrite andb_true_iff, IHa, IHb, matches_seq. split.
    + intros [??]. by exists "", "".
    + intros (t & u & Heq & Ht & Hu). destruct t; [|done]. by destruct u.
  - by rewrite orb_true_iff, IHa, IHb, matches_alt.
  - split; [constructor|done].
Qed.

(** A non-empty match of a star starts with a non-empty match of its body. *)
Lemma star_inv a c s :
  matches (RStar a) (String c s) ->
  exists t u, s = t +:+ u /\ matches a (String c t) /\ matches (RStar a) u.
Proof.
  intros H. remember (RStar a) as r eqn:Hr. remember (String c s) as w eqn:Hw.
  revert c s Hw. induction H; intros c' s' Hw; simplify_eq.
  destruct s as [|c s]; [by apply IHmatches2|].
  change (String c (s +:+ t) = String c' s') in Hw. simplify_eq. eauto.
Qed.

Lemma deriv_correct c r s : matches (deriv c r) s <-> matches r (String c s).
Proof.
  revert s. induction r as [| |p|a IHa b IHb|a IHa b IHb|a IHa]; intros s; simpl.
  - split; intros H; inversion H.
  - split; intros H; inversion H.
  - destruct (p c) eqn:Hp; split; intros H; inversion H; subst; try congruence;
      by constructor.
  - assert (matches (seq (deriv c a) b) s \/ nullable a = true /\ matches (deriv c b) s <->
            matches (RSeq a b) (String c s)) as H.
    { rewrite seq_correct, matches_seq, IHb, nullable_correct. split.
      - intros [(t & u & -> & Ht & Hu)|[Ha Hb]].
        + exists (String c t), u. by rewrite <- IHa.
        + by exists "", (String c s).
      - intros (t & u & Heq & Ht & Hu). destruct t as [|c' t].
        + right. by rewrite Heq.
        + left. change (String c s = String c' (t +:+ u)) in Heq. simplify_eq.
          exists t, u. by rewrite IHa. }
    rewrite <- H. destruct (nullable a); [rewrite alt_correct|]; naive_solver.
  - by rewrite alt_correct, IHa, IHb, matches_alt.
  - rewrite seq_correct. split.
    + intros (t & u & -> & Ht%IHa & Hu). by apply (m_more a (String c t) u).
    + intros (t & u & -> & Ht & Hu)%star_inv. exists t, u. by rewrite IHa.
Qed.

Lemma MatchString_correct r s : MatchString r s = true <-> matches r s.
Proof.
  revert r. induction s as [|c s IH]; intros r; simpl.
  - apply nullable_correct.
  - by rewrite IH, deriv_correct.
Qed.

(** ** The pattern *)

Definition range (lo hi : ascii) (c : ascii) : bool :=
  (N_of_ascii lo <=? N_of_ascii c)%N && (N_of_ascii c <=? N_of_ascii hi)%N.
Definition one_of (cs : string) (c : ascii) : bool :=
  occurs c cs.

Definition letter (c : ascii) : bool := range "a" "z" c || range "A" "Z" c.
Definition alnum (c : ascii) : bool := letter c || range "0" "9" c.
Definition local_char (c : ascii) : bool := alnum c || one_of "._%+-" c.
Definition domain_char (c : ascii) : bool := alnum c || one_of ".-" c.
Definition at_sign : ascii := "@"%char.
Definition dot : ascii := "."%char.

Definition rchar (c : ascii) : regexp := RClass (Ascii.eqb c).
Definition rplus (p : ascii -> bool) : regexp := RSeq (RClass p) (RStar (RClass p)).

(** [^[a-zA-Z0-9._%+\-]+@[a-zA-Z0-9.\-]+\.[a-zA-Z]{2,}$], anchored at both ends. *)
Definition emailRegex : regexp :=
  RSeq (rplus local_char) (RSeq (rchar at_sign) (RSeq (rplus domain_char)
    (RSeq (rchar dot) (RSeq (RClass letter) (rplus letter))))).

Definition ValidateEmail (email : string) : bool := MatchString emailRegex email.

(** ** What an accepted address looks like *)

Fixpoint all_chars (p : ascii -> bool) (s : string) : bool :=
  match s with
  | EmptyString => true
  | String c s' => p c && all_chars p s'
  end.

Lemma all_chars_app p s t : all_chars p (s +:+ t) = all_chars p s && all_chars p t.
Proof.
  induction s as [|c s IH]; [done|].
  change (p c && all_chars p (s +:+ t) = p c && all_chars p s && all_chars p t).
  by rewrite IH, andb_assoc.
Qed.

Lemma matches_class p s : matches (RClass p) s <-> exists c, s = String c "" /\ p c = true.
Proof.
  split; [intros H; inversion H; subst; eauto|]. intros (c & -> & ?). by constructor.
Qed.

Lemma matches_star_class p s : matches (RStar (RClass p)) s <-> all_chars p s = true.
Proof.
  split.
  - intros H. remember (RStar (RClass p)) as r eqn:Hr.
    induction H; simplify_eq; [done|]. rewrite all_chars_app.
    apply matches_class in H as (c & -> & Hc). simpl. rewrite Hc. simpl. by apply IHmatches2.
  - induction s as [|c s IH]; simpl; [constructor|]. intros [Hc Hs]%andb_true_iff.
    apply (m_more _ (String c "") s); [by constructor|by apply IH].
Qed.

Lemma matches_plus p s : matches (rplus p) s <-> s <> "" /\ all_chars p s = true.
Proof.
  unfold rplus. rewrite matches_seq. split.
  - intros (t & u & -> & (c & -> & Hc)%matches_class & Hu%matches_star_class).
    split; [done|]. simpl. by rewrite Hc.
  - intros [Hne Hs]. destruct s as [|c s]; [done|]. simpl in Hs.
    apply andb_true_iff in Hs as [Hc Hs].
    exists (String c ""), s. rewrite matches_class, matches_star_class. eauto.
Qed.

Lemma matches_char c s : matches (rchar c) s <-> s = String c "".
Proof.
  unfold rchar. rewrite matches_class. split.
  - by intros (c' & -> & ->%Ascii.eqb_eq).
  - intros ->. exists c. by rewrite Ascii.eqb_refl.
Qed.

Lemma matches_tld s :
  matches (RSeq (RClass letter) (rplus letter)) s <->
  (2 <= String.length s)%nat /\ all_chars letter s = true.
Proof.
  rewrite matches_seq. split.
  - intros (t & u & -> & (c & -> & Hc)%matches_class & [Hne Hu]%matches_plus).
    destruct u as [|c' u]; [done|]. simpl in *. rewrite Hc. split; [lia|done].
  - intros [Hlen Hs]. destruct s as [|c [|c' s]]; simpl in Hlen; [lia|lia|].
    simpl in Hs. apply andb_true_iff in Hs as [Hc Hs].
    exists (String c ""), (String c' s). rewrite matches_class, matches_plus.
    split; [done|]. split; [by exists c|]. done.
Qed.

(** An accepted address is a local part, an at sign, a domain, a dot and a top
    level of at least two letters, each over its character class. *)
Record email_shape (email local domain tld : string) : Prop := {
  es_split : email = local +:+ "@" +:+ domain +:+ "." +:+ tld;
  es_local : local <> "" /\ all_chars local_char local = true;
  es_domain : domain <> "" /\ all_chars domain_char domain = true;
  es_tld : (2 <= String.length tld)%nat /\ all_chars letter tld = true }.

Lemma ValidateEmail_shape email :
  ValidateEmail email = true <-> exists local domain tld, email_shape email local domain tld.
Proof.
  unfold ValidateEmail, emailRegex. rewrite MatchString_correct. split.
  - intros (local & r1 & -> & Hl%matches_plus & Hr1)%matches_seq.
    apply matches_seq in Hr1 as (a & r2 & -> & ->%matches_char & Hr2).
    apply matches_seq in Hr2 as (domain & r3 & -> & Hd%matches_plus & Hr3).
    apply matches_seq in Hr3 as (d & tld & -> & ->%matches_char & Ht%matches_tld).
    exists local, domain, tld. by split.
  - intros (local & domain & tld & [-> Hl Hd Ht]).
    apply m_seq; [by apply matches_plus|]. apply m_seq; [by apply matches_char|].
    apply m_seq; [by apply matches_plus|]. apply m_seq; [by apply matches_char|].
    by apply matches_tld.
Qed.

(** The characters that a class does not have cannot occur. *)
Lemma all_chars_occurs p c s : all_chars p s = true -> p c = false -> occurs c s = false.
Proof.
  intros Hs Hc. induction s as [|c' s IH]; simpl in *; [done|].
  apply andb_true_iff in Hs as [Hc' Hs]. rewrite IH by done.
  destruct (Ascii.eqb_spec c' c); [congruence|done].
Qed.

Section Properties.
(** C30: The matcher of the pattern accepts exactly the addresses of the documented
    shape: [local@domain.tld], each part non-empty and over its class, the top
    level at least two letters. *)
Theorem ValidateEmail_iff email :
  ValidateEmail email = true <->
  exists local domain tld, email_shape email local domain tld.
Proof. apply ValidateEmail_shape. Qed.

(** No header injection: an accepted address has no carriage return, line feed,
    space, comma, semicolon, colon or angle bracket, so that in the headers
    the notifier composes it can only be one recipient on its own line. *)
Theorem ValidateEmail_no_injection email c :
  ValidateEmail email = true -> c ∈ ["010"; "013"; " "; ","; "<"; ">"; ";"; ":"]%char ->
  occurs c email = false.
Proof.
  intros (l & d & t & [-> [_ Hl] [_ Hd] [_ Ht]])%ValidateEmail_shape Hc.
  assert (local_char c = false /\ domain_char c = false /\ letter c = false /\
          occurs c "@" = false /\ occurs c "." = false) as (H1 & H2 & H3 & H4 & H5).
  { repeat (apply elem_of_cons in Hc as [->|Hc]; [by repeat split|]).
    by apply elem_of_nil in Hc. }
  rewrite !occurs_app, H4, H5, !(all_chars_occurs _ _ _ Hl), (all_chars_occurs _ _ _ Hd),
    (all_chars_occurs _ _ _ Ht); done.
Qed.

Lemma ValidateEmail_no_injection_witness :
  ValidateEmail "ann.lee+go@mail.example.com" = true /\
  occurs "010"%char "ann.lee+go@mail.example.com" = false.
Proof.
  split; [vm_compute; reflexivity|].
  apply ValidateEmail_no_injection; [vm_compute; reflexivity|apply elem_of_cons; by left].
Defined.
End Properties.
