(* ===== verification/Service.v ===== *)
(** * internal/subscription/service.go: the subscription lifecycle

    [Service] calls its store, the tracker and the two interfaces below; the
    theorems are proved against the laws of the interfaces, which the gateway
    and the orchestrator discharge. *)

From S2P Require Import Prelude GoErrors Tables Env Logic Script Schema Samples.
From S2P Require Import SubStore TrackStore SagaMachine RepoSpec Email.

Local Open Scope string_scope.
Local Open Scope Z_scope.

(** ** The interfaces of the service *)

(** [GitHubClient]. *)
Record GitHubClient (X : Type) := mkGitHubClient {
  CheckRepoExists : string -> string -> GoM X bool }.
Arguments CheckRepoExists {X}.

(** [sagaStarter]. *)
Record sagaStarter (X : Type) := mkSagaStarter {
  saga_StartConfirmation : string -> string -> string -> string -> GoM X unit;
  saga_ReactivateConfirmation : Z -> string -> string -> string -> string -> GoM X unit }.
Arguments saga_StartConfirmation {X}. Arguments saga_ReactivateConfirmation {X}.

(** What the service relies on of GitHub: asking does not touch the database,
    and its errors are not domain errors. *)
Class GitHubClientSpec {X : Type} (gh : GitHubClient X) : Prop := {
  check_repo_frame : forall owner name w,
    wp (CheckRepoExists gh owner name) (fun r w' =>
      w_db w' = w_db w /\ w_tx w' = w_tx w /\ forall e, r = Err e -> infra_error e) w }.

(** The subscriptions and the tracked repositories are as before. *)
Definition same_subs (d d' : DB) : Prop :=
  subscriptions d' = subscriptions d /\ repositories d' = repositories d.

(** A subscription was added: not confirmed, with the given token. *)
Definition subscribed (email repo token : string) (d d' : DB) : Prop :=
  exists id now st, (st = StatusPending \/ st = StatusFailed) /\
    subscriptions d' =
      app (subscriptions d) [mkSubscription id email repo token false st now] /\
    repositories d' = repositories d.

(** The failed subscription [id] was revived: not confirmed, with the token. *)
Definition revived (id : Z) (token : string) (d d' : DB) : Prop :=
  (exists s, s ∈ subscriptions d /\ sub_ID s = id /\ sub_Status s = StatusFailed) /\
  (exists st, (st = StatusPending \/ st = StatusFailed) /\
     subscriptions d' = update_where (by_id id) (fun s =>
       mkSubscription (sub_ID s) (sub_Email s) (sub_Repo s) token false st (sub_CreatedAt s))
       (subscriptions d)) /\
  repositories d' = repositories d.

(** What it relies on of the orchestrator: a start that returns no error has
    added the subscription; one that returns an error is an infrastructure
    error, and has added it or not. Sagas are added, and move along their
    lifecycle, and that is all. *)
Class SagaStarterSpec {X : Type} `{!Env X} (sg : sagaStarter X) : Prop := {
  start_spec : forall email repo token url w,
    db_ok (w_db w) -> w_tx w = None ->
    wp (saga_StartConfirmation sg email repo token url) (fun r w' =>
      w_tx w' = None /\ db_ok (w_db w') /\ sagas_grow (w_db w) (w_db w') /\
      match r with
      | Ok _ => subscribed email repo token (w_db w) (w_db w')
      | Err e => infra_error e /\
          (same_subs (w_db w) (w_db w') \/ subscribed email repo token (w_db w) (w_db w'))
      end) w;
  reactivate_spec : forall id email repo token url w,
    db_ok (w_db w) -> w_tx w = None -> id <> 0 ->
    wp (saga_ReactivateConfirmation sg id email repo token url) (fun r w' =>
      w_tx w' = None /\ db_ok (w_db w') /\ sagas_grow (w_db w) (w_db w') /\
      match r with
      | Ok _ => revived id token (w_db w) (w_db w')
      | Err e => infra_error e /\
          (same_subs (w_db w) (w_db w') \/ revived id token (w_db w) (w_db w'))
      end) w }.

(** ** The service *)

(** [Subscriber] of internal/subscription/subscriber.go. *)
Record Subscriber := mkSubscriber {
  subscriber_ID : Z; subscriber_Email : string; subscriber_Token : string }.

Section Service.
Context {X : Type} `{!Env X}.
Local Abbreviation M := (GoM X).

(** The fields of [Service]; the store and the tracker are those of the
    database. *)
Variable github : GitHubClient X.
Variable saga : sagaStarter X.
Variable baseURL : string.

Definition Subscribe (email repoStr : string) : M unit :=
  if negb (ValidateEmail email) then throw (EDomain ErrInvalidEmail) else
  match ParseRepoSpec repoStr with
  | Err err => throw (EJoin (EDomain ErrInvalidRepoFormat) err)
  | Ok spec =>
      exists_ ← wrap "failed to check repository"
                  (CheckRepoExists github (Owner spec) (Name spec));
      if negb exists_ then throw (EDomain ErrRepoNotFound) else
      existing ← wrap "database error" (GetSubscriptionByEmailAndRepo email repoStr);
      token ← uuid_NewString;
      let confirmURL := baseURL +:+ "/api/confirm/" +:+ token in
      match existing with
      | Some sub =>
          if negb (has_status StatusFailed sub) then throw (EDomain ErrAlreadySubscribed)
          else wrap "failed to reactivate subscription saga"
                 (saga_ReactivateConfirmation saga (sub_ID sub) email repoStr token confirmURL)
      | None =>
          wrap "failed to start subscription saga"
            (saga_StartConfirmation saga email repoStr token confirmURL)
      end
  end.

Definition Confirm (token : string) : M unit :=
  sub ← wrap "database error" (GetSubscriptionByToken token);
  match sub with
  | None => throw (EDomain ErrTokenNotFound)
  | Some sub =>
      (if negb (sub_Confirmed sub)
       then wrap "failed to confirm subscription" (ConfirmSubscription token)
       else mret ()) ;;
      wrap "failed to track repository" (RegisterRepo (sub_Repo sub))
  end.

Definition Unsubscribe (token : string) : M unit :=
  sub ← wrap "database error" (GetSubscriptionByToken token);
  match sub with
  | None => throw (EDomain ErrTokenNotFound)
  | Some _ => DeleteSubscription token
  end.

Definition GetSubscriptions (email : string) : M (list Subscription) :=
  if negb (ValidateEmail email) then throw (EDomain ErrInvalidEmail)
  else GetSubscriptionsByEmail email.

Definition ActiveRepos : M (list string) := GetActiveRepos.

Definition SubscribersForRepo (repo : string) : M (list Subscriber) :=
  subs ← GetSubscribersByRepo repo;
  mret ((fun sub => mkSubscriber (sub_ID sub) (sub_Email sub) (sub_Token sub)) <$> subs).
End Service.

(** ** The lookups *)

Lemma by_email_repo_key email repo s :
  by_email_repo email repo s = true <-> sub_key s = (email, repo).
Proof.
  unfold by_email_repo, sub_key. rewrite andb_true_iff, !String.eqb_eq.
  split; [by intros [-> ->]|]. by intros [= -> ->].
Qed.

Section Lookups.
Context {X : Type} `{!Env X} `{!PgServerLaws env_server}.

Definition first_such (P : Subscription -> bool) (d : DB) (o : option Subscription) : Prop :=
  match o with
  | Some s => s ∈ subscriptions d /\ P s = true
  | None => forall s, s ∈ subscriptions d -> P s = false
  end.

Lemma first_such_scan P d : first_such P d (head (pg_scan (select_where P (subscriptions d)))).
Proof.
  destruct (head _) as [s|] eqn:E; simpl.
  - apply head_scan_Some in E. by apply elem_of_select_where in E.
  - apply head_scan_None in E. intros s Hs. destruct (P s) eqn:Hp; [|done].
    assert (s ∈ select_where P (subscriptions d)) as H by by apply elem_of_select_where.
    rewrite E in H. by apply elem_of_nil in H.
Qed.

(** A lookup of one subscription: it reads the row, or fails. *)
Lemma wp_first_such P (w : World X) (Q : result (option Subscription) -> World X -> Prop) :
  (forall x m, Q (Err (EPlain m)) (set_ext x w)) ->
  (forall x o, first_such P (w_db w) o -> Q (Ok o) (set_ext x w)) ->
  wp (db_stmt (fun _ d => (Ok (head (pg_scan (select_where P (subscriptions d)))), d))) Q w.
Proof. intros He Hok. apply wp_query; [done|]. intros x. apply Hok, first_such_scan. Qed.

Lemma first_such_token d tok o s :
  db_ok d -> first_such (by_token tok) d o -> s ∈ subscriptions d -> sub_Token s = tok ->
  o = Some s.
Proof.
  intros Hok Ho Hs Htok. destruct o as [s'|]; simpl in Ho.
  - destruct Ho as [Hs' Htok'%String.eqb_eq]. f_equal.
    apply (NoDup_fmap_inj sub_Token (subscriptions d)); [apply Hok|done|done|congruence].
  - specialize (Ho s Hs). unfold by_token in Ho. by rewrite Htok, String.eqb_refl in Ho.
Qed.
End Lookups.

(** ** Subscribe *)

(** What a call of [Subscribe] can do to the rows: nothing, or T1. *)
Definition maybe_subscribed (email repo : string) (d d' : DB) : Prop :=
  same_subs d d' \/ (exists token, subscribed email repo token d d') \/
  exists s token, s ∈ subscriptions d /\ sub_key s = (email, repo) /\
    revived (sub_ID s) token d d'.

(** The outcome of [Subscribe], by the kind of its error. [ans] is what GitHub
    answers about the repository, when the input is valid. *)
Definition subscribe_outcome {X : Type} (gh : GitHubClient X) (email repo : string)
    (w : World X) (r : result unit) (w' : World X) : Prop :=
  let asked ans := ValidateEmail email = true /\
    exists spec, ParseRepoSpec repo = Ok spec /\
      (CheckRepoExists gh (Owner spec) (Name spec) w).1 = ans in
  match r with
  | Ok _ =>
      asked (Ok true) /\ exists token,
      ((forall s, s ∈ subscriptions (w_db w) -> sub_key s <> (email, repo)) /\
       subscribed email repo token (w_db w) (w_db w') \/
       exists s, s ∈ subscriptions (w_db w) /\ sub_key s = (email, repo) /\
         sub_Status s = StatusFailed /\ revived (sub_ID s) token (w_db w) (w_db w'))
  | Err e =>
      match KindOf e with
      | KindInvalid =>
          w' = w /\ (ValidateEmail email = false /\ e = EDomain ErrInvalidEmail \/
                     ValidateEmail email = true /\ forall spec, ParseRepoSpec repo <> Ok spec)
      | KindNotFound =>
          asked (Ok false) /\ e = EDomain ErrRepoNotFound /\ w_db w' = w_db w
      | KindConflict =>
          asked (Ok true) /\ e = EDomain ErrAlreadySubscribed /\
          (exists s, s ∈ subscriptions (w_db w) /\ sub_key s = (email, repo) /\
                     sub_Status s <> StatusFailed) /\ w_db w' = w_db w
      | KindInternal =>
          (exists e', asked (Err e') /\ e = EWrap "failed to check repository" e') /\
            w_db w' = w_db w \/
          asked (Ok true) /\ maybe_subscribed email repo (w_db w) (w_db w')
      end
  end.

Section SubscribeProof.
Context {X : Type} `{!Env X} `{!PgServerLaws env_server}.
Variables (gh : GitHubClient X) (sg : sagaStarter X) (baseURL : string).
Context `{!GitHubClientSpec gh} `{!SagaStarterSpec sg}.

(** The call of GitHub: its answer, named, and the frame. *)
Lemma check_repo_answer owner name (w : World X) :
  wp (CheckRepoExists gh owner name) (fun r w' => r = (CheckRepoExists gh owner name w).1 /\
    w_db w' = w_db w /\ w_tx w' = w_tx w /\ forall e, r = Err e -> infra_error e) w.
Proof. unfold wp. split; [done|]. apply check_repo_frame. Qed.

(** Nothing but reads happened. *)
Lemma subscribe_unchanged email repo (w w' : World X) r :
  db_ok (w_db w) -> w_tx w = None -> w_db w' = w_db w -> w_tx w' = w_tx w ->
  subscribe_outcome gh email repo w r w' ->
  w_tx w' = None /\ db_ok (w_db w') /\ sagas_grow (w_db w) (w_db w') /\
  subscribe_outcome gh email repo w r w'.
Proof. intros ? ? -> -> ?. by do 3 (split; [done|]). Qed.

Lemma Subscribe_result (w : World X) email repo :
  db_ok (w_db w) -> w_tx w = None ->
  wp (Subscribe gh sg baseURL email repo) (fun r w' =>
    w_tx w' = None /\ db_ok (w_db w') /\ sagas_grow (w_db w) (w_db w') /\
    subscribe_outcome gh email repo w r w') w.
Proof.
  intros Hok Htx. unfold Subscribe.
  destruct (ValidateEmail email) eqn:Hv; simpl.
  2: { apply wp_throw, subscribe_unchanged; [done..|]. split; [done|by left]. }
  destruct (ParseRepoSpec repo) as [spec|e] eqn:Hp.
  2: { apply wp_throw, subscribe_unchanged; [done..|]. split; [done|].
       right. split; [done|]. intros spec. by rewrite Hp. }
  apply wp_bind, wp_wrap. eapply wp_mono; [apply check_repo_answer|].
  intros r w1 (Hans & Hdb1 & Htx1 & Herr). destruct r as [ex|e].
  2: { apply subscribe_unchanged; [done..|]. simpl.
       rewrite KindOf_wrap, KindOf_infra by by apply Herr. left. split; [|done]. eauto 6. }
  destruct ex; simpl.
  2: { apply wp_throw, subscribe_unchanged; [done..|]. simpl. eauto 6. }
  apply wp_bind, wp_wrap, wp_first_such.
  { intros x m. apply subscribe_unchanged; [done..|]. simpl. right.
    split; [by eauto|]. rewrite Hdb1. by left. }
  intros x o Ho. apply wp_bind, wp_ext_read. intros x' _. rewrite Hdb1 in Ho.
  destruct o as [s|].
  - destruct Ho as [Hs Hkey%by_email_repo_key].
    destruct (has_status StatusFailed s) eqn:Hst; simpl.
    + assert (sub_ID s <> 0) as Hid.
      { destruct (sub_rows_ok _ _ (db_subscriptions_ok _ Hok) s Hs). lia. }
      apply wp_wrap. eapply wp_mono; [apply reactivate_spec; simpl; by rewrite ?Hdb1, ?Htx1|].
      simpl. rewrite Hdb1. intros [[]|e] w2 (Htx2 & Hok2 & Hg2 & H);
        (split; [done|]); (split; [done|]); (split; [done|]).
      * apply String.eqb_eq in Hst. split; [by eauto|].
        eexists. right. exists s. do 3 (split; [done|]). exact H.
      * destruct H as [He H]. simpl. rewrite KindOf_wrap, KindOf_infra by done.
        right. split; [by eauto|]. destruct H as [H|H]; [by left|]. right. right. eauto 6.
    + apply wp_throw, subscribe_unchanged; [done..|].
      split; [by eauto|]. split; [done|]. split; [|done]. exists s. do 2 (split; [done|]).
      by apply String.eqb_neq.
  - apply wp_wrap. eapply wp_mono; [apply start_spec; simpl; by rewrite ?Hdb1, ?Htx1|].
    simpl. rewrite Hdb1. intros [[]|e] w2 (Htx2 & Hok2 & Hg2 & H);
        (split; [done|]); (split; [done|]); (split; [done|]).
    + split; [by eauto|]. eexists. left. split; [|exact H].
      intros s Hs Hkey. apply by_email_repo_key in Hkey. by rewrite (Ho s Hs) in Hkey.
    + destruct H as [He H]. simpl. rewrite KindOf_wrap, KindOf_infra by done.
      right. split; [by eauto|]. destruct H as [H|H]; [by left|]. right. left. eauto.
Qed.

(** Whatever its outcome, the rows are as before or as after T1. *)
Lemma subscribe_outcome_maybe email repo (w w' : World X) r :
  subscribe_outcome gh email repo w r w' -> maybe_subscribed email repo (w_db w) (w_db w').
Proof.
  assert (w_db w' = w_db w -> maybe_subscribed email repo (w_db w) (w_db w')) as Hsame
    by (intros ->; by left).
  unfold subscribe_outcome. destruct r as [[]|e].
  - intros (_ & token & [[_ H]|(s & Hs & Hk & _ & H)]); right; [left|right]; eauto.
  - destruct (KindOf e); [intros [[_ H]|[_ H]]; eauto|intros [-> _]; by left|..];
      intros H; apply Hsame; apply H.
Qed.
End SubscribeProof.

(** ** Confirm *)

Definition tracked (repo : string) (d : DB) : Prop :=
  exists rp, rp ∈ repositories d /\ repo_Repo rp = repo.

(** What [RegisterRepo] can do: nothing, or start tracking the repository. *)
Definition registered (repo : string) (d d' : DB) : Prop :=
  subscriptions d' = subscriptions d /\ outbox d' = outbox d /\ saga d' = saga d /\
  (repositories d' = repositories d \/
   exists id, repositories d' = app (repositories d) [mkRepository id repo "" None None]).

(** The rows of [d'] after a confirmation of the row [s] of [d]. *)
Definition confirmed_rows (s : Subscription) (d : DB) : list Subscription :=
  if sub_Confirmed s then subscriptions d
  else update_where (by_token (sub_Token s)) set_confirmed (subscriptions d).

Definition confirm_outcome (token : string) (d : DB) (r : result unit) (d' : DB) : Prop :=
  outbox d' = outbox d /\ saga d' = saga d /\
  match r with
  | Ok _ => exists s, s ∈ subscriptions d /\ sub_Token s = token /\
      subscriptions d' = confirmed_rows s d /\ tracked (sub_Repo s) d' /\
      registered (sub_Repo s) (set_subscriptions (subscriptions d') d) d'
  | Err e =>
      match KindOf e with
      | KindNotFound => d' = d /\ forall s, s ∈ subscriptions d -> sub_Token s <> token
      | KindInternal => d' = d \/ exists s, s ∈ subscriptions d /\ sub_Token s = token /\
          (subscriptions d' = subscriptions d \/ subscriptions d' = confirmed_rows s d) /\
          registered (sub_Repo s) (set_subscriptions (subscriptions d') d) d'
      | _ => False
      end
  end.

Lemma upsert_do_nothing `{!PgServer} repo d r d' :
  upsert_repository repo (fun id => mkRepository id repo "" None None) (fun r => r) true d
    = (r, d') ->
  registered repo d d' /\ (r = Ok () -> tracked repo d').
Proof.
  unfold upsert_repository, registered, tracked. case_match; [intros [= <- <-]; naive_solver|].
  case_match; [intros [= <- <-]; naive_solver|]. case_match eqn:E; intros [= <- <-]; simpl.
  - assert (forall P, update_where P (fun r : Repository => r) (repositories d)
                      = repositories d) as Hid.
    { intros P. unfold update_where. rewrite <- (list_fmap_id (repositories d)) at 2.
      apply list_fmap_ext. intros i a _. by destruct (P a). }
    rewrite Hid. split; [by auto|]. intros _.
    apply existsb_exists in E as (rp & Hin & Hrp). exists rp.
    split; [by apply list_elem_of_In|by apply String.eqb_eq].
  - split; [by eauto 6|]. intros _.
    eexists (mkRepository _ _ _ _ _). split; [|reflexivity].
    apply elem_of_app. right. by apply list_elem_of_singleton.
Qed.

Section ConfirmProof.
Context {X : Type} `{!Env X} `{!PgServerLaws env_server}.

Lemma wp_RegisterRepo repo (w : World X) :
  wp (RegisterRepo repo) (fun r w' => only_db w w' /\
    registered repo (w_db w) (w_db w') /\ (r = Ok () -> tracked repo (w_db w')) /\
    forall e, r = Err e -> infra_error e) w.
Proof.
  assert (forall d, registered repo d d) as Hrefl by (intros d; by split_and!; auto).
  unfold RegisterRepo. apply wp_db_stmt; intros; simpl.
  - split; [done|]. split; [apply Hrefl|]. split; [done|]. by intros e [= <-].
  - destruct (upsert_repository _ _ _ _ _) as [r d'] eqn:E. simpl.
    pose proof (upsert_do_nothing _ _ _ _ E) as [? ?]. split; [done|]. split; [done|].
    split; [done|]. unfold upsert_repository in E. intros e ->.
    repeat case_match; by simplify_eq.
  - destruct (upsert_repository _ _ _ _ _) as [r d'] eqn:E. simpl.
    pose proof (upsert_do_nothing _ _ _ _ E) as [? ?].
    split; [done|]. split; [done|]. split; [done|]. by intros e [= <-].
Qed.

Lemma wp_ConfirmSubscription token (w : World X) :
  wp (ConfirmSubscription token) (fun r w' => only_db w w' /\
    (w_db w' = w_db w \/ w_db w' = set_subscriptions
       (update_where (by_token token) set_confirmed (subscriptions (w_db w))) (w_db w)) /\
    (r = Ok () -> w_db w' = set_subscriptions
       (update_where (by_token token) set_confirmed (subscriptions (w_db w))) (w_db w)) /\
    forall e, r = Err e -> infra_error e) w.
Proof.
  unfold ConfirmSubscription. apply wp_db_stmt; intros; simpl;
    (split; [done|]); (split; [by auto|]); (split; [done|]); by intros e [= <-].
Qed.

Lemma confirm_registered token s d d1 r d' :
  s ∈ subscriptions d -> sub_Token s = token ->
  d1 = set_subscriptions (subscriptions d1) d ->
  subscriptions d1 = confirmed_rows s d ->
  registered (sub_Repo s) d1 d' -> (r = Ok () -> tracked (sub_Repo s) d') ->
  (forall e, r = Err e -> infra_error e) -> confirm_outcome token d r d'.
Proof.
  intros Hs Htok Hd1 Hrows Hreg Htr He. unfold confirm_outcome.
  pose proof Hreg as (Hs' & Ho & Hg & _).
  assert (registered (sub_Repo s) (set_subscriptions (subscriptions d') d) d') as Hreg'.
  { by rewrite Hs', <- Hd1. }
  assert (outbox d1 = outbox d /\ saga d1 = saga d) as [Ho1 Hg1] by by rewrite Hd1.
  rewrite Ho, Hg. split; [done|]. split; [done|]. destruct r as [[]|e].
  - exists s. rewrite Hs'. rewrite Hs' in Hreg'. split_and!; auto.
  - rewrite KindOf_infra by by apply He. right. exists s.
    rewrite Hs'. rewrite Hs' in Hreg'. split_and!; auto.
Qed.

Lemma Confirm_result token (w : World X) :
  wp (Confirm token) (fun r w' => only_db w w' /\
    confirm_outcome token (w_db w) r (w_db w')) w.
Proof.
  unfold Confirm. apply wp_bind, wp_wrap, wp_first_such.
  { intros x m. split; [done|]. split; [done|]. split; [done|]. simpl. by left. }
  intros x o Ho. destruct o as [s|]; simpl in Ho.
  2: { apply wp_throw. split; [done|]. split; [done|]. split; [done|]. simpl.
       split; [done|]. intros s Hs. apply String.eqb_neq. by apply Ho. }
  destruct Ho as [Hs Htok%String.eqb_eq]. apply wp_bind.
  set (Q := fun (r : result unit) (w' : World X) => only_db w w' /\ confirm_outcome token (w_db w) r (w_db w')).
  assert (forall w1, only_db w w1 -> w_db w1 = set_subscriptions (subscriptions (w_db w1)) (w_db w) ->
    subscriptions (w_db w1) = confirmed_rows s (w_db w) ->
    wp (wrap "failed to track repository" (RegisterRepo (sub_Repo s))) Q w1) as Hnext.
  { intros w1 Hf1 Hdb1 Hrows. apply wp_wrap. eapply wp_mono; [apply wp_RegisterRepo|].
    intros r w' (Hf & Hreg & Htr & He). unfold Q.
    destruct r as [[]|e]; (split; [by etrans|]).
    - by eapply confirm_registered.
    - eapply (confirm_registered _ s _ (w_db w1)); try done.
      intros e' [= <-]. by apply infra_wrap, He. }
  destruct (sub_Confirmed s) eqn:Hc; simpl.
  { apply wp_ret. apply Hnext; simpl; [done|by destruct (w_db w)|].
    unfold confirmed_rows. by rewrite Hc. }
  apply wp_wrap. eapply wp_mono; [apply wp_ConfirmSubscription|]. simpl.
  intros r w1 (Hf1 & Hdb1 & Hok1 & He). destruct r as [[]|e].
  - specialize (Hok1 eq_refl). apply Hnext; [done|by rewrite Hok1|].
    rewrite Hok1. unfold confirmed_rows. by rewrite Hc, Htok.
  - unfold Q. split; [done|]. unfold confirm_outcome. rewrite KindOf_wrap, KindOf_infra by by apply He.
    destruct Hdb1 as [-> | ->]; (split; [done|]); (split; [done|]); [by left|].
    right. exists s. split; [done|]. split; [done|]. simpl. split.
    + right. unfold confirmed_rows. by rewrite Hc, Htok.
    + by split_and!; auto.
Qed.

(** Nothing can fail but the registration, when its sequence has run out or the
    name is too long for the column. *)
Lemma Confirm_ok token s (w : World X) :
  healthy_db X -> db_ok (w_db w) -> s ∈ subscriptions (w_db w) -> sub_Token s = token ->
  repositories_id_seq (w_db w) + 1 <= serial_max -> varchar (sub_Repo s) = true ->
  wp (Confirm token) (fun r _ => r = Ok ()) w.
Proof.
  intros Hh Hok Hs Htok Hseq Hfit. unfold Confirm, GetSubscriptionByToken.
  apply wp_bind, wp_wrap, wp_db_stmt_ok; [done|]. intros x now. simpl.
  rewrite (first_such_token (w_db w) token _ s Hok (first_such_scan _ _) Hs Htok).
  apply wp_bind.
  assert (forall w1 : World X, repositories_id_seq (w_db w1) = repositories_id_seq (w_db w) ->
    wp (wrap "failed to track repository" (RegisterRepo (sub_Repo s)))
      (fun r _ => r = Ok ()) w1) as Hnext.
  { intros w1 Hw1. unfold RegisterRepo. apply wp_wrap, wp_db_stmt_ok; [done|]. intros x' now'.
    simpl. unfold upsert_repository. rewrite Hw1.
    assert (serial_max <? repositories_id_seq (w_db w) + 1 = false) as -> by by apply Z.ltb_ge.
    rewrite Hfit. simpl. by destruct (existsb _ _). }
  destruct (sub_Confirmed s); simpl.
  - apply wp_ret. by apply Hnext.
  - apply wp_wrap, wp_db_stmt_ok; [done|]. intros x' now'. simpl. by apply Hnext.
Qed.
End ConfirmProof.

(** ** Unsubscribe and the queries *)

Section OtherProofs.
Context {X : Type} `{!Env X} `{!PgServerLaws env_server}.

(** The rows after the row of a token is deleted. *)
Definition deleted (token : string) (d : DB) : DB :=
  set_subscriptions (delete_where (by_token token) (subscriptions d)) d.

Definition unsubscribe_outcome (token : string) (d : DB) (r : result unit) (d' : DB) : Prop :=
  match r with
  | Ok _ => (exists s, s ∈ subscriptions d /\ sub_Token s = token) /\ d' = deleted token d
  | Err e =>
      match KindOf e with
      | KindNotFound => d' = d /\ forall s, s ∈ subscriptions d -> sub_Token s <> token
      | KindInternal => d' = d \/ d' = deleted token d
      | _ => False
      end
  end.

Lemma Unsubscribe_result token (w : World X) :
  wp (Unsubscribe token) (fun r w' => only_db w w' /\
    unsubscribe_outcome token (w_db w) r (w_db w')) w.
Proof.
  unfold Unsubscribe. apply wp_bind, wp_wrap, wp_first_such.
  { intros x m. split; [done|]. by left. }
  intros x o Ho. destruct o as [s|]; simpl in Ho.
  - destruct Ho as [Hs Htok%String.eqb_eq].
    apply wp_db_stmt; intros; simpl; (split; [done|]); [by left| |by right].
    split; [by exists s|done].
  - apply wp_throw. split; [done|]. split; [done|]. intros s Hs.
    apply String.eqb_neq. by apply Ho.
Qed.

(** The subscriptions of an address, oldest first. *)
Lemma GetSubscriptions_result email (w : World X) :
  wp (GetSubscriptions email) (fun r w' => only_db w w' /\ w_db w' = w_db w /\
    match r with
    | Ok l => ValidateEmail email = true /\ StronglySorted created_before l /\
        l ≡ₚ select_where (fun s => String.eqb (sub_Email s) email) (subscriptions (w_db w))
    | Err e => if ValidateEmail email then KindOf e = KindInternal
               else e = EDomain ErrInvalidEmail
    end) w.
Proof.
  unfold GetSubscriptions. destruct (ValidateEmail email); simpl; [|by apply wp_throw].
  apply wp_query; [done|]. intros x. split; [done|]. split; [done|]. split; [done|]. split.
  - apply StronglySorted_merge_sort.
    + intros a b c. unfold created_before. lia.
    + intros a b. unfold created_before. lia.
  - by rewrite (merge_sort_Permutation created_before), pg_scan_perm.
Qed.

Lemma ActiveRepos_result (w : World X) :
  wp ActiveRepos (fun r w' => only_db w w' /\ w_db w' = w_db w /\
    match r with
    | Ok l => NoDup l /\ forall repo, repo ∈ l <->
        exists s, s ∈ subscriptions (w_db w) /\ sub_Repo s = repo /\ sub_Confirmed s = true
    | Err e => KindOf e = KindInternal
    end) w.
Proof.
  unfold ActiveRepos, GetActiveRepos. apply wp_query; [done|]. intros x.
  split; [done|]. split; [done|]. split.
  - rewrite pg_scan_perm. apply NoDup_remove_dups.
  - intros repo. rewrite pg_scan_perm, elem_of_remove_dups, list_elem_of_fmap.
    setoid_rewrite elem_of_select_where. naive_solver.
Qed.

Lemma SubscribersForRepo_result repo (w : World X) :
  wp (SubscribersForRepo repo) (fun r w' => only_db w w' /\ w_db w' = w_db w /\
    match r with
    | Ok l => l ≡ₚ (fun s => mkSubscriber (sub_ID s) (sub_Email s) (sub_Token s)) <$>
        select_where (fun s => String.eqb (sub_Repo s) repo && sub_Confirmed s)
          (subscriptions (w_db w))
    | Err e => KindOf e = KindInternal
    end) w.
Proof.
  unfold SubscribersForRepo. apply wp_bind, wp_query; [done|]. intros x.
  apply wp_ret. split; [done|]. split; [done|]. by rewrite pg_scan_perm.
Qed.
End OtherProofs.

(** ** The properties of the service *)

Section Properties.
Context {X : Type} `{!Env X} `{!PgServerLaws env_server}.
Implicit Types w : World X.

(** C13: Subscribe, every branch, with the answer that GitHub gave about the
    repository. An invalid address or repository is refused before anything is
    called. The repository is reported as not found exactly when GitHub
    answered that it does not exist, and then no row changes; when GitHub
    could not be asked, the error is its error and no row changes. Only when
    GitHub answered that it exists: a pending or confirmed duplicate is refused
    with no change; no error means that a new unconfirmed subscription was
    added, when there was none for the pair, or the failed one was revived with
    a fresh token; an internal error leaves the subscriptions as they were or as
    a success would. The invariant of the database is kept, and no saga leaves
    its lifecycle. *)
Theorem Subscribe_outcome (gh : GitHubClient X) (sg : sagaStarter X) baseURL
    w w' email repo r :
  GitHubClientSpec gh -> SagaStarterSpec sg ->
  db_ok (w_db w) -> w_tx w = None -> Subscribe gh sg baseURL email repo w = (r, w') ->
  w_tx w' = None /\ db_ok (w_db w') /\ sagas_grow (w_db w) (w_db w') /\
  subscribe_outcome gh email repo w r w'.
Proof.
  intros Hgh Hsg Hok Htx.
  exact (wp_elim _ _ _ _ _ (Subscribe_result gh sg baseURL w email repo Hok Htx)).
Qed.

(** C29: Confirm, every branch: no error means that a subscription has the token, it
    is confirmed now, and its repository is tracked, also when it had been
    confirmed before (so that retrying the link heals a failed registration);
    a token that nobody has is not found and changes nothing; an internal error
    leaves each of the two steps done or not done. No other subscription, saga
    or message changes. *)
Theorem Confirm_outcome w w' token r :
  Confirm token w = (r, w') -> only_db w w' /\ confirm_outcome token (w_db w) r (w_db w').
Proof. exact (wp_elim _ _ _ _ _ (Confirm_result token w)). Qed.

(** Confirm succeeds on the link of an existing subscription while the database
    answers, its sequence has room and the name fits the column. *)
Theorem Confirm_succeeds w token s :
  healthy_db X -> db_ok (w_db w) -> s ∈ subscriptions (w_db w) -> sub_Token s = token ->
  repositories_id_seq (w_db w) + 1 <= serial_max -> varchar (sub_Repo s) = true ->
  (Confirm token w).1 = Ok ().
Proof. apply Confirm_ok. Qed.

(** Unsubscribe, every branch: no error means that the token had a subscription
    and the rows with the token, and only they, are gone; a token that nobody
    has is not found and changes nothing. *)
Theorem Unsubscribe_outcome w w' token r :
  Unsubscribe token w = (r, w') ->
  only_db w w' /\ unsubscribe_outcome token (w_db w) r (w_db w').
Proof. exact (wp_elim _ _ _ _ _ (Unsubscribe_result token w)). Qed.

(** The listing of an address: refused when the address is not valid, otherwise
    all its subscriptions and only those, oldest first; nothing is changed. *)
Theorem GetSubscriptions_complete w w' email r :
  GetSubscriptions email w = (r, w') ->
  only_db w w' /\ w_db w' = w_db w /\
  match r with
  | Ok l => ValidateEmail email = true /\ StronglySorted created_before l /\
      l ≡ₚ select_where (fun s => String.eqb (sub_Email s) email) (subscriptions (w_db w))
  | Err e => if ValidateEmail email then KindOf e = KindInternal
             else e = EDomain ErrInvalidEmail
  end.
Proof. exact (wp_elim _ _ _ _ _ (GetSubscriptions_result email w)). Qed.
End Properties.

(** ** Witnesses *)

Section Witnesses.
#[local] Existing Instance calm_env.

Definition service_world : World Script := play (sample_db StateSubscriptionCreated) calm.

Lemma Confirm_outcome_witness :
  (Confirm "tok-1" service_world).1 = Ok () /\
  confirm_outcome "tok-1" (w_db service_world) (Ok ()) (w_db (Confirm "tok-1" service_world).2).
Proof.
  split; [vm_compute; reflexivity|].
  refine (proj2 (Confirm_outcome service_world _ "tok-1" (Ok ()) _)). vm_compute. reflexivity.
Defined.

Lemma Confirm_succeeds_witness : (Confirm "tok-1" service_world).1 = Ok ().
Proof.
  apply (Confirm_succeeds service_world "tok-1" sample_sub calm_healthy (sample_db_ok _)).
  - apply elem_of_cons. by left.
  - reflexivity.
  - vm_compute. discriminate.
  - vm_compute. reflexivity.
Defined.

Lemma Unsubscribe_outcome_witness :
  (Unsubscribe "tok-2" service_world).1 = Ok () /\
  unsubscribe_outcome "tok-2" (w_db service_world) (Ok ())
    (w_db (Unsubscribe "tok-2" service_world).2).
Proof.
  split; [vm_compute; reflexivity|].
  refine (proj2 (Unsubscribe_outcome service_world _ "tok-2" (Ok ()) _)).
  vm_compute. reflexivity.
Defined.

Lemma GetSubscriptions_complete_witness :
  (GetSubscriptions "bob@example.com" service_world).1 = Ok [confirmed_sub] /\
  only_db service_world (GetSubscriptions "bob@example.com" service_world).2.
Proof.
  split; [vm_compute; reflexivity|].
  exact (proj1 (GetSubscriptions_complete service_world _ "bob@example.com" _
                  (surjective_pairing _))).
Defined.
End Witnesses.
