(* ===== verification/Gateway.v ===== *)
(** * internal/githubgateway and internal/cache: the GitHub client

    [Client] speaks to the HTTP API with a bounded backoff on 429;
    [CachedClient] puts the Redis cache of internal/cache in front of it. *)

From S2P Require Import Prelude GoErrors Tables Env Logic Script GoStrings Json.
From stdpp Require Import pretty.

Local Open Scope string_scope.
Local Open Scope Z_scope.

(** ** URLs of net/http *)

(** The text before the first [c], and the text after it. *)
Fixpoint Cut (c : ascii) (s : string) : string * string :=
  match s with
  | EmptyString => ("", "")
  | String a s' =>
      if Ascii.eqb a c then ("", s')
      else let '(p, q) := Cut c s' in (String a p, q)
  end.

(** Every per cent sign is followed by two hexadecimal digits. *)
Fixpoint valid_escapes (s : string) : bool :=
  match s with
  | EmptyString => true
  | String a s' =>
      (if Ascii.eqb a "%" then
         match s' with
         | String h (String l _) =>
             match hex_value h, hex_value l with Some _, Some _ => true | _, _ => false end
         | _ => false
         end
       else true) && valid_escapes s'
  end.

Fixpoint no_control (s : string) : bool :=
  match s with
  | EmptyString => true
  | String a s' => negb ((code a <? 32)%N || (code a =? 127)%N) && no_control s'
  end.

(** What [url.Parse] refuses of an address whose scheme and host are fixed. *)
Definition url_parses (url : string) : bool :=
  let '(base, fragment) := Cut "#" url in
  no_control base && valid_escapes (Cut "?" base).1 && valid_escapes fragment.

Definition invalid_url : error := EPlain "parse: invalid URL".

(** ** The HTTP client *)

Section Client.
Context {X : Type} `{!Env X}.
Local Abbreviation M := (GoM X).

(** [Client]: the API token; the timeout is the transport's. *)
Variable token : string.

(** [setHeaders]. *)
Definition setHeaders : list (string * string) :=
  [("Accept", "application/vnd.github.v3+json");
   ("User-Agent", "github-release-notifier")] ++
  (if is_empty token then [] else [("Authorization", "Bearer " +:+ token)]).

(** [http.NewRequestWithContext(ctx, GET, url, nil)] with the headers. *)
Definition NewRequest (url : string) : result HttpRequest :=
  if url_parses url then Ok (mkHttpRequest "GET" url setHeaders) else Err invalid_url.

Definition Do (req : HttpRequest) : M HttpResponse :=
  ext_call (env_http req) (Some (EvHttp req)).

Definition StatusOK : Z := 200.
Definition StatusNotFound : Z := 404.
Definition StatusTooManyRequests : Z := 429.
Definition maxRetries : nat := 3.

(** [time.Duration(2<<i) * time.Second]. *)
Definition backoff (i : nat) : Z := Z.shiftl 2 (Z.of_nat i) * 1000000000.

(** The loop of [doWithRetry] from attempt [i], with [n] attempts to go before
    the final one. *)
Fixpoint retry_do (n i : nat) (req : HttpRequest) : M HttpResponse :=
  match n with
  | O => Do req
  | S n' =>
      resp ← Do req;
      if negb (StatusCode resp =? StatusTooManyRequests) then mret resp
      else sleep (backoff i) ;; retry_do n' (S i) req
  end.

Definition doWithRetry (req : HttpRequest) : M HttpResponse := retry_do maxRetries 0 req.

Definition status_error (resp : HttpResponse) : error :=
  EPlain ("github API returned status " +:+ pretty (StatusCode resp)).

(** How [CheckRepoExists] and [GetLatestRelease] read a response. *)
Definition exists_of (resp : HttpResponse) : result bool :=
  if StatusCode resp =? StatusOK then Ok true
  else if StatusCode resp =? StatusNotFound then Ok false
  else Err (status_error resp).

(** [json.NewDecoder(resp.Body).Decode(&release)], then [release.TagName]. *)
Definition tag_of (resp : HttpResponse) : result string :=
  if StatusCode resp =? StatusNotFound then Ok ""
  else if negb (StatusCode resp =? StatusOK) then Err (status_error resp)
  else match Decode ["tag_name"; "name"] (Body resp) with
       | Ok (tag :: _) => Ok tag
       | Ok [] => Err type_error
       | Err e => Err e
       end.

Definition of_result {A} (r : result A) : M A :=
  match r with Ok a => mret a | Err e => throw e end.

Definition Client_CheckRepoExists (owner repo : string) : M bool :=
  let url := "https://api.github.com/repos/" +:+ owner +:+ "/" +:+ repo in
  req ← of_result (NewRequest url);
  resp ← doWithRetry req;
  of_result (exists_of resp).

Definition Client_GetLatestRelease (owner repo : string) : M string :=
  let url := "https://api.github.com/repos/" +:+ owner +:+ "/" +:+ repo +:+
             "/releases/latest" in
  req ← of_result (NewRequest url);
  resp ← doWithRetry req;
  of_result (tag_of resp).
End Client.

(** ** The cache *)

Section Cache.
Context {X : Type} `{!Env X}.
Local Abbreviation M := (GoM X).
Variable ttl : Z.

(** [redis.Nil] is a miss, not an error. *)
Definition Cache_Get (key : string) : M string :=
  v ← ext_call (env_redis_get key) None;
  mret (default "" v).

Definition Cache_Set (key value : string) : M unit :=
  ext_call (env_redis_set key value ttl) (Some (EvRedisSet key value)).
End Cache.

(** [upstreamClient] and [Cacher]. *)
Record upstreamClient (X : Type) := mkUpstream {
  up_CheckRepoExists : string -> string -> GoM X bool;
  up_GetLatestRelease : string -> string -> GoM X string }.
Arguments up_CheckRepoExists {X}. Arguments up_GetLatestRelease {X}.

Record Cacher (X : Type) := mkCacher {
  cache_Get : string -> GoM X string;
  cache_Set : string -> string -> GoM X unit }.
Arguments cache_Get {X}. Arguments cache_Set {X}.

Definition cachedTrue : string := "true".
Definition cachedFalse : string := "false".

Section CachedClient.
Context {X : Type} `{!Env X}.
Local Abbreviation M := (GoM X).
Variable client : upstreamClient X.
Variable cache : Cacher X.

Definition exists_key (owner repo : string) : string :=
  "repo_exists:" +:+ owner +:+ "/" +:+ repo.
Definition release_key (owner repo : string) : string :=
  "latest_release:" +:+ owner +:+ "/" +:+ repo.

(** A read error is logged and taken as a miss. *)
Definition cached (key : string) : M string :=
  r ← try (cache_Get cache key);
  mret (match r with Ok v => v | Err _ => "" end).

Definition api_call (endpoint outcome : string) : M unit :=
  inc "github_api_calls_total" [endpoint; outcome].

Definition Cached_CheckRepoExists (owner repo : string) : M bool :=
  let key := exists_key owner repo in
  val ← cached key;
  if String.eqb val cachedTrue then api_call "check_repo" "hit" ;; mret true
  else if String.eqb val cachedFalse then api_call "check_repo" "hit" ;; mret false
  else
    api_call "check_repo" "miss" ;;
    ex ← up_CheckRepoExists client owner repo;
    try (cache_Set cache key (if (ex : bool) then cachedTrue else cachedFalse)) ;;
    mret ex.

Definition Cached_GetLatestRelease (owner repo : string) : M string :=
  let key := release_key owner repo in
  val ← cached key;
  if negb (is_empty val) then api_call "latest_release" "hit" ;; mret val
  else
    api_call "latest_release" "miss" ;;
    tag ← up_GetLatestRelease client owner repo;
    (if negb (is_empty tag) then try (cache_Set cache key tag) ;; mret () else mret ()) ;;
    mret tag.
End CachedClient.

(** ** The backoff *)

(** [k] rate-limited requests, the first of them being attempt [i], each with
    the pause after it. *)
Fixpoint limited (i k : nat) (req : HttpRequest) : list Event :=
  match k with
  | O => []
  | S k' => EvHttp req true :: EvSleep (backoff i) :: limited (S i) k' req
  end.

Lemma limited_quiet i k req : publishes (limited i k req) = [].
Proof. revert i. induction k as [|k IH]; intros i; [done|]. apply IH. Qed.

(** An answer that GitHub gave to this request, at some time. *)
Definition answered {X : Type} `{!Env X} (req : HttpRequest) (resp : HttpResponse) : Prop :=
  exists x, (env_http req x).1 = inr resp.

(** Nothing but the environment and the trace changed. *)
Definition only_calls {X : Type} (w w' : World X) : Prop :=
  w_db w' = w_db w /\ w_tx w' = w_tx w /\ w_metrics w' = w_metrics w.

#[export] Instance only_calls_preorder {X : Type} : PreOrder (@only_calls X).
Proof. split; [done|]. intros w1 w2 w3 (?&?&?) (?&?&?). repeat split; congruence. Qed.

Section Backoff.
Context {X : Type} `{!Env X}.

(** [I] is an invariant of the environment that its HTTP calls keep. *)
Variable I : X -> Prop.
Hypothesis http_keeps : forall req x, I x -> I (env_http req x).2.

Lemma wp_Do req (w : World X) :
  I (w_ext w) ->
  wp (Do req) (fun r w' => only_calls w w' /\ I (w_ext w') /\
    w_trace w' = app (w_trace w) [EvHttp req (is_ok r)] /\
    match r with Ok resp => answered req resp | Err e => infra_error e end) w.
Proof.
  intros HI. pose proof (http_keeps req _ HI) as HI'.
  unfold Do. apply wp_ext_call; intros a x E; rewrite E in HI'; simpl;
    (split; [done|]); (split; [done|]); (split; [done|]); [|done].
  exists (w_ext w). by rewrite E.
Qed.

Lemma retry_do_result n i req (w : World X) :
  I (w_ext w) ->
  wp (retry_do n i req) (fun r w' => only_calls w w' /\ I (w_ext w') /\
    match r with Ok resp => answered req resp | Err e => infra_error e end /\
    exists k, (k <= n)%nat /\
      w_trace w' = app (w_trace w) (app (limited i k req) [EvHttp req (is_ok r)]) /\
      ((k < n)%nat -> forall resp, r = Ok resp ->
         StatusCode resp <> StatusTooManyRequests)) w.
Proof.
  revert i w. induction n as [|n IH]; intros i w HI; simpl.
  { eapply wp_mono; [by apply wp_Do|]. intros r w' (Hf & HI' & Htr & Ha).
    split_and!; try done. exists 0%nat. split; [lia|]. split; [done|lia]. }
  apply wp_bind. eapply wp_mono; [by apply wp_Do|].
  intros r w1 (Hf & HI1 & Htr & Ha). destruct r as [resp|e].
  2: { split_and!; try done. exists 0%nat. split; [lia|]. by split. }
  destruct (StatusCode resp =? StatusTooManyRequests) eqn:E; simpl.
  - apply wp_bind, wp_sleep. eapply wp_mono; [by apply IH|].
    intros r w2 (Hf2 & HI2 & Ha2 & k & Hk & Htr2 & Hst).
    split; [by etrans|]. split; [done|]. split; [done|].
    exists (S k). split; [lia|]. split; [|intros ?; apply Hst; lia].
    rewrite Htr2. simpl. by rewrite Htr, <- !app_assoc.
  - apply wp_ret. split_and!; try done. exists 0%nat. split; [lia|]. split; [done|].
    intros _ resp' [= <-]. by apply Z.eqb_neq.
Qed.
End Backoff.

(** ** What the clients promise

    [A] and [B] say which answers are right for a repository, [E] which errors
    may be returned, [I] is an invariant of the services. *)
Class UpstreamSpec {X : Type} (A : string -> bool -> Prop) (B : string -> string -> Prop)
    (E : error -> Prop) (I : X -> Prop) (c : upstreamClient X) : Prop := {
  up_check_spec : forall owner repo w, I (w_ext w) ->
    wp (up_CheckRepoExists c owner repo) (fun r w' =>
      I (w_ext w') /\ quiet w w' /\
      match r with Ok b => A (owner +:+ "/" +:+ repo) b | Err e => E e end) w;
  up_release_spec : forall owner repo w, I (w_ext w) ->
    wp (up_GetLatestRelease c owner repo) (fun r w' =>
      I (w_ext w') /\ quiet w w' /\
      match r with Ok t => B (owner +:+ "/" +:+ repo) t | Err e => E e end) w }.

(** The answers GitHub gave, at some time, about a repository. *)
Definition said_exists (X : Type) `{!Env X} (token full : string) (b : bool) : Prop :=
  exists resp, exists_of resp = Ok b /\
    answered (mkHttpRequest "GET" ("https://api.github.com/repos/" +:+ full) (setHeaders token)) resp.
Definition said_latest (X : Type) `{!Env X} (token full : string) (tag : string) : Prop :=
  exists resp, tag_of resp = Ok tag /\
    answered (mkHttpRequest "GET" ("https://api.github.com/repos/" +:+ full +:+ "/releases/latest")
                (setHeaders token)) resp.

Definition Client (X : Type) `{!Env X} (token : string) : upstreamClient X :=
  mkUpstream X (Client_CheckRepoExists token) (Client_GetLatestRelease token).

Lemma decode_struct_infra ns v e : decode_struct ns v = Err e -> infra_error e.
Proof. unfold decode_struct. repeat case_match; by intros [= <-]. Qed.

Lemma Decode_infra ns body e : Decode ns body = Err e -> infra_error e.
Proof. unfold Decode. case_match; [apply decode_struct_infra|by intros [= <-]]. Qed.

Section ClientProof.
Context {X : Type} `{!Env X}.
Variable I : X -> Prop.
Hypothesis http_keeps : forall req x, I x -> I (env_http req x).2.

(** A request, and a reading of its response that fails with plain errors. *)
Lemma request_result {A} token url (read : HttpResponse -> result A) (w : World X) :
  (forall resp e, read resp = Err e -> infra_error e) -> I (w_ext w) ->
  wp (req ← of_result (NewRequest token url); resp ← doWithRetry req; of_result (read resp))
    (fun r w' => I (w_ext w') /\ quiet w w' /\
       match r with
       | Ok a => exists resp, read resp = Ok a /\
                   answered (mkHttpRequest "GET" url (setHeaders token)) resp
       | Err e => infra_error e
       end) w.
Proof.
  intros Hread HI. apply wp_bind. unfold NewRequest. destruct (url_parses url); simpl.
  2: { by apply wp_throw. }
  apply wp_ret, wp_bind. eapply wp_mono; [by apply (retry_do_result I)|].
  intros r w' ((Hdb & Htx & _) & HI' & Ha & k & _ & Htr & _).
  assert (quiet w w') as Hq.
  { split; [done|]. split; [done|]. rewrite Htr, !publishes_app, limited_quiet.
    by rewrite app_nil_r. }
  destruct r as [resp|e]; [|done]. destruct (read resp) as [a|e] eqn:E; simpl.
  - apply wp_ret. split_and!; try apply Hq; try done. by exists resp.
  - apply wp_throw. split_and!; try apply Hq; try done. by eapply Hread.
Qed.

#[export] Instance Client_spec token :
  UpstreamSpec (said_exists X token) (said_latest X token) infra_error I (Client X token).
Proof.
  split; intros owner repo w HI.
  - eapply wp_mono; [apply request_result; [|done]|].
    + intros resp e. unfold exists_of. repeat case_match; by intros [= <-].
    + intros r w' (? & ? & H). by destruct r.
  - eapply wp_mono; [apply request_result; [|done]|].
    + intros resp e. unfold tag_of. repeat case_match; try by intros [= <-].
      intros [= <-]. by eapply Decode_infra.
    + intros r w' (? & ? & H). split; [done|]. split; [done|]. destruct r; [|done].
      unfold said_latest. by rewrite <- !string_app_assoc.
Qed.
End ClientProof.

(** ** The cache adds no answers of its own *)

(** What is documented of Redis: [GET] returns what the store holds, [SET]
    stores the value or does nothing, and keys can expire at any time. [redis_view] is the store. *)
Class RedisLaws (X : Type) `{!Env X} := {
  redis_view : X -> gmap string string;
  redis_get_view : forall k x, redis_view (env_redis_get k x).2 ⊆ redis_view x;
  redis_get_value : forall k x v,
    (env_redis_get k x).1 = inr (Some v) -> redis_view x !! k = Some v;
  redis_set_view : forall k v ttl x k' v',
    redis_view (env_redis_set k v ttl x).2 !! k' = Some v' ->
    redis_view x !! k' = Some v' \/ k' = k /\ v' = v;
  redis_http_view : forall req x, redis_view (env_http req x).2 ⊆ redis_view x }.

(** Every cached answer is right. *)
Definition coherent {X : Type} `{!Env X, !RedisLaws X} (A : string -> bool -> Prop)
    (B : string -> string -> Prop) (x : X) : Prop :=
  forall full,
    (redis_view x !! ("repo_exists:" +:+ full) = Some cachedTrue -> A full true) /\
    (redis_view x !! ("repo_exists:" +:+ full) = Some cachedFalse -> A full false) /\
    (forall tag, redis_view x !! ("latest_release:" +:+ full) = Some tag -> B full tag).

Section Coherence.
Context {X : Type} `{!Env X, !RedisLaws X}.
Variables (A : string -> bool -> Prop) (B : string -> string -> Prop).
Implicit Types x : X.

Lemma coherent_mono x x' : redis_view x' ⊆ redis_view x -> coherent A B x -> coherent A B x'.
Proof.
  intros Hsub Hc full. destruct (Hc full) as (H1 & H2 & H3).
  rewrite map_subseteq_spec in Hsub. split_and!; intros; eauto.
Qed.

(** The store after a write of [v] under [k]. *)
Definition stored (k v : string) (x x' : X) : Prop :=
  forall k' v', redis_view x' !! k' = Some v' ->
    redis_view x !! k' = Some v' \/ k' = k /\ v' = v.

Lemma coherent_set_exists x x' full b :
  stored ("repo_exists:" +:+ full) (if (b : bool) then cachedTrue else cachedFalse) x x' ->
  coherent A B x -> A full b -> coherent A B x'.
Proof.
  intros Hst Hc Hb f. destruct (Hc f) as (H1 & H2 & H3).
  split_and!; intros; match goal with H : _ !! _ = _ |- _ => apply Hst in H as [|[Hk Hv]] end;
    auto; try done.
  - apply string_app_inj_l in Hk as ->. by destruct b.
  - apply string_app_inj_l in Hk as ->. by destruct b.
Qed.

Lemma coherent_set_release x x' full tag :
  stored ("latest_release:" +:+ full) tag x x' ->
  coherent A B x -> B full tag -> coherent A B x'.
Proof.
  intros Hst Hc Hb f. destruct (Hc f) as (H1 & H2 & H3).
  split_and!; intros; match goal with H : _ !! _ = _ |- _ => apply Hst in H as [|[Hk Hv]] end;
    auto; try done.
  apply string_app_inj_l in Hk as ->. by subst.
Qed.
End Coherence.

(** [cache.Cache] with a time to live. *)
Definition Cache (X : Type) `{!Env X} (ttl : Z) : Cacher X :=
  mkCacher X Cache_Get (Cache_Set ttl).

(** [NewCachedClient]. *)
Definition CachedClient {X : Type} `{!Env X} (c : upstreamClient X) (k : Cacher X)
    : upstreamClient X :=
  mkUpstream X (Cached_CheckRepoExists c k) (Cached_GetLatestRelease c k).

Section CachedProof.
Context {X : Type} `{!Env X, !RedisLaws X}.
Variables (A : string -> bool -> Prop) (B : string -> string -> Prop) (E : error -> Prop).
Variable I : X -> Prop.
Variable ttl : Z.
Hypothesis redis_get_keeps : forall k x, I x -> I (env_redis_get k x).2.
Hypothesis redis_set_keeps : forall k v t x, I x -> I (env_redis_set k v t x).2.
Variable c : upstreamClient X.
Context `{!UpstreamSpec A B E (fun x => I x /\ coherent A B x) c}.

(** A read of the cache gives nothing, or what it holds. *)
Lemma wp_cached key (w : World X) (Q : result string -> World X -> Prop) :
  I (w_ext w) -> coherent A B (w_ext w) ->
  (forall v w', quiet w w' -> I (w_ext w') -> coherent A B (w_ext w') ->
     v = "" \/ redis_view (w_ext w) !! key = Some v -> Q (Ok v) w') ->
  wp (cached (Cache X ttl) key) Q w.
Proof.
  intros HI Hc HQ. pose proof (redis_get_keeps key _ HI) as HI'.
  pose proof (coherent_mono A B _ _ (redis_get_view key (w_ext w)) Hc) as Hc'.
  unfold cached. apply wp_bind, wp_try. simpl. unfold Cache_Get. apply wp_bind.
  apply wp_ext_call; intros a x Ex; rewrite Ex in HI', Hc'; simpl.
  - destruct a as [v|]; simpl; apply HQ; try done; [right|by left].
    apply redis_get_value. by rewrite Ex.
  - apply HQ; try done. by left.
Qed.

(** A write, whether it succeeds or not, when the value is right. *)
Lemma wp_cache_set key v (w : World X) (Q : result unit -> World X -> Prop) :
  I (w_ext w) ->
  (forall r w', quiet w w' -> I (w_ext w') ->
     stored key v (w_ext w) (w_ext w') -> Q r w') ->
  wp (cache_Set (Cache X ttl) key v) Q w.
Proof.
  intros HI HQ. pose proof (redis_set_keeps key v ttl _ HI) as HI'.
  pose proof (redis_set_view key v ttl (w_ext w)) as Hv.
  apply wp_ext_call; intros a x Ex; rewrite Ex in HI', Hv; apply HQ; try done;
    (split; [done|]); (split; [done|]); simpl; by rewrite publishes_app, app_nil_r.
Qed.

Lemma Cached_check_result owner repo (w : World X) :
  I (w_ext w) /\ coherent A B (w_ext w) ->
  wp (Cached_CheckRepoExists c (Cache X ttl) owner repo) (fun r w' =>
    (I (w_ext w') /\ coherent A B (w_ext w')) /\ quiet w w' /\
    match r with Ok b => A (owner +:+ "/" +:+ repo) b | Err e => E e end) w.
Proof.
  intros [HI Hc]. unfold Cached_CheckRepoExists, api_call. apply wp_bind, wp_cached; [done..|].
  intros v w1 Hq1 HI1 Hc1 Hv. destruct (Hc (owner +:+ "/" +:+ repo)) as (H1 & H2 & _).
  destruct (String.eqb v cachedTrue) eqn:Et.
  { apply String.eqb_eq in Et as ->. apply wp_bind, wp_inc, wp_ret. split; [done|]. split; [exact Hq1|].
    apply H1. by destruct Hv. }
  destruct (String.eqb v cachedFalse) eqn:Ef.
  { apply String.eqb_eq in Ef as ->. apply wp_bind, wp_inc, wp_ret. split; [done|]. split; [exact Hq1|].
    apply H2. by destruct Hv. }
  apply wp_bind, wp_inc, wp_bind. eapply wp_mono; [by apply up_check_spec|]. simpl.
  intros [b|e] w2 ([HI2 Hc2] & Hq2 & Ha); [|split; [done|]; split; [by etrans|done]].
  apply wp_bind, wp_try, wp_cache_set; [done|]. intros r w3 Hq3 HI3 Hv3.
  apply wp_ret. split; [split; [done|by eapply coherent_set_exists]|].
  split; [|done]. do 2 (etrans; [done|]). done.
Qed.

Lemma Cached_release_result owner repo (w : World X) :
  I (w_ext w) /\ coherent A B (w_ext w) ->
  wp (Cached_GetLatestRelease c (Cache X ttl) owner repo) (fun r w' =>
    (I (w_ext w') /\ coherent A B (w_ext w')) /\ quiet w w' /\
    match r with Ok t => B (owner +:+ "/" +:+ repo) t | Err e => E e end) w.
Proof.
  intros [HI Hc]. unfold Cached_GetLatestRelease, api_call. apply wp_bind, wp_cached; [done..|].
  intros v w1 Hq1 HI1 Hc1 Hv. destruct (Hc (owner +:+ "/" +:+ repo)) as (_ & _ & H3).
  destruct (is_empty v) eqn:Ev; simpl.
  2: { apply wp_bind, wp_inc, wp_ret. split; [done|]. split; [exact Hq1|].
       apply H3. by destruct Hv as [->|?]. }
  apply wp_bind, wp_inc, wp_bind. eapply wp_mono; [by apply up_release_spec|]. simpl.
  intros [t|e] w2 ([HI2 Hc2] & Hq2 & Ha); [|split; [done|]; split; [by etrans|done]].
  apply wp_bind. destruct (is_empty t); simpl.
  { apply wp_ret, wp_ret. split; [done|]. split; [by etrans|done]. }
  apply wp_bind, wp_try, wp_cache_set; [done|]. intros r w3 Hq3 HI3 Hv3.
  apply wp_ret, wp_ret. split; [split; [done|by eapply coherent_set_release]|].
  split; [|done]. do 2 (etrans; [done|]). done.
Qed.

(** The world in which the upstream is asked, after the cache gave no answer. *)
Definition asked (endpoint key : string) (w : World X) : World X :=
  ((cached (Cache X ttl) key ;; api_call endpoint "miss") w).2.

Lemma cached_Ok (k : Cacher X) key (w : World X) :
  exists v, cached k key w = (Ok v, (cached k key w).2).
Proof.
  unfold cached, try, mbind, gom_bind. by destruct (cache_Get k key w) as [r w'];
    eexists.
Qed.

(** The error of the cached client is the one its upstream returned. *)
Lemma Cached_check_error owner repo (w : World X) e :
  (Cached_CheckRepoExists c (Cache X ttl) owner repo w).1 = Err e ->
  (up_CheckRepoExists c owner repo (asked "check_repo" (exists_key owner repo) w)).1 = Err e.
Proof.
  unfold Cached_CheckRepoExists, asked. set (key := exists_key owner repo).
  destruct (cached_Ok (Cache X ttl) key w) as [v Hv].
  unfold mbind, gom_bind. rewrite Hv. cbn.
  destruct (String.eqb v cachedTrue); [done|]. destruct (String.eqb v cachedFalse); [done|].
  cbn. destruct (up_CheckRepoExists c owner repo _) as [[b|e'] w2]; by cbn.
Qed.

Lemma Cached_release_error owner repo (w : World X) e :
  (Cached_GetLatestRelease c (Cache X ttl) owner repo w).1 = Err e ->
  (up_GetLatestRelease c owner repo (asked "latest_release" (release_key owner repo) w)).1 = Err e.
Proof.
  unfold Cached_GetLatestRelease, asked. set (key := release_key owner repo).
  destruct (cached_Ok (Cache X ttl) key w) as [v Hv].
  unfold mbind, gom_bind. rewrite Hv. cbn. destruct (is_empty v); [|done].
  cbn. destruct (up_GetLatestRelease c owner repo _) as [[t|e'] w2]; cbn; [|done].
  by destruct (is_empty t).
Qed.

#[export] Instance CachedClient_spec :
  UpstreamSpec A B E (fun x => I x /\ coherent A B x) (CachedClient c (Cache X ttl)).
Proof.
  split; intros; [by apply Cached_check_result|by apply Cached_release_result].
Qed.
End CachedProof.

(** ** The properties of the gateway *)

Section Properties.
Context {X : Type} `{!Env X}.
Implicit Types w : World X.

(** Bounded retries: a request goes out at most four times, the pauses between
    are 2 s, 4 s and 8 s in this order, a retry follows only a rate-limited
    answer, a 429 reaches the caller only after the fourth request, and
    nothing else is touched. *)
Theorem doWithRetry_bounded w w' req r :
  doWithRetry req w = (r, w') ->
  only_calls w w' /\
  exists k, (k <= 3)%nat /\
    w_trace w' = app (w_trace w) (app (limited 0 k req) [EvHttp req (is_ok r)]) /\
    (forall i, (i < 3)%nat -> backoff i = nth i [2; 4; 8] 0 * 1000000000) /\
    ((k < 3)%nat -> forall resp, r = Ok resp -> StatusCode resp <> 429).
Proof.
  intros Hrun.
  destruct (wp_elim _ _ _ _ _ (retry_do_result (fun _ => True) (fun _ _ _ => Logic.I)
    maxRetries 0 req w Logic.I) Hrun) as (Hf & _ & _ & k & Hk & Htr & Hst).
  split; [done|]. exists k. split; [done|]. split; [done|]. split; [|done].
  intros i Hi. destruct i as [|[|[|i]]]; [done|done|done|lia].
Qed.

Context `{!RedisLaws X}.

(** C26: Transparency of the cache: if every cached value is an answer that GitHub
    once gave about its repository, then so is every value the cached client
    returns, of both methods, and the cache stays so. The error of the cached
    client is the error that the client behind it returned when it was asked,
    after the cache had given no answer: a failing Redis is never the caller's
    error. It does not touch the database and publishes nothing. Keys of
    different repositories or of different methods never mix. *)
Theorem CachedClient_truthful token ttl owner repo w :
  coherent (said_exists X token) (said_latest X token) (w_ext w) ->
  let inv w' := coherent (said_exists X token) (said_latest X token) (w_ext w') /\
                quiet w w' in
  wp (up_CheckRepoExists (CachedClient (Client X token) (Cache X ttl)) owner repo)
    (fun r w' => inv w' /\
       match r with
       | Ok b => said_exists X token (owner +:+ "/" +:+ repo) b
       | Err e => (Client_CheckRepoExists token owner repo
                     (asked ttl "check_repo" (exists_key owner repo) w)).1 = Err e
       end) w /\
  wp (up_GetLatestRelease (CachedClient (Client X token) (Cache X ttl)) owner repo)
    (fun r w' => inv w' /\
       match r with
       | Ok tag => said_latest X token (owner +:+ "/" +:+ repo) tag
       | Err e => (Client_GetLatestRelease token owner repo
                     (asked ttl "latest_release" (release_key owner repo) w)).1 = Err e
       end) w.
Proof.
  intros Hc inv.
  assert (UpstreamSpec (said_exists X token) (said_latest X token) infra_error
    (fun x => True /\ coherent (said_exists X token) (said_latest X token) x)
    (Client X token)) as Hclient.
  { apply Client_spec. intros req x [_ Hx]. split; [done|].
    eapply coherent_mono; [apply redis_http_view|done]. }
  destruct (CachedClient_spec (said_exists X token) (said_latest X token) infra_error
    (fun _ => True) ttl (fun _ _ _ => Logic.I) (fun _ _ _ _ _ => Logic.I) (Client X token))
    as [H1 H2].
  split.
  - destruct (H1 owner repo w) as ([_ Hc'] & Hq & Hr); [by split|]. split; [by split|].
    pose proof (Cached_check_error ttl (Client X token) owner repo w) as He.
    destruct (up_CheckRepoExists _ owner repo w).1 as [b|e] eqn:E; [done|]. by apply He.
  - destruct (H2 owner repo w) as ([_ Hc'] & Hq & Hr); [by split|]. split; [by split|].
    pose proof (Cached_release_error ttl (Client X token) owner repo w) as He.
    destruct (up_GetLatestRelease _ owner repo w).1 as [t|e] eqn:E; [done|]. by apply He.
Qed.
End Properties.

(** ** Witnesses *)

Definition script_redis (b : bool) : @RedisLaws Script (script_env b).
Proof.
  refine (@Build_RedisLaws Script (script_env b) sc_redis _ _ _ _); simpl.
  - intros k x. unfold redis. by destruct (pop true (sc_redis_up x)) as [[] l].
  - intros k x v. unfold redis. destruct (pop true (sc_redis_up x)) as [[] l]; simpl; [|done].
    by intros [= <-].
  - intros k v _ x k' v'. unfold redis.
    destruct (pop true (sc_redis_up x)) as [[] l]; simpl; [|by left].
    intros [[<- <-]|[_ ?]]%lookup_insert_Some; auto.
  - intros req x. by destruct (pop _ _).
Defined.

Section Witnesses.
#[local] Existing Instance faulty_env.
#[local] Existing Instance script_redis.
Definition ok_tag : HttpResponse :=
  mkHttpResponse 200 (Marshal [("tag_name", "v1.2.3"); ("name", "x")]).
(** Two rate-limited answers, then the release. *)
Definition limited_twice : World Script :=
  play empty_db (mkScript [] 0 0 [] ∅ []
    [inr (mkHttpResponse 429 ""); inr (mkHttpResponse 429 ""); inr ok_tag] [] [] []).
Definition a_request : HttpRequest :=
  mkHttpRequest "GET" "https://api.github.com/repos/golang/go/releases/latest" [].

Lemma doWithRetry_bounded_witness :
  (doWithRetry a_request limited_twice).1 = Ok ok_tag /\
  only_calls limited_twice (doWithRetry a_request limited_twice).2.
Proof.
  split; [vm_compute; reflexivity|].
  exact (proj1 (doWithRetry_bounded limited_twice _ a_request _ (surjective_pairing _))).
Defined.

(** A Redis that refuses the first read, and a GitHub that cannot be reached. *)
Definition redis_down_once : World Script :=
  play empty_db (mkScript [] 0 0 [] ∅ [false] [inl "timeout"] [] [] []).

Lemma no_answers_coherent (w : World Script) :
  sc_redis (w_ext w) = ∅ ->
  coherent (RedisLaws0 := script_redis true) (said_exists Script "") (said_latest Script "")
    (w_ext w).
Proof. intros He full. cbn. rewrite He, !lookup_empty. split; [|split]; intros; discriminate. Qed.

(** An answer of GitHub; and Redis and GitHub both down: the error is GitHub's. *)
Lemma CachedClient_truthful_witness :
  let client := CachedClient (Client Script "") (Cache Script 600) in
  (up_GetLatestRelease client "golang" "go" limited_twice).1 = Ok "v1.2.3" /\
  said_latest Script "" "golang/go" "v1.2.3" /\
  (up_CheckRepoExists client "golang" "go" redis_down_once).1 = Err (EPlain "timeout") /\
  (Client_CheckRepoExists "" "golang" "go"
     (asked 600 "check_repo" (exists_key "golang" "go") redis_down_once)).1 = Err (EPlain "timeout").
Proof.
  intros client.
  assert ((up_GetLatestRelease client "golang" "go" limited_twice).1 = Ok "v1.2.3") as E1
    by (vm_compute; reflexivity).
  assert ((up_CheckRepoExists client "golang" "go" redis_down_once).1 = Err (EPlain "timeout")) as E2
    by (vm_compute; reflexivity).
  split; [exact E1|]. split; [|split; [exact E2|]].
  - pose proof (proj2 (CachedClient_truthful (Env0 := faulty_env) "" 600 "golang" "go" limited_twice
      (no_answers_coherent limited_twice eq_refl))) as H.
    unfold wp in H. fold client in H. rewrite E1 in H. exact (proj2 H).
  - pose proof (proj1 (CachedClient_truthful (Env0 := faulty_env) "" 600 "golang" "go" redis_down_once
      (no_answers_coherent redis_down_once eq_refl))) as H.
    unfold wp in H. fold client in H. rewrite E2 in H. exact (proj2 H).
Defined.
End Witnesses.
