(* ===== verification/Scanner.v ===== *)
(** * internal/releasetracking/scanner.go: the release scanner

    One cycle of the scanner over the subscription facade, the tracking table,
    a release checker (the GitHub client) and a notifier (the broker). The
    histogram and the gauge of the cycle are not modelled; its counters are. *)

From S2P Require Import Prelude GoErrors Tables Env Logic Script Schema Samples GoStrings.
From S2P Require Import SubStore TrackStore SagaMachine RepoSpec Service Wire Notification.

Local Open Scope string_scope.
Local Open Scope Z_scope.

Section Scanner.
Context {X : Type} `{!Env X}.
Local Abbreviation M := (GoM X).

(** [ReleaseChecker], [ReleaseNotifier] and the base URL. *)
Variable github : string -> string -> M string.
Variable notifier : string -> string -> string -> string -> M unit.
Variable baseURL : string.

Definition scanner_error (stage : string) : M unit := inc "scanner_errors_total" [stage].

(** [Some tag] is the pair [(tag, true)] of the source, [None] is [("", false)]. *)
Definition detectNewRelease (repoStr : string) : M (option string) :=
  match ParseRepoSpec repoStr with
  | Err _ => mret None
  | Ok spec =>
      r ← try (github (Owner spec) (Name spec));
      match r with
      | Err _ => scanner_error "github" ;; mret None
      | Ok latestTag =>
          touched ← try (TouchLastChecked repoStr);
          (match touched with Err _ => scanner_error "tracking" | Ok _ => mret () end) ;;
          if is_empty latestTag then mret None else
          tracking ← try (GetRepoTracking repoStr);
          match tracking with
          | Err _ => scanner_error "tracking" ;; mret None
          | Ok row =>
              if match row with
                 | Some rp => String.eqb (repo_LastSeenTag rp) latestTag
                 | None => false
                 end
              then mret None
              else inc "releases_detected_total" [] ;; mret (Some latestTag)
          end
      end
  end.

Definition notify (repoStr newTag : string) (sub : Subscriber) : M unit :=
  let unsubURL := baseURL +:+ "/api/unsubscribe/" +:+ subscriber_Token sub in
  r ← try (notifier (subscriber_Email sub) repoStr newTag unsubURL);
  match r with
  | Err _ => scanner_error "notify"
  | Ok _ => inc "notifications_sent_total" []
  end.

Definition recordAndNotify (repoStr newTag : string) : M unit :=
  recorded ← try (RecordRelease repoStr newTag);
  match recorded with
  | Err _ => scanner_error "tracking"
  | Ok _ =>
      subs ← try (SubscribersForRepo repoStr);
      match subs with
      | Err _ => scanner_error "subscribers"
      | Ok subscribers => for_each (notify repoStr newTag) subscribers
      end
  end.

Definition checkRepo (repoStr : string) : M unit :=
  found ← detectNewRelease repoStr;
  match found with
  | None => mret ()
  | Some newTag => recordAndNotify repoStr newTag
  end.

(** The writes that [scan] defers come last on every way: its body returns no
    error. *)
Definition scan : M unit :=
  inc "scanner_runs_total" [] ;;
  repos ← try ActiveRepos;
  match repos with
  | Err _ => scanner_error "list_repos"
  | Ok repos => for_each checkRepo repos
  end ;;
  observe "scanner_cycle_duration_seconds" [] ;;
  observe "scanner_last_run_timestamp_seconds" [].
End Scanner.

(** ** What the tracking statements do *)

(** The tag the tracking row of a repository holds. *)
Definition last_seen (repo : string) (d : DB) : option string :=
  repo_LastSeenTag <$> head (select_where (by_repo repo) (repositories d)).

(** Only the tracking row of [repo] may differ. *)
Definition others_tracked (repo : string) (d d' : DB) : Prop :=
  subscriptions d' = subscriptions d /\ outbox d' = outbox d /\ saga d' = saga d /\
  forall repo', repo' <> repo -> last_seen repo' d' = last_seen repo' d.

#[export] Instance others_tracked_preorder repo : PreOrder (others_tracked repo).
Proof.
  split; [by intros d|]. intros d1 d2 d3 (?&?&?&Ha) (?&?&?&Hb).
  split_and!; try congruence. intros r Hr. by rewrite Hb, Ha.
Qed.

Lemma select_update_ne repo repo' f l :
  repo' <> repo -> (forall r, repo_Repo (f r) = repo_Repo r) ->
  select_where (by_repo repo') (update_where (by_repo repo) f l) = select_where (by_repo repo') l.
Proof.
  intros Hne Hf. induction l as [|r l IH]; [done|]. simpl. unfold select_where in *. simpl.
  destruct (by_repo repo r) eqn:E.
  - assert (by_repo repo' r = false) as Hr.
    { unfold by_repo in *. apply String.eqb_eq in E. apply String.eqb_neq. congruence. }
    assert (by_repo repo' (f r) = false) as -> by (unfold by_repo in *; by rewrite Hf).
    by rewrite Hr.
  - destruct (by_repo repo' r); [by f_equal|done].
Qed.

Lemma head_select_update repo f l :
  (forall r, repo_Repo (f r) = repo_Repo r) ->
  head (select_where (by_repo repo) (update_where (by_repo repo) f l)) =
  f <$> head (select_where (by_repo repo) l).
Proof.
  intros Hf. induction l as [|r l IH]; [done|]. unfold select_where in *. simpl.
  destruct (by_repo repo r) eqn:E.
  - assert (by_repo repo (f r) = true) as -> by (unfold by_repo in *; by rewrite Hf). done.
  - by rewrite E.
Qed.

Lemma select_where_app {A} (P : A -> bool) l k :
  select_where P (app l k) = app (select_where P l) (select_where P k).
Proof. unfold select_where. apply List.filter_app. Qed.

Lemma upsert_last_seen `{!PgServer} repo fresh upd b d r d' :
  (forall id, repo_Repo (fresh id) = repo) -> (forall rp, repo_Repo (upd rp) = repo_Repo rp) ->
  upsert_repository repo fresh upd b d = (r, d') ->
  others_tracked repo d d' /\
  (r <> Ok () -> repositories d' = repositories d) /\
  (r = Ok () -> exists rp id, last_seen repo d' = Some (repo_LastSeenTag rp) /\
     (last_seen repo d = None /\ rp = fresh id \/
      exists rp0, last_seen repo d = Some (repo_LastSeenTag rp0) /\ rp = upd rp0)).
Proof.
  intros Hfresh Hupd. unfold upsert_repository, last_seen.
  case_match; [intros [= <- <-]; by split_and!|].
  case_match; [intros [= <- <-]; by split_and!|].
  set (id := repositories_id_seq d + 1).
  change (fun r : Repository => String.eqb (repo_Repo r) repo) with (by_repo repo).
  case_match eqn:E; intros [= <- <-]; simpl.
  - split; [split_and!; try done|split; [done|]].
    { intros repo' Hne. unfold last_seen. simpl. by rewrite select_update_ne. }
    intros _. rewrite head_select_update by done.
    destruct (head (select_where (by_repo repo) (repositories d))) as [rp0|] eqn:Eh.
    { exists (upd rp0), id. split; [done|]. right. by exists rp0. }
    exfalso. apply existsb_exists in E as (rp & Hin & Hrp).
    assert (rp ∈ select_where (by_repo repo) (repositories d)) as Hs
      by (apply elem_of_select_where; split; [by apply list_elem_of_In|done]).
    destruct (select_where _ _); [by apply elem_of_nil in Hs|done].
  - assert (forall id, by_repo repo (fresh id) = true) as Hf
      by (intros i; unfold by_repo; rewrite Hfresh; apply String.eqb_refl).
    split; [split_and!; try done|split; [done|]].
    { intros repo' Hne. unfold last_seen. simpl. rewrite select_where_app. simpl.
      assert (by_repo repo' (fresh id) = false) as ->
        by (unfold by_repo; rewrite Hfresh; apply String.eqb_neq; congruence).
      by rewrite app_nil_r. }
    intros _. assert (select_where (by_repo repo) (repositories d) = []) as Hnil.
    { destruct (select_where _ _) as [|rp l] eqn:Es; [done|].
      assert (rp ∈ rp :: l) as Hin by (apply elem_of_cons; by left). rewrite <- Es in Hin.
      apply elem_of_select_where in Hin as [Hin Hb]. exfalso.
      apply not_true_iff_false in E. apply E, existsb_exists. exists rp.
      split; [by apply list_elem_of_In|done]. }
    rewrite select_where_app, Hnil. simpl. rewrite Hf. simpl.
    exists (fresh id), id. split; [done|]. by left.
Qed.

(** The row a lookup finds is the one [last_seen] reads: there is at most one. *)
Lemma scan_tracking `{!PgServer, !PgServerLaws _} repo d :
  db_ok d -> repo_LastSeenTag <$> head (pg_scan (select_where (by_repo repo) (repositories d)))
             = last_seen repo d.
Proof.
  intros Hok. unfold last_seen.
  destruct (select_where (by_repo repo) (repositories d)) as [|rp l] eqn:E; [by rewrite pg_scan_nil|].
  assert (rp ∈ rp :: l) as Hin by (apply elem_of_cons; by left). rewrite <- E in Hin.
  apply elem_of_select_where in Hin as [Hin Hb]. apply String.eqb_eq in Hb.
  rewrite (select_where_unique _ repo_Repo repo (repositories d) rp) in E; try done.
  - simplify_eq. by rewrite pg_scan_singleton.
  - apply Hok.
  - intros r. apply String.eqb_eq.
Qed.

Section Tracking.
Context {X : Type} `{!Env X} `{!PgServerLaws env_server}.
Implicit Types w : World X.

Lemma wp_TouchLastChecked repo w :
  wp (TouchLastChecked repo) (fun _ w' => only_db w w' /\
    others_tracked repo (w_db w) (w_db w') /\
    (last_seen repo (w_db w') = last_seen repo (w_db w) \/
     last_seen repo (w_db w') = Some (default "" (last_seen repo (w_db w))))) w.
Proof.
  assert (forall now d r d',
    upsert_repository repo (fun id => mkRepository id repo "" (Some now) None)
      (set_checked now) true d = (r, d') ->
    others_tracked repo d d' /\ (last_seen repo d' = last_seen repo d \/
                                 last_seen repo d' = Some (default "" (last_seen repo d)))) as H.
  { intros now d r d' E. apply upsert_last_seen in E as (Ho & Herr & Hok); [|done|done].
    split; [done|]. destruct r as [[]|e].
    - destruct (Hok eq_refl) as (rp & id & -> & [[-> ->]|(rp0 & -> & ->)]); [by right|by left].
    - left. unfold last_seen. by rewrite Herr. }
  unfold TouchLastChecked.
  apply wp_db_stmt; intros; simpl; [split; [done|]; split; [done|by left]| |];
    destruct (upsert_repository _ _ _ _ _) as [r d'] eqn:E; (split; [done|]); by eapply H.
Qed.

Lemma wp_RecordRelease repo tag w :
  wp (RecordRelease repo tag) (fun r w' => only_db w w' /\
    others_tracked repo (w_db w) (w_db w') /\
    (r = Ok () -> last_seen repo (w_db w') = Some tag) /\
    (last_seen repo (w_db w') = last_seen repo (w_db w) \/
     last_seen repo (w_db w') = Some tag)) w.
Proof.
  assert (forall now d r d',
    upsert_repository repo (fun id => mkRepository id repo tag (Some now) (Some now))
      (set_release tag now) (varchar tag) d = (r, d') ->
    others_tracked repo d d' /\ (r = Ok () -> last_seen repo d' = Some tag) /\
    (last_seen repo d' = last_seen repo d \/ last_seen repo d' = Some tag)) as H.
  { intros now d r d' E. apply upsert_last_seen in E as (Ho & Herr & Hok); [|done|done].
    split; [done|]. destruct r as [[]|e].
    - destruct (Hok eq_refl) as (rp & id & Hl & [[_ ->]|(rp0 & _ & ->)]); auto.
    - split; [done|]. left. unfold last_seen. by rewrite Herr. }
  unfold RecordRelease.
  apply wp_db_stmt; intros; simpl;
    [split; [done|]; split; [done|]; split; [done|by left]| |];
    destruct (upsert_repository _ _ _ _ _) as [r d'] eqn:E; simpl; (split; [done|]);
    apply H in E as (? & ? & ?); by split_and!.
Qed.

Lemma wp_GetRepoTracking repo w :
  db_ok (w_db w) ->
  wp (GetRepoTracking repo) (fun r w' => only_db w w' /\ w_db w' = w_db w /\
    forall row, r = Ok row -> repo_LastSeenTag <$> row = last_seen repo (w_db w)) w.
Proof.
  intros Hok. unfold GetRepoTracking. apply wp_query; intros x; (split; [done|]); (split; [done|]);
    [done|]. intros row [= <-]. by apply scan_tracking.
Qed.
End Tracking.

(** ** What a cycle publishes *)

(** The message of a release for one subscriber. *)
Definition release_publishing (baseURL repo tag : string) (sub : Subscriber) : Publishing :=
  let url := baseURL +:+ "/api/unsubscribe/" +:+ subscriber_Token sub in
  mkPublishing ExchangeName RoutingRelease "application/json" true
    (release_message_id repo tag url)
    (marshal (mkReleaseRequest (subscriber_Email sub) repo tag url)).

Definition confirmed_subscribers (repo : string) (d : DB) : list Subscriber :=
  (fun s => mkSubscriber (sub_ID s) (sub_Email s) (sub_Token s)) <$>
    select_where (fun s => String.eqb (sub_Repo s) repo && sub_Confirmed s) (subscriptions d).

(** What the scanner relies on of the release checker; [B] says which tags it
    may give for a repository. *)
Class ReleaseCheckerSpec {X : Type} (B : string -> string -> Prop)
    (github : string -> string -> GoM X string) : Prop := {
  checker_spec : forall owner name w,
    wp (github owner name) (fun r w' => quiet w w' /\
      forall tag, r = Ok tag -> B (owner +:+ "/" +:+ name) tag) w }.

(** The news of a cycle for one repository: the confirmed subscribers, all of
    them and in some order, were sent the tag, which is not the one last seen. *)
Definition announced (baseURL repo tag : string) {X : Type} (w w' : World X) : Prop :=
  exists subs oks, subs ≡ₚ confirmed_subscribers repo (w_db w) /\
    length oks = length subs /\
    publishes (w_trace w') = app (publishes (w_trace w))
      (zip (release_publishing baseURL repo tag <$> subs) oks).

Section Cycle.
Context {X : Type} `{!Env X} `{!PgServerLaws env_server}.
Variable baseURL : string.
Implicit Types w : World X.

(** A counter changes neither the tables nor the trace. *)
Lemma wp_scanner_error stage w (Q : result unit -> World X -> Prop) :
  (forall w', quiet w w' -> Q (Ok ()) w') -> wp (scanner_error stage) Q w.
Proof. intros HQ. apply wp_inc, HQ. done. Qed.

Lemma notify_result repo tag sub w :
  wp (notify SendReleaseNotification baseURL repo tag sub) (fun r w' =>
    r = Ok () /\ w_db w' = w_db w /\ w_tx w' = w_tx w /\ exists ok,
    publishes (w_trace w') =
      app (publishes (w_trace w)) [(release_publishing baseURL repo tag sub, ok)]) w.
Proof.
  unfold notify, SendReleaseNotification, publish, Publish.
  apply wp_bind, wp_try, wp_ext_call; intros a x _; apply wp_inc; simpl;
    (split; [done|]); (split; [done|]); (split; [done|]).
  - exists true. by rewrite publishes_app.
  - exists false. by rewrite publishes_app.
Qed.

Lemma notify_all_result repo tag l w :
  wp (for_each (notify SendReleaseNotification baseURL repo tag) l) (fun r w' =>
    r = Ok () /\ w_db w' = w_db w /\ w_tx w' = w_tx w /\
    exists oks, length oks = length l /\
      publishes (w_trace w') = app (publishes (w_trace w))
        (zip (release_publishing baseURL repo tag <$> l) oks)) w.
Proof.
  revert w. induction l as [|s l IH]; intros w; simpl.
  { apply wp_ret. split_and!; try done. exists []. by rewrite app_nil_r. }
  apply wp_bind. eapply wp_mono; [apply notify_result|].
  intros r w1 (-> & Hdb1 & Htx1 & ok & Htr1). eapply wp_mono; [apply IH|].
  intros r w2 (-> & Hdb2 & Htx2 & oks & Hlen & Htr2). split; [done|].
  split; [congruence|]. split; [congruence|]. exists (ok :: oks).
  split; [simpl; by rewrite Hlen|]. rewrite Htr2, Htr1. simpl. by rewrite <- app_assoc.
Qed.

Lemma recordAndNotify_result repo tag w :
  wp (recordAndNotify SendReleaseNotification baseURL repo tag) (fun r w' =>
    r = Ok () /\ w_tx w' = w_tx w /\ others_tracked repo (w_db w) (w_db w') /\
    (publishes (w_trace w') = publishes (w_trace w) \/
     last_seen repo (w_db w') = Some tag /\ announced baseURL repo tag w w')) w.
Proof.
  unfold recordAndNotify. apply wp_bind, wp_try. eapply wp_mono; [apply wp_RecordRelease|].
  intros r w1 ((Htx1 & Htr1 & _) & Ho1 & Hrec & _). destruct r as [[]|e].
  2: { apply wp_scanner_error. intros w2 (Hdb2 & Htx2 & Hp2).
       rewrite Hdb2, Htx2, Hp2, Htr1. auto. }
  apply wp_bind, wp_try. eapply wp_mono; [apply SubscribersForRepo_result|].
  intros r w2 ((Htx2 & Htr2 & _) & Hdb2 & Hsubs). destruct r as [l|e].
  2: { apply wp_scanner_error. intros w3 (Hdb3 & Htx3 & Hp3).
       rewrite Hdb3, Htx3, Hp3, Hdb2, Htx2, Htr2, Htr1. auto. }
  eapply wp_mono; [apply notify_all_result|].
  intros r w3 (-> & Hdb3 & Htx3 & oks & Hlen & Htr3). split; [done|].
  rewrite Hdb3, Hdb2, Htx3, Htx2. split; [done|]. split; [done|]. right.
  split; [by apply Hrec|]. exists l, oks. rewrite Htr3, Htr2, Htr1. split; [|done].
  unfold confirmed_subscribers. destruct Ho1 as (<- & _). done.
Qed.

Variable B : string -> string -> Prop.
Variable github : string -> string -> GoM X string.
Context `{!ReleaseCheckerSpec B github}.

Lemma checker_keeps P owner name : keeps P (github owner name).
Proof.
  intros w [Hd Ht]. pose proof (checker_spec owner name w) as [(Hdb & Htx & _) _].
  split; [by rewrite Hdb|]. by rewrite Htx.
Qed.

Lemma checkRepo_keeps repo :
  keeps db_ok (checkRepo github SendReleaseNotification baseURL repo).
Proof.
  unfold checkRepo, detectNewRelease, recordAndNotify, notify, scanner_error,
    SubscribersForRepo.
  repeat first
    [ apply checker_keeps
    | apply keeps_for_each; intros ?
    | apply keeps_bind; [|intros ?]
    | case_match
    | solve [auto with go_db] ].
Qed.

Definition detected (repo : string) w (r : result (option string)) (w' : World X) : Prop :=
  exists o, r = Ok o /\ w_tx w' = None /\ others_tracked repo (w_db w) (w_db w') /\
    publishes (w_trace w') = publishes (w_trace w) /\
    forall tag, o = Some tag -> tag <> "" /\ B repo tag /\
                                last_seen repo (w_db w) <> Some tag.

Lemma detected_none repo w w1 w' :
  others_tracked repo (w_db w) (w_db w1) -> w_tx w1 = None ->
  publishes (w_trace w1) = publishes (w_trace w) -> quiet w1 w' ->
  detected repo w (Ok None) w'.
Proof.
  intros Ho Htx Hp (Hdb' & Htx' & Hp'). exists None. split; [done|].
  split; [congruence|]. split; [by rewrite Hdb'|]. split; [congruence|done].
Qed.

(** The comparison with the tag last seen, in the world [w1] after the stamp. *)
Lemma compare_result repo tag w w1 :
  db_ok (w_db w1) -> w_tx w1 = None -> others_tracked repo (w_db w) (w_db w1) ->
  publishes (w_trace w1) = publishes (w_trace w) -> B repo tag ->
  (last_seen repo (w_db w) = Some tag -> last_seen repo (w_db w1) = Some tag) ->
  wp (if is_empty tag then mret None else
      tracking ← try (GetRepoTracking repo);
      match tracking with
      | Err _ => scanner_error "tracking" ;; mret None
      | Ok row =>
          if match row with
             | Some rp => String.eqb (repo_LastSeenTag rp) tag
             | None => false
             end
          then mret None else inc "releases_detected_total" [] ;; mret (Some tag)
      end) (detected repo w) w1.
Proof.
  intros Hok Htx Ho Hp HB Hls. destruct (is_empty tag) eqn:Het.
  { apply wp_ret. by eapply detected_none. }
  apply wp_bind, wp_try. eapply wp_mono; [by apply wp_GetRepoTracking|].
  intros r w2 ((Htx2 & Htr2 & _) & Hdb2 & Hrow).
  assert (quiet w1 w2) as Hq by (split; [done|split; [done|by rewrite Htr2]]).
  destruct r as [row|e].
  2: { apply wp_bind, wp_scanner_error. intros w3 Hq3. apply wp_ret.
       eapply detected_none; [done..|by etrans]. }
  specialize (Hrow row eq_refl).
  destruct (match row with Some rp => String.eqb (repo_LastSeenTag rp) tag | None => false end)
    eqn:Eq.
  { apply wp_ret. by eapply detected_none. }
  apply wp_bind, wp_inc, wp_ret. exists (Some tag). simpl. rewrite Hdb2, Htx2, Htr2.
  split; [done|]. split; [done|]. split; [done|]. split; [done|].
  intros t [= <-]. split; [by apply is_empty_false|]. split; [done|].
  intros Hseen. rewrite (Hls Hseen) in Hrow. destruct row as [rp|]; [|done].
  simpl in Hrow. simplify_eq. by rewrite String.eqb_refl in Eq.
Qed.

Lemma detectNewRelease_result repo w :
  db_ok (w_db w) -> w_tx w = None ->
  wp (detectNewRelease github repo) (detected repo w) w.
Proof.
  intros Hok Htx. unfold detectNewRelease.
  destruct (ParseRepoSpec repo) as [spec|e] eqn:Hspec.
  2: { apply wp_ret. by eapply detected_none. }
  apply ParseRepoSpec_correct in Hspec as [_ Hrepo].
  apply wp_bind, wp_try. eapply wp_mono; [apply checker_spec|].
  intros r w1 (Hq1 & HB). destruct r as [tag|e].
  2: { apply wp_bind, wp_scanner_error. intros w2 Hq2. apply wp_ret.
       eapply detected_none; [done..|by etrans]. }
  specialize (HB tag eq_refl). change (B (RepoSpec_String spec) tag) in HB.
  rewrite <- Hrepo in HB. destruct Hq1 as (Hdb1 & Htx1 & Hp1).
  apply wp_bind, wp_try. apply (wp_keeps db_ok); [auto with go_db|congruence|by rewrite Hdb1|].
  eapply wp_mono; [apply wp_TouchLastChecked|]. rewrite Hdb1.
  intros r w2 ((Htx2 & Htr2 & _) & Ho2 & Hls2) Hok2. apply wp_bind.
  assert (last_seen repo (w_db w) = Some tag -> last_seen repo (w_db w2) = Some tag) as Hls.
  { intros Hseen. rewrite Hseen in Hls2. by destruct Hls2. }
  destruct r as [[]|e].
  - apply wp_ret. apply compare_result; try done; congruence.
  - apply wp_scanner_error. intros w3 (Hdb3 & Htx3 & Hp3).
    apply compare_result; rewrite ?Hdb3; try done; congruence.
Qed.

Lemma checkRepo_result repo w :
  db_ok (w_db w) -> w_tx w = None ->
  wp (checkRepo github SendReleaseNotification baseURL repo) (fun r w' =>
    r = Ok () /\ w_tx w' = None /\ others_tracked repo (w_db w) (w_db w') /\
    (publishes (w_trace w') = publishes (w_trace w) \/
     exists tag, tag <> "" /\ B repo tag /\ last_seen repo (w_db w) <> Some tag /\
       last_seen repo (w_db w') = Some tag /\ announced baseURL repo tag w w')) w.
Proof.
  intros Hok Htx. unfold checkRepo. apply wp_bind.
  eapply wp_mono; [by apply detectNewRelease_result|].
  intros r w1 (o & -> & Htx1 & Ho1 & Hp1 & Hnew). destruct o as [tag|].
  2: { apply wp_ret. split; [done|]. split; [done|]. split; [done|by left]. }
  destruct (Hnew tag eq_refl) as (Hne & HB & Hls).
  eapply wp_mono; [apply recordAndNotify_result|].
  intros r w2 (-> & Htx2 & Ho2 & Hres). split; [done|]. split; [congruence|].
  split; [by etrans|]. destruct Hres as [Hp2|(Hls2 & subs & oks & Hperm & Hlen & Hp2)].
  - left. congruence.
  - right. exists tag. split_and!; try done. exists subs, oks. rewrite Hp2, Hp1.
    split; [|done]. rewrite Hperm. unfold confirmed_subscribers.
    by destruct Ho1 as (-> & _).
Qed.

(** A message of a cycle that goes from [d] to [d']: the news of a repository,
    to one of its confirmed subscribers. The tag is one that GitHub gives, is
    not the one that was last seen before the cycle, and is the one last seen
    after it (so that a cycle sends one tag for a repository). *)
Definition news_of (d d' : DB) (p : Publishing) : Prop :=
  exists s tag, s ∈ subscriptions d /\ sub_Confirmed s = true /\ B (sub_Repo s) tag /\
    tag <> "" /\ last_seen (sub_Repo s) d <> Some tag /\ last_seen (sub_Repo s) d' = Some tag /\
    p = release_publishing baseURL (sub_Repo s) tag
          (mkSubscriber (sub_ID s) (sub_Email s) (sub_Token s)).

(** The repositories that are not in the list are tracked as before. *)
Definition keeps_seen (repos : list string) (d d' : DB) : Prop :=
  forall repo, repo ∉ repos -> last_seen repo d' = last_seen repo d.

(** What was handed to the broker satisfies [N]. *)
Definition announces (N : Publishing -> Prop) w w' : Prop :=
  exists new, publishes (w_trace w') = app (publishes (w_trace w)) new /\
    forall p ok, (p, ok) ∈ new -> N p.

Lemma announces_none N w w' : publishes (w_trace w') = publishes (w_trace w) -> announces N w w'.
Proof.
  intros Hp. exists []. rewrite app_nil_r. split; [done|].
  intros p ok Hin. by apply elem_of_nil in Hin.
Qed.

Lemma announces_trans (N : Publishing -> Prop) w w1 w2 :
  announces N w w1 -> announces N w1 w2 -> announces N w w2.
Proof.
  intros (new1 & Hp1 & Hn1) (new2 & Hp2 & Hn2). exists (app new1 new2).
  rewrite Hp2, Hp1, app_assoc. split; [done|]. intros p ok [Hin|Hin]%elem_of_app; eauto.
Qed.

Lemma announces_mono (N N' : Publishing -> Prop) w w' :
  (forall p, N p -> N' p) -> announces N w w' -> announces N' w w'.
Proof. intros HN (new & Hp & Hn). exists new. eauto. Qed.

(** The news that one check sends, at the end of a loop over more repositories. *)
Lemma announced_news d0 d2 repo tag w w' :
  B repo tag -> tag <> "" -> last_seen repo d0 <> Some tag -> last_seen repo d2 = Some tag ->
  subscriptions (w_db w) = subscriptions d0 -> announced baseURL repo tag w w' ->
  announces (news_of d0 d2) w w'.
Proof.
  intros HB Hne H0 H2 Hsubs (subs & oks & Hperm & Hlen & Hp). eexists. split; [exact Hp|].
  intros p ok Hin. apply elem_of_zip_l, list_elem_of_fmap in Hin as (sub & -> & Hin).
  rewrite Hperm in Hin. apply list_elem_of_fmap in Hin as (s & -> & Hin).
  apply elem_of_select_where in Hin as [Hin [Hr Hc]%andb_true_iff].
  apply String.eqb_eq in Hr. subst repo. rewrite Hsubs in Hin. by exists s, tag.
Qed.

(** The loop over distinct repositories, whose tracking rows are those of [d0]
    until their turn comes. *)
Lemma scan_loop d0 repos w :
  db_ok (w_db w) -> w_tx w = None -> subscriptions (w_db w) = subscriptions d0 ->
  NoDup repos -> (forall repo, repo ∈ repos -> last_seen repo (w_db w) = last_seen repo d0) ->
  wp (for_each (checkRepo github SendReleaseNotification baseURL) repos) (fun r w' =>
    r = Ok () /\ w_tx w' = None /\ db_ok (w_db w') /\
    subscriptions (w_db w') = subscriptions (w_db w) /\
    outbox (w_db w') = outbox (w_db w) /\ saga (w_db w') = saga (w_db w) /\
    keeps_seen repos (w_db w) (w_db w') /\ announces (news_of d0 (w_db w')) w w') w.
Proof.
  revert w. induction repos as [|repo repos IH]; intros w Hok Htx Hsubs Hnd Hseen; simpl.
  { apply wp_ret. split_and!; try done; try apply Hok. by apply announces_none. }
  apply NoDup_cons in Hnd as [Hnin Hnd].
  apply wp_bind, (wp_keeps db_ok); [apply checkRepo_keeps|done|done|].
  eapply wp_mono; [by apply checkRepo_result|].
  intros r w1 (-> & Htx1 & (Hs1 & Ho1 & Hg1 & Ht1) & Hres) Hok1.
  eapply wp_mono; [apply IH; [done|done|congruence|done|]|].
  { intros repo' Hin. rewrite Ht1 by (intros ->; done). apply Hseen. by right. }
  intros r w2 (-> & Htx2 & Hok2 & Hs2 & Ho2 & Hg2 & Ht2 & Hn2).
  split; [done|]. split; [done|]. split; [done|].
  split; [congruence|]. split; [congruence|]. split; [congruence|]. split.
  - intros repo' [Hne Hni]%not_elem_of_cons. by rewrite Ht2, Ht1.
  - eapply announces_trans; [|exact Hn2].
    destruct Hres as [Hp|(tag & Hne & HB & Hl & Hl1 & Ha)]; [by apply announces_none|].
    apply (announced_news _ _ repo tag); try done.
    + rewrite <- Hseen; [done|by left].
    + by rewrite Ht2.
Qed.

Lemma scan_result w :
  db_ok (w_db w) -> w_tx w = None ->
  wp (scan github SendReleaseNotification baseURL) (fun r w' =>
    r = Ok () /\ w_tx w' = None /\ db_ok (w_db w') /\
    subscriptions (w_db w') = subscriptions (w_db w) /\
    outbox (w_db w') = outbox (w_db w) /\ saga (w_db w') = saga (w_db w) /\
    announces (news_of (w_db w) (w_db w')) w w') w.
Proof.
  intros Hok Htx. unfold scan. apply wp_bind, wp_inc, wp_bind, wp_try.
  eapply wp_mono; [apply ActiveRepos_result|]. simpl.
  intros r w1 ((Htx1 & Htr1 & _) & Hdb1 & Hrepos). simpl in *. destruct r as [repos|e].
  - apply wp_bind.
    eapply wp_mono; [apply (scan_loop (w_db w)); rewrite ?Hdb1; try done; [congruence|apply Hrepos]|].
    intros r w2 (-> & H1 & H2 & H3 & H4 & H5 & _ & new & Hp & Hn).
    apply wp_bind, wp_inc, wp_inc. simpl. rewrite Hdb1 in *. rewrite Htr1 in Hp.
    do 6 (split; [done|]). by exists new.
  - apply wp_bind, wp_scanner_error. intros w2 (Hdb2 & Htx2 & Hp2).
    apply wp_bind, wp_inc, wp_inc. simpl. rewrite Hdb2, Htx2, Hdb1, Htx1.
    split_and!; try done; try apply Hok. apply announces_none. simpl. congruence.
Qed.
End Cycle.

(** ** A cycle announces what is new *)

Section Announce.
Context {X : Type} `{!Env X} `{!PgServerLaws env_server} `{!healthy_db X}.
Variable baseURL : string.
Variable github : string -> string -> GoM X string.
Context `{!ReleaseCheckerSpec (fun _ _ => True) github}.
Implicit Types w : World X.

Lemma recordAndNotify_announces repo tag w :
  repositories_id_seq (w_db w) + 1 <= serial_max -> varchar repo = true -> varchar tag = true ->
  wp (recordAndNotify SendReleaseNotification baseURL repo tag) (fun _ w' =>
    last_seen repo (w_db w') = Some tag /\ announced baseURL repo tag w w') w.
Proof.
  intros Hseq Hr Ht. unfold recordAndNotify. apply wp_bind, wp_try.
  assert (wp (RecordRelease repo tag) (fun r _ => r = Ok ()) w) as Hok.
  { unfold RecordRelease. apply wp_db_stmt_ok; [done|]. intros x now.
    unfold upsert_repository. rewrite Hr, Ht.
    assert (serial_max <? repositories_id_seq (w_db w) + 1 = false) as -> by by apply Z.ltb_ge.
    simpl. by destruct (existsb _ _). }
  eapply wp_mono; [apply (wp_conj _ _ _ _ Hok (wp_RecordRelease repo tag w))|].
  intros r w1 (-> & (Htx1 & Htr1 & _) & (Hs1 & _) & Hrec & _). specialize (Hrec eq_refl).
  apply wp_bind, wp_try. unfold SubscribersForRepo, GetSubscribersByRepo.
  apply wp_bind, wp_db_stmt_ok; [done|]. intros x now. apply wp_ret.
  eapply wp_mono; [apply notify_all_result|].
  intros r w2 (-> & Hdb2 & Htx2 & oks & Hlen & Hp2). rewrite Hdb2. split; [done|].
  eexists _, oks. split; [|split; [exact Hlen|]].
  - unfold confirmed_subscribers. simpl. by rewrite pg_scan_perm, Hs1.
  - rewrite Hp2. simpl. by rewrite Htr1.
Qed.

Lemma checkRepo_announces repo spec tag w :
  db_ok (w_db w) -> w_tx w = None -> ParseRepoSpec repo = Ok spec ->
  (github (Owner spec) (Name spec) w).1 = Ok tag -> tag <> "" ->
  last_seen repo (w_db w) <> Some tag ->
  repositories_id_seq (w_db w) + 2 <= serial_max -> varchar repo = true -> varchar tag = true ->
  wp (checkRepo github SendReleaseNotification baseURL repo) (fun _ w' =>
    last_seen repo (w_db w') = Some tag /\ announced baseURL repo tag w w') w.
Proof.
  intros Hok Htx Hspec Htag Hne Hls Hseq Hr Ht. unfold checkRepo, detectNewRelease.
  rewrite Hspec. apply wp_bind, wp_bind, wp_try.
  assert (wp (github (Owner spec) (Name spec)) (fun r _ => r = Ok tag) w) as Hgh by done.
  eapply wp_mono; [apply (wp_conj _ _ _ _ Hgh (checker_spec (B := fun _ _ => True) _ _ w))|].
  intros r w1 (-> & (Hdb1 & Htx1 & Hp1) & _).
  apply wp_bind, wp_try. apply (wp_keeps db_ok); [auto with go_db|congruence|by rewrite Hdb1|].
  assert (wp (TouchLastChecked repo) (fun _ w' =>
    repositories_id_seq (w_db w') <= repositories_id_seq (w_db w) + 1) w1) as Hs.
  { unfold TouchLastChecked. apply wp_db_stmt_ok; [done|]. intros x now. rewrite Hdb1.
    unfold upsert_repository. repeat case_match; simpl; lia. }
  eapply wp_mono; [apply (wp_conj _ _ _ _ Hs (wp_TouchLastChecked repo w1))|].
  intros r w2 (Hseq2 & (Htx2 & Htr2 & _) & (Hs2 & _) & Hls2) Hok2. rewrite Hdb1 in *.
  assert (last_seen repo (w_db w2) <> Some tag) as Hls3.
  { destruct Hls2 as [-> | ->]; [done|]. destruct (last_seen repo (w_db w)); simpl; congruence. }
  assert (forall w3, only_db w2 w3 \/ quiet w2 w3 -> w_db w3 = w_db w2 ->
    subscriptions (w_db w3) = subscriptions (w_db w) /\
    publishes (w_trace w3) = publishes (w_trace w)) as Hq.
  { intros w3 [(_ & Htr3 & _)|(_ & _ & Hp3)] Hdb3; rewrite Hdb3; split; congruence. }
  apply wp_bind.
  apply (wp_mono _ (fun r' w3 => r' = Ok () /\ quiet w2 w3)).
  { destruct r as [[]|e]; [by apply wp_ret|]. by apply wp_scanner_error. }
  intros r' w3 (-> & Hdb3 & Htx3 & Hp3).
  assert (is_empty tag = false) as -> by by apply is_empty_false.
  apply wp_bind, wp_try. unfold GetRepoTracking. apply wp_db_stmt_ok; [done|].
  intros x now. simpl.
  pose proof (scan_tracking repo (w_db w3)) as Hrow. rewrite Hdb3 in Hrow.
  specialize (Hrow Hok2). rewrite Hdb3.
  assert (match head (pg_scan (select_where (by_repo repo) (repositories (w_db w2)))) with
          | Some rp => String.eqb (repo_LastSeenTag rp) tag
          | None => false
          end = false) as ->.
  { destruct (head _) as [rp|]; [|done]. simpl in Hrow. apply String.eqb_neq.
    rewrite <- Hrow in Hls3. congruence. }
  apply wp_bind, wp_inc, wp_ret. eapply wp_mono.
  { apply recordAndNotify_announces; simpl; try done. lia. }
  intros r'' w4 (Hls4 & subs & oks & Hperm & Hlen & Hp4). split; [done|].
  exists subs, oks. split; [|split; [done|]].
  - rewrite Hperm. unfold confirmed_subscribers. simpl. by rewrite Hs2.
  - rewrite Hp4. simpl. congruence.
Qed.
End Announce.

(** ** The properties of the scanner *)

Section Properties.
Context {X : Type} `{!Env X} `{!PgServerLaws env_server}.
Variable baseURL : string.
Implicit Types w : World X.

(** C14: Safety: whatever GitHub, the database and the broker answer, a cycle ends
    without an error, and every message it hands to the broker tells a
    confirmed subscriber of a repository a tag of that repository that was new:
    one that GitHub gives for it, that is not empty, that is not the tag the
    tracking table held for it when the cycle started, and that it holds when
    the cycle ends. The subscriptions, the sagas and the outbox are not
    changed. *)
Theorem scan_tells_only_confirmed_subscribers B github w w' r :
  ReleaseCheckerSpec B github -> db_ok (w_db w) -> w_tx w = None ->
  scan github SendReleaseNotification baseURL w = (r, w') ->
  r = Ok () /\ w_tx w' = None /\ db_ok (w_db w') /\
  subscriptions (w_db w') = subscriptions (w_db w) /\
  outbox (w_db w') = outbox (w_db w) /\ saga (w_db w') = saga (w_db w) /\
  exists new, publishes (w_trace w') = app (publishes (w_trace w)) new /\
    forall p ok, (p, ok) ∈ new -> news_of baseURL B (w_db w) (w_db w') p.
Proof.
  intros Hgh Hok Htx. exact (wp_elim _ _ _ _ _ (scan_result baseURL B github w Hok Htx)).
Qed.

(** C15: At most once: when a check of a repository has published anything, the tag
    is recorded, and another check that sees the same tag publishes nothing,
    whatever fails in either. *)
Theorem checkRepo_tells_once tag github repo w w1 w2 r1 r2 :
  ReleaseCheckerSpec (fun _ t => t = tag) github -> db_ok (w_db w) -> w_tx w = None ->
  checkRepo github SendReleaseNotification baseURL repo w = (r1, w1) ->
  publishes (w_trace w1) <> publishes (w_trace w) ->
  checkRepo github SendReleaseNotification baseURL repo w1 = (r2, w2) ->
  last_seen repo (w_db w1) = Some tag /\ publishes (w_trace w2) = publishes (w_trace w1).
Proof.
  intros Hgh Hok Htx H1 Hne H2.
  pose proof (keeps_db _ _ _ (checkRepo_keeps baseURL _ github repo) Htx Hok) as Hok1.
  rewrite H1 in Hok1. simpl in Hok1.
  destruct (wp_elim _ _ _ _ _ (checkRepo_result baseURL _ github repo w Hok Htx) H1)
    as (_ & Htx1 & _ & [?|(t & _ & -> & _ & Hls & _)]); [done|]. split; [done|].
  destruct (wp_elim _ _ _ _ _ (checkRepo_result baseURL _ github repo w1 Hok1 Htx1) H2)
    as (_ & _ & _ & [?|(t & _ & -> & Hls' & _)]); done.
Qed.

(** C27: Completeness: while the database answers, a check of a repository for which
    GitHub gives a tag that is not empty and not the one last seen sends it to
    every confirmed subscriber, in some order, going on after a message that
    the broker refuses, and records the tag. *)
Theorem checkRepo_tells_everyone github repo spec tag w w' r :
  healthy_db X -> ReleaseCheckerSpec (fun _ _ => True) github ->
  db_ok (w_db w) -> w_tx w = None -> ParseRepoSpec repo = Ok spec ->
  (github (Owner spec) (Name spec) w).1 = Ok tag -> tag <> "" ->
  last_seen repo (w_db w) <> Some tag ->
  repositories_id_seq (w_db w) + 2 <= serial_max -> varchar repo = true -> varchar tag = true ->
  checkRepo github SendReleaseNotification baseURL repo w = (r, w') ->
  last_seen repo (w_db w') = Some tag /\ announced baseURL repo tag w w'.
Proof.
  intros Hh Hgh Hok Htx Hspec Htag Hne Hls Hseq Hr Ht.
  exact (wp_elim _ _ _ _ _
    (checkRepo_announces baseURL github repo spec tag w Hok Htx Hspec Htag Hne Hls Hseq Hr Ht)).
Qed.
End Properties.

(** ** Witnesses, and a release that is lost *)

(** A checker that gives one tag for every repository. *)
Definition fixed_release {X : Type} (tag : string) : string -> string -> GoM X string :=
  fun _ _ => mret tag.

#[export] Instance fixed_release_spec {X : Type} (B : string -> string -> Prop) tag
    (HB : forall repo, B repo tag) : ReleaseCheckerSpec B (@fixed_release X tag).
Proof. split. intros owner name w. split; [done|]. by intros t [= <-]. Qed.

Definition base_url : string := "http://localhost:8080".

Section Witnesses.
#[local] Existing Instance calm_env.
Definition tracked_world : World Script := play (sample_db StateCompleted) calm.
Local Abbreviation check tag :=
  (checkRepo (fixed_release tag) SendReleaseNotification base_url "golang/go").

(** A cycle that finds v2.0.0 after v1.0.0: one message, and it is news. *)
Lemma scan_tells_only_confirmed_subscribers_witness :
  let w' := (scan (fixed_release "v2.0.0") SendReleaseNotification base_url tracked_world).2 in
  length (publishes (w_trace w')) = 1%nat /\
  exists new, publishes (w_trace w') = app [] new /\
    forall p ok, (p, ok) ∈ new ->
      news_of base_url (fun _ _ => True) (w_db tracked_world) (w_db w') p.
Proof.
  intros w'. split; [vm_compute; reflexivity|].
  destruct (scan_tells_only_confirmed_subscribers (Env0 := calm_env) base_url (fun _ _ => True)
    (fixed_release "v2.0.0") tracked_world _ _
    (fixed_release_spec _ _ (fun _ => Logic.I)) (sample_db_ok StateCompleted) eq_refl (surjective_pairing _))
    as (_ & _ & _ & _ & _ & _ & H).
  exact H.
Defined.

Lemma checkRepo_tells_once_witness :
  last_seen "golang/go" (w_db (check "v2.0.0" tracked_world).2) = Some "v2.0.0" /\
  publishes (w_trace (check "v2.0.0" (check "v2.0.0" tracked_world).2).2) =
    publishes (w_trace (check "v2.0.0" tracked_world).2).
Proof.
  refine (checkRepo_tells_once (Env0 := calm_env) base_url "v2.0.0" (fixed_release "v2.0.0") "golang/go"
    tracked_world _ _ _ _ (fixed_release_spec _ _ (fun _ => eq_refl)) (sample_db_ok StateCompleted) eq_refl
    (surjective_pairing _) _ (surjective_pairing _)).
  vm_compute. discriminate.
Defined.

Lemma checkRepo_tells_everyone_witness :
  last_seen "golang/go" (w_db (check "v2.0.0" tracked_world).2) = Some "v2.0.0" /\
  announced base_url "golang/go" "v2.0.0" tracked_world (check "v2.0.0" tracked_world).2.
Proof.
  refine (checkRepo_tells_everyone (Env0 := calm_env) base_url (fixed_release "v2.0.0") "golang/go"
    (mkRepoSpec "golang" "go") "v2.0.0" tracked_world _ _ calm_healthy
    (fixed_release_spec _ _ (fun _ => Logic.I)) (sample_db_ok StateCompleted) eq_refl _ eq_refl _ _ _ _ _
    (surjective_pairing _)).
  - vm_compute. reflexivity.
  - discriminate.
  - vm_compute. discriminate.
  - vm_compute. discriminate.
  - reflexivity.
  - reflexivity.
Defined.
End Witnesses.

Section LostRelease.
#[local] Existing Instance faulty_env.
Local Abbreviation check :=
  (checkRepo (fixed_release "v2.0.0") SendReleaseNotification base_url "golang/go").

(** The tag is recorded before the subscribers are read. When that read fails
    (here the fourth statement of the first cycle), nothing is sent, and the
    later cycles, in which nothing fails, see the tag as known: the confirmed
    subscriber is never told. *)
Theorem release_lost_when_subscribers_unread :
  let w := play (sample_db StateCompleted)
             (mkScript [PgOk; PgOk; PgOk; PgFailBefore "timeout"] 0 0 [] ∅ [] [] [] [] []) in
  let w1 := (check w).2 in
  let w2 := (check w1).2 in
  confirmed_subscribers "golang/go" (w_db w) <> [] /\
  last_seen "golang/go" (w_db w) = Some "v1.0.0" /\
  last_seen "golang/go" (w_db w1) = Some "v2.0.0" /\
  sc_pg (w_ext w1) = [] /\
  publishes (w_trace w1) = [] /\ publishes (w_trace w2) = [].
Proof. vm_compute. split; [discriminate|]. repeat split. Qed.
End LostRelease.
