(* ===== verification/Notifier.v ===== *)
(** * cmd/notifier: the process that sends the emails

    [SMTPSender] composes and sends a mail; [redisDeduper] remembers the messages
    that were handled; [Consumer] handles one delivery of the work queue and
    reports to the orchestrator; [confirmationServer] is the gRPC transport of
    the same step. [consume] is the loop body of [Run]; the connection, the
    topology and the loop are in Amqp.v. *)

From S2P Require Import Prelude GoErrors Tables Env Logic Script Schema Samples.
From S2P Require Import GoStrings Json Wire Notification.

Local Open Scope string_scope.
Local Open Scope Z_scope.

(** ** The interfaces of the consumer *)

Record emailSender (X : Type) := mkEmailSender {
  SendConfirmationEmail : string -> string -> GoM X unit;
  SendReleaseEmail : string -> string -> string -> string -> GoM X unit }.
Arguments SendConfirmationEmail {X}. Arguments SendReleaseEmail {X}.

Record deduper (X : Type) := mkDeduper {
  AlreadyProcessed : string -> GoM X bool;
  MarkProcessed : string -> GoM X unit }.
Arguments AlreadyProcessed {X}. Arguments MarkProcessed {X}.

(** ** smtp.go *)

Record SMTPSender := mkSMTPSender {
  smtp_host : string; smtp_port : string; smtp_user : string; smtp_pass : string;
  smtp_from : string }.

Definition nl : string := String "010"%char "".
Definition crlf : string := String "013"%char nl.

(** The message [sendEmail] composes. *)
Definition compose (s : SMTPSender) (to subject body : string) : string :=
  "From: " +:+ smtp_from s +:+ crlf +:+ "To: " +:+ to +:+ crlf +:+
  "Subject: " +:+ subject +:+ crlf +:+ "MIME-Version: 1.0" +:+ crlf +:+
  "Content-Type: text/plain; charset=" +:+ String dquote ("utf-8" +:+ String dquote "") +:+ crlf +:+
  crlf +:+ body.

Definition mail_of (s : SMTPSender) (to subject body : string) : Mail :=
  mkMail (smtp_host s +:+ ":" +:+ smtp_port s)
    (if is_empty (smtp_user s) then None
     else Some (smtp_user s, smtp_pass s, smtp_host s))
    (smtp_from s) [to] (compose s to subject body).

Definition confirmation_body (confirmURL : string) : string :=
  "Please confirm your subscription by clicking the link below:" +:+ nl +:+ nl +:+
  confirmURL +:+ nl +:+ nl +:+
  "If you did not subscribe, you can safely ignore this email.".

Definition release_body (repo tag unsubscribeURL : string) : string :=
  "A new release has been published!" +:+ nl +:+ nl +:+ "Repository: " +:+ repo +:+ nl +:+
  "Release: " +:+ tag +:+ nl +:+ "URL: https://github.com/" +:+ repo +:+ "/releases/tag/" +:+
  tag +:+ nl +:+ nl +:+ "To unsubscribe: " +:+ unsubscribeURL.

Definition confirmation_mail (s : SMTPSender) (to confirmURL : string) : Mail :=
  mail_of s to "Confirm your GitHub release subscription" (confirmation_body confirmURL).
Definition release_mail (s : SMTPSender) (to repo tag unsubscribeURL : string) : Mail :=
  mail_of s to ("New release: " +:+ repo +:+ " " +:+ tag)
    (release_body repo tag unsubscribeURL).

Section SMTP.
Context {X : Type} `{!Env X}.

(** [smtp.SendMail]. *)
Definition SendMail (m : Mail) : GoM X unit := ext_call (env_smtp m) (Some (EvMail m)).

Definition SMTP (s : SMTPSender) : emailSender X :=
  mkEmailSender X
    (fun to url => SendMail (confirmation_mail s to url))
    (fun to repo tag url => SendMail (release_mail s to repo tag url)).
End SMTP.

(** ** dedup.go *)

Definition dedupKey (id : string) : string := "processed:" +:+ id.

Section Dedup.
Context {X : Type} `{!Env X}.
Variable ttl : Z.

Definition redisDeduper : deduper X :=
  mkDeduper X
    (fun id => n ← ext_call (env_redis_exists (dedupKey id)) None; mret (0 <? n))
    (fun id => ext_call (env_redis_set (dedupKey id) "1" ttl)
                 (Some (EvRedisSet (dedupKey id) "1"))).
End Dedup.

(** ** consumer.go *)

(** The fields of [amqp.Delivery] that the consumer reads. *)
Record Delivery := mkDelivery {
  d_RoutingKey : string; d_MessageId : string; d_Body : string }.

Section Consumer.
Context {X : Type} `{!Env X}.
Local Abbreviation M := (GoM X).

(** [Consumer]; [NewConsumer] sets three attempts, 500 ms apart. *)
Variable sender : emailSender X.
Variable dedup : deduper X.
Definition maxAttempts : nat := 3.
Definition consumer_backoff : Z := 500000000.

(** The message of [ReplyConfirmation]. *)
Definition reply_message (sagaID status : string) : Publishing :=
  mkPublishing ExchangeName RoutingSagaReply "application/json" true
    ("saga-reply:" +:+ sagaID) (marshal (mkSagaReply sagaID status)).

Definition ReplyConfirmation (sagaID status : string) : M unit :=
  ext_call (env_publish (reply_message sagaID status))
    (Some (EvPublish (reply_message sagaID status))).

(** The loop of [sendWithRetry], with [attempts] to go. *)
Fixpoint send_attempts (attempts : nat) (send : M unit) : M unit :=
  match attempts with
  | O => mret ()
  | S k =>
      r ← try send;
      match r, k with
      | Ok _, _ => mret ()
      | Err e, O => throw e
      | Err e, S _ =>
          canceled ← select_done_or_after consumer_backoff;
          if (canceled : bool) then throw (EPlain "context canceled")
          else send_attempts k send
      end
  end.

Definition sendWithRetry (send : M unit) : M unit := send_attempts maxAttempts send.

(** The confirmation branch of [dispatch]. *)
Definition dispatch_confirmation (req : ConfirmationRequest) : M unit :=
  sendErr ← try (sendWithRetry (SendConfirmationEmail sender (cr_To req) (cr_ConfirmURL req)));
  if is_empty (cr_SagaID req) then
    match sendErr with
    | Err e => throw (EWrap "send confirmation" e)
    | Ok _ => mret ()
    end
  else
    let status := match sendErr with Ok _ => SagaStatusSent | Err _ => SagaStatusFailed end in
    replyErr ← try (ReplyConfirmation (cr_SagaID req) status);
    match sendErr, replyErr with
    | Err e, Err _ =>
        throw (EWrap ("send confirmation failed and reply not delivered (saga " +:+
                      cr_SagaID req +:+ ")") e)
    | _, _ => mret ()
    end.

Definition dispatch (d : Delivery) : M unit :=
  if String.eqb (d_RoutingKey d) RoutingConfirm then
    match unmarshal (A := ConfirmationRequest) (d_Body d) with
    | Err e => throw (EWrap "decode confirmation" e)
    | Ok req => dispatch_confirmation req
    end
  else if String.eqb (d_RoutingKey d) RoutingRelease then
    match unmarshal (A := ReleaseRequest) (d_Body d) with
    | Err e => throw (EWrap "decode release" e)
    | Ok req =>
        SendReleaseEmail sender (rr_To req) (rr_Repo req) (rr_Tag req) (rr_UnsubscribeURL req)
    end
  else throw (EPlain ("unknown routing key " +:+ String dquote (d_RoutingKey d +:+ String dquote ""))).

Definition replyAlreadySent (d : Delivery) : M unit :=
  if negb (String.eqb (d_RoutingKey d) RoutingConfirm) then mret () else
  match unmarshal (A := ConfirmationRequest) (d_Body d) with
  | Err _ => mret ()
  | Ok req =>
      if is_empty (cr_SagaID req) then mret ()
      else try (ReplyConfirmation (cr_SagaID req) SagaStatusSent) ;; mret ()
  end.

(** The dedup check of [handle]: [true] only when it says the message is known. *)
Definition check_seen (d : Delivery) : M bool :=
  if is_empty (d_MessageId d) then mret false
  else
    r ← try (AlreadyProcessed dedup (d_MessageId d));
    mret (match r with Ok seen => seen | Err _ => false end).

Definition handle (d : Delivery) : M unit :=
  seen ← check_seen d;
  if (seen : bool) then replyAlreadySent d
  else
    dispatch d ;;
    if is_empty (d_MessageId d) then mret ()
    else try (MarkProcessed dedup (d_MessageId d)) ;; mret ().

(** One delivery in the loop of [Run]: acked, or dead-lettered. *)
Definition consume (d : Delivery) : M unit := fun w =>
  let '(r, w') := handle d w in
  (Ok (), emit (match r with Ok _ => EvAck | Err _ => EvNack end) w').
End Consumer.

(** ** grpc.go *)

Inductive grpc_code := codes_OK | codes_InvalidArgument | codes_Unavailable.

Section Server.
Context {X : Type} `{!Env X}.
Variable sender : emailSender X.
Variable dedup : deduper X.

(** The key a confirmation is deduplicated by, from its link. *)
Definition confirmation_id (confirmURL : string) : string :=
  "confirm:" +:+ path_Base confirmURL.

(** [SendConfirmation] of the server, by the status code it answers with. *)
Definition serve_SendConfirmation (req : SendConfirmationRequest) : GoM X grpc_code :=
  if is_empty (req_Email req) || is_empty (req_Repo req) || is_empty (req_ConfirmUrl req)
  then mret codes_InvalidArgument
  else
    let messageID := confirmation_id (req_ConfirmUrl req) in
    seen ← try (AlreadyProcessed dedup messageID);
    match seen with
    | Ok true => mret codes_OK
    | _ =>
        sent ← try (SendConfirmationEmail sender (req_Email req) (req_ConfirmUrl req));
        match sent with
        | Err _ => mret codes_Unavailable
        | Ok _ => try (MarkProcessed dedup messageID) ;; mret codes_OK
        end
    end.
End Server.

(** ** What a delivery does *)

(** What is documented of Redis, besides the laws of the cache: a key that was
    just stored, with a time to live, is there when [EXISTS] is answered. *)
Class RedisRemembers (X : Type) `{!Env X} : Prop := {
  redis_set_remembered : forall k v ttl x x' n, 0 < ttl ->
    env_redis_set k v ttl x = (inr (), x') -> (env_redis_exists k x').1 = inr n -> 0 < n }.

(** The world only grew by these events; the database is not this process's. *)
Definition grew {X : Type} (w : World X) (evs : list Event) (w' : World X) : Prop :=
  w_trace w' = app (w_trace w) evs /\ w_db w' = w_db w /\ w_tx w' = w_tx w /\
  w_metrics w' = w_metrics w.

Lemma grew_nil {X : Type} (w w' : World X) :
  w_trace w' = w_trace w -> w_db w' = w_db w -> w_tx w' = w_tx w ->
  w_metrics w' = w_metrics w -> grew w [] w'.
Proof. intros. split; [by rewrite app_nil_r|done]. Qed.

Lemma grew_trans {X : Type} (w1 w2 w3 : World X) e1 e2 :
  grew w1 e1 w2 -> grew w2 e2 w3 -> grew w1 (app e1 e2) w3.
Proof.
  intros (Ha & ? & ? & ?) (Hb & ? & ? & ?). split; [|repeat split; congruence].
  by rewrite Hb, Ha, app_assoc.
Qed.

(** [k] refused attempts to send [m], each with the pause after it. *)
Fixpoint refused (m : Mail) (k : nat) : list Event :=
  match k with
  | O => []
  | S k' => EvMail m false :: EvSleep consumer_backoff :: refused m k'
  end.

(** The report of a saga confirmation. *)
Definition report (sagaID : string) (sent replied : bool) : list Event :=
  if is_empty sagaID then []
  else [EvPublish (reply_message sagaID (if sent then SagaStatusSent else SagaStatusFailed)) replied].

(** Whether the handling of a confirmation ends without an error. *)
Definition settled_ok (sagaID : string) (sent replied : bool) : bool :=
  sent || (negb (is_empty sagaID) && replied).

(** The mark of a handled message, and the ack; or the dead letter. *)
Definition settle (messageID : string) (ok marked : bool) : list Event :=
  if ok then
    app (if is_empty messageID then [] else [EvRedisSet (dedupKey messageID) "1" marked]) [EvAck]
  else [EvNack].

Section DeliveryProofs.
Context {X : Type} `{!Env X}.
Variable smtp : SMTPSender.
Variable ttl : Z.
Implicit Types w : World X.

(** Redis was asked about the message and said that it is known. *)
Definition known (messageID : string) : Prop :=
  messageID <> "" /\ exists (x : X) n, (env_redis_exists (dedupKey messageID) x).1 = inr n /\ 0 < n.

Lemma wp_SendMail m w :
  wp (SendMail m) (fun r w' => grew w [EvMail m (is_ok r)] w') w.
Proof. by apply wp_ext_call. Qed.

Lemma wp_ReplyConfirmation sagaID status w :
  wp (ReplyConfirmation sagaID status)
    (fun r w' => grew w [EvPublish (reply_message sagaID status) (is_ok r)] w') w.
Proof. by apply wp_ext_call. Qed.

(** Whether Redis, asked in the state [x], says that it knows the message. A
    failing Redis does not say so. *)
Definition redis_knows (messageID : string) (x : X) : bool :=
  match (env_redis_exists (dedupKey messageID) x).1 with
  | inr n => 0 <? n
  | inl _ => false
  end.

Lemma wp_AlreadyProcessed id w :
  wp (AlreadyProcessed (redisDeduper ttl) id) (fun r w' => grew w [] w' /\
    w_ext w' = (env_redis_exists (dedupKey id) (w_ext w)).2 /\
    (r = Ok true <-> redis_knows id (w_ext w) = true)) w.
Proof.
  simpl. unfold redis_knows. apply wp_bind, wp_ext_call.
  - intros n x E. apply wp_ret. rewrite E. split; [by apply grew_nil|]. split; [done|].
    simpl. split; [by intros [= ->]|by intros ->].
  - intros m x E. rewrite E. split; [by apply grew_nil|done].
Qed.

Lemma wp_MarkProcessed id w :
  wp (MarkProcessed (redisDeduper ttl) id)
    (fun r w' => grew w [EvRedisSet (dedupKey id) "1" (is_ok r)] w') w.
Proof. by apply wp_ext_call. Qed.

(** What is sent of a mail with [n] attempts to go, in the state [x] of the
    services: the attempts go on, with a pause of half a second after each,
    until the relay takes the mail, the last attempt is refused, or the context
    is cancelled while the loop waits. *)
Inductive attempted (m : Mail) : nat -> X -> list Event -> bool -> Prop :=
  | at_taken n x x' :
      env_smtp m x = (inr (), x') -> attempted m (S n) x [EvMail m true] true
  | at_last x x' e :
      env_smtp m x = (inl e, x') -> attempted m 1 x [EvMail m false] false
  | at_cancelled n x x1 x2 e :
      env_smtp m x = (inl e, x1) -> env_ctx_done x1 = (true, x2) ->
      attempted m (S (S n)) x [EvMail m false] false
  | at_again n x x1 x2 e evs sent :
      env_smtp m x = (inl e, x1) -> env_ctx_done x1 = (false, x2) ->
      attempted m (S n) x2 evs sent ->
      attempted m (S (S n)) x (EvMail m false :: EvSleep 500000000 :: evs) sent.

(** So there are at most [n] of them, and only the last one can be taken. *)
Lemma attempted_refused m n x evs sent :
  attempted m n x evs sent ->
  exists k, (k < n)%nat /\ evs = app (refused m k) [EvMail m sent].
Proof.
  induction 1 as [n x x' _|x x' e _|n x x1 x2 e _ _|n x x1 x2 e evs sent _ _ _ (k & Hk & ->)].
  1-3: exists 0%nat; split; [lia|done].
  exists (S k). split; [lia|done].
Qed.

Lemma wp_select_exact d (Q : result bool -> World X -> Prop) w :
  (forall x, env_ctx_done (w_ext w) = (true, x) -> Q (Ok true) (set_ext x w)) ->
  (forall x, env_ctx_done (w_ext w) = (false, x) ->
     Q (Ok false) (emit (EvSleep d) (set_ext x w))) ->
  wp (select_done_or_after d) Q w.
Proof.
  unfold wp, select_done_or_after.
  destruct (env_ctx_done (w_ext w)) as [[] x]; simpl; auto.
Qed.

Lemma send_attempts_attempted n m w :
  wp (send_attempts (S n) (SendMail m)) (fun r w' => exists evs, grew w evs w' /\
    attempted m (S n) (w_ext w) evs (is_ok r)) w.
Proof.
  revert w. induction n as [|n IH]; intros w.
  - cbn. apply wp_bind, wp_try, wp_ext_call.
    + intros [] x E. apply wp_ret. eexists. split; [by split|]. by eapply at_taken.
    + intros e x E. apply wp_throw. eexists. split; [by split|]. by eapply at_last.
  - change (send_attempts (S (S n)) (SendMail m)) with
      (r ← try (SendMail m);
       match r with
       | Ok _ => mret ()
       | Err e => canceled ← select_done_or_after consumer_backoff;
           if (canceled : bool) then throw (EPlain "context canceled")
           else send_attempts (S n) (SendMail m)
       end).
    apply wp_bind, wp_try, wp_ext_call.
    + intros [] x E. apply wp_ret. eexists. split; [by split|]. by eapply at_taken.
    + intros e x1 E. apply wp_bind, wp_select_exact; intros x2 Ed.
      * apply wp_throw. eexists. split; [by split|]. by eapply at_cancelled.
      * eapply wp_mono; [apply IH|]. intros r w2 (evs & Hg & Ha).
        eexists. split; [|by eapply at_again].
        refine (grew_trans w _ w2 [EvMail m false; EvSleep consumer_backoff] evs _ Hg).
        split; [|done]. simpl. by rewrite <- app_assoc.
Qed.

Lemma send_attempts_result n m w :
  wp (send_attempts (S n) (SendMail m)) (fun r w' => exists k, (k <= n)%nat /\
    grew w (app (refused m k) [EvMail m (is_ok r)]) w') w.
Proof.
  eapply wp_mono; [apply send_attempts_attempted|].
  intros r w' (evs & Hg & (k & Hk & ->)%attempted_refused). exists k. split; [lia|done].
Qed.

(** A confirmation that is not skipped. *)
Lemma dispatch_confirmation_result req w :
  let m := confirmation_mail smtp (cr_To req) (cr_ConfirmURL req) in
  wp (dispatch_confirmation (SMTP smtp) req) (fun r w' => exists tries sent replied,
    attempted m 3 (w_ext w) tries sent /\
    is_ok r = settled_ok (cr_SagaID req) sent replied /\
    grew w (app tries (report (cr_SagaID req) sent replied)) w') w.
Proof.
  intros m. unfold dispatch_confirmation. apply wp_bind, wp_try.
  eapply wp_mono; [apply (send_attempts_attempted 2)|]. intros r1 w1 (tries & Hg1 & Ha).
  unfold settled_ok, report. destruct (is_empty (cr_SagaID req)) eqn:He; simpl.
  { destruct r1 as [[]|e]; simpl in *;
      [apply wp_ret; exists tries, true, true|apply wp_throw; exists tries, false, true];
      by rewrite app_nil_r. }
  apply wp_bind, wp_try. eapply wp_mono; [apply wp_ReplyConfirmation|].
  intros r2 w2 Hg2. pose proof (grew_trans _ _ _ _ _ Hg1 Hg2) as Hg.
  destruct r1 as [[]|e1], r2 as [[]|e2]; simpl in *;
    first [apply wp_ret | apply wp_throw].
  - by exists tries, true, true.
  - by exists tries, true, false.
  - by exists tries, false, true.
  - by exists tries, false, false.
Qed.

(** The command of a saga, if the delivery is one. *)
Definition saga_command (d : Delivery) : option ConfirmationRequest :=
  if String.eqb (d_RoutingKey d) RoutingConfirm then
    match unmarshal (A := ConfirmationRequest) (d_Body d) with
    | Ok req => if is_empty (cr_SagaID req) then None else Some req
    | Err _ => None
    end
  else None.

(** Whether Redis, asked in the state [x], says that the message is known, and
    the state it is left in. *)
Definition message_known (d : Delivery) (x : X) : bool :=
  negb (is_empty (d_MessageId d)) && redis_knows (d_MessageId d) x.
Definition after_check (d : Delivery) (x : X) : X :=
  if is_empty (d_MessageId d) then x
  else (env_redis_exists (dedupKey (d_MessageId d)) x).2.

(** The events of one delivery, in order, in every case; [x] is the state of
    the services when it is handled. *)
Inductive consumed (x : X) (d : Delivery) : list Event -> Prop :=
  | co_known_command req replied :
      message_known d x = true -> saga_command d = Some req ->
      consumed x d [EvPublish (reply_message (cr_SagaID req) SagaStatusSent) replied; EvAck]
  | co_known :
      message_known d x = true -> saga_command d = None -> consumed x d [EvAck]
  | co_confirmation (req : ConfirmationRequest) tries sent replied marked :
      message_known d x = false ->
      d_RoutingKey d = RoutingConfirm -> unmarshal (d_Body d) = Ok req ->
      attempted (confirmation_mail smtp (cr_To req) (cr_ConfirmURL req)) 3
        (after_check d x) tries sent ->
      consumed x d (app tries (app (report (cr_SagaID req) sent replied)
           (settle (d_MessageId d) (settled_ok (cr_SagaID req) sent replied) marked)))
  | co_release (req : ReleaseRequest) sent marked :
      message_known d x = false ->
      d_RoutingKey d = RoutingRelease -> unmarshal (d_Body d) = Ok req ->
      let m := release_mail smtp (rr_To req) (rr_Repo req) (rr_Tag req) (rr_UnsubscribeURL req) in
      consumed x d (app [EvMail m sent] (settle (d_MessageId d) sent marked))
  | co_refused :
      message_known d x = false ->
      (d_RoutingKey d = RoutingConfirm ->
         forall req : ConfirmationRequest, unmarshal (d_Body d) <> Ok req) ->
      (d_RoutingKey d = RoutingRelease ->
         forall req : ReleaseRequest, unmarshal (d_Body d) <> Ok req) ->
      consumed x d [EvNack].

Lemma message_known_known d x : message_known d x = true -> known (d_MessageId d).
Proof.
  unfold message_known, redis_knows. intros [He Hn]%andb_true_iff. split.
  - apply negb_true_iff in He. by apply is_empty_false.
  - destruct (env_redis_exists _ x).1 as [e|n] eqn:E; [done|]. exists x, n.
    split; [done|]. by apply Z.ltb_lt.
Qed.

Lemma check_seen_result d w :
  wp (check_seen (redisDeduper ttl) d) (fun r w' =>
    r = Ok (message_known d (w_ext w)) /\ grew w [] w' /\
    w_ext w' = after_check d (w_ext w)) w.
Proof.
  unfold check_seen, message_known, redis_knows, after_check. destruct (is_empty (d_MessageId d)) eqn:He.
  { apply wp_ret. split; [done|]. by split; [apply grew_nil|]. }
  apply wp_bind, wp_try. simpl. apply wp_bind, wp_ext_call.
  - intros n x E. apply wp_ret, wp_ret. rewrite E. split; [done|]. by split; [apply grew_nil|].
  - intros e x E. apply wp_ret. rewrite E. split; [done|]. by split; [apply grew_nil|].
Qed.

(** The handling of a known message. *)
Lemma replyAlreadySent_result d x w :
  message_known d x = true ->
  wp (replyAlreadySent d) (fun r w' => exists evs, r = Ok () /\ grew w evs w' /\
    consumed x d (app evs [EvAck])) w.
Proof.
  intros Hk.
  assert (saga_command d = None -> wp (mret ()) (fun r w' => exists evs, r = Ok () /\ grew w evs w' /\
    consumed x d (app evs [EvAck])) w) as Hnop.
  { intros Hc. apply wp_ret. exists []. split; [done|]. split; [by apply grew_nil|by apply co_known]. }
  unfold replyAlreadySent. unfold saga_command in Hnop.
  destruct (String.eqb (d_RoutingKey d) RoutingConfirm) eqn:Hkey; cbn [negb]; [|by apply Hnop].
  destruct (unmarshal (A := ConfirmationRequest) (d_Body d)) as [req|e] eqn:Hb; [|by apply Hnop].
  destruct (is_empty (cr_SagaID req)) eqn:He; [by apply Hnop|].
  apply wp_bind, wp_try. eapply wp_mono; [apply wp_ReplyConfirmation|].
  intros r w1 Hg. apply wp_ret. eexists. split; [done|]. split; [exact Hg|].
  eapply co_known_command; [done|]. unfold saga_command. by rewrite Hkey, Hb, He.
Qed.

(** After the handling of a message that was not known. *)
Lemma settle_result d evs w w1 (r : result unit) :
  grew w evs w1 ->
  wp (match r with
      | Ok _ => if is_empty (d_MessageId d) then mret ()
                else try (MarkProcessed (redisDeduper ttl) (d_MessageId d)) ;; mret ()
      | Err e => throw e
      end)
    (fun r' w' => exists marked evs', is_ok r' = is_ok r /\ grew w evs' w' /\
       app evs' [if is_ok r then EvAck else EvNack] =
       app evs (settle (d_MessageId d) (is_ok r) marked)) w1.
Proof.
  intros Hg. unfold settle. destruct r as [[]|e]; simpl.
  - destruct (is_empty (d_MessageId d)).
    + apply wp_ret. exists true, evs. split; [done|]. by split.
    + apply wp_bind, wp_try. eapply wp_mono; [apply wp_MarkProcessed|].
      intros r w2 Hg2. apply wp_ret. exists (is_ok r). eexists. split; [done|].
      split; [exact (grew_trans _ _ _ _ _ Hg Hg2)|]. by rewrite <- app_assoc.
  - apply wp_throw. exists true, evs. split; [done|]. by split.
Qed.

Lemma dispatch_result d x w :
  message_known d x = false -> w_ext w = after_check d x ->
  wp (dispatch (SMTP smtp) d) (fun r w' => exists evs, grew w evs w' /\
    forall marked, consumed x d (app evs (settle (d_MessageId d) (is_ok r) marked))) w.
Proof.
  intros Hn Hx. unfold dispatch. destruct (String.eqb_spec (d_RoutingKey d) RoutingConfirm) as [Hc|Hc].
  { destruct (unmarshal (A := ConfirmationRequest) (d_Body d)) as [req|e] eqn:Hb.
    - eapply wp_mono; [apply dispatch_confirmation_result|].
      intros r w1 (tries & sent & replied & Ha & Hr & Hg). eexists. split; [exact Hg|].
      intros marked. rewrite Hr, <- !app_assoc. rewrite Hx in Ha. by eapply co_confirmation.
    - apply wp_throw. exists []. split; [by apply grew_nil|]. intros marked. simpl.
      apply co_refused; [done|intros _ req; by rewrite Hb|]. intros Hk. by rewrite Hc in Hk. }
  destruct (String.eqb_spec (d_RoutingKey d) RoutingRelease) as [Hr|Hr].
  { destruct (unmarshal (A := ReleaseRequest) (d_Body d)) as [req|e] eqn:Hb.
    - eapply wp_mono; [apply wp_SendMail|]. intros r w1 Hg. eexists. split; [exact Hg|].
      intros marked. by apply co_release.
    - apply wp_throw. exists []. split; [by apply grew_nil|]. intros marked. simpl.
      apply co_refused; [done|done|intros _ req; by rewrite Hb]. }
  apply wp_throw. exists []. split; [by apply grew_nil|]. intros marked. simpl. by apply co_refused.
Qed.

Lemma consume_result d w :
  wp (consume (SMTP smtp) (redisDeduper ttl) d) (fun r w' => r = Ok () /\
    exists evs, grew w evs w' /\ consumed (w_ext w) d evs) w.
Proof.
  assert (wp (handle (SMTP smtp) (redisDeduper ttl) d) (fun r w' =>
    exists evs, grew w evs w' /\
      consumed (w_ext w) d (app evs [if is_ok r then EvAck else EvNack])) w) as H.
  { unfold handle. apply wp_bind. eapply wp_mono; [apply check_seen_result|].
    intros r w1 (-> & Hg1 & Hx1). destruct (message_known d (w_ext w)) eqn:Hk.
    - eapply wp_mono; [by apply (replyAlreadySent_result d (w_ext w))|].
      intros r w2 (evs & -> & Hg2 & Hc). exists evs.
      split; [exact (grew_trans _ _ _ _ _ Hg1 Hg2)|done].
    - apply wp_bind. eapply wp_mono; [by apply (dispatch_result d (w_ext w))|].
      intros r w2 (evs & Hg2 & Hc). pose proof (grew_trans _ _ _ _ _ Hg1 Hg2) as Hg.
      pose proof (settle_result d evs w w2 r Hg) as Hs. unfold wp in Hs |- *.
      destruct r as [[]|e].
      + destruct Hs as (marked & evs' & Hr & Hg' & Heq). exists evs'. split; [done|].
        rewrite Hr. simpl in *. rewrite Heq. apply Hc.
      + exists evs. split; [done|]. specialize (Hc true). exact Hc. }
  unfold wp, consume in *. destruct (handle (SMTP smtp) (redisDeduper ttl) d w) as [r w1].
  destruct H as (evs & Hg & Hc). simpl in *. split; [done|].
  exists (app evs [if is_ok r then EvAck else EvNack]). split; [|done].
  apply (grew_trans _ w1); [done|]. by destruct r as [[]|e].
Qed.

(** *** The mark *)

Lemma saga_command_Some d req :
  saga_command d = Some req ->
  d_RoutingKey d = RoutingConfirm /\ unmarshal (d_Body d) = Ok req /\ is_empty (cr_SagaID req) = false.
Proof.
  unfold saga_command. destruct (String.eqb_spec (d_RoutingKey d) RoutingConfirm) as [Hk|]; [|done].
  destruct (unmarshal _) as [req'|]; [|done]. destruct (is_empty (cr_SagaID req')) eqn:He; [done|].
  by intros [= <-].
Qed.

Definition no_mark (evs : list Event) : Prop := forall k v b, EvRedisSet k v b ∉ evs.

Lemma refused_no_mark m k sent : no_mark (app (refused m k) [EvMail m sent]).
Proof. intros k' v b. induction k as [|k IH]; simpl; set_solver. Qed.

Lemma dispatch_no_mark d w :
  wp (dispatch (SMTP smtp) d) (fun _ w' => exists evs, grew w evs w' /\ no_mark evs) w.
Proof.
  assert (forall e, wp (throw (A := unit) e) (fun _ w' => exists evs, grew w evs w' /\ no_mark evs) w)
    as Hthrow.
  { intros e. apply wp_throw. exists []. split; [by apply grew_nil|]. intros k v b. set_solver. }
  unfold dispatch. destruct (String.eqb _ RoutingConfirm).
  { destruct (unmarshal (A := ConfirmationRequest) (d_Body d)) as [req|e]; [|apply Hthrow].
    eapply wp_mono; [apply dispatch_confirmation_result|].
    intros r w1 (tries & sent & replied & (k & _ & ->)%attempted_refused & _ & Hg).
    eexists. split; [exact Hg|]. intros k' v b [Hin|Hin]%elem_of_app.
    - by apply refused_no_mark in Hin.
    - unfold report in Hin. case_match; set_solver. }
  destruct (String.eqb _ RoutingRelease); [|apply Hthrow].
  destruct (unmarshal (A := ReleaseRequest) (d_Body d)) as [req|e]; [|apply Hthrow].
  eapply wp_mono; [apply wp_SendMail|]. intros r w1 Hg. eexists. split; [exact Hg|].
  intros k v b. set_solver.
Qed.

(** When a handling marked its message, that was the last call it made. *)
Lemma consume_mark d w w' r evs :
  consume (SMTP smtp) (redisDeduper ttl) d w = (r, w') -> w_trace w' = app (w_trace w) evs ->
  EvRedisSet (dedupKey (d_MessageId d)) "1" true ∈ evs ->
  exists x, env_redis_set (dedupKey (d_MessageId d)) "1" ttl x = (inr (), w_ext w').
Proof.
  intros Hrun.
  assert (wp (handle (SMTP smtp) (redisDeduper ttl) d) (fun _ w1 => exists evs, grew w evs w1 /\
    (EvRedisSet (dedupKey (d_MessageId d)) "1" true ∈ evs ->
     exists x, env_redis_set (dedupKey (d_MessageId d)) "1" ttl x = (inr (), w_ext w1))) w) as H.
  { assert (forall w2 evs2, grew w evs2 w2 -> no_mark evs2 -> exists evs, grew w evs w2 /\
      (EvRedisSet (dedupKey (d_MessageId d)) "1" true ∈ evs ->
       exists x, env_redis_set (dedupKey (d_MessageId d)) "1" ttl x = (inr (), w_ext w2))) as Hno.
    { intros w2 evs2 Hg Hn. exists evs2. split; [done|]. intros Hin. by apply Hn in Hin. }
    unfold handle. apply wp_bind. eapply wp_mono; [apply check_seen_result|].
    intros r1 w1 (-> & Hg1 & _). destruct (message_known d (w_ext w)) eqn:Hk.
    { eapply wp_mono; [by apply (replyAlreadySent_result d (w_ext w))|].
      intros r2 w2 (evs2 & _ & Hg2 & Hc). eapply Hno; [exact (grew_trans _ _ _ _ _ Hg1 Hg2)|].
      simpl. intros k v b Hin. assert (EvRedisSet k v b ∈ app evs2 [EvAck]) as Hin' by set_solver.
      revert Hin'. inversion Hc; simplify_eq; try congruence; set_solver. }
    apply wp_bind. eapply wp_mono; [apply dispatch_no_mark|].
    intros r2 w2 (evs2 & Hg2 & Hn2). pose proof (grew_trans _ _ _ _ _ Hg1 Hg2) as Hg.
    destruct r2 as [[]|e]; [|by eapply Hno]. destruct (is_empty (d_MessageId d)).
    { apply wp_ret. by eapply Hno. }
    apply wp_bind, wp_try, wp_ext_call.
    - intros [] x E. apply wp_ret. eexists. split.
      { refine (grew_trans _ _ _ _ [EvRedisSet _ "1" true] Hg _). by split. }
      intros _. by exists (w_ext w2).
    - intros e x E. apply wp_ret. eexists. split.
      { refine (grew_trans _ _ _ _ [EvRedisSet _ "1" false] Hg _). by split. }
      simpl. intros [Hin|Hin]%elem_of_app; [by apply Hn2 in Hin|set_solver]. }
  unfold wp, consume in *. destruct (handle (SMTP smtp) (redisDeduper ttl) d w) as [r1 w1].
  destruct H as (evs1 & (Htr1 & _) & Hx). injection Hrun as <- <-. cbn.
  intros Htr Hin. apply Hx. simpl in Htr1. rewrite Htr1, <- app_assoc in Htr. apply app_inv_head in Htr as <-.
  apply elem_of_app in Hin as [Hin|Hin]; [done|]. destruct r1; set_solver.
Qed.
End DeliveryProofs.

(** ** The gRPC server *)

Section ServerProofs.
Context {X : Type} `{!Env X}.
Variable smtp : SMTPSender.
Variable ttl : Z.

Definition missing_field (req : SendConfirmationRequest) : Prop :=
  req_Email req = "" \/ req_Repo req = "" \/ req_ConfirmUrl req = "".

(** The answer and the events of one call, in order, in every case; [x] is the
    state of the services when it comes. *)
Inductive served (x : X) (req : SendConfirmationRequest) : grpc_code -> list Event -> Prop :=
  | sv_invalid : missing_field req -> served x req codes_InvalidArgument []
  | sv_duplicate :
      ~ missing_field req -> redis_knows (confirmation_id (req_ConfirmUrl req)) x = true ->
      served x req codes_OK []
  | sv_tried ok marked :
      ~ missing_field req ->
      let id := confirmation_id (req_ConfirmUrl req) in
      let m := confirmation_mail smtp (req_Email req) (req_ConfirmUrl req) in
      let x1 := (env_redis_exists (dedupKey id) x).2 in
      redis_knows id x = false ->
      (ok = true <-> exists x2, env_smtp m x1 = (inr (), x2)) ->
      served x req (if ok then codes_OK else codes_Unavailable)
        (EvMail m ok :: if ok then [EvRedisSet (dedupKey id) "1" marked] else []).

Lemma serve_result req (w : World X) :
  wp (serve_SendConfirmation (SMTP smtp) (redisDeduper ttl) req) (fun r w' =>
    exists code evs, r = Ok code /\ grew w evs w' /\ served (w_ext w) req code evs) w.
Proof.
  unfold serve_SendConfirmation.
  assert (is_empty (req_Email req) || is_empty (req_Repo req) || is_empty (req_ConfirmUrl req) = true
    <-> missing_field req) as He by (unfold missing_field; rewrite !orb_true_iff, !is_empty_true; tauto).
  destruct (_ || _ || _).
  { apply wp_ret. eexists _, []. split; [done|]. split; [by apply grew_nil|].
    by apply sv_invalid, He. }
  assert (~ missing_field req) as Hf by by intros H%He. clear He.
  apply wp_bind, wp_try. eapply wp_mono; [apply wp_AlreadyProcessed|].
  intros seen w1 (Hg1 & Hx1 & Hk). set (id := confirmation_id (req_ConfirmUrl req)) in *.
  assert (seen <> Ok true -> wp (sent ← try (SendConfirmationEmail (SMTP smtp) (req_Email req) (req_ConfirmUrl req));
    match sent with
    | Err _ => mret codes_Unavailable
    | Ok _ => try (MarkProcessed (redisDeduper ttl) id) ;; mret codes_OK
    end) (fun r w' => exists code evs, r = Ok code /\ grew w evs w' /\ served (w_ext w) req code evs) w1)
    as Hsend.
  { intros Hn. assert (redis_knows id (w_ext w) = false) as Hk'
      by (destruct (redis_knows id (w_ext w)); [by destruct Hn; apply Hk|done]).
    apply wp_bind, wp_try, wp_ext_call; rewrite Hx1.
    - intros [] x E. apply wp_bind, wp_try. eapply wp_mono; [apply wp_MarkProcessed|].
      intros r w3 Hg3. apply wp_ret. eexists codes_OK, _. split; [done|].
      split; [refine (grew_trans _ _ _ [EvMail _ true] _ _ Hg3);
        refine (grew_trans _ _ _ [] [EvMail _ true] Hg1 _); by split|].
      apply (sv_tried _ _ true); [done..|]. split; [by exists x|done].
    - intros e x E. apply wp_ret. eexists codes_Unavailable, _. split; [done|].
      split; [refine (grew_trans _ _ _ [] [EvMail _ false] Hg1 _); by split|].
      apply (sv_tried _ _ false true); [done..|]. split; [done|]. intros (x2 & E2). fold id in E2. congruence. }
  destruct seen as [[]|e]; [|by apply Hsend..].
  apply wp_ret. eexists _, []. split; [done|]. split; [done|].
  by apply sv_duplicate; [|apply Hk].
Qed.
End ServerProofs.

(** ** The properties of the notifier *)

Section Properties.
Context {X : Type} `{!Env X}.
Variable smtp : SMTPSender.
Variable ttl : Z.
Implicit Types w : World X.

(** C16: Every delivery, every branch: the handling of a delivery never fails, and
    its events are exactly those of the case of [consumed] that applies. When
    Redis says that the message is known, nothing is sent: the command of a
    saga is reported as sent, anything else is only acked. When it does not (or
    fails), a confirmation is tried until the relay takes it, the third attempt
    is refused or the context is cancelled during a pause of half a second,
    then reported to its saga, marked and acked unless both the mail and its
    report failed; a release is tried once; what cannot be decoded or routed is
    dead-lettered without a mail. *)
Theorem consume_outcome d w w' r :
  consume (SMTP smtp) (redisDeduper ttl) d w = (r, w') ->
  r = Ok () /\ exists evs, grew w evs w' /\ consumed smtp (w_ext w) d evs.
Proof. exact (wp_elim _ _ _ _ _ (consume_result smtp ttl d w)). Qed.

(** No silent loss: a delivery is acked only when its message was known, or the
    relay accepted its mail, or the orchestrator was told that it failed; and
    exactly one ack or dead letter ends it. *)
Theorem consume_no_silent_loss d w w' r :
  consume (SMTP smtp) (redisDeduper ttl) d w = (r, w') ->
  exists evs ev, w_trace w' = app (w_trace w) (app evs [ev]) /\
    (EvAck ∉ evs /\ EvNack ∉ evs) /\
    (ev = EvNack \/
     ev = EvAck /\ (known (X := X) (d_MessageId d) \/ (exists m, EvMail m true ∈ evs) \/
       exists sagaID, EvPublish (reply_message sagaID SagaStatusFailed) true ∈ evs)).
Proof.
  intros Hrun. destruct (wp_elim _ _ _ _ _ (consume_result smtp ttl d w) Hrun)
    as (_ & evs & (-> & _) & Hc).
  assert (forall m k, EvAck ∉ refused m k /\ EvNack ∉ refused m k) as Href.
  { intros m k. induction k as [|k [IH1 IH2]]; simpl; set_solver. }
  destruct Hc as [req replied Hk Hreq|Hk Hreq|req tries sent replied marked Hk Hkey Hb Ht
                 |req sent marked Hk Hkey Hb m|].
  - exists [EvPublish (reply_message (cr_SagaID req) SagaStatusSent) replied], EvAck.
    split; [done|]. split; [set_solver|]. right. split; [done|]. left.
    by eapply message_known_known.
  - exists [], EvAck. split; [done|]. split; [set_solver|]. right. split; [done|]. left.
    by eapply message_known_known.
  - set (m := confirmation_mail smtp (cr_To req) (cr_ConfirmURL req)) in *.
    apply attempted_refused in Ht as (k & _ & ->).
    destruct (Href m k) as [Ha Hn]. unfold settle, settled_ok.
    assert (EvAck ∉ report (cr_SagaID req) sent replied /\
            EvNack ∉ report (cr_SagaID req) sent replied) as [Hra Hrn]
      by (unfold report; case_match; set_solver).
    destruct (sent || _) eqn:Ho.
    + exists (app (refused m k) (app [EvMail m sent] (app (report (cr_SagaID req) sent replied)
        (if is_empty (d_MessageId d) then []
         else [EvRedisSet (dedupKey (d_MessageId d)) "1" marked])))), EvAck.
      split; [by rewrite <- !app_assoc|].
      split; [split; case_match; set_solver|]. right. split; [done|]. right.
      destruct sent; [left; exists m; set_solver|right].
      apply andb_true_iff in Ho as [Hs ->]. exists (cr_SagaID req). unfold report.
      destruct (is_empty (cr_SagaID req)); [done|set_solver].
    + exists (app (refused m k) (app [EvMail m sent] (report (cr_SagaID req) sent replied))), EvNack.
      split; [by rewrite <- !app_assoc|]. split; [set_solver|by left].
  - unfold settle. destruct sent.
    + exists (app [EvMail m true] (if is_empty (d_MessageId d) then []
        else [EvRedisSet (dedupKey (d_MessageId d)) "1" marked])), EvAck.
      split; [by rewrite <- app_assoc|]. split; [split; case_match; set_solver|].
      right. split; [done|]. right. left. exists m. set_solver.
    + exists [EvMail m false], EvNack. split; [done|]. split; [set_solver|by left].
  - exists [], EvNack. split; [done|]. split; [set_solver|by left].
Qed.

(** C40: A saga confirmation that failed is reported as sent when it is delivered
    again. Take any command of a saga that Redis does not know, whose handling
    sent no mail (every attempt was refused, or it was cancelled) and marked the
    message. Then the orchestrator was told that it failed; and when the same
    command is delivered again (the sweeper re-drives the saga when that report
    was lost) and Redis answers, no mail is tried, although the relay may take
    it now, and the orchestrator is told that it was sent. *)
Theorem failed_confirmation_reported_sent_on_redrive d req w w1 w2 r1 r2 evs :
  RedisRemembers X -> 0 < ttl -> saga_command d = Some req -> d_MessageId d <> "" ->
  message_known d (w_ext w) = false ->
  consume (SMTP smtp) (redisDeduper ttl) d w = (r1, w1) -> w_trace w1 = app (w_trace w) evs ->
  (forall m, EvMail m true ∉ evs) ->
  EvRedisSet (dedupKey (d_MessageId d)) "1" true ∈ evs ->
  (exists n, (env_redis_exists (dedupKey (d_MessageId d)) (w_ext w1)).1 = inr n) ->
  consume (SMTP smtp) (redisDeduper ttl) d w1 = (r2, w2) ->
  EvPublish (reply_message (cr_SagaID req) SagaStatusFailed) true ∈ evs /\
  exists replied, w_trace w2 =
    app (w_trace w1) [EvPublish (reply_message (cr_SagaID req) SagaStatusSent) replied; EvAck].
Proof.
  intros Hlaw Httl Hreq Hmid Hk Hrun1 Htr1 Hmail Hmark [n Hn] Hrun2.
  destruct (consume_mark smtp ttl d w w1 r1 evs Hrun1 Htr1 Hmark) as [x Hset].
  pose proof (redis_set_remembered _ _ _ _ _ n Httl Hset Hn) as Hpos.
  destruct (wp_elim _ _ _ _ _ (consume_result smtp ttl d w) Hrun1) as (_ & evs1 & (Hg1 & _) & Hc1).
  rewrite Htr1 in Hg1. apply app_inv_head in Hg1 as <-.
  destruct (saga_command_Some d req Hreq) as (Hkey & Hb & Hid).
  split.
  - destruct Hc1 as [? ? Hk'|Hk' _|req' tries sent replied marked _ _ Hb' Ha|? ? ? _ Hr|_ Hno _];
      try congruence; [|by rewrite Hkey in Hr|by destruct (Hno Hkey req)].
    rewrite Hb in Hb'. injection Hb' as <-. apply attempted_refused in Ha as (k & _ & ->).
    destruct sent; [exfalso; apply (Hmail (confirmation_mail smtp (cr_To req) (cr_ConfirmURL req))); set_solver|].
    unfold settled_ok, report in *. rewrite Hid in *. simpl in *.
    destruct replied; [set_solver|]. exfalso. revert Hmark. unfold settle.
    rewrite elem_of_app. intros [Hin|Hin]; [by eapply refused_no_mark in Hin|set_solver].
  - destruct (wp_elim _ _ _ _ _ (consume_result smtp ttl d w1) Hrun2) as (_ & evs2 & (Hg2 & _) & Hc2).
    assert (message_known d (w_ext w1) = true) as Hk1.
    { unfold message_known, redis_knows. rewrite Hn. apply is_empty_false in Hmid. rewrite Hmid. by apply Z.ltb_lt. }
    destruct Hc2; try congruence. rewrite Hreq in *. simplify_eq. by eexists.
Qed.


(** One key for both transports: for the link the service builds from a token
    without a slash, the gRPC server deduplicates by the same key as the
    consumer does by the message id that the orchestrator gives the command. *)
Theorem transports_share_dedup_key baseURL token :
  is_empty token = false -> occurs slash token = false ->
  confirmation_id (baseURL +:+ "/api/confirm/" +:+ token) = "confirm:" +:+ token.
Proof.
  intros He Hs. unfold confirmation_id. f_equal.
  change ("/api/confirm/" +:+ token) with ("/api/confirm" +:+ String slash token).
  rewrite string_app_assoc. by apply path_Base_last.
Qed.

Lemma transports_share_dedup_key_witness :
  confirmation_id ("http://localhost:8080" +:+ "/api/confirm/" +:+ "tok-1") = "confirm:" +:+ "tok-1".
Proof. apply transports_share_dedup_key; reflexivity. Defined.
End Properties.

(** ** Witnesses, and a confirmation that is reported sent but never was *)

Section Traces.
#[local] Existing Instance faulty_env.
Definition relay_config : SMTPSender :=
  mkSMTPSender "mail" "1025" "" "" "noreply@github-notifier.local".
Definition a_day : Z := 86400000000000.
Definition consume_one : Delivery -> GoM Script unit :=
  consume (SMTP relay_config) (redisDeduper a_day).

Definition confirm_command : Delivery :=
  mkDelivery RoutingConfirm "confirm:tok-1"
    (marshal (mkConfirmationRequest sample_uuid "ann@example.com" "http://x/api/confirm/tok-1")).
Definition the_mail : Mail :=
  confirmation_mail relay_config "ann@example.com" "http://x/api/confirm/tok-1".

(** The relay refuses three times. *)
Definition smtp_down : World Script :=
  play empty_db (mkScript [] 0 0 [] ∅ [] [] []
    [inl "refused"; inl "refused"; inl "refused"] []).

Lemma consume_outcome_witness :
  exists evs, grew smtp_down evs (consume_one confirm_command smtp_down).2 /\
    consumed relay_config (w_ext smtp_down) confirm_command evs.
Proof.
  exact (proj2 (consume_outcome relay_config a_day confirm_command smtp_down _ _
           (surjective_pairing _))).
Defined.

Lemma consume_no_silent_loss_witness :
  exists evs ev,
    w_trace (consume_one confirm_command smtp_down).2 = app [] (app evs [ev]) /\
    (EvAck ∉ evs /\ EvNack ∉ evs) /\
    (ev = EvNack \/
     ev = EvAck /\ (known (X := Script) "confirm:tok-1" \/ (exists m, EvMail m true ∈ evs) \/
       exists sagaID, EvPublish (reply_message sagaID SagaStatusFailed) true ∈ evs)).
Proof.
  exact (consume_no_silent_loss relay_config a_day confirm_command smtp_down _ _
           (surjective_pairing _)).
Defined.

Definition grpc_request : SendConfirmationRequest :=
  mkSendConfirmationRequest "ann@example.com" "golang/go" "http://x/api/confirm/tok-1".


Lemma script_remembers : RedisRemembers Script.
Proof.
  split. intros k v ttl x x' n _. simpl. unfold redis.
  destruct (pop true (sc_redis_up x)) as [[] l]; simpl; [|done]. intros [= <-]. simpl.
  destruct (pop true l) as [[] l']; simpl; [|done]. rewrite lookup_insert_eq. by intros [= <-].
Qed.

(** The relay refuses three times, then would take the mail. *)
Lemma failed_confirmation_reported_sent_on_redrive_witness :
  let w1 := (consume_one confirm_command smtp_down).2 in
  let w2 := (consume_one confirm_command w1).2 in
  w_trace w1 =
    [EvMail the_mail false; EvSleep 500000000; EvMail the_mail false; EvSleep 500000000;
     EvMail the_mail false; EvPublish (reply_message sample_uuid SagaStatusFailed) true;
     EvRedisSet "processed:confirm:tok-1" "1" true; EvAck] /\
  sc_smtp (w_ext w1) = [] /\
  exists replied,
    w_trace w2 = app (w_trace w1) [EvPublish (reply_message sample_uuid SagaStatusSent) replied; EvAck].
Proof.
  intros w1 w2. split; [vm_compute; reflexivity|]. split; [vm_compute; reflexivity|].
  refine (proj2 (failed_confirmation_reported_sent_on_redrive relay_config a_day confirm_command
    (mkConfirmationRequest sample_uuid "ann@example.com" "http://x/api/confirm/tok-1")
    smtp_down w1 w2 _ _ (w_trace w1) script_remembers _ _ _ _ (surjective_pairing _) _ _ _ _
    (surjective_pairing _))).
  - vm_compute. reflexivity.
  - vm_compute. reflexivity.
  - discriminate.
  - vm_compute. reflexivity.
  - reflexivity.
  - intros m. assert (w_trace w1 = [EvMail the_mail false; EvSleep 500000000; EvMail the_mail false;
      EvSleep 500000000; EvMail the_mail false;
      EvPublish (reply_message sample_uuid SagaStatusFailed) true;
      EvRedisSet "processed:confirm:tok-1" "1" true; EvAck]) as -> by (vm_compute; reflexivity).
    set_solver.
  - apply (list_elem_of_lookup_2 _ 6). vm_compute. reflexivity.
  - exists 1. vm_compute. reflexivity.
Defined.
End Traces.
