(* ===== verification/Handler.v ===== *)
(** * internal/handler, internal/app, internal/middleware and the HTTP metrics

    The REST interface: the handlers over the service, the translation of
    errors to statuses, and the router with its middleware. gin matches the
    route and binds the JSON body: the route is a field of the request and the
    binding a parameter. The panic recovery and the log records are not
    modelled, except for the level of the request log. *)

From stdpp Require Import pretty.
From S2P Require Import Prelude GoErrors Tables Env Logic Script Schema Samples.
From S2P Require Import SubStore SagaMachine Email Service.

Local Open Scope string_scope.
Local Open Scope Z_scope.

(** ** Requests and responses *)

(** The routes of [BuildRouter]; [RNone] is a path that none of them matches. *)
Inductive Route :=
  | RIndex
  | RMetrics
  | RHealth
  | RSubscribe
  | RConfirm (token : string)
  | RUnsubscribe (token : string)
  | RSubscriptions
  | RNone.
#[export] Instance route_eq_dec : EqDecision Route.
Proof. solve_decision. Defined.

Record Request := mkRequest {
  r_Method : string; r_Route : Route; r_APIKey : string; r_RequestID : string;
  r_Email : string; r_Body : string }.

(** [gin.H{"message": ..}], [gin.H{"error": ..}], [gin.H{"status": ..}], the
    list of subscriptions, or the content that a library serves. *)
Inductive Payload :=
  | PMessage (m : string)
  | PError (m : string)
  | PStatus (m : string)
  | PSubscriptions (l : list Subscription)
  | PContent.

Record Response := mkResponse {
  rs_Status : Z; rs_Payload : Payload; rs_RequestID : string }.

Definition StatusBadRequest : Z := 400.
Definition StatusUnauthorized : Z := 401.
Definition StatusForbidden : Z := 403.
Definition StatusConflict : Z := 409.
Definition StatusInternalServerError : Z := 500.

Record SubscribeRequest := mkSubscribeRequest { sr_Email : string; sr_Repo : string }.

(** [translateError]. *)
Definition translateError (err : error) : Z * string :=
  match KindOf err with
  | KindInvalid => (400, Error err)
  | KindNotFound => (404, Error err)
  | KindConflict => (409, Error err)
  | KindInternal => (500, "internal server error")
  end.

Definition error_response (err : error) : Z * Payload :=
  let '(status, msg) := translateError err in (status, PError msg).

(** The level of the request log. *)
Inductive Level := LevelDebug | LevelInfo | LevelWarn | LevelError.

Definition request_level (status : Z) : Level :=
  if 500 <=? status then LevelError else if 400 <=? status then LevelWarn else LevelInfo.

(** ** What a request asks for *)

(** The key of the request, if one is configured. *)
Definition authorized (apiKey : string) (req : Request) : bool :=
  is_empty apiKey || String.eqb (r_APIKey req) apiKey.

(** A subscribe request that may come through: the key, and a valid address. *)
Definition asks (apiKey : string) (bind : string -> option SubscribeRequest) (req : Request)
    (sr : SubscribeRequest) : Prop :=
  authorized apiKey req = true /\ r_Route req = RSubscribe /\ bind (r_Body req) = Some sr /\
  ValidateEmail (sr_Email sr) = true.

(** The links of the emails. *)
Definition confirm_link (baseURL token : string) : string :=
  baseURL +:+ "/api/confirm/" +:+ token.
Definition unsubscribe_link (baseURL token : string) : string :=
  baseURL +:+ "/api/unsubscribe/" +:+ token.

Section Handler.
Context {X : Type} `{!Env X}.
Local Abbreviation M := (GoM X).

(** The service of the handlers, and gin's binding of the body: [None] when the
    JSON is not valid or a [binding] tag refuses it. *)
Variable github : GitHubClient X.
Variable starter : sagaStarter X.
Variable baseURL : string.
Variable ShouldBindJSON : string -> option SubscribeRequest.

Definition handler_Subscribe (body : string) : M (Z * Payload) :=
  match ShouldBindJSON body with
  | None => mret (400, PError "invalid request body")
  | Some req =>
      r ← try (Subscribe github starter baseURL (sr_Email req) (sr_Repo req));
      match r with
      | Ok _ =>
          inc "subscriptions_created_total" [] ;;
          mret (200, PMessage "subscription created, check your email to confirm")
      | Err e => mret (error_response e)
      end
  end.

Definition handleTokenAction (token : string) (action : string -> M unit)
    (successMessage metric : string) : M (Z * Payload) :=
  r ← try (action token);
  match r with
  | Ok _ => inc metric [] ;; mret (200, PMessage successMessage)
  | Err e => mret (error_response e)
  end.

Definition handler_ConfirmSubscription (token : string) : M (Z * Payload) :=
  handleTokenAction token Confirm "subscription confirmed" "subscriptions_confirmed_total".

Definition handler_Unsubscribe (token : string) : M (Z * Payload) :=
  handleTokenAction token Unsubscribe "unsubscribed successfully" "unsubscribes_total".

Definition handler_GetSubscriptions (email : string) : M (Z * Payload) :=
  if is_empty email then mret (400, PError "email query parameter is required")
  else
    r ← try (GetSubscriptions email);
    mret (match r with
          | Ok subs => (200, PSubscriptions subs)
          | Err e => error_response e
          end).

(** ** The middleware and the router *)

(** [BuildRouter] and [APIKeyAuth]: the key, and whether an index page is
    configured. *)
Variable apiKey : string.
Variable staticIndex : bool.

Definition APIKeyAuth (req : Request) (next : M (Z * Payload)) : M (Z * Payload) :=
  if is_empty apiKey then next
  else if is_empty (r_APIKey req) then mret (401, PError "missing X-API-Key header")
  else if negb (String.eqb (r_APIKey req) apiKey) then mret (403, PError "invalid API key")
  else next.

Definition dispatch_route (req : Request) : M (Z * Payload) :=
  match r_Route req with
  | RIndex => mret (if staticIndex then (200, PContent) else (404, PContent))
  | RMetrics => mret (200, PContent)
  | RHealth => mret (200, PStatus "ok")
  | RSubscribe => APIKeyAuth req (handler_Subscribe (r_Body req))
  | RConfirm token => APIKeyAuth req (handler_ConfirmSubscription token)
  | RUnsubscribe token => APIKeyAuth req (handler_Unsubscribe token)
  | RSubscriptions => APIKeyAuth req (handler_GetSubscriptions (r_Email req))
  | RNone => mret (404, PContent)
  end.

(** [c.FullPath()]: the template of the route, empty when none matches. *)
Definition FullPath (rt : Route) : string :=
  match rt with
  | RIndex => if staticIndex then "/" else ""
  | RMetrics => "/metrics"
  | RHealth => "/health"
  | RSubscribe => "/api/subscribe"
  | RConfirm _ => "/api/confirm/:token"
  | RUnsubscribe _ => "/api/unsubscribe/:token"
  | RSubscriptions => "/api/subscriptions"
  | RNone => ""
  end.

(** [GinMiddleware]; the duration histogram is not modelled. *)
Definition GinMiddleware (req : Request) (next : M (Z * Payload)) : M (Z * Payload) :=
  res ← next;
  let path := if is_empty (FullPath (r_Route req)) then "unknown"
              else FullPath (r_Route req) in
  if String.eqb path "/metrics" then mret res
  else
    inc "http_requests_total" [r_Method req; path; pretty (fst res)] ;;
    observe "http_request_duration_seconds" [r_Method req; path] ;;
    mret res.

(** [RequestLogger]: the request id is taken from the header or generated. *)
Definition RequestLogger (req : Request) (next : M (Z * Payload)) : M Response :=
  id ← (if is_empty (r_RequestID req) then uuid_NewString else mret (r_RequestID req));
  res ← next;
  mret (mkResponse (fst res) (snd res) id).

(** [BuildRouter]: the chain of a request. *)
Definition BuildRouter (req : Request) : M Response :=
  RequestLogger req (GinMiddleware req (dispatch_route req)).
End Handler.

(** ** Statuses *)

Definition api_statuses : list Z := [200; 400; 401; 403; 404; 409; 500].

(** A response the interface may give: one of its statuses, and no text of an
    internal error. *)
Definition presentable (res : Z * Payload) : Prop :=
  res.1 ∈ api_statuses /\ (res.1 = 500 -> res.2 = PError "internal server error").

Lemma error_response_presentable e : presentable (error_response e).
Proof.
  unfold error_response, translateError, presentable, api_statuses.
  destruct (KindOf e); simpl; split; try done; set_solver.
Qed.

Lemma presentable_200 p : presentable (200, p).
Proof. split; [|done]. unfold api_statuses. set_solver. Qed.

Lemma presentable_4xx st p : st ∈ [400; 401; 403; 404; 409] -> presentable (st, p).
Proof.
  intros Hst. unfold presentable, api_statuses. simpl. split; [set_solver|].
  intros ->. set_solver.
Qed.

Section Total.
Context {X : Type} `{!Env X}.
Variables (gh : GitHubClient X) (sg : sagaStarter X) (baseURL : string).
Variable bind : string -> option SubscribeRequest.
Variables (apiKey : string) (staticIndex : bool).
Implicit Types w : World X.

Definition answers (m : GoM X (Z * Payload)) : Prop :=
  forall w, wp m (fun r _ => exists res, r = Ok res /\ presentable res) w.

Lemma answers_ret res : presentable res -> answers (mret res).
Proof. intros Hp w. apply wp_ret. eauto. Qed.

(** A service call whose error becomes the response. *)
Lemma answers_try {A} (m : GoM X A) (k : A -> GoM X (Z * Payload)) :
  (forall a, answers (k a)) ->
  answers (r ← try m; match r with Ok a => k a | Err e => mret (error_response e) end).
Proof.
  intros Hk w. apply wp_bind, wp_try. unfold wp at 1. destruct (m w) as [[a|e] w1]; simpl.
  - apply Hk.
  - apply answers_ret, error_response_presentable.
Qed.

Lemma answers_inc name ls res : presentable res -> answers (inc name ls ;; mret res).
Proof. intros Hp w. apply wp_bind, wp_inc, wp_ret. eauto. Qed.

Lemma handlers_answer :
  (forall body, answers (handler_Subscribe gh sg baseURL bind body)) /\
  (forall tok, answers (handler_ConfirmSubscription tok)) /\
  (forall tok, answers (handler_Unsubscribe tok)) /\
  (forall email, answers (handler_GetSubscriptions email)).
Proof.
  split; [|split; [|split]].
  - intros body. unfold handler_Subscribe. destruct (bind body).
    + apply answers_try. intros []. apply answers_inc, presentable_200.
    + apply answers_ret, presentable_4xx. set_solver.
  - intros tok. apply answers_try. intros []. apply answers_inc, presentable_200.
  - intros tok. apply answers_try. intros []. apply answers_inc, presentable_200.
  - intros email w. unfold handler_GetSubscriptions. case_match.
    { apply answers_ret, presentable_4xx. set_solver. }
    apply wp_bind, wp_try. unfold wp at 1. destruct (GetSubscriptions email w) as [[l|e] w1].
    + apply answers_ret, presentable_200.
    + apply answers_ret, error_response_presentable.
Qed.

Lemma dispatch_answers req :
  answers (dispatch_route gh sg baseURL bind apiKey staticIndex req).
Proof.
  destruct handlers_answer as (H1 & H2 & H3 & H4).
  assert (forall m, answers m -> answers (APIKeyAuth apiKey req m)) as Hauth.
  { intros m Hm. unfold APIKeyAuth. repeat case_match; try done;
      apply answers_ret, presentable_4xx; set_solver. }
  unfold dispatch_route. destruct (r_Route req); auto;
    try (apply answers_ret, presentable_200).
  - destruct staticIndex; apply answers_ret; [apply presentable_200|].
    apply presentable_4xx. set_solver.
  - apply answers_ret, presentable_4xx. set_solver.
Qed.

(** The chain of middleware around the dispatch. *)
(** The key guards what is behind it; what it answers itself is not a 200. *)
Lemma wp_APIKeyAuth req (m : GoM X (Z * Payload)) (Q : result (Z * Payload) -> World X -> Prop) w :
  (authorized apiKey req = true -> wp m Q w) ->
  (forall res, authorized apiKey req = false -> res.1 <> 200 -> Q (Ok res) w) ->
  wp (APIKeyAuth apiKey req m) Q w.
Proof.
  unfold APIKeyAuth, authorized. intros Hm Hno. destruct (is_empty apiKey) eqn:Hk; [by apply Hm|].
  destruct (is_empty (r_APIKey req)) eqn:He.
  - apply wp_ret, Hno; [|done]. apply is_empty_true in He. rewrite He.
    apply String.eqb_neq. intros Heq. by rewrite <- Heq in Hk.
  - destruct (String.eqb (r_APIKey req) apiKey); [by apply Hm|by apply wp_ret, Hno].
Qed.

Lemma BuildRouter_wp req w (Q : result Response -> World X -> Prop) :
  (forall x, wp (dispatch_route gh sg baseURL bind apiKey staticIndex req) (fun r w' =>
     match r with
     | Ok res => forall id m, Q (Ok (mkResponse res.1 res.2 id)) (set_metrics m w')
     | Err e => Q (Err e) w'
     end) (set_ext x w)) ->
  wp (BuildRouter gh sg baseURL bind apiKey staticIndex req) Q w.
Proof.
  intros H. unfold BuildRouter, RequestLogger. apply wp_bind.
  apply (wp_mono _ (fun r w' => exists id x, r = Ok id /\ w' = set_ext x w)).
  { destruct (is_empty (r_RequestID req)).
    - apply wp_ext_read. intros x _. eauto.
    - apply wp_ret. exists (r_RequestID req), (w_ext w). split; [done|]. by destruct w. }
  intros r w1 (id & x & -> & ->). apply wp_bind. unfold GinMiddleware. apply wp_bind.
  eapply wp_mono; [apply (H x)|]. intros [res|e] w2 HQ; [|exact HQ].
  assert (forall w3, w3 = set_metrics (w_metrics w3) w2 ->
    wp (mret (mkResponse (fst res) (snd res) id)) Q w3) as Hend.
  { intros w3 Hw3. apply wp_ret. rewrite Hw3. apply HQ. }
  destruct (String.eqb _ "/metrics").
  - apply wp_ret, Hend. by destruct w2.
  - apply wp_bind, wp_inc, wp_ret. by apply Hend.
Qed.
End Total.

(** ** The properties of the HTTP interface *)

Section Properties.
Context {X : Type} `{!Env X} `{!PgServerLaws env_server}.
Variables (gh : GitHubClient X) (sg : sagaStarter X) (baseURL : string).
Variable bind : string -> option SubscribeRequest.
Variables (apiKey : string) (staticIndex : bool).
Implicit Types w : World X.

(** C31: Totality and opacity: every request gets a response, its status is one of
    the documented ones, and a 500 carries the fixed text and no detail of the
    internal error. *)
Theorem BuildRouter_answers req w w' r :
  BuildRouter gh sg baseURL bind apiKey staticIndex req w = (r, w') ->
  exists resp, r = Ok resp /\ rs_Status resp ∈ api_statuses /\
    (rs_Status resp = 500 -> rs_Payload resp = PError "internal server error").
Proof.
  intros Hrun. wp_run Hrun. apply BuildRouter_wp. intros x.
  eapply wp_mono; [apply dispatch_answers|]. intros r1 w1 (res & -> & Hst & Hp) id m.
  by exists (mkResponse res.1 res.2 id).
Qed.

(** Authentication: with a key configured, a request to a route under /api whose
    header is not that key is answered 401 or 403, and none of its effects
    happens: the database, the sagas, the broker and GitHub see nothing. *)
Theorem APIKeyAuth_blocks req w w' r :
  apiKey <> "" -> r_APIKey req <> apiKey ->
  match r_Route req with
  | RSubscribe | RConfirm _ | RUnsubscribe _ | RSubscriptions => True
  | _ => False
  end ->
  BuildRouter gh sg baseURL bind apiKey staticIndex req w = (r, w') ->
  w_db w' = w_db w /\ w_tx w' = w_tx w /\ w_trace w' = w_trace w /\
  exists resp, r = Ok resp /\
    rs_Status resp = (if is_empty (r_APIKey req) then 401 else 403).
Proof.
  intros Hkey Hne Hroute Hrun. wp_run Hrun. apply BuildRouter_wp. intros x.
  assert (forall m, APIKeyAuth apiKey req m =
    mret (M := GoM X) (if is_empty (r_APIKey req) then (401, PError "missing X-API-Key header")
                       else (403, PError "invalid API key"))) as Hauth.
  { intros m. unfold APIKeyAuth. apply is_empty_false in Hkey as ->.
    destruct (is_empty (r_APIKey req)); [done|]. by apply String.eqb_neq in Hne as ->. }
  unfold dispatch_route. revert Hroute.
  destruct (r_Route req); intros Hroute; try done; rewrite Hauth; apply wp_ret;
    intros id m; (split; [done|]); (split; [done|]); (split; [done|]);
    eexists; (split; [done|]); by destruct (is_empty (r_APIKey req)).
Qed.

(** What POST /api/subscribe answers: 200 only for a valid address and
    repository, after a new subscription was added or the failed one revived;
    400, 404 and 409 only when no row was changed; the invariant of the
    database is kept whatever the answer. *)
Theorem handler_Subscribe_outcome body w w' r :
  GitHubClientSpec gh -> SagaStarterSpec sg -> db_ok (w_db w) -> w_tx w = None ->
  handler_Subscribe gh sg baseURL bind body w = (r, w') ->
  db_ok (w_db w') /\ w_tx w' = None /\ exists status payload, r = Ok (status, payload) /\
    (status = 200 -> exists req, bind body = Some req /\
       subscribe_outcome gh (sr_Email req) (sr_Repo req) w (Ok ()) w') /\
    (status ∈ [400; 404; 409] -> w_db w' = w_db w).
Proof.
  intros Hgh Hsg Hok Htx Hrun. wp_run Hrun. unfold handler_Subscribe.
  destruct (bind body) as [req|].
  2: { apply wp_ret. split; [done|]. split; [done|]. eexists _, _. split; [done|].
       split; [discriminate|done]. }
  apply wp_bind, wp_try. eapply wp_mono; [by apply Subscribe_result|].
  intros r1 w1 (Htx1 & Hok1 & _ & Hout). destruct r1 as [[]|e].
  - apply wp_bind, wp_inc, wp_ret. split; [done|]. split; [done|].
    eexists _, _. split; [done|]. split; [|intros; set_solver].
    intros _. exists req. split; [done|]. exact Hout.
  - apply wp_ret. split; [done|]. split; [done|]. simpl in Hout.
    unfold error_response, translateError. destruct (KindOf e); simpl;
      eexists _, _; (split; [done|]); (split; [discriminate|]); intros Hin.
    + set_solver.
    + destruct Hout as [-> _]. done.
    + apply Hout.
    + apply Hout.
Qed.
End Properties.
