(* ===== verification/Relay.v ===== *)
(** * internal/outbox/relay.go: the outbox relay *)

From S2P Require Import Prelude GoErrors Tables Env Logic Script Schema Samples.
From S2P Require Import OutboxStore Notification.

Local Open Scope Z_scope.

Section Relay.
Context {X : Type} `{!Env X}.
Local Abbreviation M := (GoM X).

(** [Publisher]: what the relay pushes a stored message to the broker with. *)
Variable pub : string -> string -> string -> M unit.

(** [NewRelay] sets the batch size. *)
Definition batch : nat := 100.

(** The loop of [drain]: a publish error ends the batch, a mark error does not. *)
Fixpoint drain_batch (msgs : list OutboxMessage) : M unit :=
  match msgs with
  | [] => mret ()
  | m :: msgs' =>
      r ← try (pub (ob_RoutingKey m) (ob_MessageID m) (ob_Payload m));
      match r with
      | Err _ => mret ()
      | Ok _ => try (MarkPublished (ob_ID m)) ;; drain_batch msgs'
      end
  end.

Definition drain : M unit :=
  r ← try (FetchUnpublished batch);
  match r with
  | Err _ => mret ()
  | Ok msgs => drain_batch msgs
  end.
End Relay.

(** ** What a drain does to the broker and to the table *)

Local Open Scope string_scope.

(** The message the relay publishes for a row. *)
Definition message_of (m : OutboxMessage) : Publishing :=
  mkPublishing ExchangeName (ob_RoutingKey m) "application/json" true
    (ob_MessageID m) (ob_Payload m).

(** [marked sent l l']: the rows of [l'] are those of [l] in the same order,
    except that some whose identifier is one of [sent] are now published. *)
Definition marked (sent l l' : list OutboxMessage) : Prop :=
  Forall2 (fun m m' => m' = m \/
    exists t s, m' = set_published (Some t) m /\ s ∈ sent /\ ob_ID s = ob_ID m) l l'.

Lemma marked_refl sent l : marked sent l l.
Proof. apply Forall_Forall2_diag, Forall_forall. by left. Qed.

Lemma marked_mono sent sent' l l' :
  (forall s, s ∈ sent -> s ∈ sent') -> marked sent l l' -> marked sent' l l'.
Proof.
  intros Hs Hm. eapply Forall2_impl; [exact Hm|]. intros m m' [->|(t & s & -> & ? & ?)]; [by left|].
  right. eauto 6.
Qed.

Lemma marked_trans sent l1 l2 l3 : marked sent l1 l2 -> marked sent l2 l3 -> marked sent l1 l3.
Proof.
  unfold marked. intros H12. revert l3.
  induction H12 as [|a b l1 l2 Hab H12 IH]; intros l3 H23;
    inversion_clear H23 as [|? c ? l3' Hbc H23']; constructor; auto.
  destruct Hab as [->|(t & s & -> & ? & ?)]; [done|].
  destruct Hbc as [->|(t' & s' & -> & ? & ?)]; right; [by exists t, s|by exists t', s'].
Qed.

Lemma marked_update sent m t l :
  m ∈ sent -> marked sent l (update_where (by_outbox_id (ob_ID m)) (set_published (Some t)) l).
Proof.
  intros Hm. apply Forall2_fmap_r, Forall_Forall2_diag, Forall_forall. intros a _. simpl.
  destruct (by_outbox_id (ob_ID m) a) eqn:E; [right|by left].
  apply Z.eqb_eq in E. exists t, m. by repeat split.
Qed.

Lemma unpublished_rows_elem `{!PgServer, !PgServerLaws _} n d m :
  m ∈ unpublished_rows n d -> m ∈ outbox d /\ unpublished m = true.
Proof.
  unfold unpublished_rows. intros Hm. apply elem_of_take in Hm as (i & Hm & _).
  apply list_elem_of_lookup_2 in Hm.
  rewrite (merge_sort_Permutation id_before), pg_scan_perm in Hm.
  by apply elem_of_select_where.
Qed.

(** Oldest first. *)
Lemma unpublished_rows_sorted `{!PgServer} n d :
  StronglySorted id_before (unpublished_rows n d).
Proof.
  unfold unpublished_rows. eapply StronglySorted_app_1_l. rewrite take_drop.
  apply StronglySorted_merge_sort.
  - intros a b c. unfold id_before. lia.
  - intros a b. unfold id_before. lia.
Qed.

Section DrainSpec.
Context {X : Type} `{!Env X}.

(** The trace of a batch: the messages of [sent] went out, in order, and the
    next one was refused if any is left. *)
Definition batch_events (sent rest : list OutboxMessage) : list Event :=
  app ((fun m => EvPublish (message_of m) true) <$> sent)
    (match rest with [] => [] | m :: _ => [EvPublish (message_of m) false] end).

Definition batch_result (msgs : list OutboxMessage) (w w' : World X) : Prop :=
  exists sent rest, msgs = app sent rest /\
    w_trace w' = app (w_trace w) (batch_events sent rest) /\
    marked sent (outbox (w_db w)) (outbox (w_db w')) /\
    w_tx w' = w_tx w /\
    subscriptions (w_db w') = subscriptions (w_db w) /\ saga (w_db w') = saga (w_db w).

Lemma drain_batch_result msgs w :
  wp (drain_batch Publish msgs) (fun r w' => r = Ok () /\ batch_result msgs w w') w.
Proof.
  revert w. induction msgs as [|m msgs IH]; intros w; simpl.
  { apply wp_ret. split; [done|]. exists [], []. unfold batch_events. simpl.
    rewrite app_nil_r. repeat split; try done. apply marked_refl. }
  apply wp_bind, wp_try, wp_ext_call; intros a x _; simpl.
  2: { apply wp_ret. split; [done|]. exists [], (m :: msgs).
       repeat split; try done. apply marked_refl. }
  apply wp_bind, wp_try, wp_wrap.
  assert (forall w1, w_trace w1 = app (w_trace w) [EvPublish (message_of m) true] ->
    w_tx w1 = w_tx w -> subscriptions (w_db w1) = subscriptions (w_db w) ->
    saga (w_db w1) = saga (w_db w) ->
    marked [m] (outbox (w_db w)) (outbox (w_db w1)) ->
    wp (drain_batch Publish msgs)
      (fun r w' => r = Ok () /\ batch_result (m :: msgs) w w') w1) as Hnext.
  { intros w1 Htr Htx Hs Hg Hmark. eapply wp_mono; [apply IH|].
    intros r w' (-> & sent & rest & -> & Htr' & Hmark' & Htx' & Hs' & Hg').
    split; [done|]. exists (m :: sent), rest. unfold batch_events in *.
    rewrite Htr', Htr, Htx', Hs', Hg', <- app_assoc. repeat split; try done.
    eapply marked_trans; (eapply marked_mono; [|done]); set_solver. }
  apply wp_db_stmt; intros; simpl; apply Hnext; simpl; try done;
    first [apply marked_refl | apply marked_update; set_solver].
Qed.

(** Whatever the broker and the database answer, a drain publishes a prefix
    of the oldest unpublished rows, in order and at most [batch] of them,
    stops at the first refusal, and marks nothing it has not published. *)
Lemma drain_result w :
  wp (drain Publish) (fun r w' => r = Ok () /\
    exists msgs, (msgs = [] \/ msgs = unpublished_rows batch (w_db w)) /\
      batch_result msgs w w') w.
Proof.
  unfold drain. apply wp_bind, wp_try, wp_wrap.
  assert (forall w1 e, w_trace w1 = w_trace w -> w_tx w1 = w_tx w -> w_db w1 = w_db w ->
    exists msgs, (msgs = [] \/ msgs = unpublished_rows batch (w_db w)) /\
      batch_result msgs w (snd (Err (A := unit) e, w1))) as Hfail.
  { intros w1 e Htr Htx Hdb. exists []. split; [by left|]. exists [], [].
    unfold batch_events. simpl. rewrite app_nil_r, Hdb. repeat split; try done.
    apply marked_refl. }
  apply wp_db_stmt; intros; simpl.
  - apply wp_ret. split; [done|]. by apply (Hfail _ (EPlain m)).
  - eapply wp_mono; [apply drain_batch_result|]. intros r w' [-> Hres].
    split; [done|]. exists (unpublished_rows batch (w_db w)). split; [by right|].
    by destruct w.
  - apply wp_ret. split; [done|]. by apply (Hfail _ (EPlain m)).
Qed.

End DrainSpec.

(** ** Progress *)

(** Marking one unpublished row leaves one fewer. *)
Lemma count_unpublished_mark m t l :
  NoDup (ob_ID <$> l) -> m ∈ l -> unpublished m = true ->
  S (count_where unpublished
       (update_where (by_outbox_id (ob_ID m)) (set_published (Some t)) l)) =
  count_where unpublished l.
Proof.
  unfold count_where, select_where. intros Hnd Hm Hu.
  induction l as [|a l IH]; [set_solver|].
  simpl in Hnd. apply NoDup_cons in Hnd as [Ha Hnd]. simpl.
  destruct (decide (a = m)) as [->|Hne].
  - unfold by_outbox_id at 1. rewrite Z.eqb_refl, Hu. simpl.
    change ((fun a => if by_outbox_id (ob_ID m) a then set_published (Some t) a else a) <$> l)
      with (update_where (by_outbox_id (ob_ID m)) (set_published (Some t)) l).
    rewrite update_where_none; [done|]. intros b Hb. apply Z.eqb_neq. intros Heq.
    apply Ha. rewrite <- Heq. by apply list_elem_of_fmap_2.
  - assert (m ∈ l) as Hml by set_solver.
    assert (by_outbox_id (ob_ID m) a = false) as ->.
    { apply Z.eqb_neq. intros Heq. apply Ha. rewrite Heq. by apply list_elem_of_fmap_2. }
    destruct (unpublished a); simpl; by rewrite <- IH.
Qed.

(** The other rows are still in the table, as they were. *)
Lemma elem_of_mark_other m m' t l :
  m' ∈ l -> ob_ID m' <> ob_ID m ->
  m' ∈ update_where (by_outbox_id (ob_ID m)) (set_published (Some t)) l.
Proof.
  intros Hm Hne. apply elem_of_update_where. exists m'. split; [done|].
  unfold by_outbox_id. by apply Z.eqb_neq in Hne as ->.
Qed.

Lemma unpublished_rows_length `{!PgServer, !PgServerLaws _} n d :
  length (unpublished_rows n d) = (n `min` count_where unpublished (outbox d))%nat.
Proof.
  unfold unpublished_rows, count_where. rewrite length_take.
  by rewrite (merge_sort_Permutation id_before), pg_scan_perm.
Qed.

Lemma outbox_ids_NoDup l n : outbox_ok l n -> NoDup (ob_ID <$> l).
Proof.
  intros [Hs _ _]. induction Hs as [|a k Hs IH Ha]; [apply NoDup_nil_2|].
  apply NoDup_cons. split; [|done]. intros Hin.
  rewrite Forall_forall in Ha. specialize (Ha a Hin). lia.
Qed.

Lemma unpublished_rows_NoDup `{!PgServer, !PgServerLaws _} n d :
  db_ok d -> NoDup (ob_ID <$> unpublished_rows n d).
Proof.
  intros [_ Ho _ _ _ _]. apply outbox_ids_NoDup in Ho.
  unfold unpublished_rows. eapply NoDup_fmap_sublist; [apply sublist_take|].
  rewrite (merge_sort_Permutation id_before), pg_scan_perm.
  eapply NoDup_fmap_sublist; [apply select_where_sublist|done].
Qed.

Section Progress.
Context {X : Type} `{!Env X} `{!healthy_db X} `{!broker_up X}.

Lemma drain_batch_progress msgs w :
  NoDup (ob_ID <$> msgs) -> NoDup (ob_ID <$> outbox (w_db w)) ->
  (forall m, m ∈ msgs -> m ∈ outbox (w_db w) /\ unpublished m = true) ->
  wp (drain_batch Publish msgs) (fun _ w' =>
    (count_where unpublished (outbox (w_db w')) + length msgs =
     count_where unpublished (outbox (w_db w)))%nat) w.
Proof.
  revert w. induction msgs as [|m msgs IH]; intros w Hnd Hids Hin; simpl.
  { apply wp_ret. lia. }
  simpl in Hnd. apply NoDup_cons in Hnd as [Hm Hnd].
  apply wp_bind, wp_try, wp_ext_call; simpl.
  2: { intros e x He. destruct (broker_accepts (message_of m) (w_ext w)) as [x' Hx].
       unfold message_of in Hx. by rewrite Hx in He. }
  intros [] x _. apply wp_bind, wp_try, wp_wrap, wp_db_stmt_ok; [done|].
  intros x' now. simpl. destruct (Hin m) as [Hmo Hmu]; [set_solver|].
  eapply wp_mono.
  - apply IH; simpl; [done|by rewrite fmap_update_where|].
    intros m' Hm'. destruct (Hin m') as [? ?]; [set_solver|].
    split; [|done]. apply elem_of_mark_other; [done|]. intros Heq.
    apply Hm. rewrite <- Heq. by apply list_elem_of_fmap_2.
  - simpl. intros _ w' Hw'.
    pose proof (count_unpublished_mark m now _ Hids Hmo Hmu). lia.
Qed.

(** The rows of the batch [msgs], and they only, were stamped. *)
Definition stamped (msgs l l' : list OutboxMessage) : Prop :=
  Forall2 (fun m m' => (m ∈ msgs -> exists t, m' = set_published (Some t) m) /\
                       (m ∉ msgs -> m' = m)) l l'.

(** The stamp of the first message, and then those of the others. *)
Lemma stamped_cons m t msgs l l' :
  NoDup (ob_ID <$> l) -> m ∈ l -> m ∉ msgs -> (forall b, b ∈ msgs -> unpublished b = true) ->
  stamped msgs (update_where (by_outbox_id (ob_ID m)) (set_published (Some t)) l) l' ->
  stamped (m :: msgs) l l'.
Proof.
  intros Hnd Hm Hni Hu Hs. unfold stamped, update_where in *.
  rewrite Forall2_fmap_l in Hs. eapply Forall2_impl_elem; [exact Hs|].
  intros a c Ha [H1 H2]. unfold by_outbox_id in *. destruct (ob_ID a =? ob_ID m)%Z eqn:E.
  - apply Z.eqb_eq in E. assert (a = m) as -> by by eapply NoDup_fmap_inj.
    split; [|set_solver]. intros _. exists t. apply H2.
    intros Hin. apply Hu in Hin. done.
  - assert (a <> m) as Hne by (intros ->; by rewrite Z.eqb_refl in E).
    split; [intros Hin|intros Hin]; [apply H1|apply H2]; set_solver.
Qed.

Lemma drain_batch_publishes msgs w :
  NoDup (ob_ID <$> msgs) -> NoDup (ob_ID <$> outbox (w_db w)) ->
  (forall m, m ∈ msgs -> m ∈ outbox (w_db w) /\ unpublished m = true) ->
  wp (drain_batch Publish msgs) (fun r w' => r = Ok () /\
    w_trace w' = app (w_trace w) ((fun m => EvPublish (message_of m) true) <$> msgs) /\
    stamped msgs (outbox (w_db w)) (outbox (w_db w'))) w.
Proof.
  revert w. induction msgs as [|m msgs IH]; intros w Hnd Hids Hin; simpl.
  { apply wp_ret. split; [done|]. split; [by rewrite app_nil_r|].
    apply Forall_Forall2_diag, Forall_forall. intros a _. split; [set_solver|done]. }
  simpl in Hnd. apply NoDup_cons in Hnd as [Hm Hnd].
  assert (forall m', m' ∈ msgs -> ob_ID m' <> ob_ID m) as Hne.
  { intros m' Hm' Heq. apply Hm. rewrite <- Heq. by apply list_elem_of_fmap_2. }
  apply wp_bind, wp_try, wp_ext_call; simpl.
  2: { intros e x He. destruct (broker_accepts (message_of m) (w_ext w)) as [x' Hx].
       unfold message_of in Hx. by rewrite Hx in He. }
  intros [] x _. apply wp_bind, wp_try, wp_wrap, wp_db_stmt_ok; [done|].
  intros x' now. simpl. destruct (Hin m) as [Hmo Hmu]; [set_solver|].
  eapply wp_mono.
  - apply IH; simpl; [done|by rewrite fmap_update_where|].
    intros m' Hm'. destruct (Hin m') as [? ?]; [set_solver|].
    split; [|done]. apply elem_of_mark_other; [done|]. by apply Hne.
  - simpl. intros r w' (-> & Htr & Hs). split; [done|].
    split; [by rewrite Htr, <- app_assoc|]. eapply stamped_cons; [done|done| | |exact Hs].
    + intros Hin'. by apply (Hne m).
    + intros b Hb. apply Hin. set_solver.
Qed.
End Progress.

(** ** The properties of the relay *)

Section Properties.
Context {X : Type} `{!Env X} `{!PgServerLaws env_server}.

(** Order: a drain publishes, in the order of their identifiers and at most
    [batch] of them, the oldest unpublished rows; it stops at the first
    message the broker refuses, and publishes nothing else. When the rows
    cannot be fetched it publishes nothing. *)
Theorem drain_publishes_oldest_first (w w' : World X) r :
  drain Publish w = (r, w') ->
  exists sent rest,
    (app sent rest = unpublished_rows batch (w_db w) \/ app sent rest = []) /\
    (length (app sent rest) <= batch)%nat /\ StronglySorted id_before (app sent rest) /\
    w_trace w' = app (w_trace w) (batch_events sent rest).
Proof.
  intros Hrun. destruct (wp_elim _ _ _ _ _ (drain_result w) Hrun)
    as (_ & msgs & Hmsgs & sent & rest & -> & Htr & _).
  exists sent, rest. split; [tauto|]. split; [|split; [|done]].
  - destruct Hmsgs as [-> | ->]; [simpl; lia|].
    unfold unpublished_rows. rewrite length_take. lia.
  - destruct Hmsgs as [-> | ->]; [constructor|apply unpublished_rows_sorted].
Qed.

(** C10: At-least-once: whatever fails, a drain keeps every row of the outbox, in
    place and unchanged but for its publication time, and a row it marks as
    published is one whose message the broker accepted during that drain. *)
Theorem drain_marks_only_published (w w' : World X) r :
  db_ok (w_db w) -> drain Publish w = (r, w') ->
  exists evs, w_trace w' = app (w_trace w) evs /\
    Forall2 (fun m m' => m' = m \/
      ((exists t, m' = set_published (Some t) m) /\ unpublished m = true /\
       EvPublish (message_of m) true ∈ evs))
      (outbox (w_db w)) (outbox (w_db w')).
Proof.
  intros Hok Hrun. destruct (wp_elim _ _ _ _ _ (drain_result w) Hrun)
    as (_ & msgs & Hmsgs & sent & rest & -> & Htr & Hmark & _).
  exists (batch_events sent rest). split; [done|].
  assert (forall s, s ∈ sent -> s ∈ outbox (w_db w) /\ unpublished s = true) as Hsent.
  { intros s Hs. destruct Hmsgs as [Heq|Heq].
    - apply app_nil in Heq as [-> _]. set_solver.
    - apply (unpublished_rows_elem batch). rewrite <- Heq. set_solver. }
  pose proof (outbox_ids_NoDup _ _ (db_outbox_ok _ Hok)) as Hnd.
  eapply Forall2_impl_elem; [exact Hmark|].
  intros m m' Hm [->|(t & s & -> & Hs & Hid)]; [by left|]. right.
  destruct (Hsent s Hs) as [Hso Hsu].
  assert (s = m) as ->.
  { by eapply NoDup_fmap_inj. }
  split; [by exists t|]. split; [done|]. unfold batch_events.
  apply elem_of_app. left. apply list_elem_of_fmap. by exists m.
Qed.

(** C24: Liveness: while the database and the broker answer, a drain takes the
    [batch] oldest waiting rows, or all of them when fewer wait; the broker
    accepts the message of each of them, in the order of their identifiers;
    each of them is stamped as published, no other row changes, and so many
    fewer rows wait. *)
Theorem drain_progress (w w' : World X) r :
  healthy_db X -> broker_up X -> db_ok (w_db w) -> drain Publish w = (r, w') ->
  let rows := unpublished_rows batch (w_db w) in
  let waiting d := count_where unpublished (outbox d) in
  length rows = (batch `min` waiting (w_db w))%nat /\ StronglySorted id_before rows /\
  w_trace w' = app (w_trace w) ((fun m => EvPublish (message_of m) true) <$> rows) /\
  stamped rows (outbox (w_db w)) (outbox (w_db w')) /\
  waiting (w_db w') = (waiting (w_db w) - batch)%nat.
Proof.
  intros Hh Hb Hok Hrun rows waiting.
  split; [apply unpublished_rows_length|]. split; [apply unpublished_rows_sorted|].
  wp_run Hrun. unfold drain. apply wp_bind, wp_try, wp_wrap, wp_db_stmt_ok; [done|].
  intros x now. simpl.
  assert (NoDup (ob_ID <$> rows)) as Hnd by by apply unpublished_rows_NoDup.
  assert (NoDup (ob_ID <$> outbox (w_db w))) as Hids by eapply outbox_ids_NoDup, Hok.
  eapply wp_mono.
  - apply wp_conj; [apply drain_batch_publishes|apply drain_batch_progress]; simpl; try done;
      intros m; by apply unpublished_rows_elem.
  - simpl. intros _ w2 [(_ & Htr & Hst) Hw2]. split; [done|]. split; [done|].
    rewrite unpublished_rows_length in Hw2. unfold waiting. lia.
Qed.
End Properties.

(** ** Witnesses *)

Section Witnesses.
#[local] Existing Instance calm_env.

Definition relay_world : World Script := play (sample_db StateSubscriptionCreated) calm.

Lemma drain_publishes_oldest_first_witness :
  w_trace (drain Publish relay_world).2 = [EvPublish (message_of sample_message) true] /\
  exists sent rest,
    (app sent rest = unpublished_rows batch (w_db relay_world) \/ app sent rest = []) /\
    (length (app sent rest) <= batch)%nat /\ StronglySorted id_before (app sent rest) /\
    w_trace (drain Publish relay_world).2 = app [] (batch_events sent rest).
Proof.
  split; [vm_compute; reflexivity|].
  exact (drain_publishes_oldest_first relay_world _ _ (surjective_pairing _)).
Defined.

Lemma drain_marks_only_published_witness :
  ob_PublishedAt <$> outbox (w_db (drain Publish relay_world).2) = [Some 1] /\
  exists evs, w_trace (drain Publish relay_world).2 = app [] evs.
Proof.
  split; [vm_compute; reflexivity|].
  destruct (drain_marks_only_published (Env0 := calm_env) relay_world _ _
    (sample_db_ok StateSubscriptionCreated) (surjective_pairing _))
    as (evs & Htr & _). exists evs. exact Htr.
Defined.

Lemma drain_progress_witness :
  let w' := (drain Publish relay_world).2 in
  count_where unpublished (outbox (w_db relay_world)) = 1%nat /\
  unpublished_rows batch (w_db relay_world) = [sample_message] /\
  w_trace w' = app [] ((fun m => EvPublish (message_of m) true) <$>
                         unpublished_rows batch (w_db relay_world)) /\
  count_where unpublished (outbox (w_db w')) = (1 - batch)%nat.
Proof.
  intros w'. split; [vm_compute; reflexivity|]. split; [vm_compute; reflexivity|].
  destruct (drain_progress (Env0 := calm_env) relay_world w' _ calm_healthy calm_broker
    (sample_db_ok _) (surjective_pairing _)) as (_ & _ & Htr & _ & Hn).
  split; [exact Htr|exact Hn].
Defined.
End Witnesses.
