(* ===== verification/ReplyConsumer.v ===== *)
(** * internal/orchestrator/reply_consumer.go: the replies of the notifier *)

From S2P Require Import Prelude GoErrors Tables Env Logic Script Schema Samples Json Wire.
From S2P Require Import SubStore SagaStore SagaMachine.

Local Open Scope string_scope.
Local Open Scope Z_scope.

Definition reply_reason : string := "confirmation email failed".

Section ReplyConsumer.
Context {X : Type} `{!Env X}.
Local Abbreviation M := (GoM X).

(** The compensation C1: mark the saga compensating, the subscription failed,
    the saga failed. *)
Definition compensate (sg : Saga) : M unit :=
  wrap ("mark saga " +:+ saga_ID sg +:+ " compensating")
    (UpdateState (saga_ID sg) StateCompensating reply_reason) ;;
  wrap ("compensate saga " +:+ saga_ID sg) (MarkFailed (saga_SubscriptionID sg)) ;;
  wrap ("fail saga " +:+ saga_ID sg)
    (UpdateState (saga_ID sg) StateFailed reply_reason).

(** The [switch] of [HandleReply] on the status of the reply, under the state
    guards that make a repeated reply a no-op. *)
Definition advance (status : string) (sg : Saga) : M unit :=
  if String.eqb status SagaStatusSent then
    if decide (saga_State sg = StateSubscriptionCreated)
    then wrap ("complete saga " +:+ saga_ID sg)
           (UpdateState (saga_ID sg) StateCompleted "")
    else mret ()
  else if String.eqb status SagaStatusFailed then
    if decide (saga_State sg = StateSubscriptionCreated \/
               saga_State sg = StateCompensating)
    then compensate sg else mret ()
  else mret ().

Definition HandleReply (body : string) : M unit :=
  match unmarshal (A := SagaReply) body with
  | Err e => throw (EWrap "decode saga reply" e)
  | Ok rep =>
      sg ← wrap ("load saga " +:+ sr_SagaID rep) (GetByID (sr_SagaID rep));
      match sg with
      | None => mret ()
      | Some sg => advance (sr_Status rep) sg
      end
  end.

(** [handleWithRetry]: up to [attempts] tries, 200 ms apart. *)
Fixpoint retry_reply (attempts : nat) (body : string) : M unit :=
  match attempts with
  | O => mret ()
  | S k =>
      r ← try (HandleReply body);
      match r, k with
      | Ok _, _ => mret ()
      | Err e, O => throw e
      | Err e, S _ =>
          canceled ← select_done_or_after 200000000;
          if (canceled : bool) then throw (EPlain "context canceled")
          else retry_reply k body
      end
  end.

Definition handleWithRetry (body : string) : M unit := retry_reply 3 body.

(** One delivery in the loop of [Run]: acked, or dropped (nack, no requeue). *)
Definition run_delivery (body : string) : M unit := fun w =>
  let '(r, w') := handleWithRetry body w in
  (Ok (), emit (match r with Ok _ => EvAck | Err _ => EvNack end) w').
End ReplyConsumer.

(** ** What a reply can change, whatever fails *)

(** The table after a compensation step of subscription [id]: the row failed,
    or not yet. *)
Definition maybe_failed (id : Z) (l l' : list Subscription) : Prop :=
  l' = l \/ l' = update_where (by_id id) set_failed l.

Section Safety.
Context {X : Type} `{!Env X} `{!PgServerLaws env_server}.

(** [saga_set] in a table where every row with the key may take the state. *)
Lemma saga_set_moves u st d d' :
  (forall sg, sg ∈ saga d -> saga_ID sg = u -> rtc transition (saga_State sg) st) ->
  saga_set u st d d' -> saga_moves (saga d) (saga d').
Proof. intros Hst (le & now & ->). by apply saga_moves_update. Qed.

(** After it, every row with the key is in the state. *)
Lemma saga_set_state u st d d' sg :
  saga_set u st d d' -> sg ∈ saga d' -> saga_ID sg = u -> saga_State sg = st.
Proof.
  intros (le & now & ->). simpl. intros (a & Ha & ->)%elem_of_update_where.
  destruct (by_saga_id u a) eqn:E; [done|].
  unfold by_saga_id in E. intros Hid. by rewrite Hid, String.eqb_refl in E.
Qed.

Lemma saga_set_frame u st d d' :
  saga_set u st d d' ->
  subscriptions d' = subscriptions d /\ outbox d' = outbox d /\
  repositories d' = repositories d.
Proof. by intros (le & now & ->). Qed.

(** What the handling of a reply for saga [sg] guarantees. *)
Record reply_safe (sg : Saga) (d d' : DB) : Prop := {
  rs_moves : saga_moves (saga d) (saga d');
  rs_others : forall a, a ∈ saga d -> saga_ID a <> saga_ID sg -> a ∈ saga d';
  rs_subs : maybe_failed (saga_SubscriptionID sg) (subscriptions d) (subscriptions d');
  rs_outbox : outbox d' = outbox d;
  rs_repos : repositories d' = repositories d }.

Lemma reply_safe_refl sg d : reply_safe sg d d.
Proof. split; try done. by left. Qed.

(** Composing a state update of the saga itself. *)
Lemma reply_safe_set sg st d d1 d2 :
  reply_safe sg d d1 -> saga_set (saga_ID sg) st d1 d2 ->
  (forall a, a ∈ saga d1 -> saga_ID a = saga_ID sg -> rtc transition (saga_State a) st) ->
  reply_safe sg d d2.
Proof.
  intros [Hm Ho Hs Hout Hr] Hset Hst.
  destruct (saga_set_frame _ _ _ _ Hset) as (Hs' & Hout' & Hr'). split.
  - etrans; [exact Hm|]. by eapply saga_set_moves.
  - intros a Ha Hne. specialize (Ho a Ha Hne).
    destruct Hset as (le & now & ->). simpl. apply elem_of_update_where.
    exists a. split; [done|]. unfold by_saga_id. by apply String.eqb_neq in Hne as ->.
  - by rewrite Hs'.
  - congruence.
  - congruence.
Qed.

Lemma reply_safe_failed sg d d1 :
  reply_safe sg d d1 -> subscriptions d1 = subscriptions d ->
  reply_safe sg d (sub_failed (saga_SubscriptionID sg) d1).
Proof.
  intros [] Heq. split; simpl; try done. right. by rewrite Heq.
Qed.

Lemma compensate_safe w sg :
  db_ok (w_db w) -> sg ∈ saga (w_db w) ->
  saga_State sg = StateSubscriptionCreated \/ saga_State sg = StateCompensating ->
  wp (compensate sg) (fun r w' => only_db w w' /\ reply_safe sg (w_db w) (w_db w') /\
    (r = Ok () ->
     (forall a, a ∈ saga (w_db w') -> saga_ID a = saga_ID sg -> saga_State a = StateFailed) /\
     subscriptions (w_db w') =
       update_where (by_id (saga_SubscriptionID sg)) set_failed (subscriptions (w_db w)))) w.
Proof.
  intros Hok Hin Hst. pose proof (db_saga_ids_canonical _ Hok sg Hin) as Hu.
  assert (forall a, a ∈ saga (w_db w) -> saga_ID a = saga_ID sg ->
    rtc transition (saga_State a) StateCompensating) as Hcomp.
  { intros a Ha Hid. rewrite (NoDup_fmap_inj _ _ a sg (db_saga_ids_unique _ Hok) Ha Hin Hid).
    destruct Hst as [-> | ->]; [apply rtc_once, t_compensate|done]. }
  assert (forall d1, saga_set (saga_ID sg) StateCompensating (w_db w) d1 ->
    reply_safe sg (w_db w) d1) as Hsafe1.
  { intros d1 Hset. eapply reply_safe_set; [apply reply_safe_refl|done|done]. }
  assert (forall d', c1_done (saga_ID sg) (saga_SubscriptionID sg) (w_db w) d' ->
    reply_safe sg (w_db w) d') as Hdone.
  { intros d' (le & now & ->). apply reply_safe_failed; [|done].
    eapply reply_safe_set; [apply reply_safe_refl|by exists le, now|].
    intros a Ha Hid. etrans; [by apply Hcomp|]. apply rtc_once, t_fail. }
  eapply wp_mono; [by apply wp_c1|]. intros r w' (Hf & Hp & Hd).
  split; [done|]. split.
  - destruct Hp as [-> |[(d1 & Hset & [-> | ->])|Hp]]; auto using reply_safe_refl.
    apply reply_safe_failed; [by apply Hsafe1|]. by apply saga_set_frame in Hset as (-> & _).
  - intros Hr. destruct (Hd Hr) as (le & now & ->). split; [|done].
    intros a Ha Hid. by apply (saga_set_state (saga_ID sg) StateFailed (w_db w) _ a ltac:(by exists le, now)).
Qed.

Lemma advance_safe w status sg :
  db_ok (w_db w) -> sg ∈ saga (w_db w) ->
  wp (advance status sg) (fun _ w' => only_db w w' /\ reply_safe sg (w_db w) (w_db w')) w.
Proof.
  intros Hok Hin. pose proof (db_saga_ids_canonical _ Hok sg Hin) as Hu.
  assert (wp (mret ()) (fun _ w' => only_db w w' /\ reply_safe sg (w_db w) (w_db w')) w)
    as Hnop by (apply wp_ret; split; [done|apply reply_safe_refl]).
  unfold advance. destruct (String.eqb status SagaStatusSent).
  - case_decide as Hst; [|done]. apply wp_wrap.
    eapply wp_mono; [apply wp_UpdateState|]. intros r w' (Hf & Hdb & _).
    assert (only_db w w' /\ reply_safe sg (w_db w) (w_db w')) as Hgoal; [|by destruct r].
    split; [done|]. destruct Hdb as [-> |(u & Hu' & Hset)]; [apply reply_safe_refl|].
    rewrite Hu in Hu'. simplify_eq.
    eapply reply_safe_set; [apply reply_safe_refl|done|].
    intros a Ha Hid. rewrite (NoDup_fmap_inj _ _ a sg (db_saga_ids_unique _ Hok) Ha Hin Hid).
    rewrite Hst. apply rtc_once, t_complete.
  - destruct (String.eqb status SagaStatusFailed); [|done].
    case_decide as Hst; [|done].
    eapply wp_mono; [by apply compensate_safe|]. naive_solver.
Qed.

Lemma HandleReply_safe w body :
  db_ok (w_db w) ->
  wp (HandleReply body) (fun _ w' => only_db w w' /\
    (w_db w' = w_db w \/
     exists rep sg, unmarshal body = Ok rep /\ sg ∈ saga (w_db w) /\
       pg_uuid (sr_SagaID rep) = Some (saga_ID sg) /\
       terminal (saga_State sg) = false /\
       reply_safe sg (w_db w) (w_db w'))) w.
Proof.
  intros Hok. unfold HandleReply. destruct (unmarshal body) as [rep|e] eqn:Hb.
  2: { apply wp_throw. split; [done|by left]. }
  apply wp_bind, wp_wrap. eapply wp_mono; [apply wp_GetByID, Hok|].
  intros [[sg|]|e] w1 (Hf1 & Hdb1 & Hsg).
  - destruct Hsg as [Hin Hid]. destruct (terminal (saga_State sg)) eqn:Ht.
    + assert (advance (sr_Status rep) sg = mret ()) as ->.
      { unfold advance. destruct (saga_State sg); try done;
          repeat case_match; try done; naive_solver. }
      apply wp_ret. split; [done|by left].
    + eapply wp_mono; [apply advance_safe; by rewrite Hdb1|].
      rewrite Hdb1. intros r w' [Hf Hs]. split; [by etrans|]. right.
      exists rep, sg. done.
  - apply wp_ret. split; [done|by left].
  - split; [done|by left].
Qed.
End Safety.

(** ** What a reply does when the database answers *)

(** The state a saga in state [st] is in after a reply with this status. *)
Definition next_state (status : string) (st : SagaState) : SagaState :=
  if String.eqb status SagaStatusSent then
    match st with StateSubscriptionCreated => StateCompleted | _ => st end
  else if String.eqb status SagaStatusFailed then
    match st with StateSubscriptionCreated | StateCompensating => StateFailed | _ => st end
  else st.

(** The rows after it: nothing moves when the state does not; otherwise the saga
    is in the next state, and when that is [failed] so is its subscription. *)
Definition reply_effect (status : string) (sg : Saga) (d d' : DB) : Prop :=
  let st := next_state status (saga_State sg) in
  if decide (st = saga_State sg) then d' = d
  else exists le now,
    saga d' = update_where (by_saga_id (saga_ID sg)) (set_state st le now) (saga d) /\
    subscriptions d' =
      (if decide (st = StateFailed)
       then update_where (by_id (saga_SubscriptionID sg)) set_failed (subscriptions d)
       else subscriptions d) /\
    outbox d' = outbox d /\ repositories d' = repositories d.

Section Effect.
Context {X : Type} `{!Env X} `{!PgServerLaws env_server} `{!healthy_db X}.

Lemma compensate_ok w sg s :
  db_ok (w_db w) -> sg ∈ saga (w_db w) ->
  s ∈ subscriptions (w_db w) -> sub_ID s = saga_SubscriptionID sg ->
  wp (compensate sg) (fun r w' => r = Ok () /\ only_db w w' /\
    exists le now,
      w_db w' = sub_failed (saga_SubscriptionID sg)
        (set_saga (update_where (by_saga_id (saga_ID sg)) (set_state StateFailed le now)
                     (saga (w_db w))) (w_db w))) w.
Proof.
  intros Hok Hin Hs Hid. eapply (wp_c1_ok w _ _ _ _ _ _ _ sg s); try done. by apply Hok.
Qed.

Lemma advance_ok w status sg s :
  db_ok (w_db w) -> sg ∈ saga (w_db w) ->
  s ∈ subscriptions (w_db w) -> sub_ID s = saga_SubscriptionID sg ->
  wp (advance status sg) (fun r w' => r = Ok () /\ only_db w w' /\
    reply_effect status sg (w_db w) (w_db w')) w.
Proof.
  intros Hok Hin Hs Hid. pose proof (db_saga_ids_canonical _ Hok sg Hin) as Hu.
  unfold advance, reply_effect, next_state.
  destruct (String.eqb status SagaStatusSent).
  { destruct (saga_State sg) eqn:Hst; simpl; try (apply wp_ret; done).
    apply wp_wrap. eapply wp_mono; [by eapply wp_UpdateState_ok|].
    intros r w' (-> & Hf & le & now & Hdb). split; [done|]. split; [done|].
    exists le, now. by rewrite Hdb. }
  destruct (String.eqb status SagaStatusFailed); [|apply wp_ret; by rewrite decide_True].
  destruct (saga_State sg) eqn:Hst; simpl; try (apply wp_ret; done).
  all: eapply wp_mono; [by eapply compensate_ok|].
  all: intros r w' (-> & Hf & le & now & Hdb); (split; [done|]); (split; [done|]).
  all: exists le, now; by rewrite Hdb.
Qed.

Lemma HandleReply_ok w body rep sg s :
  db_ok (w_db w) -> unmarshal body = Ok rep ->
  sg ∈ saga (w_db w) -> pg_uuid (sr_SagaID rep) = Some (saga_ID sg) ->
  s ∈ subscriptions (w_db w) -> sub_ID s = saga_SubscriptionID sg ->
  wp (HandleReply body) (fun r w' => r = Ok () /\ only_db w w' /\
    reply_effect (sr_Status rep) sg (w_db w) (w_db w')) w.
Proof.
  intros Hok Hb Hin Hu Hs Hid. unfold HandleReply. rewrite Hb.
  apply wp_bind, wp_wrap. eapply wp_mono; [by eapply wp_GetByID_found; try apply Hok|].
  intros r w1 (-> & Hf1 & Hdb1). eapply wp_mono.
  { eapply (advance_ok _ _ sg s); by rewrite ?Hdb1. }
  rewrite Hdb1. intros r w' (-> & Hf & He). split; [done|]. split; [by etrans|done].
Qed.
End Effect.

(** ** A repeated reply *)

Section Redelivery.
Context {X : Type} `{!Env X} `{!PgServerLaws env_server}.

(** The states in which a reply with this status does nothing. *)
Definition settled (status : string) (st : SagaState) : bool :=
  if String.eqb status SagaStatusSent then bool_decide (st <> StateSubscriptionCreated)
  else if String.eqb status SagaStatusFailed then terminal st
  else true.

Lemma advance_settled status sg :
  settled status (saga_State sg) = true -> advance (X := X) status sg = mret ().
Proof.
  unfold settled, advance.
  destruct (String.eqb status SagaStatusSent).
  { intros H%bool_decide_eq_true. by rewrite decide_False. }
  destruct (String.eqb status SagaStatusFailed); [|done].
  intros H. rewrite decide_False; [done|]. by destruct (saga_State sg); naive_solver.
Qed.

(** When [advance] succeeds, the saga is settled for that status. *)
Lemma advance_settles w status sg :
  db_ok (w_db w) -> sg ∈ saga (w_db w) ->
  wp (advance status sg) (fun r w' => r = Ok () ->
    forall a, a ∈ saga (w_db w') -> saga_ID a = saga_ID sg ->
      settled status (saga_State a) = true) w.
Proof.
  intros Hok Hin. pose proof (db_saga_ids_canonical _ Hok sg Hin) as Hu.
  assert (settled status (saga_State sg) = true ->
    wp (mret ()) (fun r w' => r = Ok () ->
      forall a, a ∈ saga (w_db w') -> saga_ID a = saga_ID sg ->
        settled status (saga_State a) = true) w) as Hnop.
  { intros Hset. apply wp_ret. intros _ a Ha Hid.
    by rewrite (NoDup_fmap_inj _ _ a sg (db_saga_ids_unique _ Hok) Ha Hin Hid). }
  destruct (settled status (saga_State sg)) eqn:Hset.
  { rewrite advance_settled by done. by apply Hnop. }
  unfold advance, settled in *. destruct (String.eqb status SagaStatusSent).
  - apply bool_decide_eq_false, dec_stable in Hset. rewrite decide_True by done.
    apply wp_wrap. eapply wp_mono; [apply wp_UpdateState|].
    intros [[]|e] w' (_ & _ & Hset'); [|done]. intros _ a Ha Hid.
    destruct (Hset' eq_refl) as (u & Hu' & Hs). rewrite Hu in Hu'. simplify_eq.
    apply bool_decide_eq_true. by rewrite (saga_set_state _ _ _ _ a Hs).
  - destruct (String.eqb status SagaStatusFailed); [|done].
    assert (saga_State sg = StateSubscriptionCreated \/ saga_State sg = StateCompensating)
      as Hst by (destruct (saga_State sg); naive_solver).
    rewrite decide_True by done. eapply wp_mono; [by apply compensate_safe|].
    intros r w' (_ & _ & Hfin) Hr a Ha Hid. destruct (Hfin Hr) as [Hf _].
    by rewrite Hf.
Qed.

(** What a successful handling of a body leaves: either no saga is concerned,
    or the saga it names is settled. *)
Definition reply_done (body : string) (d : DB) : Prop :=
  exists rep, unmarshal (A := SagaReply) body = Ok rep /\
    forall a, a ∈ saga d -> pg_uuid (sr_SagaID rep) = Some (saga_ID a) ->
      settled (sr_Status rep) (saga_State a) = true.

Lemma HandleReply_done w body :
  db_ok (w_db w) ->
  wp (HandleReply body) (fun r w' => r = Ok () -> reply_done body (w_db w')) w.
Proof.
  intros Hok. unfold HandleReply.
  destruct (unmarshal (A := SagaReply) body) as [rep|e] eqn:Hb; [|by apply wp_throw].
  apply wp_bind, wp_wrap. eapply wp_mono; [apply wp_GetByID, Hok|].
  intros [[sg|]|e] w1 (Hf1 & Hdb1 & Hsg); [| |done].
  - destruct Hsg as [Hin Hu]. rewrite <- Hdb1 in Hok, Hin.
    eapply wp_mono; [by eapply advance_settles|]. intros r w' Hset Hr.
    exists rep. split; [done|]. intros a Ha Hid. apply (Hset Hr); [done|]. congruence.
  - apply wp_ret. intros _. exists rep. split; [done|]. rewrite Hdb1.
    intros a Ha Hid. by destruct (Hsg a Ha).
Qed.

Lemma HandleReply_nop w body :
  db_ok (w_db w) -> reply_done body (w_db w) ->
  wp (HandleReply body) (fun r w' => only_db w w' /\ w_db w' = w_db w) w.
Proof.
  intros Hok (rep & Hb & Hset). unfold HandleReply. rewrite Hb.
  apply wp_bind, wp_wrap. eapply wp_mono; [apply wp_GetByID, Hok|].
  intros [[sg|]|e] w1 (Hf1 & Hdb1 & Hsg); [|by apply wp_ret|done].
  destruct Hsg as [Hin Hu]. rewrite advance_settled by auto. by apply wp_ret.
Qed.
End Redelivery.

(** ** The retries around it *)

Section Delivery.
Context {X : Type} `{!Env X} `{!PgServerLaws env_server}.

Lemma advance_keeps status sg : keeps db_ok (advance status sg).
Proof. unfold advance, compensate. repeat case_match; auto 8 with go_db. Qed.

Lemma HandleReply_keeps body : keeps db_ok (HandleReply body).
Proof.
  unfold HandleReply. case_match; [|auto with go_db]. apply keeps_bind; [auto with go_db|].
  intros []; [apply advance_keeps|auto with go_db].
Qed.

Definition retry_pause : Event := EvSleep 200000000.

Lemma retry_reply_result attempts body w :
  db_ok (w_db w) -> w_tx w = None -> (0 < attempts)%nat ->
  wp (retry_reply attempts body) (fun r w' =>
    (exists k, (k < attempts)%nat /\ w_trace w' = app (w_trace w) (replicate k retry_pause)) /\
    (r = Ok () -> reply_done body (w_db w'))) w.
Proof.
  revert w. induction attempts as [|n IH]; intros w Hok Htx Hlt; [lia|]. simpl.
  apply wp_bind, wp_try.
  pose proof (keeps_db _ _ _ (HandleReply_keeps body) Htx Hok) as Hok1.
  assert (w_tx (HandleReply body w).2 = None /\
          w_trace (HandleReply body w).2 = w_trace w) as [Htx1 Htr1].
  { destruct (HandleReply_safe w body Hok) as [(Ht & Hr & _) _]. by rewrite Ht, Hr. }
  pose proof (HandleReply_done w body Hok) as Hdone. unfold wp in Hdone |- *.
  destruct (HandleReply body w) as [[[]|e] w1]; simpl in *.
  { split; [|done]. exists 0%nat. split; [lia|]. by rewrite Htr1, app_nil_r. }
  destruct n as [|n].
  { split; [|done]. exists 0%nat. split; [lia|]. simpl. by rewrite Htr1, app_nil_r. }
  apply (wp_bind (select_done_or_after 200000000)). apply wp_select; intros x.
  - apply wp_throw. split; [|done]. exists 0%nat. split; [lia|]. simpl.
    by rewrite Htr1, app_nil_r.
  - eapply wp_mono; [apply IH; [done|done|lia]|].
    intros r w' ((k & Hk & Htr) & Hr). split; [|done]. exists (S k). split; [lia|].
    rewrite Htr. simpl. by rewrite Htr1, <- app_assoc.
Qed.
End Delivery.

(** ** The properties of the reply consumer *)

Section Properties.
Context {X : Type} `{!Env X} `{!PgServerLaws env_server}.
Implicit Types w : World X.

(** C11: Safety: whatever the database answers, the handling of a reply changes at
    most the one saga it names, which was not terminal, along the transitions
    of the lifecycle, and at most that saga's subscription, which it can only
    mark failed; the outbox, the tracked repositories, the broker and the
    metrics are not touched. *)
Theorem HandleReply_moves_one_saga w w' body r :
  db_ok (w_db w) -> HandleReply body w = (r, w') ->
  only_db w w' /\
  (w_db w' = w_db w \/
   exists rep sg, unmarshal body = Ok rep /\ sg ∈ saga (w_db w) /\
     pg_uuid (sr_SagaID rep) = Some (saga_ID sg) /\
     terminal (saga_State sg) = false /\ reply_safe sg (w_db w) (w_db w')).
Proof. intros Hok. exact (wp_elim _ _ _ _ _ (HandleReply_safe w body Hok)). Qed.

(** C12: Function: while the database answers, a reply for a known saga takes the
    saga to the next state its status commands; a saga that fails takes its
    subscription with it, and nothing else changes. *)
Theorem HandleReply_effect w body rep sg s :
  healthy_db X -> db_ok (w_db w) -> unmarshal body = Ok rep ->
  sg ∈ saga (w_db w) -> pg_uuid (sr_SagaID rep) = Some (saga_ID sg) ->
  s ∈ subscriptions (w_db w) -> sub_ID s = saga_SubscriptionID sg ->
  exists w', HandleReply body w = (Ok (), w') /\ only_db w w' /\
    reply_effect (sr_Status rep) sg (w_db w) (w_db w').
Proof.
  intros Hh Hok Hb Hin Hu Hs Hid. pose proof (HandleReply_ok w body rep sg s) as H.
  unfold wp in H. destruct (HandleReply body w) as [r w'].
  destruct H as (Hr & Hf & He); try done. simpl in *. subst. eauto.
Qed.

(** Idempotence: once a reply has been handled without error, handling it
    again leaves the database as it is, whatever fails the second time. *)
Theorem HandleReply_idempotent w w1 w2 body r :
  db_ok (w_db w) -> w_tx w = None ->
  HandleReply body w = (Ok (), w1) -> HandleReply body w1 = (r, w2) ->
  only_db w1 w2 /\ w_db w2 = w_db w1.
Proof.
  intros Hok Htx H1 H2.
  pose proof (keeps_db _ _ _ (HandleReply_keeps body) Htx Hok) as Hok1.
  pose proof (HandleReply_done w body Hok) as Hdone. unfold wp in Hdone.
  rewrite H1 in Hok1, Hdone. simpl in *.
  exact (wp_elim _ _ _ _ _ (HandleReply_nop w1 body Hok1 (Hdone eq_refl)) H2).
Qed.

(** C28: Delivery: a reply is settled with exactly one ack or nack, after at most
    two pauses of 200 ms; and it is acked only when its reply has been acted
    on: the saga it names, if there is one, is past the state that its status
    acts on. *)
Theorem run_delivery_acks_settled w w' body r :
  db_ok (w_db w) -> w_tx w = None -> run_delivery body w = (r, w') ->
  exists k ev, (k <= 2)%nat /\
    w_trace w' = app (w_trace w) (app (replicate k (EvSleep 200000000)) [ev]) /\
    ((ev = EvAck /\ reply_done body (w_db w')) \/ ev = EvNack).
Proof.
  intros Hok Htx. unfold run_delivery, handleWithRetry.
  pose proof (retry_reply_result 3 body w Hok Htx ltac:(lia)) as H. unfold wp in H.
  destruct (retry_reply 3 body w) as [r1 w1]. destruct H as ((k & Hk & Htr) & Hdone).
  simpl in *. intros [= <- <-].
  exists k, (match r1 with Ok _ => EvAck | Err _ => EvNack end).
  split; [lia|]. split; [by simpl; rewrite Htr, <- app_assoc|].
  destruct r1 as [[]|]; [left|by right]. split; [done|]. by apply Hdone.
Qed.
End Properties.

(** ** Witnesses *)

Section Witnesses.
#[local] Existing Instance calm_env.

Definition sample_reply (status : string) : string :=
  marshal (mkSagaReply sample_uuid status).
Definition waiting : World Script := play (sample_db StateSubscriptionCreated) calm.

Lemma HandleReply_moves_one_saga_witness :
  HandleReply (sample_reply "failed") waiting =
    (Ok (), (HandleReply (sample_reply "failed") waiting).2) /\
  only_db waiting (HandleReply (sample_reply "failed") waiting).2.
Proof.
  assert (HandleReply (sample_reply "failed") waiting =
    (Ok (), (HandleReply (sample_reply "failed") waiting).2)) as H by (vm_compute; reflexivity).
  split; [exact H|].
  exact (proj1 (HandleReply_moves_one_saga waiting _ _ _ (sample_db_ok _) H)).
Defined.

Lemma HandleReply_effect_witness :
  exists w', HandleReply (sample_reply "failed") waiting = (Ok (), w') /\
    only_db waiting w' /\
    reply_effect "failed" (sample_saga StateSubscriptionCreated) (w_db waiting) (w_db w').
Proof.
  apply (HandleReply_effect waiting _ (mkSagaReply sample_uuid "failed") _ sample_sub
           calm_healthy (sample_db_ok _)).
  - vm_compute. reflexivity.
  - apply elem_of_cons. by left.
  - reflexivity.
  - apply elem_of_cons. by left.
  - reflexivity.
Defined.

Lemma HandleReply_idempotent_witness :
  w_db (HandleReply (sample_reply "sent") (HandleReply (sample_reply "sent") waiting).2).2 =
  w_db (HandleReply (sample_reply "sent") waiting).2.
Proof.
  refine (proj2 (HandleReply_idempotent waiting _ _ (sample_reply "sent") _
    (sample_db_ok _) eq_refl _ (surjective_pairing _))).
  vm_compute. reflexivity.
Defined.

Lemma run_delivery_acks_settled_witness :
  exists k ev, (k <= 2)%nat /\
    w_trace (run_delivery (sample_reply "sent") waiting).2 =
      app [] (app (replicate k (EvSleep 200000000)) [ev]) /\
    ((ev = EvAck /\
      reply_done (sample_reply "sent") (w_db (run_delivery (sample_reply "sent") waiting).2)) \/
     ev = EvNack).
Proof.
  exact (run_delivery_acks_settled waiting _ _ _ (sample_db_ok _) eq_refl
           (surjective_pairing _)).
Defined.
End Witnesses.
