(* ===== verification/Sweeper.v ===== *)
(** * internal/orchestrator/sweeper.go: recovery of stuck sagas *)

From S2P Require Import Prelude GoErrors Tables Env Logic Script Schema Samples.
From S2P Require Import SubStore SagaStore OutboxStore SagaMachine ReplyConsumer.

Local Open Scope string_scope.
Local Open Scope Z_scope.

Section Sweeper.
Context {X : Type} `{!Env X}.
Local Abbreviation M := (GoM X).
Variable staleAfter : Z.

(** The body of the loop of [Sweep]: every error is logged and passed over. *)
Definition sweep_one (sg : Saga) : M unit :=
  match saga_State sg with
  | StateSubscriptionCreated => try (Requeue (saga_ID sg)) ;; mret ()
  | StateCompensating =>
      r ← try (MarkFailed (saga_SubscriptionID sg));
      match r with
      | Err _ => mret ()
      | Ok _ =>
          try (UpdateState (saga_ID sg) StateFailed "compensation finished by sweeper") ;;
          mret ()
      end
  | _ => mret ()
  end.

Definition Sweep : M unit :=
  now ← time_Now;
  sagas ← FindResumable (now - staleAfter);
  for_each sweep_one sagas.
End Sweeper.

(** ** One step of a sweep *)

(** What the step for saga [sg] may do to the rows. *)
Record step_ok (sg : Saga) (d d' : DB) : Prop := {
  step_saga : saga d' = saga d \/
    saga_State sg = StateCompensating /\
    exists le now, saga d' =
      update_where (by_saga_id (saga_ID sg)) (set_state StateFailed le now) (saga d);
  step_subs : subscriptions d' = subscriptions d \/
    saga_State sg = StateCompensating /\
    subscriptions d' =
      update_where (by_id (saga_SubscriptionID sg)) set_failed (subscriptions d);
  step_outbox : outbox d' = outbox d \/
    saga_State sg = StateSubscriptionCreated /\
    outbox d' = update_where (of_saga (saga_ID sg)) (set_published None) (outbox d);
  step_repos : repositories d' = repositories d }.

Lemma step_ok_refl sg d : step_ok sg d d.
Proof. split; auto. Qed.

(** The work of the sweeper on [sg] is done: its compensation is finished, if
    its subscription was there to compensate, or its messages wait for the relay. *)
Definition swept (d0 : DB) (sg : Saga) (d : DB) : Prop :=
  match saga_State sg with
  | StateCompensating =>
      (exists s, s ∈ subscriptions d0 /\ sub_ID s = saga_SubscriptionID sg) ->
      (forall a, a ∈ saga d -> saga_ID a = saga_ID sg -> saga_State a = StateFailed) /\
      (forall s, s ∈ subscriptions d -> sub_ID s = saga_SubscriptionID sg ->
                 sub_Status s = StatusFailed)
  | StateSubscriptionCreated =>
      forall m, m ∈ outbox d -> ob_SagaID m = Some (saga_ID sg) -> ob_PublishedAt m = None
  | _ => True
  end.

(** Steps for other sagas do not undo it. *)
Lemma step_swept d0 sg sg' d d' : swept d0 sg d -> step_ok sg' d d' -> swept d0 sg d'.
Proof.
  unfold swept. intros Hd [Hsaga Hsubs Hout _]. destruct (saga_State sg); try done.
  - intros m Hm Hid. destruct Hout as [Hout|[_ Hout]]; rewrite Hout in Hm; [by apply Hd|].
    apply elem_of_update_where in Hm as (a & Ha & ->). case_match; [done|by apply Hd].
  - intros Hex. destruct (Hd Hex) as [Hd1 Hd2]. split.
    + intros a Ha Hid. destruct Hsaga as [Hsaga|(_ & le & now & Hsaga)]; rewrite Hsaga in Ha;
        [by apply Hd1|].
      apply elem_of_update_where in Ha as (b & Hb & ->). case_match; [done|by apply Hd1].
    + intros s Hs Hid. destruct Hsubs as [Hsubs|[_ Hsubs]]; rewrite Hsubs in Hs; [by apply Hd2|].
      apply elem_of_update_where in Hs as (b & Hb & ->). case_match; [done|by apply Hd2].
Qed.

(** ** What a whole sweep may do to the rows of [d] *)

Record sweep_safe (d d' : DB) : Prop := {
  sw_saga : Forall2 (fun a b => b = a \/
    saga_State a = StateCompensating /\ saga_identity b = saga_identity a /\
    saga_State b = StateFailed) (saga d) (saga d');
  sw_subs : Forall2 (fun s s' => s' = s \/ s' = set_failed s /\
    exists sg, sg ∈ saga d /\ saga_State sg = StateCompensating /\
               saga_SubscriptionID sg = sub_ID s) (subscriptions d) (subscriptions d');
  sw_outbox : Forall2 (fun m m' => m' = m \/ m' = set_published None m /\
    exists sg, sg ∈ saga d /\ saga_State sg = StateSubscriptionCreated /\
               ob_SagaID m = Some (saga_ID sg)) (outbox d) (outbox d');
  sw_repos : repositories d' = repositories d }.

Lemma Forall2_eq_or {A} (R : A -> A -> Prop) l : Forall2 (fun a b => b = a \/ R a b) l l.
Proof. apply Forall_Forall2_diag, Forall_forall. by left. Qed.

Lemma sweep_safe_refl d : sweep_safe d d.
Proof. split; try apply Forall2_eq_or; done. Qed.

Lemma Forall2_update_where {A B} (R : A -> B -> Prop) P (f : B -> B) l l' :
  Forall2 R l l' -> (forall a b, a ∈ l -> R a b -> P b = true -> R a (f b)) ->
  Forall2 R l (update_where P f l').
Proof.
  intros H Hf. apply Forall2_fmap_r. eapply Forall2_impl_elem; [exact H|].
  intros a b Ha Hab. simpl. case_match eqn:E; [by apply Hf|done].
Qed.

Lemma sweep_safe_step sg d0 d d' :
  NoDup (saga_ID <$> saga d0) -> sg ∈ saga d0 ->
  sweep_safe d0 d -> step_ok sg d d' -> sweep_safe d0 d'.
Proof.
  intros Hnd Hin [Hs Hu Ho Hr] [Ts Tu To Tr]. split.
  - destruct Ts as [->|(Hst & le & now & ->)]; [done|].
    apply Forall2_update_where; [done|]. intros a b Ha Hab Hid%String.eqb_eq. right.
    assert (a = sg) as ->; [|by destruct Hab as [->|(_ & ? & _)]].
    apply (NoDup_fmap_inj _ _ a sg Hnd Ha Hin). rewrite <- Hid.
    destruct Hab as [->|(_ & Hi & _)]; [done|]. by injection Hi.
  - destruct Tu as [->|(Hst & ->)]; [done|].
    apply Forall2_update_where; [done|]. intros s b Hs' Hab Hid%Z.eqb_eq. right.
    destruct Hab as [->|[-> _]]; (split; [done|]); by exists sg.
  - destruct To as [->|(Hst & ->)]; [done|].
    apply Forall2_update_where; [done|]. intros m b Hm Hab Hid. right.
    unfold of_saga in Hid. destruct Hab as [->|[-> _]]; (split; [done|]); exists sg;
      (split; [done|]); (split; [done|]); simpl in *;
      destruct (ob_SagaID m); try done; by apply String.eqb_eq in Hid as ->.
  - congruence.
Qed.

Section Steps.
Context {X : Type} `{!Env X} `{!PgServerLaws env_server}.

Lemma sweep_one_safe w sg :
  pg_uuid (saga_ID sg) = Some (saga_ID sg) ->
  wp (sweep_one sg) (fun r w' => r = Ok () /\ only_db w w' /\
    step_ok sg (w_db w) (w_db w')) w.
Proof.
  intros Hu.
  assert (wp (mret ()) (fun r w' => r = Ok () /\ only_db w w' /\
    step_ok sg (w_db w) (w_db w')) w) as Hnop.
  { apply wp_ret. split; [done|]. split; [done|]. apply step_ok_refl. }
  unfold sweep_one. destruct (saga_State sg) eqn:Hst; try done.
  - apply wp_bind, wp_try, wp_wrap. rewrite Hu. apply wp_db_stmt; intros; simpl;
      apply wp_ret; (split; [done|]); (split; [done|]); split; simpl; auto.
  - apply wp_bind, wp_try. eapply wp_mono; [apply wp_MarkFailed|].
    intros [[]|e] w1 (Hf1 & Hdb1 & Hok1).
    2: { apply wp_ret. split; [done|]. split; [done|].
         destruct Hdb1 as [-> | ->]; split; simpl; auto. }
    destruct (Hok1 eq_refl) as [Hdb _].
    apply wp_bind, wp_try. eapply wp_mono; [apply wp_UpdateState|].
    intros r w2 (Hf2 & Hdb2 & _). apply wp_ret. split; [done|]. split; [by etrans|].
    destruct Hdb2 as [Hdb2|(u & Hu' & le & now & Hdb2)]; rewrite Hdb2, Hdb; split; simpl; auto.
    rewrite Hu in Hu'. simplify_eq. right. split; [done|]. by exists le, now.
Qed.

Lemma sweep_one_swept w d0 sg :
  healthy_db X -> pg_uuid (saga_ID sg) = Some (saga_ID sg) ->
  (exists a, a ∈ saga (w_db w) /\ saga_ID a = saga_ID sg) ->
  (forall s, s ∈ subscriptions d0 -> exists s', s' ∈ subscriptions (w_db w) /\ sub_ID s' = sub_ID s) ->
  wp (sweep_one sg) (fun _ w' => swept d0 sg (w_db w')) w.
Proof.
  intros Hh Hu (a & Ha & Haid) Hsubs. unfold sweep_one, swept.
  destruct (saga_State sg) eqn:Hst; try (by apply wp_ret).
  - apply wp_bind, wp_try, wp_wrap. rewrite Hu. apply wp_db_stmt_ok; [done|].
    intros x now. simpl. apply wp_ret. simpl. intros m Hm Hid.
    apply elem_of_update_where in Hm as (b & Hb & ->). unfold of_saga in *.
    destruct (ob_SagaID b) as [u|] eqn:E; simpl in *.
    + destruct (String.eqb u (saga_ID sg)) eqn:E'; [done|].
      rewrite E in Hid. simplify_eq. by rewrite String.eqb_refl in E'.
    + congruence.
  - apply wp_impl. intros (s0 & Hs0 & Hs0id).
    destruct (Hsubs s0 Hs0) as (s & Hs & Hsid). rewrite Hs0id in Hsid.
    apply wp_bind, wp_try.
    eapply wp_mono; [by eapply wp_MarkFailed_ok|]. intros r w1 (-> & _ & Hdb1).
    apply wp_bind, wp_try. eapply wp_mono.
    { eapply (wp_UpdateState_ok _ _ _ _ a); [done|done| |done]. by rewrite Hdb1. }
    intros r w2 (-> & _ & Hset). apply wp_ret.
    destruct Hset as (le & now & ->). rewrite Hdb1. simpl. split.
    + intros b Hb Hid. apply elem_of_update_where in Hb as (c & Hc & ->).
      destruct (by_saga_id (saga_ID sg) c) eqn:E; [done|].
      unfold by_saga_id in E. by rewrite Hid, String.eqb_refl in E.
    + intros b Hb Hid. apply elem_of_update_where in Hb as (c & Hc & ->).
      destruct (by_id (saga_SubscriptionID sg) c) eqn:E; [done|].
      unfold by_id in E. by rewrite Hid, Z.eqb_refl in E.
Qed.

(** A compensating saga whose subscription is gone. *)
Definition orphaned (sg : Saga) (d : DB) : Prop :=
  sg ∈ saga d /\ forall s, s ∈ subscriptions d -> sub_ID s <> saga_SubscriptionID sg.

Lemma step_orphaned sg sg' d d' :
  saga_ID sg' <> saga_ID sg \/ saga d' = saga d -> step_ok sg' d d' ->
  orphaned sg d -> orphaned sg d'.
Proof.
  intros Hne [Hs Hu _ _] [Hin Hsubs]. split.
  - destruct Hs as [->|(_ & le & now & Hs)]; [done|]. destruct Hne as [Hne| ->]; [|done].
    rewrite Hs. apply elem_of_update_where. exists sg. split; [done|]. unfold by_saga_id.
    by destruct (String.eqb_spec (saga_ID sg) (saga_ID sg')).
  - destruct Hu as [->|(_ & Hu)]; [done|]. rewrite Hu. intros s (a & Ha & ->)%elem_of_update_where.
    case_match; exact (Hsubs a Ha).
Qed.

Lemma sweep_one_orphaned w sg sg' :
  pg_uuid (saga_ID sg') = Some (saga_ID sg') ->
  saga_ID sg' <> saga_ID sg \/ sg' = sg -> saga_State sg = StateCompensating ->
  orphaned sg (w_db w) ->
  wp (sweep_one sg') (fun r w' => r = Ok () /\ orphaned sg (w_db w')) w.
Proof.
  intros Hu Hne Hst Ho. eapply wp_mono; [apply wp_conj; [by apply sweep_one_safe|]|].
  2: { intros r w' [(Hr & _ & Hstep) Hsame]. split; [done|].
       eapply step_orphaned; [exact Hsame|done|done]. }
  destruct Hne as [Hne|Hne]; [by left|subst sg'].
  apply (wp_mono _ (fun _ w' => saga (w_db w') = saga (w_db w))); [|by right].
  unfold sweep_one. rewrite Hst. apply wp_bind, wp_try.
  eapply wp_mono; [apply wp_MarkFailed|]. intros [[]|e] w1 (_ & Hdb & Hok).
  - destruct (Hok eq_refl) as (_ & s & Hs & Hid). by destruct Ho as [_ Ho]; apply Ho in Hs.
  - apply wp_ret. destruct Hdb as [Hdb|Hdb]; by rewrite Hdb.
Qed.

Lemma resumable_rows_elem before d sg :
  sg ∈ resumable_rows before d ->
  sg ∈ saga d /\ resumable (saga_State sg) = true /\ saga_UpdatedAt sg < before.
Proof.
  unfold resumable_rows. intros H. apply elem_of_take in H as (i & H & _).
  apply list_elem_of_lookup_2 in H.
  rewrite (merge_sort_Permutation updated_before), pg_scan_perm in H.
  apply elem_of_select_where in H as [? [? ?%Z.ltb_lt]%andb_true_iff]. done.
Qed.

(** The loop over [todo], the rest of sagas picked in the database [d0]. *)
Lemma sweep_loop d0 picked (w : World X) :
  db_ok d0 -> (forall sg, sg ∈ picked -> sg ∈ saga d0) -> w_db w = d0 ->
  wp (for_each sweep_one picked) (fun r w' => r = Ok () /\ only_db w w' /\
    sweep_safe d0 (w_db w') /\
    (healthy_db X -> forall sg, sg ∈ picked -> swept d0 sg (w_db w'))) w.
Proof.
  intros Hok Hpicked Hw.
  apply (wp_for_each _ (fun todo w' => exists dn, picked = app dn todo /\
    only_db w w' /\ sweep_safe d0 (w_db w') /\
    (healthy_db X -> forall sg, sg ∈ dn -> swept d0 sg (w_db w')))).
  - exists []. split; [done|]. split; [done|]. split; [|set_solver].
    rewrite Hw. apply sweep_safe_refl.
  - intros sg todo w1 (dn & Hp & Hf1 & Hsafe & Hdone).
    assert (sg ∈ saga d0) as Hin by (apply Hpicked; rewrite Hp; set_solver).
    pose proof (db_saga_ids_canonical _ Hok sg Hin) as Hu.
    pose proof (sweep_one_safe w1 sg Hu) as H1.
    assert (healthy_db X -> wp (sweep_one sg) (fun _ w' => swept d0 sg (w_db w')) w1) as H2.
    { intros Hh. apply sweep_one_swept; try done.
      - destruct (Forall2_elem_l _ _ _ _ (sw_saga _ _ Hsafe) Hin) as (b & Hb & Hr).
        exists b. split; [done|]. destruct Hr as [->|(_ & Hid & _)]; [done|].
        by injection Hid.
      - intros s Hs.
        destruct (Forall2_elem_l _ _ _ _ (sw_subs _ _ Hsafe) Hs) as (s' & Hs' & Hr).
        exists s'. split; [done|]. by destruct Hr as [->|[-> _]]. }
    eapply wp_mono; [apply (wp_conj _ _ _ _ H1 (wp_impl _ _ _ _ H2))|].
    intros r w2 ((-> & Hf2 & Hstep) & Hsw). exists (app dn [sg]).
    split; [by rewrite <- app_assoc|]. split; [by etrans|].
    split; [by eapply sweep_safe_step; try apply Hok|].
    intros Hh a [Ha|Ha%list_elem_of_singleton]%elem_of_app.
    + eapply step_swept; [by apply Hdone|done].
    + subst a. by apply Hsw.
  - intros w' (dn & Hp & Hf & Hsafe & Hdone). rewrite app_nil_r in Hp. by subst.
Qed.
End Steps.

(** ** The properties of a sweep *)

Section Properties.
Context {X : Type} `{!Env X} `{!PgServerLaws env_server}.
Variable staleAfter : Z.

Lemma wp_FindResumable before (w : World X) (Q : result (list Saga) -> World X -> Prop) :
  (forall e w', only_db w w' -> w_db w' = w_db w -> ~ healthy_db X -> Q (Err e) w') ->
  (forall w', only_db w w' -> w_db w' = w_db w ->
     Q (Ok (resumable_rows before (w_db w))) w') ->
  wp (FindResumable before) Q w.
Proof.
  intros He Hok. unfold FindResumable. apply wp_wrap. unfold wp, db_stmt.
  destruct (env_pg (w_ext w)) as [o x1] eqn:E; destruct (env_clock x1) as [now x2].
  assert (o <> PgOk -> ~ healthy_db X) as Hno.
  { intros Hne [Hh]. specialize (Hh (w_ext w)). by rewrite E in Hh. }
  destruct o; simpl; [by apply Hok|apply He..]; try done; by apply Hno.
Qed.

Lemma Sweep_result (w : World X) :
  db_ok (w_db w) ->
  wp (Sweep staleAfter) (fun r w' => only_db w w' /\
    sweep_safe (w_db w) (w_db w') /\
    (healthy_db X -> r = Ok () /\
     forall sg, sg ∈ resumable_rows ((env_clock (w_ext w)).1 - staleAfter) (w_db w) ->
                swept (w_db w) sg (w_db w'))) w.
Proof.
  intros Hok. unfold Sweep. apply wp_bind, wp_ext_read. intros x _.
  apply wp_bind, wp_FindResumable.
  - intros e w' Hf Hdb Hno. split; [done|]. rewrite Hdb. split; [apply sweep_safe_refl|done].
  - intros w1 Hf Hdb. eapply wp_mono.
    + apply (sweep_loop (w_db w)); [done| |done]. intros sg Hsg.
      by destruct (resumable_rows_elem _ _ _ Hsg).
    + intros r w' (-> & Hf' & Hsafe & Hsw). split; [by etrans|]. split; [done|].
      intros Hh. split; [done|]. by apply Hsw.
Qed.

(** C23: Safety: whatever fails, a sweep takes no saga anywhere but from
    [compensating] to [failed], marks failed only the subscriptions of
    compensating sagas, and returns to the relay only the messages of sagas
    that wait for the notifier; it changes no other row, publishes nothing
    and touches no counter. *)
Theorem Sweep_recovers_only_stuck_sagas (w w' : World X) r :
  db_ok (w_db w) -> Sweep staleAfter w = (r, w') ->
  only_db w w' /\ sweep_safe (w_db w) (w_db w').
Proof.
  intros Hok Hrun.
  destruct (wp_elim _ _ _ _ _ (Sweep_result w Hok) Hrun) as (? & ? & _). done.
Qed.

(** C17: Recovery: while the database answers, a sweep does its work on every saga
    it picks, the [resume_limit] oldest of those left alone for [staleAfter]:
    a compensation is finished (saga and subscription failed) when the
    subscription still exists, and the commands of a waiting saga are all
    unpublished again, so that the relay re-sends them. *)
Theorem Sweep_finishes_stuck_sagas (w w' : World X) r :
  healthy_db X -> db_ok (w_db w) -> Sweep staleAfter w = (r, w') ->
  r = Ok () /\
  forall sg, sg ∈ resumable_rows ((env_clock (w_ext w)).1 - staleAfter) (w_db w) ->
             swept (w_db w) sg (w_db w').
Proof.
  intros Hh Hok Hrun.
  destruct (wp_elim _ _ _ _ _ (Sweep_result w Hok) Hrun) as (_ & _ & H). by apply H.
Qed.

(** A limit of the recovery: a saga that was compensating when its
    subscription was deleted stays so after every sweep, because marking the
    subscription failed finds no row; no later sweep can finish it. *)
Theorem Sweep_leaves_orphaned_compensation (w w' : World X) r sg :
  db_ok (w_db w) -> saga_State sg = StateCompensating -> orphaned sg (w_db w) ->
  Sweep staleAfter w = (r, w') -> orphaned sg (w_db w').
Proof.
  intros Hok Hst Ho Hrun. wp_run Hrun. unfold Sweep. apply wp_bind, wp_ext_read. intros x _.
  apply wp_bind, wp_FindResumable; [by intros e w1 _ -> _|]. intros w1 _ Hdb1.
  apply (wp_mono _ (fun _ w2 => orphaned sg (w_db w2))); [|done].
  apply (wp_for_each _ (fun todo w2 => orphaned sg (w_db w2) /\
    forall a, a ∈ todo -> a ∈ saga (w_db w))).
  - rewrite Hdb1. split; [done|]. intros a Ha. by destruct (resumable_rows_elem _ _ _ Ha).
  - intros a todo w2 [Ho2 Htodo].
    assert (a ∈ saga (w_db w)) as Ha by (apply Htodo, elem_of_cons; by left).
    eapply wp_mono.
    + apply (sweep_one_orphaned w2 sg a); [by apply (db_saga_ids_canonical _ Hok)| |done|done].
      destruct (decide (saga_ID a = saga_ID sg)) as [Heq|]; [right|by left].
      apply (NoDup_fmap_inj saga_ID (saga (w_db w))); [apply Hok|done|apply Ho|done].
    + intros r2 w3 [-> Ho3]. split; [done|]. intros b Hb. apply Htodo, elem_of_cons. by right.
  - intros w2 [Ho2 _]. done.
Qed.
End Properties.

Section Witnesses.
#[local] Existing Instance calm_env.

Definition interrupted : World Script :=
  play (sample_db StateCompensating) (mkScript [] 1000 0 [] ∅ [] [] [] [] []).

Lemma Sweep_recovers_only_stuck_sagas_witness :
  only_db interrupted (Sweep 300 interrupted).2 /\
  sweep_safe (sample_db StateCompensating) (w_db (Sweep 300 interrupted).2).
Proof.
  exact (Sweep_recovers_only_stuck_sagas 300 interrupted _ _ (sample_db_ok _)
           (surjective_pairing _)).
Defined.

Lemma Sweep_finishes_stuck_sagas_witness :
  sample_saga StateCompensating ∈ resumable_rows (1000 - 300) (sample_db StateCompensating) /\
  swept (sample_db StateCompensating) (sample_saga StateCompensating)
    (w_db (Sweep 300 interrupted).2) /\
  saga_State <$> saga (w_db (Sweep 300 interrupted).2) = [StateFailed].
Proof.
  assert (sample_saga StateCompensating ∈
    resumable_rows (1000 - 300) (sample_db StateCompensating)) as H
    by (vm_compute; apply elem_of_cons; by left).
  split; [exact H|]. split; [|vm_compute; reflexivity].
  exact (proj2 (Sweep_finishes_stuck_sagas 300 interrupted _ _ calm_healthy (sample_db_ok _)
                  (surjective_pairing _)) _ H).
Defined.

(** The sample saga, compensating, after its subscription was deleted. *)
Definition orphan_db : DB :=
  set_subscriptions [confirmed_sub; failed_sub] (sample_db StateCompensating).

Lemma orphan_db_ok : @db_ok script_server orphan_db.
Proof.
  pose proof (sample_db_ok StateCompensating) as [[Hi Ht Hk Hr] ? ? ? ? ?].
  split; simpl; try done. split.
  - by apply NoDup_cons in Hi as [_ Hi].
  - by apply NoDup_cons in Ht as [_ Ht].
  - by apply NoDup_cons in Hk as [_ Hk].
  - intros s Hs. apply Hr. apply elem_of_cons. by right.
Qed.

Lemma Sweep_leaves_orphaned_compensation_witness :
  orphaned (sample_saga StateCompensating) orphan_db /\
  orphaned (sample_saga StateCompensating)
    (w_db (Sweep 300 (play orphan_db (mkScript [] 1000 0 [] ∅ [] [] [] [] []))).2).
Proof.
  assert (orphaned (sample_saga StateCompensating) orphan_db) as H.
  { split; [apply elem_of_cons; by left|]. intros s Hs.
    repeat (apply elem_of_cons in Hs as [->|Hs]; [discriminate|]). by apply elem_of_nil in Hs. }
  split; [exact H|].
  exact (Sweep_leaves_orphaned_compensation 300
    (play orphan_db (mkScript [] 1000 0 [] ∅ [] [] [] [] [])) _ _
    (sample_saga StateCompensating) orphan_db_ok eq_refl H (surjective_pairing _)).
Defined.
End Witnesses.
