(* ===== verification/Wiring.v ===== *)
(** * main.go: how the monolith is put together

    The orchestrator discharges the interface of the service, with either
    transport, and the GitHub client discharges those of the service and of the
    scanner, with or without the cache; so the theorems of those components
    hold of the parts that [run] wires. *)

From S2P Require Import Prelude GoErrors Tables Env Logic Script Schema Samples.
From S2P Require Import SubStore SagaStore OutboxStore Notification SagaMachine Orchestrator.
From S2P Require Import ReplyConsumer Service Gateway Scanner Handler Config.

Local Open Scope string_scope.
Local Open Scope Z_scope.

(** ** The orchestrator as a [sagaStarter] *)

Definition Orchestrator {X : Type} `{!Env X} (sender : option (confirmationSender X))
    : sagaStarter X :=
  mkSagaStarter X (StartConfirmation sender) (ReactivateConfirmation sender).

(** *** The errors of the orchestrator *)

Section OrchestratorErrors.
Context {X : Type} `{!Env X}.

Lemma insert_subscription_infra email repo token c :
  stmt_infra (fun now d => insert_subscription now email repo token c d).
Proof. unfold insert_subscription. solve_stmt_infra. Qed.
Lemma insert_saga_infra sg : stmt_infra (fun now d => insert_saga now sg d).
Proof. unfold insert_saga. solve_stmt_infra. Qed.
Lemma insert_outbox_infra sid key mid payload :
  stmt_infra (fun now d => insert_outbox now sid key mid payload d).
Proof. unfold insert_outbox. solve_stmt_infra. Qed.
Lemma reactivate_stmt_infra id token : stmt_infra (reactivate_stmt id token).
Proof. unfold reactivate_stmt. solve_stmt_infra. Qed.
Lemma update_state_stmt_infra id st le : stmt_infra (update_state_stmt id st le).
Proof. unfold update_state_stmt. solve_stmt_infra. Qed.

Lemma UpdateState_infra id st le : fails_infra (UpdateState id st le).
Proof.
  unfold UpdateState. apply fails_infra_bind; [|auto with go_db].
  apply fails_infra_wrap, fails_infra_db_stmt, update_state_stmt_infra.
Qed.
Lemma MarkFailed_infra id : fails_infra (MarkFailed id).
Proof.
  unfold MarkFailed. apply fails_infra_bind; [|auto with go_db].
  apply fails_infra_wrap, fails_infra_db_stmt. solve_stmt_infra.
Qed.
Lemma ReactivateInTx_infra e id token : fails_infra (ReactivateInTx e id token).
Proof.
  unfold ReactivateInTx. apply fails_infra_bind; [|auto with go_db].
  apply fails_infra_wrap, fails_infra_ext_stmt, reactivate_stmt_infra.
Qed.
Lemma CreateInTx_sub_infra e email repo token :
  fails_infra (SubStore.CreateInTx e email repo token).
Proof. apply fails_infra_ext_stmt, insert_subscription_infra. Qed.
Lemma CreateInTx_saga_infra e sg : fails_infra (SagaStore.CreateInTx e sg).
Proof. apply fails_infra_wrap, fails_infra_ext_stmt, insert_saga_infra. Qed.
Lemma Enqueue_infra e sid key mid payload : fails_infra (Enqueue e sid key mid payload).
Proof. apply fails_infra_wrap, fails_infra_ext_stmt, insert_outbox_infra. Qed.
End OrchestratorErrors.

#[export] Hint Resolve UpdateState_infra MarkFailed_infra ReactivateInTx_infra
  CreateInTx_sub_infra CreateInTx_saga_infra Enqueue_infra : go_db.

Section Starts.
Context {X : Type} `{!Env X}.
Variable sender : option (confirmationSender X).

Lemma enqueueConfirmation_infra subID email repo token url :
  fails_infra (enqueueConfirmation subID email repo token url).
Proof. unfold enqueueConfirmation. auto 10 with go_db. Qed.

Lemma createSubscriptionAndSaga_infra email repo token id :
  fails_infra (createSubscriptionAndSaga email repo token id).
Proof.
  unfold createSubscriptionAndSaga. apply fails_infra_bind; [auto with go_db|]. intros _.
  apply fails_infra_defer_rollback, fails_infra_bind;
    [apply fails_infra_if; auto with go_db|auto 12 with go_db].
Qed.

Lemma dispatchSync_infra send sagaID subID email repo url :
  fails_infra (dispatchSync (X := X) send sagaID subID email repo url).
Proof.
  unfold dispatchSync, compensateSync. apply fails_infra_bind; [auto with go_db|].
  intros []; auto 10 with go_db.
Qed.

Lemma StartConfirmation_infra email repo token url :
  fails_infra (StartConfirmation sender email repo token url).
Proof.
  unfold StartConfirmation, startConfirmationSync. destruct sender.
  - apply fails_infra_bind; [apply createSubscriptionAndSaga_infra|].
    intros []. apply dispatchSync_infra.
  - apply fails_infra_bind; [auto with go_db|]. intros _.
    apply fails_infra_defer_rollback, fails_infra_bind; [auto with go_db|]. intros id.
    apply fails_infra_bind; [apply enqueueConfirmation_infra|auto with go_db].
Qed.

Lemma ReactivateConfirmation_infra id email repo token url :
  fails_infra (ReactivateConfirmation sender id email repo token url).
Proof.
  unfold ReactivateConfirmation, reactivateConfirmationSync. destruct sender.
  - apply fails_infra_bind; [apply createSubscriptionAndSaga_infra|].
    intros []. apply dispatchSync_infra.
  - apply fails_infra_bind; [auto with go_db|]. intros _.
    apply fails_infra_defer_rollback, fails_infra_bind; [auto with go_db|]. intros _.
    apply fails_infra_bind; [apply enqueueConfirmation_infra|auto with go_db].
Qed.
End Starts.

(** *** What a start leaves *)

(** [main.go]: the sender of each transport. *)
Definition transport_sender {X : Type} `{!Env X} (t : Transport)
    : option (confirmationSender X) :=
  match t with TransportBroker => None | TransportGRPC => Some SendConfirmation end.

(** One saga, with key [u], was added. *)
Definition saga_added (u : string) (d d' : DB) : Prop :=
  exists sg, saga d' = app (saga d) [sg] /\ saga_ID sg = u.

Lemma saga_added_grow u d d' : saga_added u d d' -> sagas_grow d d'.
Proof. intros (sg & H & _). by exists (saga d), [sg]. Qed.

Lemma saga_added_set u st d d1 d2 :
  NoDup (saga_ID <$> saga d1) -> saga_added u d d1 -> saga_set u st d1 d2 -> saga_added u d d2.
Proof.
  intros Hnd (sg & Hg & Hu) (le & now & ->). exists (set_state st le now sg). split; [|done].
  simpl. rewrite Hg in Hnd |- *. rewrite fmap_app in Hnd.
  apply NoDup_app in Hnd as (_ & Hnd & _). apply update_where_app_last.
  - intros b Hb. apply String.eqb_neq. intros Heq. apply (Hnd (saga_ID b)).
    + by apply list_elem_of_fmap_2.
    + rewrite Heq, <- Hu. apply elem_of_cons. by left.
  - unfold by_saga_id. by rewrite Hu, String.eqb_refl.
Qed.

Lemma c1_partial_effect u id d d1 d2 :
  NoDup (saga_ID <$> saga d1) -> saga_added u d d1 -> c1_partial u id d1 d2 ->
  saga_added u d d2 /\ maybe_failed id (subscriptions d1) (subscriptions d2) /\
  repositories d2 = repositories d1.
Proof.
  intros Hnd Hadd [-> |[(d3 & Hset & H3)|(le & now & ->)]].
  - split; [done|]. split; [by left|done].
  - destruct (saga_set_frame _ _ _ _ Hset) as (Hs & _ & Hr).
    assert (saga_added u d d3) as Hadd' by by eapply saga_added_set.
    rewrite <- Hs, <- Hr. destruct H3 as [-> | ->];
      (split; [exact Hadd'|]); (split; [|done]); [by left|by right].
  - split; [|split; [by right|done]].
    destruct (saga_added_set u StateFailed d d1 (set_saga
      (update_where (by_saga_id u) (set_state StateFailed le now) (saga d1)) d1)) as (sg & Hsg);
      [done..|by exists le, now|]. by exists sg.
Qed.

(** The rows a reactivation leaves, when the identifier is a key. *)
Lemma reactivated_revived `{!PgServer} id token d d' :
  db_ok d -> (exists s, s ∈ subscriptions d /\ sub_ID s = id /\ sub_Status s = StatusFailed) ->
  maybe_failed id (reactivated_rows id token d) (subscriptions d') ->
  repositories d' = repositories d -> revived id token d d'.
Proof.
  intros Hok Hex Hs Hr. split; [done|]. split; [|done].
  destruct Hex as (s & Hin & Hid & Hst).
  assert (reactivated_rows id token d =
          update_where (by_id id) (set_reactivated token) (subscriptions d)) as Heq.
  { unfold reactivated_rows. apply update_where_ext. intros a Ha.
    destruct (by_id id a) eqn:E; [|done]. apply Z.eqb_eq in E. simpl.
    assert (a = s) as ->; [|by apply String.eqb_eq].
    apply (NoDup_fmap_inj sub_ID (subscriptions d)); [apply Hok|done|done|congruence]. }
  rewrite Heq in Hs. destruct Hs as [Hs|Hs].
  - exists StatusPending. split; [by left|exact Hs].
  - exists StatusFailed. split; [by right|]. rewrite Hs. unfold update_where.
    rewrite <- list_fmap_compose. apply list_fmap_ext. intros i a _. simpl.
    by destruct (by_id id a) eqn:E; [unfold by_id in *; simpl; rewrite E|rewrite E].
Qed.

Section StarterSpecs.
Context {X : Type} `{!Env X} `{!PgServerLaws env_server}.
Implicit Types w : World X.

Lemma enqueueConfirmation_keeps subID email repo token url :
  keeps db_ok (enqueueConfirmation subID email repo token url).
Proof. unfold enqueueConfirmation. auto 10 with go_db. Qed.

Lemma dispatchSync_keeps sagaID subID email repo url :
  keeps db_ok (dispatchSync SendConfirmation sagaID subID email repo url).
Proof. unfold dispatchSync, compensateSync. auto 10 with go_db. Qed.

Lemma StartConfirmation_keeps t email repo token url :
  keeps db_ok (StartConfirmation (transport_sender t) email repo token url).
Proof.
  unfold StartConfirmation, startConfirmationSync. destruct t; cbn [transport_sender].
  - apply keeps_bind; [auto with go_db|]. intros _.
    apply keeps_defer_rollback; [apply _|]. apply keeps_bind;
      [apply keeps_wrap, CreateInTx_sub_keeps|]. intros id.
    apply keeps_bind; [apply enqueueConfirmation_keeps|auto with go_db].
  - apply keeps_bind; [apply createSubscriptionAndSaga_keeps|].
    intros []. apply dispatchSync_keeps.
Qed.

Lemma ReactivateConfirmation_keeps t id email repo token url :
  keeps db_ok (ReactivateConfirmation (transport_sender t) id email repo token url).
Proof.
  unfold ReactivateConfirmation, reactivateConfirmationSync. destruct t; cbn [transport_sender].
  - apply keeps_bind; [auto with go_db|]. intros _.
    apply keeps_defer_rollback; [apply _|]. apply keeps_bind; [auto with go_db|]. intros _.
    apply keeps_bind; [apply enqueueConfirmation_keeps|auto with go_db].
  - apply keeps_bind; [apply createSubscriptionAndSaga_keeps|].
    intros []. apply dispatchSync_keeps.
Qed.

Lemma started_subscribed email repo token url now d d' :
  started email repo token url now d d' -> subscribed email repo token d d' /\ sagas_grow d d'.
Proof.
  intros (sagaID & u & body & _ & _ & Hs & Hr & Hg & _). split.
  - exists (subscriptions_id_seq d + 1), now, StatusPending. auto.
  - eapply saga_added_grow. eexists. split; [exact Hg|done].
Qed.

Lemma sync_rows_subscribed email repo token st failed d d' :
  sync_rows email repo token st failed d d' ->
  subscribed email repo token d d' /\ sagas_grow d d'.
Proof.
  intros (u & now & le & later & Hs & Hg & _ & Hr). split.
  - exists (subscriptions_id_seq d + 1), now, (if failed then StatusFailed else StatusPending).
    split; [destruct failed; auto|]. split; [|done]. rewrite Hs. by destruct failed.
  - eapply saga_added_grow. eexists. split; [exact Hg|done].
Qed.

Lemma same_rows_same_subs d d' : same_rows d' d -> same_subs d d' /\ sagas_grow d d'.
Proof. intros (? & ? & ? & ?). split; [done|]. by apply sagas_grow_same. Qed.

(** The postcondition of a start, for either form of T1. *)
Definition start_post (P : DB -> DB -> Prop) w (r : result unit) (w' : World X) : Prop :=
  w_tx w' = None /\ sagas_grow (w_db w) (w_db w') /\
  match r with
  | Ok _ => P (w_db w) (w_db w')
  | Err _ => same_subs (w_db w) (w_db w') \/ P (w_db w) (w_db w')
  end.

(** It follows from the atomicity of the transaction of the broker transport. *)
Lemma start_post_tx (eff : Z -> DB -> DB -> Prop) P w r w' :
  (forall now, eff now (w_db w) (w_db w') -> P (w_db w) (w_db w') /\
                                             sagas_grow (w_db w) (w_db w')) ->
  tx_result (fun _ : unit => eff) w r w' -> start_post P w r w'.
Proof.
  intros Heff (Htx & _ & _ & H). destruct r as [[]|e].
  - destruct H as (now & H). destruct (Heff now H). by split_and!.
  - destruct H as [H|([] & now & H)].
    + destruct (same_rows_same_subs _ _ H). unfold start_post. auto.
    + destruct (Heff now H). unfold start_post. auto.
Qed.

Lemma StartConfirmation_post t email repo token url w :
  db_ok (w_db w) -> w_tx w = None ->
  wp (StartConfirmation (transport_sender t) email repo token url)
    (start_post (subscribed email repo token) w) w.
Proof.
  intros Hok Htx. destruct t; simpl.
  - eapply wp_mono; [by apply StartConfirmation_broker_result|]. intros r w'.
    apply start_post_tx. intros now. apply started_subscribed.
  - eapply wp_mono; [by apply startConfirmationSync_result|].
    intros r w' (Htx' & _ & [(Hr & _ & H)|(sent & st & failed & _ & _ & H)]).
    + destruct r; [done|]. unfold start_post.
      destruct H as [H|H]; [apply same_rows_same_subs in H|apply sync_rows_subscribed in H];
        destruct H; auto.
    + apply sync_rows_subscribed in H as [? ?]. unfold start_post. destruct r; auto.
Qed.

Lemma reactivateConfirmationSync_post id email repo token url w :
  db_ok (w_db w) -> w_tx w = None -> id <> 0 ->
  wp (ReactivateConfirmation (Some SendConfirmation) id email repo token url)
    (start_post (revived id token) w) w.
Proof.
  intros Hok Htx Hid. unfold ReactivateConfirmation, reactivateConfirmationSync. apply wp_bind.
  apply (wp_keeps db_ok); [apply createSubscriptionAndSaga_keeps|done|done|].
  eapply wp_mono; [by apply createSubscriptionAndSaga_reactivate|].
  assert (forall a now d1, reactivated_sync id email repo token a now (w_db w) d1 ->
    exists u, pg_uuid a.2 = Some u /\ saga_added u (w_db w) d1 /\ a.1 = id /\
      forall d2, maybe_failed id (subscriptions d1) (subscriptions d2) ->
        repositories d2 = repositories d1 -> revived id token (w_db w) d2) as Hrea.
  { intros a now d1 (Hex & Ha & u & Hu & Hs & Hr & _ & Hg). exists u. split; [done|].
    split; [eexists; split; [exact Hg|done]|]. split; [done|]. intros d2 Hm Hr2.
    apply reactivated_revived; [done|done|by rewrite <- Hs|congruence]. }
  intros [[subID sagaID]|e] w1 (Htx1 & _ & _ & H) Hok1.
  2: { split; [done|]. destruct H as [H|(a & now & H)].
       - destruct (same_rows_same_subs _ _ H). auto.
       - destruct (Hrea _ _ _ H) as (u & _ & Hadd & _ & Hrev).
         split; [by eapply saga_added_grow|]. right. apply Hrev; [by left|done]. }
  destruct H as (now & H). destruct (Hrea _ _ _ H) as (u & Hu & Hadd & Hsub & Hrev).
  simpl in *. subst subID. eapply wp_mono; [by apply dispatchSync_result|].
  intros r w2 (Htx2 & _ & sent & _ & H2). split; [congruence|].
  assert (saga_added u (w_db w) (w_db w2) /\ revived id token (w_db w) (w_db w2)) as [Hg Hr].
  { destruct sent; [destruct H2 as [[-> _]|Hset]|destruct H2 as [Hp _]].
    - split; [done|]. apply Hrev; [by left|done].
    - destruct (saga_set_frame _ _ _ _ Hset) as (Hs & _ & Hrp).
      split; [eapply saga_added_set; [apply Hok1|done..]|]. apply Hrev; [by left|done].
    - apply (c1_partial_effect u id (w_db w)) in Hp as (? & ? & ?); [|apply Hok1|done].
      split; [done|]. by apply Hrev. }
  split; [by eapply saga_added_grow|]. destruct r; auto.
Qed.

Lemma ReactivateConfirmation_post t id email repo token url w :
  db_ok (w_db w) -> w_tx w = None -> id <> 0 ->
  wp (ReactivateConfirmation (transport_sender t) id email repo token url)
    (start_post (revived id token) w) w.
Proof.
  intros Hok Htx Hid. destruct t; [|by apply reactivateConfirmationSync_post].
  eapply wp_mono; [by apply ReactivateConfirmation_broker_result|]. intros r w'.
  apply start_post_tx. intros now (Hex & sagaID & u & body & _ & _ & Hs & Hr & Hg & _). split.
  - apply reactivated_revived; [done|done|by left|done].
  - eapply saga_added_grow. eexists. split; [exact Hg|done].
Qed.

(** The orchestrator keeps what the service relies on, with either transport. *)
#[export] Instance Orchestrator_spec t : SagaStarterSpec (Orchestrator (transport_sender t)).
Proof.
  split.
  - intros email repo token url w Hok Htx.
    apply (wp_keeps db_ok); [apply StartConfirmation_keeps|done|done|].
    eapply wp_mono; [apply wp_conj; [by apply StartConfirmation_post|
                                     apply (StartConfirmation_infra _ _ _ _ _ w)]|].
    intros r w' [(Htx' & Hg & Hr) He] Hok'. split; [done|]. split; [done|]. split; [done|].
    destruct r; [done|]. split; [by apply He|done].
  - intros id email repo token url w Hok Htx Hid.
    apply (wp_keeps db_ok); [apply ReactivateConfirmation_keeps|done|done|].
    eapply wp_mono; [apply wp_conj; [by apply ReactivateConfirmation_post|
                                     apply (ReactivateConfirmation_infra _ _ _ _ _ _ w)]|].
    intros r w' [(Htx' & Hg & Hr) He] Hok'. split; [done|]. split; [done|]. split; [done|].
    destruct r; [done|]. split; [by apply He|done].
Qed.
End StarterSpecs.

(** ** The GitHub client as the [GitHubClient] of the service and the
    [ReleaseChecker] of the scanner *)

Definition github_service {X : Type} (c : upstreamClient X) : GitHubClient X :=
  mkGitHubClient X (up_CheckRepoExists c).

(** [run]: the cache is put in front when Redis answered at the start. *)
Definition run_github (X : Type) `{!Env X} (cfg : Config) (redis : bool) : upstreamClient X :=
  if redis then CachedClient (Client X (GitHubToken cfg)) (Cache X (cache_ttl cfg))
  else Client X (GitHubToken cfg).

Section GitHub.
Context {X : Type} `{!Env X}.

(** Every answer right: what is left of the interface of the gateway. *)
Local Abbreviation any_answer := (UpstreamSpec (fun _ _ => True) (fun _ _ => True)
  infra_error (fun _ => True)).

Lemma upstream_any A B I (c : upstreamClient X) :
  (forall x, I x) -> UpstreamSpec A B infra_error I c -> any_answer c.
Proof.
  intros HI [Hc Hr]. split; intros owner repo w _.
  - eapply wp_mono; [by apply Hc|]. intros [b|e] w' (_ & Hq & H); auto.
  - eapply wp_mono; [by apply Hr|]. intros [t|e] w' (_ & Hq & H); auto.
Qed.

Lemma run_github_spec `{!RedisLaws X} cfg redis : any_answer (run_github X cfg redis).
Proof.
  assert (forall I, (forall x, I x) -> UpstreamSpec (fun _ _ => True) (fun _ _ => True)
    infra_error I (Client X (GitHubToken cfg))) as Hclient.
  { intros I HI. pose proof (Client_spec I (fun req x _ => HI _) (GitHubToken cfg)) as [Hc Hr].
    split; intros owner repo w _.
    - eapply wp_mono; [by apply Hc|]. intros [b|e] w' (? & Hq & H); auto.
    - eapply wp_mono; [by apply Hr|]. intros [t|e] w' (? & Hq & H); auto. }
  destruct redis; simpl; [|by apply Hclient].
  eapply (upstream_any _ _ (fun x => True /\ coherent (fun _ _ => True) (fun _ _ => True) x));
    [by repeat split|].
  apply (CachedClient_spec _ _ _ (fun _ => True)); try done. apply Hclient. by repeat split.
Qed.

Lemma github_service_spec (c : upstreamClient X) : any_answer c -> GitHubClientSpec (github_service c).
Proof.
  intros [Hc _]. split. intros owner name w. eapply wp_mono; [by apply Hc|].
  intros r w' (_ & (Hdb & Htx & _) & H). split; [done|]. split; [done|]. by intros e ->.
Qed.

Lemma release_checker_spec (c : upstreamClient X) :
  any_answer c -> ReleaseCheckerSpec (fun _ _ => True) (up_GetLatestRelease c).
Proof.
  intros [_ Hr]. split. intros owner name w. eapply wp_mono; [by apply Hr|].
  intros r w' (_ & Hq & _). by split.
Qed.

#[export] Instance run_service_spec `{!RedisLaws X} cfg redis :
  GitHubClientSpec (github_service (run_github X cfg redis)).
Proof. apply github_service_spec, run_github_spec. Qed.
#[export] Instance run_checker_spec `{!RedisLaws X} cfg redis :
  ReleaseCheckerSpec (fun _ _ => True) (up_GetLatestRelease (run_github X cfg redis)).
Proof. apply release_checker_spec, run_github_spec. Qed.
End GitHub.

(** ** The running parts of [run] *)

Section Run.
Context {X : Type} `{!Env X}.
Local Abbreviation M := (GoM X).
Variables (cfg : Config) (redis : bool) (transport : Transport).
Variable ShouldBindJSON : string -> option SubscribeRequest.

(** One request to the server; the index page is configured. *)
Definition run_request (req : Request) : M Response :=
  BuildRouter (github_service (run_github X cfg redis))
    (Orchestrator (transport_sender transport)) (BaseURL cfg) ShouldBindJSON (APIKey cfg)
    true req.

(** One cycle of the scanner. *)
Definition run_scan : M unit :=
  scan (up_GetLatestRelease (run_github X cfg redis)) SendReleaseNotification (BaseURL cfg).
End Run.

(** ** Witnesses, and two worked traces *)

Section Witnesses.
#[local] Existing Instance calm_env.
#[local] Existing Instance script_server_laws.

Definition sample_config (key : string) : Config :=
  Load (fun name => if String.eqb name "API_KEY" then Some key else None).
Definition wired : World Script := play (sample_db StateSubscriptionCreated) (mkScript [] 100 7
  [] ∅ [] [] [] [] []).
Definition sample_bind (body : string) : option SubscribeRequest :=
  Some (mkSubscribeRequest body "golang/go").
Definition get (rt : Route) : Request := mkRequest "GET" rt "" "req-1" "" "".

#[local] Instance calm_redis : @RedisLaws Script calm_env := script_redis false.

Lemma Subscribe_outcome_witness :
  let app := Subscribe (github_service (run_github Script (sample_config "") true))
               (Orchestrator (transport_sender TransportBroker)) "http://x"
               "new@example.com" "golang/go" in
  (app wired).1 = Ok () /\
  subscribe_outcome (github_service (run_github Script (sample_config "") true))
    "new@example.com" "golang/go" wired (Ok ()) (app wired).2.
Proof.
  split; [vm_compute; reflexivity|].
  refine (proj2 (proj2 (proj2 (Subscribe_outcome (Env0 := calm_env)
    (github_service (run_github Script (sample_config "") true))
    (Orchestrator (transport_sender TransportBroker)) "http://x" wired _
    "new@example.com" "golang/go" (Ok ()) (run_service_spec _ _) (Orchestrator_spec _)
    (sample_db_ok StateSubscriptionCreated) eq_refl _)))).
  vm_compute. reflexivity.
Defined.

Lemma handler_Subscribe_outcome_witness :
  let app := handler_Subscribe (github_service (run_github Script (sample_config "") false))
               (Orchestrator (transport_sender TransportGRPC)) "http://x" sample_bind
               "new@example.com" in
  (app wired).1 = Ok (200, PMessage "subscription created, check your email to confirm") /\
  @db_ok script_server (w_db (app wired).2).
Proof.
  split; [vm_compute; reflexivity|].
  exact (proj1 (handler_Subscribe_outcome (Env0 := calm_env)
    (github_service (run_github Script (sample_config "") false))
    (Orchestrator (transport_sender TransportGRPC)) "http://x" sample_bind
    "new@example.com" wired _ _ (run_service_spec _ _) (Orchestrator_spec _)
    (sample_db_ok StateSubscriptionCreated) eq_refl (surjective_pairing _))).
Defined.

Lemma BuildRouter_answers_witness :
  exists resp, (run_request (sample_config "") true TransportBroker sample_bind
                  (get (RConfirm "tok-9")) wired).1 = Ok resp /\ rs_Status resp = 404.
Proof.
  pose (out := run_request (sample_config "") true TransportBroker sample_bind
                 (get (RConfirm "tok-9")) wired).
  destruct (BuildRouter_answers (Env0 := calm_env)
    (github_service (run_github Script (sample_config "") true))
    (Orchestrator (transport_sender TransportBroker)) (BaseURL (sample_config ""))
    sample_bind (APIKey (sample_config "")) true
    (get (RConfirm "tok-9")) wired out.2 out.1 (surjective_pairing out)) as (resp & Hr & _).
  exists resp. split; [exact Hr|]. vm_compute in Hr. injection Hr as <-. reflexivity.
Defined.

Lemma APIKeyAuth_blocks_witness :
  "secret" <> "" /\
  w_db (run_request (sample_config "secret") true TransportBroker sample_bind
          (get (RUnsubscribe "tok-1")) wired).2 = w_db wired.
Proof.
  assert ("secret" <> "") as Hne by discriminate.
  split; [exact Hne|].
  pose (out := run_request (sample_config "secret") true TransportBroker sample_bind
                 (get (RUnsubscribe "tok-1")) wired).
  refine (proj1 (APIKeyAuth_blocks (Env0 := calm_env)
    (github_service (run_github Script (sample_config "secret") true))
    (Orchestrator (transport_sender TransportBroker)) (BaseURL (sample_config "secret"))
    sample_bind (APIKey (sample_config "secret")) true
    (get (RUnsubscribe "tok-1")) wired out.2 out.1 Hne _ Logic.I (surjective_pairing out))).
  discriminate.
Defined.

(** The link of the confirmation email is opened by a browser, which sends no
    X-API-Key header: with a key configured the link is refused, and the
    subscription it was sent for stays unconfirmed. Without one it works. *)
Theorem emailed_link_needs_api_key :
  let open key := run_request (sample_config key) true TransportBroker sample_bind
                    (get (RConfirm "tok-1")) wired in
  (open "secret").1 = Ok (mkResponse 401 (PError "missing X-API-Key header") "req-1") /\
  sub_Confirmed <$> subscriptions (w_db (open "secret").2) = [false; true; false] /\
  rs_Status <$> (match (open "").1 with Ok r => Some r | Err _ => None end) = Some 200 /\
  sub_Confirmed <$> subscriptions (w_db (open "").2) = [true; true; false].
Proof. vm_compute. repeat split. Qed.

(** A compensation that comes after the subscriber has opened the link (the mail
    was delivered, and its failure reported all the same) marks the confirmed
    subscription failed; it goes on receiving releases, and subscribing again
    is not refused but takes the confirmation away. *)
Theorem late_failure_unseats_confirmed :
  let w1 := (run_request (sample_config "") true TransportBroker sample_bind
               (get (RConfirm "tok-1")) wired).2 in
  let w2 := (HandleReply (sample_reply "failed") w1).2 in
  let w3 := (run_request (sample_config "") true TransportBroker sample_bind
               (mkRequest "POST" RSubscribe "" "req-2" "" "ann@example.com") w2).2 in
  let row w := (fun s => (sub_Confirmed s, sub_Status s)) <$> head (subscriptions (w_db w)) in
  row w1 = Some (true, StatusConfirmed) /\ row w2 = Some (true, StatusFailed) /\
  row w3 = Some (false, StatusPending).
Proof. vm_compute. repeat split. Qed.
End Witnesses.
