(* ===== verification/Footprint.v ===== *)
(** * What an operation is made of

    [effects m]: whatever the environment answers, [m] is a finite sequence of
    primitive steps: a change of the tables or of the transaction, an answer of
    the environment, an event, and one more count of a series of a registered
    counter. Every operation of the monolith is; so a property that each
    primitive step keeps holds over any run. *)

From stdpp Require Import pretty.
From S2P Require Import Prelude GoErrors Tables Env Logic Script Schema Samples Json Wire Metrics.
From S2P Require Import SubStore SagaStore OutboxStore TrackStore Notification.
From S2P Require Import SagaMachine Orchestrator RepoSpec Email Service Gateway Scanner Handler Config.
From S2P Require Import Notifier Relay ReplyConsumer Sweeper Wiring.

Local Open Scope string_scope.

(** The events an operation may leave: never those of the connections and of the
    life of the process; the settlement of a delivery, a message handed to the
    broker, a call of the notifier and a mail only where they are allowed. The
    series it counts are those of the registry, unless any is allowed. *)
Record Allow := mkAllow {
  may_settle : Prop;
  may_publish : Publishing -> Prop;
  may_call : SendConfirmationRequest -> Prop;
  may_mail : Mail -> Prop;
  any_series : bool }.

Definition anything : Allow := mkAllow True (fun _ => True) (fun _ => True) (fun _ => True) false.
Definition unsettled : Allow := mkAllow False (fun _ => True) (fun _ => True) (fun _ => True) false.

Definition business (allow : Allow) (ev : Event) : Prop :=
  match ev with
  | EvAmqp _ _ | EvProc _ _ => False
  | EvAck | EvNack => may_settle allow
  | EvPublish p _ => may_publish allow p
  | EvGrpc r _ => may_call allow r
  | EvMail m _ => may_mail allow m
  | _ => True
  end.

Section Footprint.
Context {X : Type} `{!Env X}.
Implicit Types w : World X.

(** One answer of the environment. *)
Inductive env_step (x : X) : X -> Prop :=
  | es_pg : env_step x (env_pg x).2
  | es_clock : env_step x (env_clock x).2
  | es_uuid : env_step x (env_uuid x).2
  | es_done : env_step x (env_ctx_done x).2
  | es_redis_get k : env_step x (env_redis_get k x).2
  | es_redis_set k v ttl : env_step x (env_redis_set k v ttl x).2
  | es_redis_exists k : env_step x (env_redis_exists k x).2
  | es_http r : env_step x (env_http r x).2
  | es_publish p : env_step x (env_publish p x).2
  | es_smtp m : env_step x (env_smtp m x).2
  | es_grpc r : env_step x (env_grpc r x).2.

Inductive effect (allow : Allow) : World X -> World X -> Prop :=
  | eff_db d w : effect allow w (set_db d w)
  | eff_tx t w : effect allow w (set_tx t w)
  | eff_ext x w : env_step (w_ext w) x -> effect allow w (set_ext x w)
  | eff_emit ev w : business allow ev -> effect allow w (emit ev w)
  | eff_inc name ls w : any_series allow = true \/ countable (name, ls) ->
      effect allow w (set_metrics
        (<[(name, ls) := S (default 0 (w_metrics w !! (name, ls)))]> (w_metrics w)) w).

Definition effects (allow : Allow) {A} (m : GoM X A) : Prop :=
  forall w, rtc (effect allow) w (m w).2.

(** ** The rules *)

Variable se : Allow.

Lemma effects_ret {A} (a : A) : effects se (mret a).
Proof. intros w. apply rtc_refl. Qed.
Lemma effects_throw {A} e : effects se (throw (A := A) e).
Proof. intros w. apply rtc_refl. Qed.
Lemma effects_bind {A B} (m : GoM X A) (k : A -> GoM X B) :
  effects se m -> (forall a, effects se (k a)) -> effects se (m ≫= k).
Proof.
  intros Hm Hk w. unfold mbind, gom_bind. specialize (Hm w).
  destruct (m w) as [[a|e] w']; [|done]. etrans; [exact Hm|apply Hk].
Qed.
Lemma effects_wrap {A} s (m : GoM X A) : effects se m -> effects se (wrap s m).
Proof. intros Hm w. unfold wrap. specialize (Hm w). by destruct (m w) as [[a|e] w']. Qed.
Lemma effects_try {A} (m : GoM X A) : effects se m -> effects se (try m).
Proof. intros Hm w. apply Hm. Qed.
Lemma effects_if {A} (b : bool) (m1 m2 : GoM X A) :
  effects se m1 -> effects se m2 -> effects se (if b then m1 else m2).
Proof. by destruct b. Qed.
Lemma effects_option {A B} (o : option A) (m1 : A -> GoM X B) m2 :
  (forall a, effects se (m1 a)) -> effects se m2 ->
  effects se (match o with Some a => m1 a | None => m2 end).
Proof. destruct o; auto. Qed.
Lemma effects_result {A B} (r : result A) (m1 : A -> GoM X B) m2 :
  (forall a, effects se (m1 a)) -> (forall e, effects se (m2 e)) ->
  effects se (match r with Ok a => m1 a | Err e => m2 e end).
Proof. destruct r; auto. Qed.
Lemma effects_for_each {A} (body : A -> GoM X unit) l :
  (forall a, effects se (body a)) -> effects se (for_each body l).
Proof. intros Hb. induction l; simpl; [apply effects_ret|by apply effects_bind]. Qed.

Lemma effects_inc name ls :
  any_series se = true \/ countable (name, ls) -> effects se (inc name ls).
Proof. intros Hc w. by apply rtc_once, eff_inc. Qed.
Lemma effects_sleep d : effects se (sleep d).
Proof. intros w. by apply rtc_once, eff_emit. Qed.
Lemma effects_ext_call {A} (f : X -> ext_result A * X) ev :
  (forall x, env_step x (f x).2) ->
  (forall mk ok, ev = Some mk -> business se (mk ok)) -> effects se (ext_call f ev).
Proof.
  intros Hf Hev w. unfold ext_call. specialize (Hf (w_ext w)).
  destruct (f (w_ext w)) as [[m|a] x]; simpl in *; (eapply rtc_l; [by apply eff_ext|]);
    destruct ev as [mk|]; try apply rtc_refl; by apply rtc_once, eff_emit, Hev.
Qed.
Lemma effects_ext_read {A} (f : X -> A * X) :
  (forall x, env_step x (f x).2) -> effects se (ext_read f).
Proof. intros Hf w. apply rtc_once, eff_ext, Hf. Qed.
Lemma effects_uuid : effects se uuid_NewString.
Proof. apply effects_ext_read, es_uuid. Qed.
Lemma effects_time : effects se time_Now.
Proof. apply effects_ext_read, es_clock. Qed.
Lemma effects_select d : effects se (select_done_or_after d).
Proof.
  intros w. unfold select_done_or_after. pose proof (es_done (w_ext w)) as H.
  destruct (env_ctx_done (w_ext w)) as [[] x]; (eapply rtc_l; [by apply eff_ext|]);
    [apply rtc_refl|by apply rtc_once, eff_emit].
Qed.

(** The two answers of a round trip that reads the clock. *)
Lemma effects_pg_clock w :
  rtc (effect se) w (set_ext (env_clock (env_pg (w_ext w)).2).2 w).
Proof.
  eapply rtc_l; [apply eff_ext, es_pg|].
  eapply rtc_l; [apply eff_ext, es_clock|]. apply rtc_refl.
Qed.

Lemma effects_db_stmt {A} (f : sql A) : effects se (db_stmt f).
Proof.
  intros w. pose proof (effects_pg_clock w) as H. unfold db_stmt.
  destruct (env_pg (w_ext w)) as [[] x1]; simpl in H; destruct (env_clock x1) as [now x2];
    simpl in *; try done; (etrans; [exact H|apply rtc_once, eff_db]).
Qed.
Lemma effects_tx_stmt {A} (f : sql A) : effects se (tx_stmt f).
Proof.
  intros w. unfold tx_stmt. destruct (w_tx w) as [[d now]|]; [|apply rtc_refl].
  pose proof (es_pg (w_ext w)) as H. destruct (env_pg (w_ext w)) as [[] x]; simpl in *;
    (eapply rtc_l; [by apply eff_ext|]); try apply rtc_refl; apply rtc_once, eff_tx.
Qed.
Lemma effects_ext_stmt {A} e (f : sql A) : effects se (ext_stmt e f).
Proof. destruct e; [apply effects_db_stmt|apply effects_tx_stmt]. Qed.
Lemma effects_BeginTxx : effects se BeginTxx.
Proof.
  intros w. pose proof (effects_pg_clock w) as H. unfold BeginTxx.
  destruct (env_pg (w_ext w)) as [[] x1]; simpl in H; destruct (env_clock x1) as [now x2];
    simpl in *; try done. etrans; [exact H|apply rtc_once, eff_tx].
Qed.
Lemma effects_Commit : effects se Commit.
Proof.
  intros w. unfold Commit. destruct (w_tx w) as [[d now]|]; [|apply rtc_refl].
  pose proof (es_pg (w_ext w)) as H. destruct (env_pg (w_ext w)) as [[] x]; simpl in *;
    (eapply rtc_l; [by apply eff_ext|]); (eapply rtc_l; [apply eff_tx|]);
    apply rtc_once, eff_db.
Qed.
Lemma effects_Rollback w : rtc (effect se) w (Rollback w).
Proof.
  unfold Rollback. destruct (w_tx w) as [[d now]|]; [|apply rtc_refl].
  eapply rtc_l; [apply eff_db|]. apply rtc_once, eff_tx.
Qed.
Lemma effects_defer_rollback {A} (body : GoM X A) : effects se body -> effects se (defer_rollback body).
Proof.
  intros Hb w. unfold defer_rollback. specialize (Hb w). destruct (body w) as [r w'].
  etrans; [exact Hb|apply effects_Rollback].
Qed.

(** A property that the primitive steps keep is an invariant. *)
Lemma effects_invariant (P : World X -> Prop) {A} (m : GoM X A) w :
  (forall w1 w2, effect se w1 w2 -> P w1 -> P w2) -> effects se m -> P w -> P (m w).2.
Proof.
  intros HP Hm Hw. specialize (Hm w). induction Hm as [|w1 w2 w3 H12 H23 IH]; eauto.
Qed.

(** What an operation adds to the trace. *)
Lemma effects_trace {A} (m : GoM X A) w :
  effects se m -> exists evs, w_trace (m w).2 = app (w_trace w) evs /\
    Forall (business se) evs.
Proof.
  intros Hm. specialize (Hm w). induction Hm as [w|w1 w2 w3 H12 H23 (evs & -> & Hevs)].
  { exists []. by rewrite app_nil_r. }
  destruct H12 as [| | |ev w Hev|]; try (by exists evs).
  exists (ev :: evs). split; [simpl; by rewrite <- app_assoc|by constructor].
Qed.

Lemma effect_counts w1 w2 :
  any_series se = false -> effect se w1 w2 -> counts w1 -> counts w2.
Proof.
  intros Ha [| | | |name ls w [?|Hc]] Hw; try exact Hw; [congruence|]. intros k n. simpl.
  rewrite lookup_insert_Some. intros [[<- _]|[_ Hk]]; [done|by eapply Hw].
Qed.
End Footprint.

#[export] Hint Resolve effects_ret effects_throw effects_bind effects_wrap effects_try
  effects_if effects_option effects_result effects_for_each effects_sleep effects_uuid
  effects_time effects_select effects_db_stmt effects_tx_stmt effects_ext_stmt
  effects_BeginTxx effects_Commit effects_defer_rollback : go_db.

(** The rules, by the head of the computation. *)
Ltac solve_effects :=
  repeat first
    [ solve [auto 2 with go_db nocore]
    | lazymatch goal with
      | |- effects _ (mbind _ _) => apply effects_bind; [|intros ?]
      | |- effects _ (wrap _ _) => apply effects_wrap
      | |- effects _ (try _) => apply effects_try
      | |- effects _ (defer_rollback _) => apply effects_defer_rollback
      | |- effects _ (for_each _ _) => apply effects_for_each; intros ?
      | |- effects _ (ext_call _ _) => apply effects_ext_call; [intros ?; constructor|try done; intros ? ? [= <-]; simpl; solve [exact I | auto 2 with go_db nocore]]
      | |- effects _ (match ?x with _ => _ end) => destruct x
      | |- effects _ (match ?x with _ => _ end _) => destruct x
      end ].

(** ** The operations of the monolith *)

Section Stores.
Context {X : Type} `{!Env X}.
Variable se : Allow.

Lemma UpdateState_effects id st le : effects se (UpdateState id st le).
Proof. unfold UpdateState. solve_effects. Qed.
Lemma MarkFailed_effects id : effects se (MarkFailed id).
Proof. unfold MarkFailed. solve_effects. Qed.
Lemma ReactivateInTx_effects e id token : effects se (ReactivateInTx e id token).
Proof. unfold ReactivateInTx. solve_effects. Qed.
Lemma Enqueue_effects e sid key mid payload : effects se (Enqueue e sid key mid payload).
Proof. unfold Enqueue. solve_effects. Qed.
Lemma RegisterRepo_effects repo : effects se (RegisterRepo repo).
Proof. unfold RegisterRepo. solve_effects. Qed.
Lemma TouchLastChecked_effects repo : effects se (TouchLastChecked repo).
Proof. unfold TouchLastChecked. solve_effects. Qed.
Lemma RecordRelease_effects repo tag : effects se (RecordRelease repo tag).
Proof. unfold RecordRelease. solve_effects. Qed.
Lemma MarkPublished_effects id : effects se (MarkPublished id).
Proof. unfold MarkPublished. solve_effects. Qed.
Lemma Requeue_effects id : effects se (Requeue id).
Proof. unfold Requeue. solve_effects. Qed.
Lemma FetchUnpublished_effects n : effects se (FetchUnpublished n).
Proof. unfold FetchUnpublished. solve_effects. Qed.
Lemma FindResumable_effects before : effects se (FindResumable before).
Proof. unfold FindResumable. solve_effects. Qed.
Lemma SubscribersForRepo_effects repo : effects se (SubscribersForRepo repo).
Proof. unfold SubscribersForRepo, GetSubscribersByRepo. solve_effects. Qed.
Lemma Publish_effects key mid body :
  may_publish se (mkPublishing ExchangeName key "application/json" true mid body) ->
  effects se (Publish key mid body).
Proof. intros Hp. unfold Publish. solve_effects. Qed.
Lemma SendConfirmation_effects email repo url :
  may_call se (mkSendConfirmationRequest email repo url) ->
  effects se (SendConfirmation email repo url).
Proof. intros Hc. unfold SendConfirmation. solve_effects. Qed.
End Stores.

#[export] Hint Resolve UpdateState_effects MarkFailed_effects ReactivateInTx_effects
  Enqueue_effects RegisterRepo_effects TouchLastChecked_effects RecordRelease_effects
  MarkPublished_effects Requeue_effects FetchUnpublished_effects FindResumable_effects
  SubscribersForRepo_effects Publish_effects SendConfirmation_effects : go_db.
#[export] Hint Extern 1 (effects _ (CreateSubscription _)) => apply effects_db_stmt : go_db.

Section Components.
Context {X : Type} `{!Env X}.
Variable se : Allow.

Lemma enqueueConfirmation_effects subID email repo token url :
  effects se (enqueueConfirmation subID email repo token url).
Proof. unfold enqueueConfirmation, SagaStore.CreateInTx. solve_effects. Qed.

Lemma createSubscriptionAndSaga_effects email repo token id :
  effects se (createSubscriptionAndSaga email repo token id).
Proof.
  unfold createSubscriptionAndSaga, SagaStore.CreateInTx, SubStore.CreateInTx. solve_effects.
Qed.

Lemma dispatchSync_effects send sagaID subID email repo url :
  effects se (send email repo url) ->
  effects se (dispatchSync send sagaID subID email repo url).
Proof. intros Hs. unfold dispatchSync, compensateSync. solve_effects. Qed.

Lemma StartConfirmation_effects t email repo token url :
  may_call se (mkSendConfirmationRequest email repo url) ->
  effects se (StartConfirmation (transport_sender t) email repo token url).
Proof.
  intros Hc. unfold StartConfirmation, startConfirmationSync, SubStore.CreateInTx.
  pose proof createSubscriptionAndSaga_effects. pose proof enqueueConfirmation_effects.
  destruct t; cbn [transport_sender]; solve_effects.
  by apply dispatchSync_effects, SendConfirmation_effects.
Qed.

Lemma ReactivateConfirmation_effects t id email repo token url :
  may_call se (mkSendConfirmationRequest email repo url) ->
  effects se (ReactivateConfirmation (transport_sender t) id email repo token url).
Proof.
  intros Hc. unfold ReactivateConfirmation, reactivateConfirmationSync.
  pose proof createSubscriptionAndSaga_effects. pose proof enqueueConfirmation_effects.
  destruct t; cbn [transport_sender]; solve_effects.
  by apply dispatchSync_effects, SendConfirmation_effects.
Qed.

Lemma retry_do_effects n i req : effects se (retry_do n i req).
Proof.
  revert i. induction n as [|n IH]; intros i; simpl; unfold Do; solve_effects.
Qed.
Lemma of_result_effects {A} (r : result A) : effects (X := X) se (of_result r).
Proof. destruct r; [apply effects_ret|apply effects_throw]. Qed.

Lemma Client_CheckRepoExists_effects token owner repo :
  effects se (Client_CheckRepoExists token owner repo).
Proof.
  apply effects_bind; [apply of_result_effects|intros req].
  apply effects_bind; [apply retry_do_effects|intros resp; apply of_result_effects].
Qed.
Lemma Client_GetLatestRelease_effects token owner repo :
  effects se (Client_GetLatestRelease token owner repo).
Proof.
  apply effects_bind; [apply of_result_effects|intros req].
  apply effects_bind; [apply retry_do_effects|intros resp; apply of_result_effects].
Qed.
End Components.

(** A counter series with constant labels, of a registered counter. *)
Ltac solve_inc c := apply effects_inc; right; solve_countable c.

(** The labels of a request: its method, the template of its route and the
    number of its status. *)
Section Labels.
Variables (idx : bool) (req : Request).
Hypothesis method_text : valid_utf8 (r_Method req) = true.
Local Abbreviation path := (if is_empty (FullPath idx (r_Route req)) then "unknown"
                            else FullPath idx (r_Route req)).

Lemma request_counted (status : Z) :
  countable ("http_requests_total", [r_Method req; path; pretty status]).
Proof.
  apply (countable_by HTTPRequestsTotal); [vm_compute; set_solver|].
  unfold WithLabelValues. cbn [length m_Labels HTTPRequestsTotal forallb snd Nat.eqb andb].
  rewrite method_text, pretty_Z_valid, andb_true_r, !andb_true_l. by destruct (r_Route req), idx.
Qed.
Lemma request_timed : countable ("http_request_duration_seconds", [r_Method req; path]).
Proof.
  apply (countable_by HTTPRequestDuration); [vm_compute; set_solver|].
  unfold WithLabelValues. cbn [length m_Labels HTTPRequestDuration forallb snd Nat.eqb andb].
  rewrite method_text, andb_true_r, andb_true_l. by destruct (r_Route req), idx.
Qed.
End Labels.

(** What the service and the scanner need of their interfaces. *)
Definition upstream_effects {X : Type} `{!Env X} (se : Allow) (c : upstreamClient X) : Prop :=
  (forall owner repo, effects se (up_CheckRepoExists c owner repo)) /\
  (forall owner repo, effects se (up_GetLatestRelease c owner repo)).

Section Clients.
Context {X : Type} `{!Env X}.
Variable se : Allow.

Lemma Client_effects token : upstream_effects se (Client X token).
Proof.
  split; [apply Client_CheckRepoExists_effects|apply Client_GetLatestRelease_effects].
Qed.

Lemma cached_effects ttl key : effects se (cached (Cache X ttl) key).
Proof. unfold cached. cbn. unfold Cache_Get. solve_effects. Qed.

Lemma Cache_Set_effects ttl key value : effects se (cache_Set (Cache X ttl) key value).
Proof. cbn. unfold Cache_Set. solve_effects. Qed.

Lemma CachedClient_effects ttl c :
  upstream_effects se c -> upstream_effects se (CachedClient c (Cache X ttl)).
Proof.
  pose proof (cached_effects ttl). pose proof (Cache_Set_effects ttl).
  intros [Hc Hr]. split; intros owner repo; cbn [up_CheckRepoExists up_GetLatestRelease CachedClient];
    unfold Cached_CheckRepoExists, Cached_GetLatestRelease, api_call; solve_effects;
    solve_inc GitHubAPICalls.
Qed.

Lemma run_github_effects cfg redis : upstream_effects se (run_github X cfg redis).
Proof.
  unfold run_github. destruct redis; [apply CachedClient_effects|]; apply Client_effects.
Qed.
End Clients.

Section Service.
Context {X : Type} `{!Env X}.
Variable se : Allow.
Variable gh : GitHubClient X.
Variable sg : sagaStarter X.
Hypothesis gh_effects : forall owner name, effects se (CheckRepoExists gh owner name).
Hypothesis start_effects : forall email repo token url,
  may_call se (mkSendConfirmationRequest email repo url) ->
  effects se (saga_StartConfirmation sg email repo token url).
Hypothesis reactivate_effects : forall id email repo token url,
  may_call se (mkSendConfirmationRequest email repo url) ->
  effects se (saga_ReactivateConfirmation sg id email repo token url).

Variables (baseURL key : string) (bind : string -> option SubscribeRequest).

Lemma Subscribe_effects email repo :
  (ValidateEmail email = true -> forall token,
   may_call se (mkSendConfirmationRequest email repo (confirm_link baseURL token))) ->
  effects se (Subscribe gh sg baseURL email repo).
Proof.
  intros Hc. unfold Subscribe, GetSubscriptionByEmailAndRepo.
  destruct (ValidateEmail email); simpl; [|auto with go_db]. specialize (Hc eq_refl).
  unfold confirm_link in Hc. solve_effects.
Qed.

Lemma handler_Subscribe_effects body :
  (forall sr token, bind body = Some sr -> ValidateEmail (sr_Email sr) = true ->
   may_call se (mkSendConfirmationRequest (sr_Email sr) (sr_Repo sr)
                  (confirm_link baseURL token))) ->
  effects se (handler_Subscribe gh sg baseURL bind body).
Proof.
  intros Hc. unfold handler_Subscribe. destruct (bind body) as [sr|]; [|solve_effects].
  pose proof (Subscribe_effects (sr_Email sr) (sr_Repo sr) (fun Hv token => Hc sr token eq_refl Hv)).
  solve_effects.
  solve_inc SubscriptionsCreated.
Qed.

Lemma Confirm_effects token : effects (X := X) se (Confirm token).
Proof.
  unfold Confirm, GetSubscriptionByToken, ConfirmSubscription, RegisterRepo. solve_effects.
Qed.
Lemma Unsubscribe_effects token : effects (X := X) se (Unsubscribe token).
Proof. unfold Unsubscribe, GetSubscriptionByToken, DeleteSubscription. solve_effects. Qed.
Lemma GetSubscriptions_effects email : effects (X := X) se (GetSubscriptions email).
Proof. unfold GetSubscriptions, GetSubscriptionsByEmail. solve_effects. Qed.

(** Behind the key, the handler runs for an authorized request only. *)
Lemma APIKeyAuth_effects req m :
  (authorized key req = true -> effects se m) -> effects se (APIKeyAuth (X := X) key req m).
Proof.
  unfold APIKeyAuth, authorized. intros Hm. destruct (is_empty key); [by apply Hm|].
  destruct (is_empty (r_APIKey req)); [apply effects_ret|].
  destruct (String.eqb (r_APIKey req) key); [by apply Hm|apply effects_ret].
Qed.

(** The calls of the notifier are for the subscription that is asked for. *)
Definition calls_for (req : Request) : Prop := forall sr token, asks key bind req sr ->
  may_call se (mkSendConfirmationRequest (sr_Email sr) (sr_Repo sr) (confirm_link baseURL token)).

Lemma dispatch_route_effects idx req :
  calls_for req ->
  effects se (dispatch_route gh sg baseURL bind key idx req).
Proof.
  intros Hcalls.
  pose proof Confirm_effects. pose proof Unsubscribe_effects. pose proof GetSubscriptions_effects.
  unfold dispatch_route. destruct (r_Route req) eqn:Hr; try solve_effects;
    apply APIKeyAuth_effects; intros Ha.
  { apply handler_Subscribe_effects. intros sr token Hb Hv. by apply Hcalls. }
  all: unfold handler_ConfirmSubscription, handler_Unsubscribe, handleTokenAction,
    handler_GetSubscriptions.
  all: solve_effects; first [solve_inc SubscriptionsConfirmed | solve_inc Unsubscribes].
Qed.

Lemma BuildRouter_effects idx req :
  calls_for req ->
  any_series se = true \/ valid_utf8 (r_Method req) = true ->
  effects se (BuildRouter gh sg baseURL bind key idx req).
Proof.
  intros Hcalls Hm. pose proof (fun idx => dispatch_route_effects idx req Hcalls).
  unfold BuildRouter, RequestLogger, GinMiddleware, observe. solve_effects;
    (apply effects_inc; destruct Hm as [?|Hm]; [by left|right]);
    [by apply request_counted|by apply request_timed].
Qed.
End Service.

Section Workers.
Context {X : Type} `{!Env X}.
Variable se : Allow.

Lemma checkRepo_effects github notifier baseURL repo :
  (forall owner name, effects (X := X) se (github owner name)) ->
  (forall e r t u, effects (X := X) se (notifier e r t u)) ->
  effects se (checkRepo github notifier baseURL repo).
Proof.
  intros Hg Hn.
  unfold checkRepo, detectNewRelease, recordAndNotify, notify, scanner_error, TouchLastChecked,
    GetRepoTracking, RecordRelease, SubscribersForRepo, GetSubscribersByRepo.
  solve_effects;
    first [solve_inc ScannerErrorsTotal | solve_inc ReleasesDetected | solve_inc NotificationsSent].
Qed.

Lemma scan_effects github notifier baseURL :
  (forall owner name, effects (X := X) se (github owner name)) ->
  (forall e r t u, effects (X := X) se (notifier e r t u)) ->
  effects se (scan github notifier baseURL).
Proof.
  intros Hg Hn. pose proof (checkRepo_effects github notifier baseURL).
  unfold scan, scanner_error, ActiveRepos, GetActiveRepos, observe. solve_effects;
    first [solve_inc ScannerErrorsTotal | solve_inc ScannerRunsTotal
          |solve_inc ScannerCycleDuration | solve_inc ScannerLastRunTimestamp].
Qed.

Lemma drain_effects : (forall p, may_publish se p) -> effects (X := X) se (drain Publish).
Proof.
  intros Hp. unfold drain, FetchUnpublished. solve_effects.
  match goal with |- effects _ (drain_batch _ ?l) => induction l as [|m l IH] end; simpl;
    unfold MarkPublished; solve_effects.
Qed.

Lemma HandleReply_effects body : effects (X := X) se (HandleReply body).
Proof. unfold HandleReply, GetByID, advance, compensate. solve_effects. Qed.

Lemma retry_reply_effects n body : effects (X := X) se (retry_reply n body).
Proof.
  pose proof (HandleReply_effects body). induction n as [|n IH]; simpl; solve_effects.
Qed.

Lemma Sweep_effects stale : effects (X := X) se (Sweep stale).
Proof.
  unfold Sweep, FindResumable, sweep_one, Requeue. solve_effects.
Qed.
End Workers.

Lemma run_delivery_effects {X : Type} `{!Env X} allow body :
  may_settle allow -> effects (X := X) allow (run_delivery body).
Proof.
  intros Hs w. unfold run_delivery, handleWithRetry.
  pose proof (retry_reply_effects allow 3 body w) as H.
  destruct (retry_reply 3 body w) as [r w'].
  etrans; [exact H|by apply rtc_once, eff_emit; destruct r].
Qed.

#[export] Hint Resolve run_delivery_effects Sweep_effects drain_effects : go_db.

(** ** The operations of the notifier *)

Section Notifier.
Context {X : Type} `{!Env X}.
Variable se : Allow.
Variables (smtp : SMTPSender) (ttl : Z).

Lemma SendMail_effects m : may_mail se m -> effects se (SendMail m).
Proof. intros Hm. unfold SendMail. solve_effects. Qed.
Lemma ReplyConfirmation_effects sagaID status :
  may_publish se (reply_message sagaID status) -> effects se (ReplyConfirmation sagaID status).
Proof. intros Hp. unfold ReplyConfirmation. solve_effects. Qed.
Lemma sendWithRetry_effects m : may_mail se m -> effects se (sendWithRetry (SendMail m)).
Proof.
  intros Hm. pose proof (SendMail_effects m Hm). unfold sendWithRetry.
  generalize maxAttempts. intros n. induction n as [|n IH]; simpl; solve_effects.
Qed.
Lemma AlreadyProcessed_effects id : effects se (AlreadyProcessed (redisDeduper ttl) id).
Proof. simpl. solve_effects. Qed.
Lemma MarkProcessed_effects id : effects se (MarkProcessed (redisDeduper ttl) id).
Proof. simpl. solve_effects. Qed.

(** The mails of a delivery and of a call are those its content asks for. *)
Definition delivery_mail (d : Delivery) (m : Mail) : Prop :=
  (d_RoutingKey d = RoutingConfirm /\ exists req : ConfirmationRequest,
     unmarshal (d_Body d) = Ok req /\ m = confirmation_mail smtp (cr_To req) (cr_ConfirmURL req)) \/
  (d_RoutingKey d = RoutingRelease /\ exists req : ReleaseRequest,
     unmarshal (d_Body d) = Ok req /\
     m = release_mail smtp (rr_To req) (rr_Repo req) (rr_Tag req) (rr_UnsubscribeURL req)).

Lemma dispatch_effects d :
  (forall sagaID status, may_publish se (reply_message sagaID status)) ->
  (forall m, delivery_mail d m -> may_mail se m) -> effects se (dispatch (SMTP smtp) d).
Proof.
  intros Hp Hm. pose proof ReplyConfirmation_effects. unfold dispatch.
  destruct (String.eqb (d_RoutingKey d) RoutingConfirm) eqn:E1.
  { apply String.eqb_eq in E1.
    destruct (unmarshal (A := ConfirmationRequest) (d_Body d)) as [req|e] eqn:Eu; [|solve_effects].
    pose proof (sendWithRetry_effects (confirmation_mail smtp (cr_To req) (cr_ConfirmURL req))).
    assert (may_mail se (confirmation_mail smtp (cr_To req) (cr_ConfirmURL req)))
      by (apply Hm; left; eauto).
    unfold dispatch_confirmation. cbn [SendConfirmationEmail SMTP]. solve_effects. }
  destruct (String.eqb (d_RoutingKey d) RoutingRelease) eqn:E2; [|solve_effects].
  apply String.eqb_eq in E2.
  destruct (unmarshal (A := ReleaseRequest) (d_Body d)) as [req|e] eqn:Eu; [|solve_effects].
  apply SendMail_effects, Hm. right. eauto.
Qed.

Lemma handle_effects d :
  (forall sagaID status, may_publish se (reply_message sagaID status)) ->
  (forall m, delivery_mail d m -> may_mail se m) ->
  effects se (handle (SMTP smtp) (redisDeduper ttl) d).
Proof.
  intros Hp Hm. pose proof (dispatch_effects d Hp Hm). pose proof ReplyConfirmation_effects.
  pose proof AlreadyProcessed_effects. pose proof MarkProcessed_effects.
  unfold handle, check_seen, replyAlreadySent. solve_effects.
Qed.

Lemma consume_effects d :
  may_settle se -> (forall sagaID status, may_publish se (reply_message sagaID status)) ->
  (forall m, delivery_mail d m -> may_mail se m) ->
  effects se (consume (SMTP smtp) (redisDeduper ttl) d).
Proof.
  intros Hs Hp Hm w. unfold consume. pose proof (handle_effects d Hp Hm w) as H.
  destruct (handle (SMTP smtp) (redisDeduper ttl) d w) as [r w'].
  etrans; [exact H|]. by apply rtc_once, eff_emit; destruct r.
Qed.

Lemma serve_SendConfirmation_effects req :
  may_mail se (confirmation_mail smtp (req_Email req) (req_ConfirmUrl req)) ->
  effects se (serve_SendConfirmation (SMTP smtp) (redisDeduper ttl) req).
Proof.
  intros Hm. pose proof (SendMail_effects _ Hm). pose proof AlreadyProcessed_effects.
  pose proof MarkProcessed_effects. unfold serve_SendConfirmation.
  cbn [SendConfirmationEmail SMTP]. solve_effects.
Qed.
End Notifier.

(** ** The cycle of the scanner as it is wired *)

Lemma run_scan_effects {X : Type} `{!Env X} allow cfg redis :
  (forall p, may_publish allow p) -> effects (X := X) allow (run_scan cfg redis).
Proof.
  intros Hp. apply scan_effects; [apply run_github_effects|].
  intros. by apply Publish_effects.
Qed.

(** A request publishes nothing, and calls the notifier only for the
    subscription that it asks for. *)
Lemma run_request_effects {X : Type} `{!Env X} allow cfg redis transport bind req :
  calls_for allow (BaseURL cfg) (APIKey cfg) bind req ->
  any_series allow = true \/ valid_utf8 (r_Method req) = true ->
  effects (X := X) allow (run_request cfg redis transport bind req).
Proof.
  intros Hc Hm. apply BuildRouter_effects; [..|done|done].
  - intros. apply run_github_effects.
  - intros. by apply StartConfirmation_effects.
  - intros. by apply ReactivateConfirmation_effects.
Qed.
