(* ===== verification/Commands.v ===== *)
(** * The confirmation commands of the outbox

    Which commands an operation may add to the outbox: a statement other than
    the INSERT of the outbox adds none and changes none, and a start of the saga
    adds the command of its own confirmation. [commands_in C] is kept by every
    operation that adds only commands of [C]. *)

From S2P Require Import Prelude GoErrors Tables Env Logic Json Wire.
From S2P Require Import SubStore SagaStore OutboxStore TrackStore Notification SagaMachine.
From S2P Require Import Orchestrator RepoSpec Email Service Gateway Handler Config.
From S2P Require Import ReplyConsumer Sweeper Relay Wiring.

Local Open Scope string_scope.
Local Open Scope Z_scope.

(** ** The commands *)

(** The routing key, the message identifier and the payload of a row. *)
Definition Command : Type := string * string * string.
Definition ob_command (m : OutboxMessage) : Command :=
  (ob_RoutingKey m, ob_MessageID m, ob_Payload m).

Definition commands_in (C : Command -> Prop) (d : DB) : Prop :=
  forall m, m ∈ outbox d -> C (ob_command m).

(** The command of the confirmation of [token], for some saga. *)
Definition confirm_command `{!PgServer} (email token url : string) (c : Command) : Prop :=
  exists sagaID body,
    pg_jsonb (marshal (mkConfirmationRequest sagaID email url)) = Some body /\
    c = (RoutingConfirm, "confirm:" +:+ token, body).

#[export] Instance commands_stable C : seq_stable (commands_in C).
Proof. split. intros t d _ H. exact H. Qed.

Lemma commands_same C d d' : outbox d' = outbox d -> commands_in C d -> commands_in C d'.
Proof. unfold commands_in. by intros ->. Qed.

(** ** The statements *)

(** What the tables of the subscriptions and of the repositories do not matter
    to, nor the states of the sagas, nor a requeue. *)
Class Steady (P : DB -> Prop) : Prop := {
  steady_sequences :: seq_stable P;
  steady_same : forall d d', outbox d' = outbox d -> saga_ID <$> saga d' = saga_ID <$> saga d ->
    P d -> P d';
  steady_requeue : forall u d, P d ->
    P (set_outbox (update_where (of_saga u) (set_published None) (outbox d)) d) }.

Lemma stmt_steady `{!Steady P} {A} (f : sql A) :
  (forall now d, outbox (f now d).2 = outbox d /\
     saga_ID <$> saga (f now d).2 = saga_ID <$> saga d) -> stmt_keeps P f.
Proof. intros Hf now d. by apply steady_same; apply Hf. Qed.

Lemma stmt_commands {A} C (f : sql A) :
  (forall now d, outbox (f now d).2 = outbox d) -> stmt_keeps (commands_in C) f.
Proof. intros Hf now d. by apply commands_same. Qed.

Lemma update_commands C P f d :
  (forall m, ob_command (f m) = ob_command m) -> commands_in C d ->
  commands_in C (set_outbox (update_where P f (outbox d)) d).
Proof.
  intros Hf HC m (a & Ha & ->)%elem_of_update_where. destruct (P a); [rewrite Hf|]; by apply HC.
Qed.

#[export] Hint Extern 0 (Steady _) => apply _ : go_db.

#[export] Instance commands_steady C : Steady (commands_in C).
Proof.
  split; [apply _|by intros d d' Ho _; apply commands_same|]. intros u d. by apply update_commands.
Qed.

Lemma insert_outbox_commands `{!PgServer} C sid key mid payload :
  (forall body, pg_jsonb payload = Some body -> C (key, mid, body)) ->
  stmt_keeps (commands_in C) (fun now d => insert_outbox now sid key mid payload d).
Proof.
  intros Hnew now d HC. unfold insert_outbox.
  destruct (pg_jsonb payload) as [body|]; repeat case_match; try done;
    (intros m [Hm|Hm]%elem_of_app; [by apply HC|]);
    apply list_elem_of_singleton in Hm as ->; by apply Hnew.
Qed.

(** The statements on the other tables. *)
Ltac other_table :=
  first
    [ apply stmt_steady; intros now d; simpl; repeat case_match;
      solve [done | by split; [|apply fmap_update_where]]
    | apply stmt_commands; intros now d; simpl; repeat case_match; done ].

(** The rules, by the head of the computation. *)
Ltac solve_commands :=
  repeat first
    [ solve [auto 3 with go_db nocore]
    | lazymatch goal with
      | |- keeps _ (mbind _ _) => apply keeps_bind; [|intros ?]
      | |- keeps _ (wrap _ _) => apply keeps_wrap
      | |- keeps _ (try _) => apply keeps_try
      | |- keeps _ (defer_rollback _) => apply keeps_defer_rollback; [apply _|]
      | |- keeps _ Commit => apply keeps_Commit, _
      | |- keeps _ (for_each _ _) => apply keeps_for_each; intros ?
      | |- keeps _ (db_stmt _) => apply keeps_db_stmt
      | |- keeps _ (ext_stmt _ _) => apply keeps_ext_stmt
      | |- keeps _ (match ?x with _ => _ end) => destruct x
      | |- keeps _ (match ?x with _ => _ end _) => destruct x
      | |- stmt_keeps _ _ => first [apply stmt_keeps_query | other_table]
      end ].

Section Statements.
Context {X : Type} `{!Env X}.
Context (P : DB -> Prop) `{!Steady P}.
Local Abbreviation steady := (keeps (X := X) P).

Lemma UpdateState_steady id st le : steady (UpdateState id st le).
Proof. unfold UpdateState, update_state_stmt. solve_commands. Qed.
Lemma MarkFailed_steady id : steady (MarkFailed id).
Proof. unfold MarkFailed. solve_commands. Qed.
Lemma ReactivateInTx_steady e id token : steady (ReactivateInTx e id token).
Proof. unfold ReactivateInTx, reactivate_stmt. solve_commands. Qed.
Lemma CreateInTx_sub_steady e email repo token : steady (SubStore.CreateInTx e email repo token).
Proof. unfold SubStore.CreateInTx, insert_subscription. solve_commands. Qed.
Lemma RegisterRepo_steady repo : steady (RegisterRepo repo).
Proof. unfold RegisterRepo, upsert_repository. solve_commands. Qed.
Lemma Requeue_steady id : steady (Requeue id).
Proof.
  unfold Requeue. apply keeps_wrap, keeps_db_stmt. intros now d HP. simpl.
  case_match; [by apply steady_requeue|done].
Qed.
Lemma TouchLastChecked_steady repo : steady (TouchLastChecked repo).
Proof. unfold TouchLastChecked, upsert_repository. solve_commands. Qed.
Lemma RecordRelease_steady repo tag : steady (RecordRelease repo tag).
Proof. unfold RecordRelease, upsert_repository. solve_commands. Qed.
Lemma FetchUnpublished_steady n : steady (FetchUnpublished n).
Proof. unfold FetchUnpublished. solve_commands. Qed.
Lemma FindResumable_steady b : steady (FindResumable b).
Proof. unfold FindResumable. solve_commands. Qed.
Lemma SubscribersForRepo_steady repo : steady (SubscribersForRepo repo).
Proof. unfold SubscribersForRepo, GetSubscribersByRepo. solve_commands. Qed.
End Statements.

#[export] Hint Resolve UpdateState_steady MarkFailed_steady ReactivateInTx_steady
  CreateInTx_sub_steady RegisterRepo_steady TouchLastChecked_steady RecordRelease_steady
  FetchUnpublished_steady FindResumable_steady SubscribersForRepo_steady Requeue_steady : go_db.

Lemma CreateInTx_saga_commands {X : Type} `{!Env X} C e sg :
  keeps (X := X) (commands_in C) (SagaStore.CreateInTx e sg).
Proof. unfold SagaStore.CreateInTx, insert_saga. solve_commands. Qed.
#[export] Hint Resolve CreateInTx_saga_commands : go_db.

(** ** The operations that add no command *)

Section Frames.
Context {X : Type} `{!Env X}.
Context (P : DB -> Prop) `{!Steady P}.
Local Abbreviation steady := (keeps (X := X) P).

Lemma HandleReply_steady body : steady (HandleReply body).
Proof. unfold HandleReply, GetByID, advance, compensate. solve_commands. Qed.

Lemma retry_reply_steady n body : steady (retry_reply n body).
Proof.
  pose proof (HandleReply_steady body). induction n as [|n IH]; simpl; solve_commands.
Qed.

Lemma Sweep_steady stale : steady (Sweep stale).
Proof. unfold Sweep, FindResumable, sweep_one. solve_commands. Qed.

Lemma Confirm_steady token : steady (Confirm token).
Proof. unfold Confirm, GetSubscriptionByToken, ConfirmSubscription. solve_commands. Qed.

Lemma Unsubscribe_steady token : steady (Unsubscribe token).
Proof. unfold Unsubscribe, GetSubscriptionByToken, DeleteSubscription. solve_commands. Qed.

Lemma GetSubscriptions_steady email : steady (GetSubscriptions email).
Proof. unfold GetSubscriptions, GetSubscriptionsByEmail. solve_commands. Qed.
End Frames.

(** ** The starts of the saga *)

Section Starts.
Context {X : Type} `{!Env X}.
Variable C : Command -> Prop.
Local Abbreviation ckeeps := (keeps (X := X) (commands_in C)).
Variables (email repo token url : string).
Hypothesis own_command : forall c, confirm_command email token url c -> C c.

Lemma enqueueConfirmation_commands subID :
  ckeeps (enqueueConfirmation subID email repo token url).
Proof.
  unfold enqueueConfirmation, Enqueue. apply keeps_bind; [auto with go_db|]. intros sagaID.
  apply keeps_bind; [auto with go_db|]. intros _.
  apply keeps_wrap, keeps_wrap, keeps_ext_stmt, insert_outbox_commands.
  intros body Hbody. apply own_command. by exists sagaID, body.
Qed.

Lemma createSubscriptionAndSaga_commands id :
  ckeeps (createSubscriptionAndSaga email repo token id).
Proof. unfold createSubscriptionAndSaga. solve_commands. Qed.

Lemma dispatchSync_commands sagaID subID :
  ckeeps (dispatchSync SendConfirmation sagaID subID email repo url).
Proof. unfold dispatchSync, compensateSync, SendConfirmation. solve_commands. Qed.

Lemma StartConfirmation_commands t :
  ckeeps (StartConfirmation (transport_sender t) email repo token url).
Proof.
  pose proof enqueueConfirmation_commands. pose proof createSubscriptionAndSaga_commands.
  pose proof dispatchSync_commands.
  unfold StartConfirmation, startConfirmationSync. destruct t; cbn [transport_sender]; solve_commands.
Qed.

Lemma ReactivateConfirmation_commands t id :
  ckeeps (ReactivateConfirmation (transport_sender t) id email repo token url).
Proof.
  pose proof enqueueConfirmation_commands. pose proof createSubscriptionAndSaga_commands.
  pose proof dispatchSync_commands.
  unfold ReactivateConfirmation, reactivateConfirmationSync. destruct t; cbn [transport_sender]; solve_commands.
Qed.
End Starts.
