(* ===== verification/System.v ===== *)
(** * The running monolith

    The five activities that [run] of main.go starts (the HTTP server, the
    scanner, the relay, the reply consumer and the sweeper) as operations on one
    world, in any order and any number, with an environment that may change in
    between. An operation is one whole request, cycle, batch, delivery or
    sweep; Stepwise.v and Interleave.v cut them at their statements. *)

From S2P Require Import Prelude GoErrors Tables Env Logic Script Schema Samples Json Wire.
From S2P Require Import Spec SubStore SagaStore OutboxStore Notification SagaMachine Orchestrator.
From S2P Require Import Service Gateway Scanner Handler Config Relay ReplyConsumer Sweeper Wiring.

Local Open Scope string_scope.
Local Open Scope Z_scope.

Inductive Op :=
  | OpRequest (req : Request)
  | OpScan
  | OpDrain
  | OpReply (body : string)
  | OpSweep.

Section System.
Context {X : Type} `{!Env X}.
Variables (cfg : Config) (redis : bool) (transport : Transport).
Variable ShouldBindJSON : string -> option SubscribeRequest.

Definition run_op (op : Op) : GoM X unit :=
  match op with
  | OpRequest req => run_request cfg redis transport ShouldBindJSON req ;; mret ()
  | OpScan => run_scan cfg redis
  | OpDrain => drain Publish
  | OpReply body => run_delivery body
  | OpSweep => Sweep (stale_after cfg)
  end.

(** [runs ops w w']: the process went from [w] to [w'] doing [ops]. *)
Inductive runs : list Op -> World X -> World X -> Prop :=
  | runs_done w : runs [] w w
  | runs_op op ops w w' : runs ops (run_op op w).2 w' -> runs (op :: ops) w w'
  | runs_env x ops w w' : runs ops (set_ext x w) w' -> runs ops w w'.
End System.

(** ** What an operation may do to the subscriptions *)

(** The steps of the abstract machine that an operation may cause: those of a
    request are for the pair in its body or the token in its path, and need the
    API key if one is configured. *)
Definition op_label (cfg : Config) (bind : string -> option SubscribeRequest)
    (op : Op) (l : Label) : Prop :=
  match op with
  | OpRequest req =>
      authorized (APIKey cfg) req = true /\
      match r_Route req, l with
      | RSubscribe, (LSubscribe k _ | LRevive k _ | LFail k) =>
          exists sr, bind (r_Body req) = Some sr /\ k = (sr_Email sr, sr_Repo sr)
      | RConfirm tok, LConfirm tok' | RUnsubscribe tok, LUnsubscribe tok' => tok' = tok
      | _, _ => False
      end
  | OpReply _ | OpSweep => exists k, l = LFail k
  | OpScan | OpDrain => False
  end.

Section Evolution.
Context `{!PgServer}.
Implicit Types d : DB.

Lemma abs_same d d' : subscriptions d' = subscriptions d -> abs d' = abs d.
Proof. unfold abs. by intros ->. Qed.

(** The token of a row that no other row of the next table has. *)
Lemma fresh_after l l' tok s' :
  NoDup (sub_key <$> l) -> NoDup (sub_Token <$> l') -> s' ∈ l' -> sub_Token s' = tok ->
  (forall s, s ∈ l -> sub_key s <> sub_key s' -> s ∈ l') ->
  fresh tok (delete (sub_key s') (abs_rows l)).
Proof.
  intros Hnd Htok Hs' Ht Hin k st [Hne Hk]%lookup_delete_Some Heq.
  apply abs_rows_lookup in Hk as (s & Hs & <- & <-); [|done].
  rewrite state_of_token in Heq. apply Hne.
  assert (s = s') as ->; [|done].
  apply (NoDup_fmap_inj sub_Token l'); [done|apply Hin; congruence|done|congruence].
Qed.

Lemma subscribed_evolves (L : Label -> Prop) email repo token d d' :
  db_ok d -> db_ok d' -> subscribed email repo token d d' ->
  (L (LSubscribe (email, repo) token) /\ L (LFail (email, repo))) ->
  evolves L (abs d) (abs d').
Proof.
  intros Hok Hok' (id & now & st & Hst & Hs & _) [HL1 HL2].
  pose proof (sub_keys_unique _ _ (db_subscriptions_ok _ Hok')) as Hk.
  pose proof (sub_tokens_unique _ _ (db_subscriptions_ok _ Hok')) as Ht.
  set (row := mkSubscription id email repo token false st now) in *.
  assert (sub_key row ∉ (sub_key <$> subscriptions d)) as Hnew.
  { rewrite Hs, fmap_app in Hk. apply NoDup_app in Hk as (_ & Hk & _). intros Hin.
    apply (Hk _ Hin). simpl. set_solver. }
  assert (abs d !! (email, repo) = None) as Hnone.
  { apply abs_rows_none. intros s Hin Heq. apply Hnew. change (sub_key row) with (email, repo).
    rewrite <- Heq. by apply list_elem_of_fmap_2. }
  assert (fresh token (abs d)) as Hf.
  { rewrite <- (delete_id (abs d) (email, repo)) by done.
    apply (fresh_after _ (subscriptions d') _ row);
      [apply Hok|done|rewrite Hs; set_solver|done|rewrite Hs; set_solver]. }
  unfold abs at 2. rewrite Hs, abs_rows_snoc by done. fold (abs d).
  change (sub_key row) with (email, repo).
  pose proof (sp_subscribe (email, repo) token (abs d) Hnone Hf) as Hstep.
  destruct Hst as [-> | ->].
  - change (state_of row) with (Waiting token). exact (evolves_one _ _ _ _ HL1 Hstep).
  - eapply evolves_trans; [exact (evolves_one _ _ _ _ HL1 Hstep)|].
    rewrite <- (insert_insert_eq (abs d) (email, repo) (state_of row) (Waiting token)).
    eapply evolves_one; [exact HL2|]. change (state_of row) with (break (Waiting token)).
    apply sp_fail. by rewrite lookup_insert_eq.
Qed.

Lemma revived_evolves (L : Label -> Prop) s token d d' :
  db_ok d -> db_ok d' -> s ∈ subscriptions d -> revived (sub_ID s) token d d' ->
  (L (LRevive (sub_key s) token) /\ L (LFail (sub_key s))) ->
  evolves L (abs d) (abs d').
Proof.
  intros Hok Hok' Hin ((s0 & Hin0 & Hid & Hfailed) & (st & Hst & Hs) & _) [HL1 HL2].
  pose proof (sub_keys_unique _ _ (db_subscriptions_ok _ Hok)) as Hk.
  assert (forall a, a ∈ subscriptions d -> by_id (sub_ID s) a = true -> a = s) as Hone.
  { intros a Ha Heq%Z.eqb_eq. apply (NoDup_fmap_inj sub_ID (subscriptions d)); [apply Hok|done..]. }
  assert (s0 = s) as -> by (apply Hone; [done|by apply Z.eqb_eq]).
  set (f := fun a => mkSubscription (sub_ID a) (sub_Email a) (sub_Repo a) token false st
                       (sub_CreatedAt a)) in Hs.
  assert (by_id (sub_ID s) s = true) as Hbid by apply Z.eqb_refl.
  assert (abs d !! sub_key s = Some (Broken (sub_Token s) (sub_Confirmed s))) as Hsome.
  { apply abs_rows_lookup; [done|]. exists s. do 2 (split; [done|]).
    unfold state_of, has_status. by rewrite Hfailed, String.eqb_refl. }
  assert (fresh token (delete (sub_key s) (abs d))) as Hf.
  { change (sub_key s) with (sub_key (f s)). apply (fresh_after _ (subscriptions d') _ (f s));
      [done|apply Hok'|..|done|]; rewrite Hs.
    - apply elem_of_update_where. exists s. by rewrite Hbid.
    - intros a Ha Hne. apply elem_of_update_where. exists a. split; [done|].
      destruct (by_id (sub_ID s) a) eqn:E; [|done]. by rewrite (Hone a Ha E) in Hne. }
  unfold abs at 2. rewrite Hs, (abs_rows_update _ f _ s) by done. fold (abs d).
  pose proof (sp_revive _ _ _ token _ Hsome Hf) as Hstep.
  destruct Hst as [-> | ->].
  - change (state_of (f s)) with (Waiting token). exact (evolves_one _ _ _ _ HL1 Hstep).
  - eapply evolves_trans; [exact (evolves_one _ _ _ _ HL1 Hstep)|].
    rewrite <- (insert_insert_eq (abs d) (sub_key s) (state_of (f s)) (Waiting token)).
    eapply evolves_one; [exact HL2|]. change (state_of (f s)) with (break (Waiting token)).
    apply sp_fail. by rewrite lookup_insert_eq.
Qed.

Lemma confirm_evolves (L : Label -> Prop) s d d' :
  db_ok d -> s ∈ subscriptions d ->
  subscriptions d' = subscriptions d \/ subscriptions d' = confirmed_rows s d ->
  L (LConfirm (sub_Token s)) -> evolves L (abs d) (abs d').
Proof.
  intros Hok Hin Hs HL. unfold confirmed_rows in Hs.
  destruct (sub_Confirmed s) eqn:Hc.
  { rewrite (abs_same d d') by by destruct Hs. apply evolves_refl. }
  destruct Hs as [Hs|Hs]; [rewrite (abs_same d d') by done; apply evolves_refl|].
  pose proof (sub_keys_unique _ _ (db_subscriptions_ok _ Hok)) as Hk.
  eapply evolves_one; [exact HL|]. unfold abs. rewrite Hs, (abs_rows_update _ _ _ s); try done.
  - rewrite <- (state_of_token s).
    assert (state_of (set_confirmed s) = activate (state_of s)) as ->.
    { unfold activate. by rewrite state_of_receives, Hc, state_of_token. }
    apply sp_confirm, abs_rows_lookup; [done|]. by exists s.
  - apply String.eqb_refl.
  - intros a Ha Heq%String.eqb_eq.
    apply (NoDup_fmap_inj sub_Token (subscriptions d)); [apply Hok|done..].
Qed.

Lemma deleted_evolves (L : Label -> Prop) token d :
  db_ok d -> L (LUnsubscribe token) -> evolves L (abs d) (abs (deleted token d)).
Proof.
  intros Hok HL. unfold abs, deleted. simpl.
  destruct (select_where (by_token token) (subscriptions d)) as [|s l] eqn:E.
  - unfold delete_where. rewrite (select_where_all (fun a => negb (by_token token a))).
    { apply evolves_refl. }
    intros a Ha. destruct (by_token token a) eqn:Et; [|done].
    assert (a ∈ select_where (by_token token) (subscriptions d)) as Hin
      by by apply elem_of_select_where. rewrite E in Hin. by apply elem_of_nil in Hin.
  - assert (s ∈ s :: l) as Hin by set_solver. rewrite <- E in Hin.
    apply elem_of_select_where in Hin as [Hin Ht].
    eapply evolves_one; [exact HL|]. rewrite (abs_rows_delete _ _ s); try done; [|apply Hok|].
    + apply String.eqb_eq in Ht as <-. rewrite <- (state_of_token s).
      apply sp_unsubscribe, abs_rows_lookup; [apply Hok|]. by exists s.
    + intros a Ha Heq%String.eqb_eq. apply String.eqb_eq in Ht.
      apply (NoDup_fmap_inj sub_Token (subscriptions d)); [apply Hok|done|done|congruence].
Qed.

Lemma failed_evolves (L : Label -> Prop) d d' :
  db_ok d -> (forall k, L (LFail k)) ->
  Forall2 (fun s s' => s' = s \/ s' = set_failed s) (subscriptions d) (subscriptions d') ->
  evolves L (abs d) (abs d').
Proof. intros Hok HL Hs. apply abs_rows_fail; [apply Hok|done|done]. Qed.

Lemma maybe_failed_rows id l l' :
  maybe_failed id l l' -> Forall2 (fun s s' => s' = s \/ s' = set_failed s) l l'.
Proof.
  intros [->| ->].
  - apply Forall_Forall2_diag, Forall_forall. by left.
  - apply Forall2_fmap_r, Forall_Forall2_diag, Forall_forall. intros s _. simpl.
    destruct (by_id id s); [by right|by left].
Qed.
End Evolution.

(** ** What one operation may do *)

Section Safety.
Context {X : Type} `{!Env X} `{!PgServerLaws env_server} `{!RedisLaws X}.
Implicit Types w : World X.

Definition op_safe (L : Label -> Prop) w w' : Prop :=
  w_tx w' = None /\ db_ok (w_db w') /\ sagas_grow (w_db w) (w_db w') /\
  evolves L (abs (w_db w)) (abs (w_db w')).

Lemma op_safe_same L w w' :
  db_ok (w_db w) -> w_tx w' = None -> w_db w' = w_db w -> op_safe L w w'.
Proof.
  intros Hok Htx Hdb. unfold op_safe. rewrite Hdb.
  split_and!; try done. apply evolves_refl.
Qed.

(** A handler's answer adds nothing to what the service did. *)
Lemma wp_answer {A} (m : GoM X A) (k : result A -> GoM X (Z * Payload)) L w :
  (forall r w', wp (k r) (fun _ w'' => w_db w'' = w_db w' /\ w_tx w'' = w_tx w') w') ->
  wp m (fun _ w' => op_safe L w w') w ->
  wp (r ← try m; k r) (fun _ w' => op_safe L w w') w.
Proof.
  intros Hk Hm. apply wp_bind, wp_try. eapply wp_mono; [exact Hm|]. intros r w' Hs.
  eapply wp_mono; [apply Hk|]. intros r' w'' [Hdb Htx]. unfold op_safe. by rewrite Hdb, Htx.
Qed.

Variables (gh : GitHubClient X) (sg : sagaStarter X) (baseURL : string).
Variable bind : string -> option SubscribeRequest.
Context `{!GitHubClientSpec gh} `{!SagaStarterSpec sg}.

(** The labels of a subscription to [k]. *)
Definition subscribe_labels (L : Label -> Prop) (k : Key) : Prop :=
  (forall tok, L (LSubscribe k tok) /\ L (LRevive k tok)) /\ L (LFail k).

(** The steps that one token explains. *)
Definition token_label (k : Key) (token : string) (l : Label) : Prop :=
  l = LSubscribe k token \/ l = LRevive k token \/ l = LFail k.

Lemma subscribe_token L k token :
  subscribe_labels L k -> forall l, token_label k token l -> L l.
Proof. intros [HL HF] l [->|[->| ->]]; [apply HL..|done]. Qed.

Lemma subscribe_evolves L email repo w r w' :
  db_ok (w_db w) -> db_ok (w_db w') -> subscribe_labels L (email, repo) ->
  subscribe_outcome gh email repo w r w' -> evolves L (abs (w_db w)) (abs (w_db w')).
Proof.
  intros Hok Hok' [HL HF].
  assert (forall token, subscribed email repo token (w_db w) (w_db w') ->
    evolves L (abs (w_db w)) (abs (w_db w'))) as Hsub.
  { intros token H. eapply subscribed_evolves; [done|done|exact H|]. split; [apply HL|done]. }
  assert (forall s token, s ∈ subscriptions (w_db w) -> sub_key s = (email, repo) ->
    revived (sub_ID s) token (w_db w) (w_db w') ->
    evolves L (abs (w_db w)) (abs (w_db w'))) as Hrev.
  { intros s token Hs Hk H. eapply revived_evolves; [done|done|exact Hs|exact H|].
    rewrite Hk. split; [apply HL|done]. }
  intros [[Hs _]|[(token & H)|(s & token & Hs & Hk & H)]]%subscribe_outcome_maybe; [|eauto..].
  rewrite (abs_same _ _ Hs). apply evolves_refl.
Qed.

Lemma handler_Subscribe_safe L body w :
  db_ok (w_db w) -> w_tx w = None ->
  (forall req, bind body = Some req -> subscribe_labels L (sr_Email req, sr_Repo req)) ->
  wp (handler_Subscribe gh sg baseURL bind body) (fun _ w' => op_safe L w w') w.
Proof.
  intros Hok Htx HL. unfold handler_Subscribe.
  destruct (bind body) as [req|]; [|by apply wp_ret, op_safe_same].
  apply wp_answer; [by intros [[]|e] w'|].
  eapply wp_mono; [by apply Subscribe_result|].
  intros r w' (Htx' & Hok' & Hg & Hout). split_and!; try done.
  eapply subscribe_evolves; [done|done|by apply HL|exact Hout].
Qed.

Lemma confirm_outcome_evolves L token d r d' :
  db_ok d -> L (LConfirm token) -> confirm_outcome token d r d' ->
  saga d' = saga d /\ evolves L (abs d) (abs d').
Proof.
  intros Hok HL (_ & Hg & H). split; [done|]. destruct r as [[]|e].
  - destruct H as (s & Hin & <- & Hs & _). eapply confirm_evolves; eauto.
  - destruct (KindOf e); try done.
    + destruct H as [->|(s & Hin & <- & Hs & _)]; [apply evolves_refl|].
      by eapply confirm_evolves.
    + destruct H as [-> _]. apply evolves_refl.
Qed.

Lemma Confirm_keeps token : keeps (X := X) db_ok (Confirm token).
Proof.
  unfold Confirm. apply keeps_bind; [auto with go_db|]. intros []; [|auto with go_db].
  apply keeps_bind; [apply keeps_if; auto with go_db|auto with go_db].
Qed.

Lemma Unsubscribe_keeps token : keeps (X := X) db_ok (Unsubscribe token).
Proof.
  unfold Unsubscribe. apply keeps_bind; [auto with go_db|]. intros []; auto with go_db.
Qed.

Lemma handler_ConfirmSubscription_safe L token w :
  db_ok (w_db w) -> w_tx w = None -> L (LConfirm token) ->
  wp (handler_ConfirmSubscription token) (fun _ w' => op_safe L w w') w.
Proof.
  intros Hok Htx HL. apply wp_answer; [by intros [[]|e] w'|].
  apply (wp_keeps db_ok); [apply Confirm_keeps|done|done|].
  eapply wp_mono; [apply Confirm_result|]. intros r w' ((Htx' & _) & Hout) Hok'.
  eapply confirm_outcome_evolves in Hout as [Hg Hc]; [|done|exact HL].
  split; [congruence|]. split; [done|]. split; [by apply sagas_grow_same|done].
Qed.

Lemma handler_Unsubscribe_safe L token w :
  db_ok (w_db w) -> w_tx w = None -> L (LUnsubscribe token) ->
  wp (handler_Unsubscribe token) (fun _ w' => op_safe L w w') w.
Proof.
  intros Hok Htx HL. apply wp_answer; [by intros [[]|e] w'|].
  apply (wp_keeps db_ok); [apply Unsubscribe_keeps|done|done|].
  eapply wp_mono; [apply Unsubscribe_result|]. intros r w' ((Htx' & _) & Hout) Hok'.
  assert (w_db w' = w_db w \/ w_db w' = deleted token (w_db w)) as H.
  { destruct r as [[]|e]; simpl in Hout; [right; apply Hout|].
    destruct (KindOf e); try done; left; apply Hout. }
  destruct H as [H|H]; [apply op_safe_same; [done|congruence|done]|].
  split; [congruence|]. split; [done|]. rewrite H. split; [by apply sagas_grow_same|].
  by apply deleted_evolves.
Qed.

Lemma handler_GetSubscriptions_safe L email w :
  db_ok (w_db w) -> w_tx w = None ->
  wp (handler_GetSubscriptions email) (fun _ w' => op_safe L w w') w.
Proof.
  intros Hok Htx. unfold handler_GetSubscriptions.
  destruct (is_empty email); [by apply wp_ret, op_safe_same|].
  apply wp_answer; [by intros r w'|]. eapply wp_mono; [apply GetSubscriptions_result|].
  intros r w' ((Htx' & _) & Hdb & _). apply op_safe_same; [done|congruence|done].
Qed.
End Safety.

Section Operations.
Context {X : Type} `{!Env X} `{!PgServerLaws env_server} `{!RedisLaws X}.
Variables (cfg : Config) (redis : bool) (transport : Transport).
Variable bind : string -> option SubscribeRequest.
Implicit Types w : World X.
Local Abbreviation may := (op_label cfg bind).

(** A handler behind the key: it runs only for an authorized request. *)
Lemma APIKeyAuth_safe L req m w :
  db_ok (w_db w) -> w_tx w = None ->
  (authorized (APIKey cfg) req = true -> wp m (fun _ w' => op_safe L w w') w) ->
  wp (APIKeyAuth (APIKey cfg) req m) (fun _ w' => op_safe L w w') w.
Proof.
  intros Hok Htx Hm. apply wp_APIKeyAuth; [exact Hm|]. intros res _ _. by apply op_safe_same.
Qed.

(** A request: the safety of its route, through the middleware. *)
Lemma run_request_safe req w :
  db_ok (w_db w) -> w_tx w = None ->
  wp (run_request cfg redis transport bind req)
    (fun _ w' => op_safe (may (OpRequest req)) w w') w.
Proof.
  intros Hok Htx. apply BuildRouter_wp. intros x.
  apply (wp_mono _ (fun _ w' => op_safe (may (OpRequest req)) (set_ext x w) w')).
  2: { intros [res|e] w' H; [intros id m|]; exact H. }
  unfold dispatch_route. destruct (r_Route req) as [| | | |tok|tok| |] eqn:E;
    try (apply wp_ret; by apply op_safe_same); apply APIKeyAuth_safe; try done; intros Ha.
  - apply handler_Subscribe_safe; [apply _|apply _|done|done|]. intros sr Hb.
    unfold subscribe_labels, op_label. rewrite E. split; [intros tok|]; [split|]; eauto.
  - apply handler_ConfirmSubscription_safe; [done|done|]. unfold op_label. by rewrite E.
  - apply handler_Unsubscribe_safe; [done|done|]. unfold op_label. by rewrite E.
  - by apply handler_GetSubscriptions_safe.
Qed.

Lemma drain_keeps : keeps (X := X) db_ok (drain Publish).
Proof.
  unfold drain. apply keeps_bind; [auto with go_db|]. intros [msgs|e]; [|auto with go_db].
  induction msgs as [|m msgs IH]; simpl; [auto with go_db|].
  apply keeps_bind; [auto with go_db|]. intros []; [|auto with go_db].
  apply keeps_bind; auto with go_db.
Qed.

Lemma Sweep_keeps stale : keeps (X := X) db_ok (Sweep stale).
Proof.
  unfold Sweep. apply keeps_bind; [auto with go_db|]. intros now.
  apply keeps_bind; [auto with go_db|]. intros sagas. apply keeps_for_each. intros sg.
  unfold sweep_one. destruct (saga_State sg); auto 10 with go_db.
Qed.

Lemma retry_reply_keeps n body : keeps (X := X) db_ok (retry_reply n body).
Proof.
  induction n as [|n IH]; simpl; [auto with go_db|].
  apply keeps_bind; [apply keeps_try, HandleReply_keeps|]. intros [[]|e]; [auto with go_db|].
  destruct n; [auto with go_db|]. apply keeps_bind; [auto with go_db|].
  intros []; [auto with go_db|exact IH].
Qed.

(** The frame of a delivery, over its retries. *)
Lemma retry_reply_safe (L : Label -> Prop) n body w :
  db_ok (w_db w) -> w_tx w = None -> (forall k, L (LFail k)) ->
  wp (retry_reply n body) (fun _ w' => op_safe L w w') w.
Proof.
  intros Hok Htx HL. revert w Hok Htx.
  induction n as [|n IH]; intros w Hok Htx; simpl; [by apply wp_ret, op_safe_same|].
  apply wp_bind, wp_try.
  apply (wp_keeps db_ok); [apply HandleReply_keeps|done|done|].
  eapply wp_mono; [by apply HandleReply_safe|]. intros r w1 [(Htx1 & _) Hdb1] Hok1.
  assert (op_safe L w w1) as Hs1.
  { split; [congruence|]. split; [done|]. destruct Hdb1 as [-> |(rep & sg & _ & _ & _ & _ & Hs)].
    - split; [done|]. apply evolves_refl.
    - split; [by apply sagas_grow_moves, Hs|]. apply failed_evolves; [done|done|].
      eapply maybe_failed_rows, Hs. }
  destruct r as [[]|e]; [by apply wp_ret|]. destruct n; [by apply wp_throw|].
  apply wp_bind, wp_select; intros x; [by apply wp_throw|].
  destruct Hs1 as (Htx1' & _ & Hg1 & Hc1).
  eapply wp_mono; [by apply IH|]. intros r w2 (Htx2 & Hok2 & Hg2 & Hc2).
  split; [done|]. split; [done|]. split; [by etrans|]. by eapply evolves_trans.
Qed.

Lemma run_op_safe op w :
  db_ok (w_db w) -> w_tx w = None ->
  op_safe (may op) w (run_op cfg redis transport bind op w).2.
Proof.
  intros Hok Htx.
  cut (wp (run_op cfg redis transport bind op) (fun _ w' => op_safe (may op) w w') w); [done|].
  destruct op as [req| | |body|]; unfold run_op.
  - apply wp_bind. eapply wp_mono; [by apply run_request_safe|]. intros [res|e] w' H; exact H.
  - eapply wp_mono; [apply (scan_result _ (fun _ _ => True)); [apply run_checker_spec|done|done]|].
    intros r w' (_ & Htx' & Hok' & Hs & _ & Hg & _). split; [done|]. split; [done|].
    split; [by apply sagas_grow_same|]. rewrite (abs_same _ _ Hs). apply evolves_refl.
  - apply (wp_keeps db_ok); [apply drain_keeps|done|done|].
    eapply wp_mono; [apply drain_result|].
    intros r w' (_ & msgs & _ & sent & rest & _ & _ & _ & Htx' & Hs & Hg) Hok'.
    split; [congruence|]. split; [done|].
    split; [by apply sagas_grow_same|]. rewrite (abs_same _ _ Hs). apply evolves_refl.
  - assert (forall k, may (OpReply body) (LFail k)) as HL by (intros k; by exists k).
    pose proof (retry_reply_safe (may (OpReply body)) 3 body w Hok Htx HL) as H.
    unfold wp, run_delivery, handleWithRetry in *. by destruct (retry_reply 3 body w) as [r w'].
  - apply (wp_keeps db_ok); [apply Sweep_keeps|done|done|].
    eapply wp_mono; [by apply Sweep_result|]. intros r w' ((Htx' & _) & Hs & _) Hok'.
    split; [congruence|]. split; [done|]. split.
    + apply sagas_grow_moves. eapply Forall2_impl; [apply Hs|]. intros a b [->|(Ha & Hid & Hb)].
      * done.
      * split; [done|]. rewrite Ha, Hb. apply rtc_once, t_fail.
    + apply failed_evolves; [done|intros k; by exists k|].
      eapply Forall2_impl; [apply (sw_subs _ _ Hs)|]. intros s s' [->|[-> _]]; auto.
Qed.

(** The abstract machine along a run: the steps of each operation are labels
    that the operation may cause. *)
Inductive spec_runs : list Op -> Spec -> Spec -> Prop :=
  | spec_done m : spec_runs [] m m
  | spec_op op ops m1 m2 m3 :
      evolves (may op) m1 m2 -> spec_runs ops m2 m3 -> spec_runs (op :: ops) m1 m3.

Lemma spec_runs_evolves ops m m' :
  spec_runs ops m m' -> evolves (fun l => exists op, op ∈ ops /\ may op l) m m'.
Proof.
  induction 1 as [m|op ops m1 m2 m3 H12 H23 IH]; [apply evolves_refl|].
  eapply evolves_trans; (eapply evolves_mono; [|done]).
  - intros l Hl. exists op. split; [apply elem_of_cons; by left|done].
  - intros l (op' & Hin & Hl). exists op'. split; [apply elem_of_cons; by right|done].
Qed.

Lemma runs_safe ops w w' :
  runs cfg redis transport bind ops w w' -> db_ok (w_db w) -> w_tx w = None ->
  w_tx w' = None /\ db_ok (w_db w') /\ sagas_grow (w_db w) (w_db w') /\
  spec_runs ops (abs (w_db w)) (abs (w_db w')).
Proof.
  induction 1 as [w|op ops w w' Hrun IH|x ops w w' Hrun IH]; intros Hok Htx.
  - split_and!; [done..|constructor].
  - destruct (run_op_safe op w Hok Htx) as (Htx1 & Hok1 & Hg1 & Hc1).
    destruct (IH Hok1 Htx1) as (Htx2 & Hok2 & Hg2 & Hc2).
    split; [done|]. split; [done|]. split; [by etrans|]. by econstructor.
  - apply IH; [exact Hok|exact Htx].
Qed.
End Operations.

(** ** The properties of the running monolith *)

Section Properties.
Context {X : Type} `{!Env X} `{!PgServerLaws env_server} `{!RedisLaws X}.
Variables (cfg : Config) (redis : bool) (transport : Transport).
Variable bind : string -> option SubscribeRequest.
Implicit Types w : World X.

(** Invariant of the running process: whatever requests, scans, drains,
    replies and sweeps are run, in any order, whatever fails and with either
    transport, no transaction is left open and the tables stay well-formed:
    their keys are unique, the outbox is in the order of its identifiers, and
    the status of every subscription agrees with its [confirmed] flag. *)
Theorem system_invariant ops w w' :
  db_ok (w_db w) -> w_tx w = None -> runs cfg redis transport bind ops w w' ->
  w_tx w' = None /\ db_ok (w_db w').
Proof.
  intros Hok Htx Hrun. destruct (runs_safe _ _ _ _ ops w w' Hrun Hok Htx) as (? & ? & _). done.
Qed.

(** The saga lifecycle: in every such run no saga is lost, none changes its
    identity, each moves only along the documented transitions, and one that
    was completed or failed stays so. *)
Theorem system_saga_lifecycle ops w w' i sg :
  db_ok (w_db w) -> w_tx w = None -> runs cfg redis transport bind ops w w' ->
  saga (w_db w) !! i = Some sg ->
  exists sg', saga (w_db w') !! i = Some sg' /\ saga_identity sg' = saga_identity sg /\
    rtc transition (saga_State sg) (saga_State sg') /\
    (terminal (saga_State sg) = true -> saga_State sg' = saga_State sg).
Proof.
  intros Hok Htx Hrun Hi. destruct (runs_safe _ _ _ _ ops w w' Hrun Hok Htx) as (_ & _ & Hg & _).
  destruct Hg as (l & new & Heq & Hm).
  destruct (Forall2_lookup_l _ _ _ _ _ Hm Hi) as (sg' & Hi' & Hid & Hst).
  exists sg'. split; [rewrite Heq; by apply lookup_app_l_Some|]. split; [done|]. split; [done|].
  intros Ht. by eapply terminal_stuck.
Qed.

(** Double opt-in: in a run from a database without confirmed subscriptions,
    a subscription is confirmed only if a confirmation request of that run
    presented its token, and the API key if one is configured. *)
Theorem system_double_opt_in ops w w' s :
  db_ok (w_db w) -> w_tx w = None -> runs cfg redis transport bind ops w w' ->
  (forall s0, s0 ∈ subscriptions (w_db w) -> sub_Confirmed s0 = false) ->
  s ∈ subscriptions (w_db w') -> sub_Confirmed s = true ->
  exists req, OpRequest req ∈ ops /\ r_Route req = RConfirm (sub_Token s) /\
    authorized (APIKey cfg) req = true.
Proof.
  intros Hok Htx Hrun Hnone Hs Hc.
  destruct (runs_safe _ _ _ _ ops w w' Hrun Hok Htx) as (_ & Hok' & _ & Hspec).
  destruct (spec_runs_evolves _ _ _ _ _ Hspec) as (ls & Hls & Hsteps).
  assert (abs (w_db w') !! sub_key s = Some (state_of s)) as Hlook
    by (apply abs_rows_lookup; [apply Hok'|by exists s]).
  destruct (spec_steps_receives _ _ _ Hsteps _ _ Hlook) as [Hin|(st & Hst & Hr & _)];
    [by rewrite state_of_receives| |].
  - rewrite state_of_token in Hin. rewrite Forall_forall in Hls.
    destruct (Hls _ Hin) as (op & Hop & Hl).
    destruct op as [req| | |body|]; try done; [|by destruct Hl|by destruct Hl].
    destruct Hl as [Ha Hl]. exists req. destruct (r_Route req); try done. by subst.
  - apply abs_rows_lookup in Hst as (s0 & Hs0 & _ & <-); [|apply Hok].
    rewrite state_of_receives in Hr. by rewrite (Hnone s0 Hs0) in Hr.
Qed.

(** Refinement: the monolith implements the abstract subscription machine. Whatever
    is run, in any order, with whatever failures and either transport, the
    subscriptions table seen through [abs] moves by steps of the machine, in
    the order of the operations, and each operation causes only its own: a
    subscribe request subscribes or revives the pair in its body (which may
    fail at once), a confirmation or unsubscription request acts on the
    subscription with its token, all three only with the API key; a reply or a
    sweep can only mark confirmations failed; scans and drains change nothing. *)
Theorem system_refines_spec ops w w' :
  db_ok (w_db w) -> w_tx w = None -> runs cfg redis transport bind ops w w' ->
  spec_runs cfg bind ops (abs (w_db w)) (abs (w_db w')).
Proof.
  intros Hok Htx Hrun. by destruct (runs_safe _ _ _ _ ops w w' Hrun Hok Htx) as (_ & _ & _ & ?).
Qed.
End Properties.

(** ** Witnesses *)

Section Witnesses.
#[local] Existing Instance calm_env.
#[local] Instance calm_redis_laws : @RedisLaws Script calm_env := script_redis false.

(** A new subscription, its command sent, the notifier's answer, a scan, the
    link opened, and a sweep. *)
Definition day_uuid : string := script_uuid 8.
Definition a_day : list Op :=
  [OpRequest (mkRequest "POST" RSubscribe "" "r1" "" "new@example.com"); OpDrain;
   OpReply (marshal (mkSagaReply day_uuid "sent")); OpScan;
   OpRequest (get (RConfirm (script_uuid 7))); OpSweep].
Definition morning : World Script :=
  play empty_db (mkScript [] 100 7 [] ∅ [] [] [] [] []).
Definition play_ops (ops : list Op) (w : World Script) : World Script :=
  fold_left (fun w op => (run_op (sample_config "") true TransportBroker sample_bind op w).2)
    ops w.
Definition evening : World Script := play_ops a_day morning.

Lemma play_ops_runs ops w :
  runs (sample_config "") true TransportBroker sample_bind ops w (play_ops ops w).
Proof. revert w. induction ops as [|op ops IH]; intros w; [apply runs_done|apply runs_op, IH]. Qed.

Lemma a_day_runs :
  runs (sample_config "") true TransportBroker sample_bind a_day morning evening.
Proof. apply play_ops_runs. Qed.

Lemma system_invariant_witness :
  w_tx evening = None /\ @db_ok script_server (w_db evening).
Proof.
  exact (system_invariant (Env0 := calm_env) _ _ _ _ a_day morning evening
           empty_db_ok eq_refl a_day_runs).
Defined.

Lemma system_refines_spec_witness :
  abs (w_db evening) = {[("new@example.com", "golang/go") := Active (script_uuid 7)]} /\
  spec_runs (sample_config "") sample_bind a_day ∅ (abs (w_db evening)).
Proof.
  split; [vm_compute; reflexivity|].
  exact (system_refines_spec (Env0 := calm_env) _ _ _ _ a_day morning evening
           empty_db_ok eq_refl a_day_runs).
Defined.

(** The sample saga of [wired], after the answer that its mail went out. *)
Definition answered_world : World Script :=
  (run_op (sample_config "") true TransportBroker sample_bind
     (OpReply (marshal (mkSagaReply sample_uuid "sent"))) wired).2.

Lemma system_saga_lifecycle_witness :
  saga_State <$> saga (w_db answered_world) = [StateCompleted] /\
  exists sg', saga (w_db answered_world) !! 0%nat = Some sg' /\
    saga_identity sg' = saga_identity (sample_saga StateSubscriptionCreated).
Proof.
  split; [vm_compute; reflexivity|].
  assert (runs (sample_config "") true TransportBroker sample_bind
    [OpReply (marshal (mkSagaReply sample_uuid "sent"))] wired answered_world) as Hrun
    by exact (play_ops_runs [_] wired).
  destruct (system_saga_lifecycle (Env0 := calm_env) _ _ _ _ _ wired answered_world 0
    (sample_saga StateSubscriptionCreated) (sample_db_ok StateSubscriptionCreated) eq_refl
    Hrun eq_refl) as (sg' & Hi & Hid & _).
  exists sg'. split; [exact Hi|exact Hid].
Defined.

Lemma system_double_opt_in_witness :
  exists s, s ∈ subscriptions (w_db evening) /\ sub_Confirmed s = true /\
    exists req, OpRequest req ∈ a_day /\ r_Route req = RConfirm (sub_Token s) /\
      authorized (APIKey (sample_config "")) req = true.
Proof.
  eexists. split; [vm_compute; apply elem_of_cons; left; reflexivity|]. split; [reflexivity|].
  apply (system_double_opt_in (Env0 := calm_env) _ _ _ _ a_day morning evening _
           empty_db_ok eq_refl a_day_runs).
  - intros s0 Hs0. by apply elem_of_nil in Hs0.
  - vm_compute. apply elem_of_cons. by left.
  - reflexivity.
Defined.
End Witnesses.
