(* ===== verification/Growth.v ===== *)
(** * What every statement keeps of the rows that exist

    Identifiers are given once: no statement changes the address or the
    repository of a subscription, or gives the identifier of a row again, and
    none changes the identity of a saga or loses one. [grows] says so of two
    states of the database, [grows_by S] with a finer relation [S] on the sagas;
    the operations keep [grows_by S d0], whoever runs in between. *)

From S2P Require Import Prelude GoErrors Tables Env Logic Schema.
From S2P Require Import SubStore SagaStore OutboxStore TrackStore SagaMachine Orchestrator.

Local Open Scope string_scope.
Local Open Scope Z_scope.

Definition same_row (s s' : Subscription) : Prop :=
  sub_ID s' = sub_ID s /\ sub_key s' = sub_key s.
Definition same_saga (a b : Saga) : Prop := saga_identity b = saga_identity a.

#[export] Instance same_saga_preorder : PreOrder same_saga.
Proof. split; [done|]. unfold same_saga. intros a b c. congruence. Qed.

(** How a saga may change: at least its identity stays. *)
Class SagaRel (S : Saga -> Saga -> Prop) : Prop := {
  saga_rel_preorder :: PreOrder S;
  saga_rel_same : forall a b, S a b -> same_saga a b }.

(** What one step may do to a saga, where the steps of a run need not add up. *)
Class SagaStep (S : Saga -> Saga -> Prop) : Prop := {
  saga_step_refl :: Reflexive S;
  saga_step_same : forall a b, S a b -> same_saga a b }.

#[export] Instance saga_rel_step S : SagaRel S -> SagaStep S.
Proof. intros [HS HI]. split; [apply _|exact HI]. Qed.

#[export] Instance same_saga_rel : SagaRel same_saga.
Proof. split; [apply _|done]. Qed.

#[export] Instance eq_rel : SagaRel eq.
Proof. split; [apply _|by intros a b ->]. Qed.

Record grows_by (S : Saga -> Saga -> Prop) (d d' : DB) : Prop := {
  gr_seq : subscriptions_id_seq d <= subscriptions_id_seq d';
  gr_rows : forall s', s' ∈ subscriptions d' ->
    (exists s, s ∈ subscriptions d /\ same_row s s') \/ subscriptions_id_seq d < sub_ID s';
  gr_sagas : exists l new, saga d' = app l new /\ Forall2 S (saga d) l }.
Arguments gr_seq {S d d'}. Arguments gr_rows {S d d'}. Arguments gr_sagas {S d d'}.
Abbreviation grows := (grows_by same_saga).

#[export] Instance grows_refl S `{!SagaStep S} : Reflexive (grows_by S).
Proof.
  intros d. split; [lia|intros s' Hs'; left; by exists s'|]. exists (saga d), []. by rewrite app_nil_r.
Qed.

Definition stmt_grows (S : Saga -> Saga -> Prop) {A} (f : sql A) : Prop :=
  forall now d, grows_by S d (f now d).2.

Section Run.
Context (S : Saga -> Saga -> Prop) `{!SagaRel S}.

#[export] Instance grows_preorder : PreOrder (grows_by S).
Proof.
  split; [apply _|].
  - intros d1 d2 d3 [Hq1 Hr1 (l1 & n1 & Hs1 & Hm1)] [Hq2 Hr2 (l2 & n2 & Hs2 & Hm2)]. split.
    + lia.
    + intros s3 Hs3. destruct (Hr2 s3 Hs3) as [(s2 & Hin2 & Hi2 & Hk2)|?]; [|right; lia].
      destruct (Hr1 s2 Hin2) as [(s1 & Hin1 & Hi1 & Hk1)|?]; [|right; lia].
      left. exists s1. split; [done|]. split; congruence.
    + rewrite Hs1 in Hm2. apply Forall2_app_inv_l in Hm2 as (k & m & Hk & Hm & ->).
      exists k, (app m n2). split; [by rewrite Hs2, app_assoc|].
      by etrans.
Qed.

#[export] Instance grows_stable d0 : seq_stable (grows_by S d0).
Proof.
  split. intros t d [Ht _ _] [Hd Hr Hs]. split; simpl; [lia|done|done].
Qed.

Lemma stmt_grows_keeps {A} d0 (f : sql A) : stmt_grows S f -> stmt_keeps (grows_by S d0) f.
Proof. intros Hf now d Hd. etrans; [exact Hd|apply Hf]. Qed.
End Run.

Section Grows.
Context (S : Saga -> Saga -> Prop) `{!SagaStep S}.
Local Abbreviation grows := (grows_by S).
Local Abbreviation stmt_grows := (stmt_grows S).

Lemma grows_by_mono (S' : Saga -> Saga -> Prop) d d' :
  (forall a b, S a b -> S' a b) -> grows d d' -> grows_by S' d d'.
Proof.
  intros HS [Hq Hr (l & new & Hs & Hm)]. split; [done..|]. exists l, new. split; [done|].
  eapply Forall2_impl; eauto.
Qed.
Lemma grows_by_mono_in (S' : Saga -> Saga -> Prop) d d' :
  (forall a b, a ∈ saga d -> S a b -> S' a b) -> grows d d' -> grows_by S' d d'.
Proof.
  intros HS [Hq Hr (l & new & Hs & Hm)]. split; [done..|]. exists l, new. split; [done|].
  clear Hs. induction Hm as [|a b la lb Hab Hm IH]; constructor.
  - apply HS; [by apply elem_of_cons; left|done].
  - apply IH. intros a' b' Hin. apply HS. by apply elem_of_cons; right.
Qed.

(** The same rows, after the sequence moved or not. *)
Lemma grows_same d d' :
  subscriptions d' = subscriptions d -> saga d' = saga d ->
  subscriptions_id_seq d <= subscriptions_id_seq d' -> grows d d'.
Proof.
  intros Hs Hg Hq. split; [done| |].
  - rewrite Hs. intros s' Hs'. left. by exists s'.
  - exists (saga d), []. by rewrite app_nil_r.
Qed.

Lemma grows_subscriptions l d :
  (forall s', s' ∈ l -> exists s, s ∈ subscriptions d /\ same_row s s') ->
  grows d (set_subscriptions l d).
Proof.
  intros Hl. split; simpl; [lia|auto|]. by apply (gr_sagas (reflexivity d)).
Qed.

Lemma grows_update P f d :
  (forall s, same_row s (f s)) ->
  grows d (set_subscriptions (update_where P f (subscriptions d)) d).
Proof.
  intros Hf. apply grows_subscriptions. intros s' (s & Hs & ->)%elem_of_update_where.
  exists s. split; [done|]. by case_match.
Qed.

(** *** The statements *)

(** [S] lets any saga take the state [st]. *)
Definition may_take (st : SagaState) : Prop :=
  forall sg le now, S sg (set_state st le now sg).

Section Statements.
Context `{!PgServer}.

Lemma insert_subscription_grows email repo token c :
  stmt_grows (fun now d => insert_subscription now email repo token c d).
Proof.
  intros now d. unfold insert_subscription. repeat case_match; simpl; try done;
    try (apply grows_same; simpl; [done|done|lia]).
  split; simpl; [lia| |by apply (gr_sagas (reflexivity d))].
  intros s' [Hs'| ->%list_elem_of_singleton]%elem_of_app; [left; by exists s'|right; simpl; lia].
Qed.

Lemma insert_saga_grows sg : stmt_grows (fun now d => insert_saga now sg d).
Proof.
  intros now d. unfold insert_saga. repeat case_match; simpl; try done.
  split; simpl; [lia|intros s'; left; by exists s'|]. by eexists _, _.
Qed.

Lemma insert_outbox_grows sid key mid payload :
  stmt_grows (fun now d => insert_outbox now sid key mid payload d).
Proof.
  intros now d. unfold insert_outbox. repeat case_match; simpl; try done;
    apply grows_same; simpl; done || lia.
Qed.

Lemma reactivate_stmt_grows id token : stmt_grows (reactivate_stmt id token).
Proof.
  intros now d. unfold reactivate_stmt. repeat case_match; try done. by apply grows_update.
Qed.

Lemma update_state_grows id st le : may_take st -> stmt_grows (update_state_stmt id st le).
Proof.
  intros Hst now d. unfold update_state_stmt. case_match; [|done].
  split; simpl; [lia|intros s'; left; by exists s'|].
  eexists _, []. rewrite app_nil_r. split; [done|].
  apply Forall2_fmap_r, Forall_Forall2_diag, Forall_forall. intros sg _. simpl. case_match; [apply Hst|done].
Qed.

Lemma upsert_repository_grows repo fresh upd b d :
  grows d (upsert_repository repo fresh upd b d).2.
Proof.
  unfold upsert_repository. repeat case_match; simpl; try done; apply grows_same; simpl; done || lia.
Qed.

Lemma stmt_grows_query {A} (f : Z -> DB -> result A) : stmt_grows (fun now d => (f now d, d)).
Proof. by intros now d. Qed.

Lemma requeue_grows sagaID :
  stmt_grows (fun _ d => match pg_uuid sagaID with
    | None => (Err invalid_uuid, d)
    | Some u => (Ok (), set_outbox
        (update_where (of_saga u) (set_published None) (outbox d)) d)
    end).
Proof. intros now d. case_match; [|done]. apply grows_same; simpl; done || lia. Qed.

Lemma delete_grows P :
  stmt_grows (fun _ d => (Ok (), set_subscriptions (delete_where P (subscriptions d)) d)).
Proof.
  intros now d. apply grows_subscriptions. intros s Hs. exists s. split; [|done].
  unfold delete_where in Hs. by apply elem_of_select_where in Hs as [Hs _].
Qed.
End Statements.
End Grows.

#[export] Hint Resolve grows_stable insert_subscription_grows insert_saga_grows insert_outbox_grows
  reactivate_stmt_grows update_state_grows requeue_grows delete_grows stmt_grows_query
  stmt_grows_keeps : go_db.

#[export] Hint Extern 0 (SagaRel _) => apply _ : go_db.
#[export] Hint Extern 0 (SagaStep _) => apply _ : go_db.

(** *** The operations *)

(** [solve_grows]: the structure of the operation, and the statements above. *)
Ltac grows_statement :=
  apply stmt_grows_keeps; [apply _|]; intros ? ?; cbv beta;
  first [ apply upsert_repository_grows; apply _ | apply grows_update; [apply _|done]
        | apply grows_same; simpl; first [apply _|done|lia] ].

Ltac solve_grows :=
  intros; cbv zeta;
  first
  [ solve [auto with go_db nocore]
  | lazymatch goal with
    | |- keeps _ (_ ≫= _) => apply keeps_bind
    | |- keeps _ (wrap _ _) => apply keeps_wrap
    | |- keeps _ (try _) => apply keeps_try
    | |- keeps _ (for_each _ _) => apply keeps_for_each
    | |- keeps _ (defer_rollback _) => apply keeps_defer_rollback; [apply _|]
    | |- keeps _ (match ?x with _ => _ end) => destruct x
    | |- keeps _ (db_stmt _) => apply keeps_db_stmt; [..|try solve [auto with go_db nocore|grows_statement]]
    | |- keeps _ (ext_stmt _ _) => apply keeps_ext_stmt
    end; solve_grows
  | idtac ].

Section Operations.
Context {X : Type} `{!Env X} (S : Saga -> Saga -> Prop) `{!SagaRel S}.
Variable d0 : DB.
Local Abbreviation growing := (keeps (X := X) (grows_by S d0)).

Lemma UpdateState_grows id st le : may_take S st -> growing (UpdateState id st le).
Proof. intros Hst. unfold UpdateState. solve_grows. Qed.
Lemma MarkFailed_grows id : growing (MarkFailed id).
Proof. unfold MarkFailed. solve_grows. Qed.
Lemma ConfirmSubscription_grows token : growing (ConfirmSubscription token).
Proof. unfold ConfirmSubscription. solve_grows. Qed.
Lemma DeleteSubscription_grows token : growing (DeleteSubscription token).
Proof. unfold DeleteSubscription. solve_grows. Qed.
Lemma ReactivateInTx_grows e id token : growing (ReactivateInTx e id token).
Proof. unfold ReactivateInTx. solve_grows. Qed.
Lemma CreateInTx_sub_grows e email repo token :
  growing (SubStore.CreateInTx e email repo token).
Proof. unfold SubStore.CreateInTx. solve_grows. Qed.
Lemma CreateInTx_saga_grows e sg : growing (SagaStore.CreateInTx e sg).
Proof. unfold SagaStore.CreateInTx. solve_grows. Qed.
Lemma Enqueue_grows e sid key mid payload : growing (Enqueue e sid key mid payload).
Proof. unfold Enqueue. solve_grows. Qed.
Lemma MarkPublished_grows id : growing (MarkPublished id).
Proof. unfold MarkPublished. solve_grows. Qed.
Lemma Requeue_grows id : growing (Requeue id).
Proof. unfold Requeue. solve_grows. Qed.
Lemma RegisterRepo_grows repo : growing (RegisterRepo repo).
Proof. unfold RegisterRepo. solve_grows. Qed.
Lemma TouchLastChecked_grows repo : growing (TouchLastChecked repo).
Proof. unfold TouchLastChecked. solve_grows. Qed.
Lemma RecordRelease_grows repo tag : growing (RecordRelease repo tag).
Proof. unfold RecordRelease. solve_grows. Qed.
End Operations.

#[export] Hint Resolve UpdateState_grows MarkFailed_grows ConfirmSubscription_grows
  DeleteSubscription_grows ReactivateInTx_grows CreateInTx_sub_grows CreateInTx_saga_grows
  Enqueue_grows MarkPublished_grows Requeue_grows RegisterRepo_grows TouchLastChecked_grows
  RecordRelease_grows : go_db.

(** The transactions T1. *)
Section Starts.
Context {X : Type} `{!Env X} (S : Saga -> Saga -> Prop) `{!SagaRel S}.
Variable d0 : DB.
Local Abbreviation growing := (keeps (X := X) (grows_by S d0)).

Lemma enqueueConfirmation_grows subID email repo token url :
  growing (enqueueConfirmation subID email repo token url).
Proof. unfold enqueueConfirmation. solve_grows. Qed.
Hint Resolve enqueueConfirmation_grows : go_db.

Lemma StartConfirmation_broker_grows email repo token url :
  growing (StartConfirmation None email repo token url).
Proof. unfold StartConfirmation. solve_grows. Qed.
Lemma ReactivateConfirmation_broker_grows id email repo token url :
  growing (ReactivateConfirmation None id email repo token url).
Proof. unfold ReactivateConfirmation. solve_grows. Qed.
Lemma createSubscriptionAndSaga_grows email repo token id :
  growing (createSubscriptionAndSaga email repo token id).
Proof. unfold createSubscriptionAndSaga. solve_grows. Qed.
End Starts.
