(* ===== verification/Threads.v ===== *)
(** * Programs in steps, and their interleaving

    [GoM] runs a computation as one function. Here a computation is a tree of
    its steps, so that the steps of several threads can be interleaved on one
    world: [Prog], its combinators (those of [GoM]), its meaning as one
    computation ([denote]), the scheduler of a pool of threads ([play_turns]) and a
    rely/guarantee logic for the pool ([secured], [secured_turn]), over a world or
    over a world beside a record that no program can read ([View]). *)

From S2P Require Import Prelude GoErrors Tables Env Logic.

(** ** Programs *)

(** A step is a computation that runs without interruption; [k] goes on from
    its result. *)
Inductive Prog (X A : Type) : Type :=
  | Done (r : result A)
  | Step (B : Type) (m : GoM X B) (k : result B -> Prog X A).
Arguments Done {X A}. Arguments Step {X A B}.

Fixpoint bind_t {X A B : Type} (p : Prog X A) (k : A -> Prog X B) : Prog X B :=
  match p with
  | Done (Ok a) => k a
  | Done (Err e) => Done (Err e)
  | Step m q => Step m (fun r => bind_t (q r) k)
  end.

#[export] Instance prog_ret {X : Type} : MRet (Prog X) := fun A a => Done (Ok a).
#[export] Instance prog_bind {X : Type} : MBind (Prog X) := fun A B k p => bind_t p k.

(** A computation as one step. *)
Definition atom {X A : Type} (m : GoM X A) : Prog X A := Step m Done.

Definition throw_t {X A : Type} (e : error) : Prog X A := Done (Err e).

Fixpoint try_t {X A : Type} (p : Prog X A) : Prog X (result A) :=
  match p with
  | Done r => Done (Ok r)
  | Step m q => Step m (fun r => try_t (q r))
  end.

Fixpoint wrap_t {X A : Type} (msg : string) (p : Prog X A) : Prog X A :=
  match p with
  | Done (Ok a) => Done (Ok a)
  | Done (Err e) => Done (Err (EWrap msg e))
  | Step m q => Step m (fun r => wrap_t msg (q r))
  end.

Fixpoint for_each_t {X A : Type} (body : A -> Prog X unit) (l : list A) : Prog X unit :=
  match l with
  | [] => mret ()
  | a :: l' => body a ;; for_each_t body l'
  end.

(** ** The meaning of a program that is not interrupted *)

Fixpoint denote {X A : Type} (p : Prog X A) : GoM X A := fun w =>
  match p with
  | Done r => (r, w)
  | Step m k => denote (k (m w).1) (m w).2
  end.

(** [p] is [m] cut into steps. *)
Class Cuts {X A : Type} (p : Prog X A) (m : GoM X A) : Prop :=
  cuts : forall w, denote p w = m w.

Section Cuts.
Context {X : Type}.

Lemma denote_bind {A B} (p : Prog X A) (k : A -> Prog X B) w :
  denote (bind_t p k) w =
  match denote p w with
  | (Ok a, w') => denote (k a) w'
  | (Err e, w') => (Err e, w')
  end.
Proof. revert w. induction p as [[a|e]|C m q IH]; intros w; simpl; auto. Qed.

#[export] Instance cuts_ret {A} (a : A) : Cuts (X := X) (mret a) (mret a).
Proof. by intros w. Qed.
#[export] Instance cuts_throw {A} e : Cuts (X := X) (A := A) (throw_t e) (throw e).
Proof. by intros w. Qed.
#[export] Instance cuts_atom {A} (m : GoM X A) : Cuts (atom m) m.
Proof. intros w. simpl. by destruct (m w). Qed.
#[export] Instance cuts_bind {A B} (p : Prog X A) m (k : A -> Prog X B) k' :
  Cuts p m -> (forall a, Cuts (k a) (k' a)) -> Cuts (p ≫= k) (m ≫= k').
Proof.
  intros Hp Hk w. unfold mbind, prog_bind, gom_bind. rewrite denote_bind, Hp.
  destruct (m w) as [[a|e] w']; [apply Hk|done].
Qed.
#[export] Instance cuts_try {A} (p : Prog X A) m : Cuts p m -> Cuts (try_t p) (try m).
Proof.
  intros Hp w. unfold try. rewrite <- Hp. clear Hp. revert w.
  induction p as [r|C c q IH]; intros w; simpl; [done|apply IH].
Qed.
#[export] Instance cuts_wrap {A} s (p : Prog X A) m : Cuts p m -> Cuts (wrap_t s p) (wrap s m).
Proof.
  intros Hp w. unfold wrap. rewrite <- Hp. clear Hp. revert w.
  induction p as [[a|e]|C c q IH]; intros w; simpl; [done..|apply IH].
Qed.
#[export] Instance cuts_for_each {A} (p : A -> Prog X unit) m l :
  (forall a, Cuts (p a) (m a)) -> Cuts (for_each_t p l) (for_each m l).
Proof. intros Hp. induction l as [|a l IH]; simpl; apply _. Qed.
End Cuts.

(** [solve_cuts] follows the structure of the two definitions. *)
Ltac solve_cuts :=
  repeat first
    [ progress intros
    | progress cbv zeta
    | apply _
    | apply cuts_bind
    | apply cuts_try
    | apply cuts_wrap
    | apply cuts_for_each
    | match goal with |- Cuts (match ?x with _ => _ end) _ => destruct x end
    | match goal with |- Cuts (match ?x with _ => _ end _) _ => destruct x end
    | match goal with |- Cuts (if ?x then _ else _) _ => destruct x end ].

(** ** Pools of threads *)

(** The threads of a process and the world they share. *)
Definition Pool (X : Type) : Type := list (Prog X unit) * World X.

(** What may happen next: thread [i] does its next step, thread [i] is killed
    between two steps, or something happens outside. *)
Inductive Turn (X : Type) :=
  | Run (i : nat)
  | Kill (i : nat)
  | Outside (x : X).
Arguments Run {X}. Arguments Kill {X}. Arguments Outside {X}.

Definition step_prog {X A : Type} (p : Prog X A) (w : World X) : Prog X A * World X :=
  match p with
  | Done r => (Done r, w)
  | Step m k => (k (m w).1, (m w).2)
  end.

Definition turn {X : Type} (t : Turn X) (c : Pool X) : Pool X :=
  match t with
  | Run i =>
      match c.1 !! i with
      | Some p => (<[i := (step_prog p c.2).1]> c.1, (step_prog p c.2).2)
      | None => c
      end
  | Kill i => (<[i := Done (Ok ())]> c.1, c.2)
  | Outside x => (c.1, set_ext x c.2)
  end.

Definition play_turns {X : Type} (sched : list (Turn X)) (c : Pool X) : Pool X :=
  fold_left (fun c t => turn t c) sched c.

Lemma play_turns_app {X : Type} (s1 s2 : list (Turn X)) c :
  play_turns (app s1 s2) c = play_turns s2 (play_turns s1 c).
Proof. apply fold_left_app. Qed.

(** A thread that is scheduled alone runs the first part of its program as the
    part means, and stands before the rest. *)
Lemma run_first {X A : Type} (p : Prog X A) (k : A -> Prog X unit) i (ps : list (Prog X unit)) w :
  ps !! i = Some (p ≫= k) ->
  exists n, play_turns (replicate n (Run i)) (ps, w) =
    (<[i := match (denote p w).1 with Ok a => k a | Err e => Done (Err e) end]> ps,
     (denote p w).2).
Proof.
  unfold mbind, prog_bind. revert ps w.
  induction p as [[a|e]|B m q IH]; intros ps w Hi; simpl in *;
    [by exists 0%nat; simpl; rewrite list_insert_id..|].
  destruct (IH (m w).1 (<[i := bind_t (q (m w).1) k]> ps) (m w).2) as [n Hn].
  { apply list_lookup_insert_eq. by eapply lookup_lt_Some. }
  exists (S n). simpl. unfold turn. simpl. rewrite Hi. simpl.
  rewrite Hn. by rewrite list_insert_insert_eq.
Qed.

(** ** Rely and guarantee *)

(** The states that the assertions speak of: a world, alone or with a record of
    what happened that exists only for the proof. *)
Class View (St X : Type) : Type := view : St -> World X.
#[export] Instance world_view {X : Type} : View (World X) X := fun w => w.
#[export] Instance recorded_view {X H : Type} : View (H * World X) X := snd.

Section Logic.
Context {X St : Type} `{!View St X}.
Implicit Types (a b : St).

(** [J] holds between any two steps; [R] is what the other threads may do. *)
Variables (J : St -> Prop).

Definition stable (R : St -> St -> Prop) (P : St -> Prop) : Prop :=
  forall a b, J a -> J b -> R a b -> P a -> P b.

(** Every step of [p] from [P] keeps [J] and does no more than [G], while the
    others do no more than [R]; [Q] holds at the end. Between two steps the
    thread knows only what [R] keeps. A step moves the world as [m] does; what is
    recorded beside it is for the proof to choose. *)
Fixpoint secured {A : Type} (R G : St -> St -> Prop) (p : Prog X A)
    (P : St -> Prop) (Q : result A -> St -> Prop) : Prop :=
  match p with
  | Done r => forall a, J a -> P a -> Q r a
  | @Step _ _ B m k =>
      exists S : result B -> St -> Prop,
        (forall r, stable R (S r)) /\
        (forall a, J a -> P a -> exists b, view b = (m (view a)).2 /\
           J b /\ G a b /\ S (m (view a)).1 b) /\
        forall r, secured R G (k r) (S r) Q
  end.

Variables (R G : St -> St -> Prop).

Lemma secured_weaken {A} (p : Prog X A) (P P' : St -> Prop) (Q Q' : result A -> St -> Prop) :
  secured R G p P Q -> (forall a, J a -> P' a -> P a) ->
  (forall r a, J a -> Q r a -> Q' r a) -> secured R G p P' Q'.
Proof.
  revert P P'. induction p as [r|B m k IH]; intros P P' Hp HP HQ; simpl in *.
  - intros a HJ Ha. apply HQ; [done|]. apply Hp; [done|]. by apply HP.
  - destruct Hp as (S & HS & Hm & Hk). exists S. split; [done|]. split; [auto|].
    intros r. eapply IH; eauto.
Qed.

Lemma secured_ret {A} (x : A) (P : St -> Prop) (Q : result A -> St -> Prop) :
  (forall a, J a -> P a -> Q (Ok x) a) -> secured R G (mret x) P Q.
Proof. done. Qed.

Lemma secured_throw {A} e (P : St -> Prop) (Q : result A -> St -> Prop) :
  (forall a, J a -> P a -> Q (Err e) a) -> secured R G (throw_t e) P Q.
Proof. done. Qed.

Lemma secured_bind {A B} (p : Prog X A) (k : A -> Prog X B) (P : St -> Prop)
    (S : result A -> St -> Prop) (Q : result B -> St -> Prop) :
  secured R G p P S -> (forall x, secured R G (k x) (S (Ok x)) Q) ->
  (forall e a, J a -> S (Err e) a -> Q (Err e) a) ->
  secured R G (p ≫= k) P Q.
Proof.
  intros Hp Hk He. unfold mbind, prog_bind.
  revert P Hp. induction p as [[x|e]|C m q IH]; intros P Hp; simpl in *.
  - eapply secured_weaken; [apply Hk|exact Hp|done].
  - intros a HJ Ha. apply He; [done|]. by apply Hp.
  - destruct Hp as (T & HT & Hm & Hq). exists T. split; [done|]. split; [done|]. eauto.
Qed.

Lemma secured_try {A} (p : Prog X A) (P : St -> Prop) (Q : result (result A) -> St -> Prop) :
  secured R G p P (fun r => Q (Ok r)) -> secured R G (try_t p) P Q.
Proof.
  revert P. induction p as [r|C m q IH]; intros P Hp; simpl in *; [done|].
  destruct Hp as (T & HT & Hm & Hq). exists T. eauto.
Qed.

Lemma secured_wrap {A} s (p : Prog X A) (P : St -> Prop) (Q : result A -> St -> Prop) :
  secured R G p P (fun r => match r with
                            | Ok x => Q (Ok x)
                            | Err e => Q (Err (EWrap s e))
                            end) -> secured R G (wrap_t s p) P Q.
Proof.
  revert P. induction p as [[x|e]|C m q IH]; intros P Hp; simpl in *; [done..|].
  destruct Hp as (T & HT & Hm & Hq). exists T. eauto.
Qed.

Lemma secured_for_each {A} (body : A -> Prog X unit) l (P : St -> Prop) :
  (forall x, x ∈ l -> secured R G (body x) P (fun _ => P)) ->
  secured R G (for_each_t body l) P (fun _ => P).
Proof.
  induction l as [|x l IH]; intros Hb; simpl; [by intros a|].
  eapply secured_bind; [apply Hb; by apply elem_of_cons; left|..|done].
  intros []. apply IH. intros y Hin. apply Hb. by apply elem_of_cons; right.
Qed.
End Logic.

(** A step of a thread, when nothing is recorded. *)
Lemma secured_atom {X A : Type} (J : World X -> Prop) (R G : World X -> World X -> Prop)
    (m : GoM X A) (P : World X -> Prop) (Q : result A -> World X -> Prop) :
  (forall r, stable J R (Q r)) ->
  (forall w, J w -> P w -> wp m (fun r w' => J w' /\ G w w' /\ Q r w') w) ->
  secured J R G (atom m) P Q.
Proof.
  intros HQ Hm. exists Q. split; [done|]. split; [|by simpl].
  intros w HJ HP. exists (m w).2. split; [done|]. by apply Hm.
Qed.

Lemma secured_atom_inv {X A : Type} (J : World X -> Prop) (R G : World X -> World X -> Prop)
    (m : GoM X A) (P : World X -> Prop) (Q : result A -> World X -> Prop) w :
  secured J R G (atom m) P Q -> J w -> P w ->
  J (m w).2 /\ G w (m w).2 /\ Q (m w).1 (m w).2.
Proof.
  intros (S & _ & Hm & Hk) HJ HP. destruct (Hm w HJ HP) as (w' & Hv & HJ' & HG & HS).
  change (w' = (m w).2) in Hv. subst w'. split; [done|]. split; [done|]. by apply (Hk (m w).1).
Qed.

(** A thread that does less guarantees more. *)
Lemma secured_guarantee {X St A : Type} `{!View St X} (J : St -> Prop) (R G G' : St -> St -> Prop)
    (p : Prog X A) (P : St -> Prop) (Q : result A -> St -> Prop) :
  (forall a b, G a b -> G' a b) -> secured J R G p P Q -> secured J R G' p P Q.
Proof.
  intros HG. revert P. induction p as [r|B m k IH]; intros P Hp; simpl in *; [done|].
  destruct Hp as (S & HS & Hm & Hk). exists S. split; [done|]. split; [|auto].
  intros a HJ HP. destruct (Hm a HJ HP) as (b & ? & ? & ? & ?). exists b. auto.
Qed.

(** What is secured on the world alone is secured beside a record, when every
    step of the one is a step of the other. *)
Lemma secured_record {X H A : Type} (J : World X -> Prop) (R G : World X -> World X -> Prop)
    (J' : H * World X -> Prop) (R' G' : H * World X -> H * World X -> Prop)
    (p : Prog X A) (P : World X -> Prop) (Q : result A -> World X -> Prop) :
  (forall a, J' a -> J a.2) ->
  (forall a b, J' a -> J' b -> R' a b -> R a.2 b.2) ->
  (forall a w, J' a -> J w -> G a.2 w -> exists h, J' (h, w) /\ G' a (h, w)) ->
  secured J R G p P Q -> secured J' R' G' p (fun a => P a.2) (fun r a => Q r a.2).
Proof.
  intros HJ HR HG. revert P. induction p as [r|B m k IH]; intros P Hp; simpl in *; [by eauto|].
  destruct Hp as (S & HS & Hm & Hk). exists (fun r a => S r a.2). split; [|split; [|by auto]].
  - intros r a b Ha Hb Hab. apply HS; [by apply HJ..|by apply HR].
  - intros a Ha HP. destruct (Hm a.2 (HJ a Ha) HP) as (w & Hv & Hw & Hg & Hs).
    destruct (HG a w Ha Hw Hg) as (h & Hh & Hg'). exists (h, w). by split_and!.
Qed.

(** ** What holds along a program *)

Section Along.
Context {X St : Type} `{!View St X}.
Variables (J : St -> Prop) (R G : St -> St -> Prop) (K : St -> Prop).

(** [K] holds before and after [p], and between its steps. *)
Definition along {A} (p : Prog X A) : Prop := secured J R G p K (fun _ => K).

Lemma along_ret {A} (x : A) : along (mret x).
Proof. by intros a. Qed.
Lemma along_throw {A} e : along (throw_t (A := A) e).
Proof. by intros a. Qed.
Lemma along_bind {A B} (p : Prog X A) (k : A -> Prog X B) :
  along p -> (forall x, along (k x)) -> along (p ≫= k).
Proof. intros Hp Hk. by eapply secured_bind; [exact Hp|exact Hk|]. Qed.
Lemma along_try {A} (p : Prog X A) : along p -> along (try_t p).
Proof. intros Hp. by apply secured_try. Qed.
Lemma along_wrap {A} s (p : Prog X A) : along p -> along (wrap_t s p).
Proof.
  intros Hp. apply secured_wrap. eapply secured_weaken; [exact Hp|done|]. by intros [].
Qed.
Lemma along_for_each {A} (body : A -> Prog X unit) l :
  (forall x, along (body x)) -> along (for_each_t body l).
Proof. intros Hb. apply secured_for_each. intros x _. apply Hb. Qed.

(** What a step teaches the rest of the program. *)
Lemma along_learn {A B} (K' : A -> St -> Prop) (p : Prog X A) (k : A -> Prog X B) :
  secured J R G p K (fun r a => K a /\ forall x, r = Ok x -> K' x a) ->
  (forall x, secured J R G (k x) (fun a => K a /\ K' x a) (fun _ a => K a /\ K' x a)) ->
  along (p ≫= k).
Proof.
  intros Hp Hk. eapply secured_bind; [exact Hp| |by intros e a _ [? _]].
  intros x. eapply secured_weaken; [apply Hk| |by intros r a _ [? _]].
  intros a _ [HK HK']. split; [done|by apply HK'].
Qed.
End Along.

(** ** What holds of every step *)

Section Every.
Context {X : Type}.
Variable Φ : forall B : Type, GoM X B -> Prop.
Arguments Φ {B}.

Fixpoint every {A : Type} (p : Prog X A) : Prop :=
  match p with
  | Done _ => True
  | Step m k => Φ m /\ forall r, every (k r)
  end.

Lemma every_ret {A} (a : A) : every (mret a).
Proof. done. Qed.
Lemma every_throw {A} e : every (throw_t (A := A) e).
Proof. done. Qed.
Lemma every_atom {A} (m : GoM X A) : Φ m -> every (atom m).
Proof. by split. Qed.
Lemma every_bind {A B} (p : Prog X A) (k : A -> Prog X B) :
  every p -> (forall a, every (k a)) -> every (p ≫= k).
Proof.
  intros Hp Hk. unfold mbind, prog_bind. induction p as [[a|e]|C m q IH].
  - apply Hk.
  - done.
  - destruct Hp as [Hm Hq]. split; [done|]. intros r. apply IH, Hq.
Qed.
Lemma every_try {A} (p : Prog X A) : every p -> every (try_t p).
Proof.
  induction p as [r|C m q IH]; [done|]. intros [Hm Hq]. split; [done|]. intros r. apply IH, Hq.
Qed.
Lemma every_wrap {A} s (p : Prog X A) : every p -> every (wrap_t s p).
Proof.
  induction p as [[a|e]|C m q IH]; [done..|]. intros [Hm Hq]. split; [done|]. intros r. apply IH, Hq.
Qed.
Lemma every_for_each {A} (body : A -> Prog X unit) l :
  (forall a, every (body a)) -> every (for_each_t body l).
Proof.
  intros Hb. induction l as [|a l IH]; simpl; [done|]. apply every_bind; [apply Hb|]. by intros [].
Qed.
End Every.

(** [solve_every leaf]: the structure of the program, and [leaf] at each step. *)
Ltac solve_every leaf :=
  intros; cbv zeta;
  first
  [ solve [auto 2 with go_db nocore]
  | lazymatch goal with
    | |- every _ (mret _) => apply every_ret
    | |- every _ (throw_t _) => apply every_throw
    | |- every _ (_ ≫= _) => apply every_bind
    | |- every _ (wrap_t _ _) => apply every_wrap
    | |- every _ (try_t _) => apply every_try
    | |- every _ (for_each_t _ _) => apply every_for_each
    | |- every _ (atom _) => apply every_atom; leaf
    | |- every _ (match ?x with _ => _ end) => destruct x
    | |- every _ (match ?x with _ => _ end _) => destruct x
    end; solve_every leaf
  | idtac ].

(** ** A pool of secured threads *)

Section PoolLogic.
Context {X St : Type} `{!View St X}.
Variables (J : St -> Prop) (R G : nat -> St -> St -> Prop) (outside : X -> St -> St).
Implicit Types (a b : St) (ps : list (Prog X unit)).

(** The guarantee of each thread is in the rely of the others, and what happens
    outside disturbs nobody. *)
Hypothesis others : forall i j a b, i <> j -> J a -> J b -> G j a b -> R i a b.
Hypothesis outside_view : forall x a, view (outside x a) = set_ext x (view a).
Hypothesis outside_J : forall x a, J a -> J (outside x a).
Hypothesis outside_R : forall i x a, R i a (outside x a).

(** Thread [i] is secured from something that holds now and that the others
    cannot make false. *)
Definition thread_ok (i : nat) (p : Prog X unit) a : Prop :=
  exists P, stable J (R i) P /\ P a /\ secured J (R i) (G i) p P (fun _ _ => True).

Definition pool_ok ps a : Prop :=
  J a /\ forall i p, ps !! i = Some p -> thread_ok i p a.

Lemma thread_ok_others i p a b : thread_ok i p a -> J a -> J b -> R i a b -> thread_ok i p b.
Proof. intros (P & HP & Ha & Hs) HJ HJ' HR. exists P. split_and!; eauto. Qed.

Lemma thread_ok_done i r a : thread_ok i (Done r) a.
Proof. exists (fun _ => True). by split_and!. Qed.

Lemma step_prog_ok i p a :
  thread_ok i p a -> J a ->
  let c := step_prog p (view a) in
  exists b, view b = c.2 /\ thread_ok i c.1 b /\ J b /\ (b = a \/ G i a b).
Proof.
  intros (P & HP & Ha & Hs) HJ. destruct p as [r|B m k]; simpl.
  - exists a. split_and!; [done| |done|by left]. apply thread_ok_done.
  - destruct Hs as (S & HS & Hm & Hk). destruct (Hm a HJ Ha) as (b & Hv & HJ' & HG & HSb).
    exists b. split_and!; [done| |done|by right]. by exists (S (m (view a)).1).
Qed.

(** A thread that is killed. *)
Lemma pool_ok_kill i ps a : pool_ok ps a -> pool_ok (<[i := Done (Ok ())]> ps) a.
Proof.
  intros [HJ Hps]. split; [done|]. intros j q Hj.
  destruct (decide (i = j)) as [->|Hne]; [|rewrite list_lookup_insert_ne in Hj by done; auto].
  apply list_lookup_insert_Some in Hj as [(_ & <- & _)|[? _]]; [apply thread_ok_done|done].
Qed.

(** A thread that starts, and what is recorded of it. *)
Lemma pool_ok_spawn p ps a b :
  pool_ok ps a -> J b -> (forall i, R i a b) -> thread_ok (length ps) p b ->
  pool_ok (app ps [p]) b.
Proof.
  intros [HJ Hps] HJ' HR Hp. split; [done|]. intros i q Hi.
  apply lookup_app_Some in Hi as [Hi|[Hlen Hi]].
  - eapply thread_ok_others; [by apply Hps|done..|apply HR].
  - apply list_lookup_singleton_Some in Hi as [Hi <-].
    by replace i with (length ps) by lia.
Qed.

(** One turn keeps the pool secured; the state moves by the guarantee of the
    thread that ran, or not at all. *)
Lemma secured_turn t ps a :
  pool_ok ps a ->
  exists b, view b = (turn t (ps, view a)).2 /\ pool_ok (turn t (ps, view a)).1 b /\
  match t with
  | Run i => b = a \/ (i < length ps)%nat /\ G i a b
  | Kill _ => b = a
  | Outside x => b = outside x a
  end.
Proof.
  intros [HJ Hps]. destruct t as [i|i|x]; unfold turn; simpl.
  - destruct (ps !! i) as [p|] eqn:Ei; [|exists a; split_and!; [done..|by left]].
    destruct (step_prog_ok i p a (Hps i p Ei) HJ) as (b & Hv & Hp' & HJ' & HG).
    exists b. split; [done|]. split.
    + split; [exact HJ'|]. simpl. intros j q Hj.
      destruct (decide (i = j)) as [->|Hne].
      { rewrite list_lookup_insert_eq in Hj by by eapply lookup_lt_Some. by simplify_eq. }
      rewrite list_lookup_insert_ne in Hj by done.
      destruct HG as [->|HG]; [by apply Hps|].
      eapply thread_ok_others; [by apply Hps|done..|]. by eapply (others j i); [congruence|..].
    + destruct HG as [->|HG]; [by left|right]. split; [by eapply lookup_lt_Some|done].
  - exists a. split; [done|]. split; [by apply pool_ok_kill|done].
  - exists (outside x a). split; [apply outside_view|]. split; [|done].
    split; [by apply outside_J|]. simpl. intros j q Hj.
    eapply thread_ok_others; [by apply Hps|done|by apply outside_J|apply outside_R].
Qed.
End PoolLogic.

#[global] Arguments atom {X A} m : simpl never.
#[global] Arguments wrap_t {X A} msg p : simpl never.
#[global] Arguments try_t {X A} p : simpl never.
#[global] Arguments bind_t {X A B} p k : simpl never.
