(* ===== verification/Stepwise.v ===== *)
(** * The operations of the monolith, cut at their statements

    The operations of [run_op] (System.v) again, as programs in steps: one step
    is one statement on PostgreSQL, one call to a service outside, or one
    counter. Two things are one step: the transaction T1 of the orchestrator,
    whose rows nobody else sees before it commits and whose writes PostgreSQL
    orders by its locks; and a lookup at GitHub, which does not touch the
    database. [op_cuts]: run without interruption, each program is the operation
    of the same name without [_t]. *)

From stdpp Require Import pretty.
From S2P Require Import Prelude GoErrors Tables Env Logic Json Wire.
From S2P Require Import SubStore SagaStore OutboxStore TrackStore RepoSpec Notification Email.
From S2P Require Import SagaMachine Orchestrator Service Gateway Scanner Handler Config Relay.
From S2P Require Import ReplyConsumer Sweeper Wiring System Threads.

Local Open Scope string_scope.
Local Open Scope Z_scope.

(** ** The orchestrator *)

Section Orchestrator.
Context {X : Type} `{!Env X}.
Local Abbreviation P := (Prog X).
Variable sender : option (confirmationSender X).

Definition compensateSync_t (sagaID : string) (subID : Z) : P unit :=
  let reason := "confirmation email failed (grpc)" in
  wrap_t ("mark saga " +:+ sagaID +:+ " compensating")
    (atom (UpdateState sagaID StateCompensating reason)) ;;
  wrap_t ("compensate saga " +:+ sagaID) (atom (MarkFailed subID)) ;;
  wrap_t ("fail saga " +:+ sagaID) (atom (UpdateState sagaID StateFailed reason)).

Definition dispatchSync_t (send : confirmationSender X) (sagaID : string) (subID : Z)
    (email repo confirmURL : string) : P unit :=
  r ← try_t (atom (send email repo confirmURL));
  match r with
  | Err _ => compensateSync_t sagaID subID
  | Ok _ => wrap_t ("complete saga " +:+ sagaID) (atom (UpdateState sagaID StateCompleted ""))
  end.

(** With a sender, the transaction and then the dispatch; without one, the
    transaction is all. *)
Definition StartConfirmation_t (email repo token confirmURL : string) : P unit :=
  match sender with
  | Some send =>
      '(subID, sagaID) ← atom (createSubscriptionAndSaga email repo token 0);
      dispatchSync_t send sagaID subID email repo confirmURL
  | None => atom (StartConfirmation None email repo token confirmURL)
  end.

Definition ReactivateConfirmation_t (subscriptionID : Z)
    (email repo token confirmURL : string) : P unit :=
  match sender with
  | Some send =>
      '(subID, sagaID) ← atom (createSubscriptionAndSaga email repo token subscriptionID);
      dispatchSync_t send sagaID subID email repo confirmURL
  | None => atom (ReactivateConfirmation None subscriptionID email repo token confirmURL)
  end.

#[export] Instance StartConfirmation_cuts email repo token url :
  Cuts (StartConfirmation_t email repo token url)
       (StartConfirmation sender email repo token url).
Proof.
  unfold StartConfirmation_t, StartConfirmation, startConfirmationSync, dispatchSync_t,
    dispatchSync, compensateSync_t, compensateSync. destruct sender; solve_cuts.
Qed.
#[export] Instance ReactivateConfirmation_cuts id email repo token url :
  Cuts (ReactivateConfirmation_t id email repo token url)
       (ReactivateConfirmation sender id email repo token url).
Proof.
  unfold ReactivateConfirmation_t, ReactivateConfirmation, reactivateConfirmationSync,
    dispatchSync_t, dispatchSync, compensateSync_t, compensateSync. destruct sender; solve_cuts.
Qed.
End Orchestrator.

(** ** The service and its handlers *)

Section Requests.
Context {X : Type} `{!Env X}.
Local Abbreviation P := (Prog X).
Variables (github : GitHubClient X) (sender : option (confirmationSender X)).
Variables (baseURL apiKey : string) (staticIndex : bool).
Variable ShouldBindJSON : string -> option SubscribeRequest.

Definition Subscribe_t (email repoStr : string) : P unit :=
  if negb (ValidateEmail email) then throw_t (EDomain ErrInvalidEmail) else
  match ParseRepoSpec repoStr with
  | Err err => throw_t (EJoin (EDomain ErrInvalidRepoFormat) err)
  | Ok spec =>
      exists_ ← wrap_t "failed to check repository"
                  (atom (CheckRepoExists github (Owner spec) (Name spec)));
      if negb exists_ then throw_t (EDomain ErrRepoNotFound) else
      existing ← wrap_t "database error" (atom (GetSubscriptionByEmailAndRepo email repoStr));
      token ← atom uuid_NewString;
      let confirmURL := baseURL +:+ "/api/confirm/" +:+ token in
      match existing with
      | Some sub =>
          if negb (has_status StatusFailed sub) then throw_t (EDomain ErrAlreadySubscribed)
          else wrap_t "failed to reactivate subscription saga"
                 (ReactivateConfirmation_t sender (sub_ID sub) email repoStr token confirmURL)
      | None =>
          wrap_t "failed to start subscription saga"
            (StartConfirmation_t sender email repoStr token confirmURL)
      end
  end.

Definition Confirm_t (token : string) : P unit :=
  sub ← wrap_t "database error" (atom (GetSubscriptionByToken token));
  match sub with
  | None => throw_t (EDomain ErrTokenNotFound)
  | Some sub =>
      (if negb (sub_Confirmed sub)
       then wrap_t "failed to confirm subscription" (atom (ConfirmSubscription token))
       else mret ()) ;;
      wrap_t "failed to track repository" (atom (RegisterRepo (sub_Repo sub)))
  end.

Definition Unsubscribe_t (token : string) : P unit :=
  sub ← wrap_t "database error" (atom (GetSubscriptionByToken token));
  match sub with
  | None => throw_t (EDomain ErrTokenNotFound)
  | Some _ => atom (DeleteSubscription token)
  end.

Definition handler_Subscribe_t (body : string) : P (Z * Payload) :=
  match ShouldBindJSON body with
  | None => mret (400, PError "invalid request body")
  | Some req =>
      r ← try_t (Subscribe_t (sr_Email req) (sr_Repo req));
      match r with
      | Ok _ =>
          atom (inc "subscriptions_created_total" []) ;;
          mret (200, PMessage "subscription created, check your email to confirm")
      | Err e => mret (error_response e)
      end
  end.

Definition handleTokenAction_t (token : string) (action : string -> P unit)
    (successMessage metric : string) : P (Z * Payload) :=
  r ← try_t (action token);
  match r with
  | Ok _ => atom (inc metric []) ;; mret (200, PMessage successMessage)
  | Err e => mret (error_response e)
  end.

(** A list request is one statement. *)
Definition handler_GetSubscriptions_t (email : string) : P (Z * Payload) :=
  atom (handler_GetSubscriptions email).

Definition APIKeyAuth_t (req : Request) (next : P (Z * Payload)) : P (Z * Payload) :=
  if is_empty apiKey then next
  else if is_empty (r_APIKey req) then mret (401, PError "missing X-API-Key header")
  else if negb (String.eqb (r_APIKey req) apiKey) then mret (403, PError "invalid API key")
  else next.

Definition dispatch_route_t (req : Request) : P (Z * Payload) :=
  match r_Route req with
  | RSubscribe => APIKeyAuth_t req (handler_Subscribe_t (r_Body req))
  | RConfirm token => APIKeyAuth_t req (handleTokenAction_t token Confirm_t
      "subscription confirmed" "subscriptions_confirmed_total")
  | RUnsubscribe token => APIKeyAuth_t req (handleTokenAction_t token Unsubscribe_t
      "unsubscribed successfully" "unsubscribes_total")
  | RSubscriptions => APIKeyAuth_t req (handler_GetSubscriptions_t (r_Email req))
  | RIndex => mret (if staticIndex then (200, PContent) else (404, PContent))
  | RMetrics => mret (200, PContent)
  | RHealth => mret (200, PStatus "ok")
  | RNone => mret (404, PContent)
  end.

Definition GinMiddleware_t (req : Request) (next : P (Z * Payload)) : P (Z * Payload) :=
  res ← next;
  let path := if is_empty (FullPath staticIndex (r_Route req)) then "unknown"
              else FullPath staticIndex (r_Route req) in
  if String.eqb path "/metrics" then mret res
  else
    atom (inc "http_requests_total" [r_Method req; path; pretty (fst res)]) ;;
    atom (observe "http_request_duration_seconds" [r_Method req; path]) ;;
    mret res.

Definition RequestLogger_t (req : Request) (next : P (Z * Payload)) : P Response :=
  id ← (if is_empty (r_RequestID req) then atom uuid_NewString else mret (r_RequestID req));
  res ← next;
  mret (mkResponse (fst res) (snd res) id).

Definition BuildRouter_t (req : Request) : P Response :=
  RequestLogger_t req (GinMiddleware_t req (dispatch_route_t req)).

#[export] Instance Subscribe_cuts (starter : sagaStarter X) email repo :
  starter = Orchestrator sender ->
  Cuts (Subscribe_t email repo) (Subscribe github starter baseURL email repo).
Proof. intros ->. unfold Subscribe_t, Subscribe, Orchestrator. cbn [saga_StartConfirmation
  saga_ReactivateConfirmation]. solve_cuts. Qed.
#[export] Instance Confirm_cuts token : Cuts (Confirm_t token) (Confirm token).
Proof. unfold Confirm_t, Confirm. solve_cuts. Qed.
#[export] Instance Unsubscribe_cuts token : Cuts (Unsubscribe_t token) (Unsubscribe token).
Proof. unfold Unsubscribe_t, Unsubscribe. solve_cuts. Qed.

Lemma APIKeyAuth_cuts req p m :
  Cuts p m -> Cuts (APIKeyAuth_t req p) (APIKeyAuth apiKey req m).
Proof. intros Hp. unfold APIKeyAuth_t, APIKeyAuth. solve_cuts; exact Hp. Qed.

#[export] Instance BuildRouter_cuts req :
  Cuts (BuildRouter_t req)
    (BuildRouter github (Orchestrator sender) baseURL ShouldBindJSON apiKey staticIndex req).
Proof.
  unfold BuildRouter_t, BuildRouter, RequestLogger_t, RequestLogger, GinMiddleware_t,
    GinMiddleware.
  apply cuts_bind; [solve_cuts|]. intros id. apply cuts_bind; [|solve_cuts].
  apply cuts_bind; [|solve_cuts].
  unfold dispatch_route_t, dispatch_route. destruct (r_Route req); try apply _;
    apply APIKeyAuth_cuts; [|unfold handler_ConfirmSubscription|unfold handler_Unsubscribe|apply _];
    unfold handler_Subscribe_t, handler_Subscribe, handleTokenAction_t, handleTokenAction;
    [destruct (ShouldBindJSON _); [|apply _]|..];
    (apply cuts_bind; [apply cuts_try|solve_cuts]); [by apply Subscribe_cuts|apply _..].
Qed.
End Requests.

(** ** The reply consumer, the sweeper and the relay *)

Section Workers.
Context {X : Type} `{!Env X}.
Local Abbreviation P := (Prog X).

Definition compensate_t (sg : Saga) : P unit :=
  wrap_t ("mark saga " +:+ saga_ID sg +:+ " compensating")
    (atom (UpdateState (saga_ID sg) StateCompensating reply_reason)) ;;
  wrap_t ("compensate saga " +:+ saga_ID sg) (atom (MarkFailed (saga_SubscriptionID sg))) ;;
  wrap_t ("fail saga " +:+ saga_ID sg)
    (atom (UpdateState (saga_ID sg) StateFailed reply_reason)).

Definition advance_t (status : string) (sg : Saga) : P unit :=
  if String.eqb status SagaStatusSent then
    if decide (saga_State sg = StateSubscriptionCreated)
    then wrap_t ("complete saga " +:+ saga_ID sg)
           (atom (UpdateState (saga_ID sg) StateCompleted ""))
    else mret ()
  else if String.eqb status SagaStatusFailed then
    if decide (saga_State sg = StateSubscriptionCreated \/
               saga_State sg = StateCompensating)
    then compensate_t sg else mret ()
  else mret ().

Definition HandleReply_t (body : string) : P unit :=
  match unmarshal (A := SagaReply) body with
  | Err e => throw_t (EWrap "decode saga reply" e)
  | Ok rep =>
      sg ← wrap_t ("load saga " +:+ sr_SagaID rep) (atom (GetByID (sr_SagaID rep)));
      match sg with
      | None => mret ()
      | Some sg => advance_t (sr_Status rep) sg
      end
  end.

Fixpoint retry_reply_t (attempts : nat) (body : string) : P unit :=
  match attempts with
  | O => mret ()
  | S k =>
      r ← try_t (HandleReply_t body);
      match r, k with
      | Ok _, _ => mret ()
      | Err e, O => throw_t e
      | Err e, S _ =>
          canceled ← atom (select_done_or_after 200000000);
          if (canceled : bool) then throw_t (EPlain "context canceled")
          else retry_reply_t k body
      end
  end.

(** The answer to the broker. *)
Definition settle (r : result unit) : GoM X unit := fun w =>
  (Ok (), emit (match r with Ok _ => EvAck | Err _ => EvNack end) w).

Definition run_delivery_t (body : string) : P unit :=
  r ← try_t (retry_reply_t 3 body); atom (settle r).

Definition sweep_one_t (sg : Saga) : P unit :=
  match saga_State sg with
  | StateSubscriptionCreated => try_t (atom (Requeue (saga_ID sg))) ;; mret ()
  | StateCompensating =>
      r ← try_t (atom (MarkFailed (saga_SubscriptionID sg)));
      match r with
      | Err _ => mret ()
      | Ok _ =>
          try_t (atom (UpdateState (saga_ID sg) StateFailed
                         "compensation finished by sweeper")) ;; mret ()
      end
  | _ => mret ()
  end.

Definition Sweep_t (staleAfter : Z) : P unit :=
  now ← atom time_Now;
  sagas ← atom (FindResumable (now - staleAfter));
  for_each_t sweep_one_t sagas.

Fixpoint drain_batch_t (msgs : list OutboxMessage) : P unit :=
  match msgs with
  | [] => mret ()
  | m :: msgs' =>
      r ← try_t (atom (Publish (ob_RoutingKey m) (ob_MessageID m) (ob_Payload m)));
      match r with
      | Err _ => mret ()
      | Ok _ => try_t (atom (MarkPublished (ob_ID m))) ;; drain_batch_t msgs'
      end
  end.

Definition drain_t : P unit :=
  r ← try_t (atom (FetchUnpublished batch));
  match r with
  | Err _ => mret ()
  | Ok msgs => drain_batch_t msgs
  end.

#[export] Instance HandleReply_cuts body : Cuts (HandleReply_t body) (HandleReply body).
Proof.
  unfold HandleReply_t, HandleReply, advance_t, advance, compensate_t, compensate. solve_cuts.
Qed.
#[export] Instance run_delivery_cuts body : Cuts (run_delivery_t body) (run_delivery body).
Proof.
  assert (forall n, Cuts (retry_reply_t n body) (retry_reply n body)) as Hr.
  { induction n as [|n IH]; cbn [retry_reply_t retry_reply]; [apply _|].
    apply cuts_bind; [apply _|].
    intros [[]|e]; [|destruct n; [|apply cuts_bind; [apply _|intros []]]]; apply _. }
  intros w. unfold run_delivery_t, mbind, prog_bind. rewrite denote_bind.
  rewrite (cuts_try _ _ (Hr 3%nat)). unfold run_delivery, handleWithRetry, try.
  by destruct (retry_reply 3 body w) as [r w'].
Qed.
#[export] Instance Sweep_cuts stale : Cuts (Sweep_t stale) (Sweep stale).
Proof. unfold Sweep_t, Sweep, sweep_one_t, sweep_one. solve_cuts. Qed.
#[export] Instance drain_cuts : Cuts drain_t (drain Publish).
Proof.
  assert (forall msgs, Cuts (drain_batch_t msgs) (drain_batch Publish msgs)) as Hb.
  { induction msgs as [|m msgs IH]; cbn [drain_batch_t drain_batch]; solve_cuts. }
  unfold drain_t, drain. solve_cuts.
Qed.
End Workers.

(** ** The scanner *)

Section Scanner.
Context {X : Type} `{!Env X}.
Local Abbreviation P := (Prog X).
Variable github : string -> string -> GoM X string.
Variable notifier : string -> string -> string -> string -> GoM X unit.
Variable baseURL : string.

Definition detectNewRelease_t (repoStr : string) : P (option string) :=
  match ParseRepoSpec repoStr with
  | Err _ => mret None
  | Ok spec =>
      r ← try_t (atom (github (Owner spec) (Name spec)));
      match r with
      | Err _ => atom (scanner_error "github") ;; mret None
      | Ok latestTag =>
          touched ← try_t (atom (TouchLastChecked repoStr));
          (match touched with
           | Err _ => atom (scanner_error "tracking")
           | Ok _ => mret ()
           end) ;;
          if is_empty latestTag then mret None else
          tracking ← try_t (atom (GetRepoTracking repoStr));
          match tracking with
          | Err _ => atom (scanner_error "tracking") ;; mret None
          | Ok row =>
              if match row with
                 | Some rp => String.eqb (repo_LastSeenTag rp) latestTag
                 | None => false
                 end
              then mret None
              else atom (inc "releases_detected_total" []) ;; mret (Some latestTag)
          end
      end
  end.

Definition notify_t (repoStr newTag : string) (sub : Subscriber) : P unit :=
  let unsubURL := baseURL +:+ "/api/unsubscribe/" +:+ subscriber_Token sub in
  r ← try_t (atom (notifier (subscriber_Email sub) repoStr newTag unsubURL));
  match r with
  | Err _ => atom (scanner_error "notify")
  | Ok _ => atom (inc "notifications_sent_total" [])
  end.

Definition recordAndNotify_t (repoStr newTag : string) : P unit :=
  recorded ← try_t (atom (RecordRelease repoStr newTag));
  match recorded with
  | Err _ => atom (scanner_error "tracking")
  | Ok _ =>
      subs ← try_t (atom (SubscribersForRepo repoStr));
      match subs with
      | Err _ => atom (scanner_error "subscribers")
      | Ok subscribers => for_each_t (notify_t repoStr newTag) subscribers
      end
  end.

Definition checkRepo_t (repoStr : string) : P unit :=
  found ← detectNewRelease_t repoStr;
  match found with
  | None => mret ()
  | Some newTag => recordAndNotify_t repoStr newTag
  end.

Definition scan_t : P unit :=
  atom (inc "scanner_runs_total" []) ;;
  repos ← try_t (atom ActiveRepos);
  match repos with
  | Err _ => atom (scanner_error "list_repos")
  | Ok repos => for_each_t checkRepo_t repos
  end ;;
  atom (observe "scanner_cycle_duration_seconds" []) ;;
  atom (observe "scanner_last_run_timestamp_seconds" []).

#[export] Instance scan_cuts : Cuts scan_t (scan github notifier baseURL).
Proof.
  unfold scan_t, scan, checkRepo_t, checkRepo, detectNewRelease_t, detectNewRelease,
    recordAndNotify_t, recordAndNotify, notify_t, notify. solve_cuts.
Qed.
End Scanner.

(** ** An operation of the monolith, in steps *)

Section Operation.
Context {X : Type} `{!Env X}.
Variables (cfg : Config) (redis : bool) (transport : Transport).
Variable ShouldBindJSON : string -> option SubscribeRequest.

Definition op_t (op : Op) : Prog X unit :=
  match op with
  | OpRequest req =>
      BuildRouter_t (github_service (run_github X cfg redis)) (transport_sender transport)
        (BaseURL cfg) (APIKey cfg) true ShouldBindJSON req ;; mret ()
  | OpScan =>
      scan_t (up_GetLatestRelease (run_github X cfg redis)) SendReleaseNotification
        (BaseURL cfg)
  | OpDrain => drain_t
  | OpReply body => run_delivery_t body
  | OpSweep => Sweep_t (stale_after cfg)
  end.

#[export] Instance op_cuts op :
  Cuts (op_t op) (run_op cfg redis transport ShouldBindJSON op).
Proof.
  destruct op; unfold op_t, run_op, run_request, run_scan; apply _.
Qed.

(** A goroutine of the process: its operations, one after the other. The loops
    of the source log the error of an operation and go on. *)
Definition goroutine (ops : list Op) : Prog X unit :=
  for_each_t (fun op => try_t (op_t op) ;; mret ()) ops.

(** The process with these goroutines, before any of them has run. *)
Definition process (threads : list (list Op)) (w : World X) : Pool X :=
  (goroutine <$> threads, w).
End Operation.
