(* ===== verification/Interleave.v ===== *)
(** * The goroutines of the monolith, statement by statement

    What holds when the goroutines interleave at every statement, are killed
    between any two, and any number of them run: the tables stay well-formed and
    the subscriptions still move by steps of the abstract machine, with one step
    that no operation alone makes ([LReconfirm]: a confirmation that was read
    before a failure and written after it). The rely of a goroutine is that the
    others keep the identifiers ([grows], Growth.v). *)

From S2P Require Import Prelude GoErrors Tables Env Logic Script Schema Samples Json Wire.
From S2P Require Import Spec SubStore SagaStore OutboxStore TrackStore Notification SagaMachine.
From S2P Require Import Orchestrator Service Gateway Scanner Handler Config Relay ReplyConsumer.
From S2P Require Import Sweeper Wiring System Growth Threads Stepwise.

Local Open Scope string_scope.
Local Open Scope Z_scope.

(** ** What a step may do *)

(** The labels of an operation whose statements may interleave with others. *)
Definition step_label (cfg : Config) (bind : string -> option SubscribeRequest)
    (op : Op) (l : Label) : Prop :=
  op_label cfg bind op l \/
  exists req tok, op = OpRequest req /\ authorized (APIKey cfg) req = true /\
    r_Route req = RConfirm tok /\ l = LReconfirm tok.

(** Between two steps no transaction is open and the tables are well-formed. *)
Definition settled {X : Type} `{!Env X} (w : World X) : Prop :=
  w_tx w = None /\ db_ok (w_db w).

(** What a goroutine relies on, and what it guarantees; [SR] and [SG] are what
    the others and its own steps may do to a saga. *)
Definition others_grow {X : Type} (SR : Saga -> Saga -> Prop) (w w' : World X) : Prop :=
  grows_by SR (w_db w) (w_db w').
Definition step_does {X : Type} (SG : Saga -> Saga -> Prop) (L : Label -> Prop)
    (w w' : World X) : Prop :=
  grows_by SG (w_db w) (w_db w') /\ evolves L (abs (w_db w)) (abs (w_db w')).

(** Identifier [id] was given, to the pair [k] if the row still exists. *)
Definition named (id : Z) (k : Key) (d : DB) : Prop :=
  1 <= id <= subscriptions_id_seq d /\
  forall s, s ∈ subscriptions d -> sub_ID s = id -> sub_key s = k.

Lemma named_grows S id k d d' : grows_by S d d' -> named id k d -> named id k d'.
Proof.
  intros [Hq Hr _] [Hid Hk]. split; [lia|]. intros s' Hs' Heq.
  destruct (Hr s' Hs') as [(s & Hs & Hi & ->)|?]; [|lia]. apply Hk; [done|congruence].
Qed.

Lemma named_row `{!PgServer} d s : db_ok d -> s ∈ subscriptions d -> named (sub_ID s) (sub_key s) d.
Proof.
  intros [[Hid _ _ Hrows] _ _ _ _ _] Hs. destruct (Hrows s Hs) as [Hq _]. split; [done|].
  intros s' Hs' Heq. f_equal. by eapply (NoDup_fmap_inj sub_ID).
Qed.

Lemma row_or_none {A} (P : A -> bool) (l : list A) :
  (exists a, a ∈ l /\ P a = true) \/ (forall a, a ∈ l -> P a = false).
Proof.
  induction l as [|a l [(b & Hb & HP)|Hl]]; [right; set_solver|left; exists b; set_solver|].
  destruct (P a) eqn:E; [left; exists a; set_solver|right].
  intros b [->|Hb]%elem_of_cons; auto.
Qed.

Section Evolution.
Context `{!PgServer}.
Implicit Types d : DB.

(** A confirmation writes whatever the row has become. *)
Lemma reconfirm_evolves (L : Label -> Prop) token d :
  db_ok d -> L (LConfirm token) -> L (LReconfirm token) ->
  evolves L (abs d) (abs (set_subscriptions
    (update_where (by_token token) set_confirmed (subscriptions d)) d)).
Proof.
  intros Hok HL HR. destruct (row_or_none (by_token token) (subscriptions d)) as [(s & Hin & Ht%String.eqb_eq)|Hn].
  2: { unfold abs at 2. simpl. rewrite update_where_none by done. apply evolves_refl. }
  subst token.
  pose proof (sub_keys_unique _ _ (db_subscriptions_ok _ Hok)) as Hk.
  unfold abs at 2. simpl. rewrite (abs_rows_update _ _ _ s); try done; [|apply String.eqb_refl|].
  2: { intros a Ha Heq%String.eqb_eq.
       apply (NoDup_fmap_inj sub_Token (subscriptions d)); [apply Hok|done..]. }
  assert (abs d !! sub_key s = Some (state_of s)) as Hlook
    by (apply abs_rows_lookup; [done|by exists s]).
  change (state_of (set_confirmed s)) with (Active (sub_Token s)).
  destruct (state_of s) as [t|t|t []] eqn:Est; pose proof (state_of_token s) as Htok;
    rewrite Est in Htok; simpl in Htok; subst t.
  2: { rewrite insert_id by done. apply evolves_refl. }
  2: { eapply evolves_one; [exact HR|]. by apply sp_reconfirm. }
  all: eapply evolves_one; [exact HL|]; exact (sp_confirm _ _ _ Hlook).
Qed.

Lemma sub_failed_evolves (L : Label -> Prop) id d :
  db_ok d -> (forall s, s ∈ subscriptions d -> sub_ID s = id -> L (LFail (sub_key s))) ->
  evolves L (abs d) (abs (sub_failed id d)).
Proof.
  intros Hok HL. destruct (row_or_none (by_id id) (subscriptions d)) as [(s & Hin & Ht%Z.eqb_eq)|Hn].
  2: { unfold abs at 2. simpl. rewrite update_where_none by done. apply evolves_refl. }
  subst id.
  pose proof (sub_keys_unique _ _ (db_subscriptions_ok _ Hok)) as Hk.
  unfold abs at 2. simpl. rewrite (abs_rows_update _ _ _ s); try done; [|apply Z.eqb_refl|].
  2: { intros a Ha Heq%Z.eqb_eq.
       apply (NoDup_fmap_inj sub_ID (subscriptions d)); [apply Hok|done..]. }
  rewrite state_of_failed. eapply evolves_one; [by apply HL|]. apply sp_fail.
  apply abs_rows_lookup; [done|]. by exists s.
Qed.
End Evolution.

(** ** Operations whose every step is safe *)

Section Safe.
Context {X : Type} `{!Env X} `{!PgServerLaws env_server} `{!RedisLaws X}.
Context (SR SG : Saga -> Saga -> Prop) `{!SagaRel SR} `{!SagaStep SG}.
Implicit Types w : World X.

(** [K] holds before and after [p], and between its steps. *)
Definition safe {A} (L : Label -> Prop) (K : DB -> Prop) (p : Prog X A) : Prop :=
  along settled (others_grow SR) (step_does SG L) (fun w => K (w_db w)) p.

(** What every growth of the tables keeps. *)
Definition lasting (K : DB -> Prop) : Prop :=
  forall d d', db_ok d -> db_ok d' -> grows_by SR d d' -> K d -> K d'.

Lemma lasting_named id k : lasting (named id k).
Proof. intros d d' _ _. apply named_grows. Qed.
Lemma lasting_true : lasting (fun _ => True).
Proof. done. Qed.

Section Rules.
Variables (L : Label -> Prop) (K : DB -> Prop).
Hypothesis HK : lasting K.

Lemma safe_ret {A} (a : A) : safe L K (mret a).
Proof. apply along_ret. Qed.
Lemma safe_throw {A} e : safe L K (throw_t (A := A) e).
Proof. apply along_throw. Qed.
Lemma safe_bind {A B} (p : Prog X A) (k : A -> Prog X B) :
  safe L K p -> (forall a, safe L K (k a)) -> safe L K (p ≫= k).
Proof. apply along_bind. Qed.
Lemma safe_try {A} (p : Prog X A) : safe L K p -> safe L K (try_t p).
Proof. apply along_try. Qed.
Lemma safe_wrap {A} s (p : Prog X A) : safe L K p -> safe L K (wrap_t s p).
Proof. apply along_wrap. Qed.
Lemma safe_for_each {A} (body : A -> Prog X unit) l :
  (forall a, safe L K (body a)) -> safe L K (for_each_t body l).
Proof. apply along_for_each. Qed.

(** A step: it keeps the invariant and the identifiers whatever fails, leaves no
    transaction, and moves the subscriptions by labels of [L]. *)
Lemma safe_step {A} (m : GoM X A) (P : result A -> DB -> Prop) :
  (forall r, lasting (P r)) -> keeps db_ok m ->
  (forall w, settled w -> K (w_db w) -> wp m (fun r w' => w_tx w' = None /\
     (db_ok (w_db w') -> grows_by SG (w_db w) (w_db w') /\ K (w_db w') /\
      evolves L (abs (w_db w)) (abs (w_db w')) /\ P r (w_db w'))) w) ->
  secured settled (others_grow SR) (step_does SG L) (atom m) (fun w => K (w_db w))
    (fun r w => K (w_db w) /\ P r (w_db w)).
Proof.
  intros HP Hok Hm. apply secured_atom.
  { intros r w w' [_ Hw] [_ Hw'] Hd [HKw HPw]. split;
      [exact (HK _ _ Hw Hw' Hd HKw)|exact (HP r _ _ Hw Hw' Hd HPw)]. }
  intros w [Htx Hw] HKw. apply (wp_keeps db_ok); [done..|].
  eapply wp_mono; [by apply Hm|]. intros r w' [Htx' H] Hw'.
  by destruct (H Hw') as (Hgr & HKw' & Hev & HPr).
Qed.

(** When it keeps the sagas like the steps of the others, [K] holds after it. *)
Lemma safe_step_grows {A} (m : GoM X A) (P : result A -> DB -> Prop) :
  (forall r, lasting (P r)) -> keeps db_ok m -> (forall d, keeps (grows_by eq d) m) ->
  (forall w, settled w -> K (w_db w) -> wp m (fun r w' => w_tx w' = None /\
     (db_ok (w_db w') -> evolves L (abs (w_db w)) (abs (w_db w')) /\
      (K (w_db w') -> P r (w_db w')))) w) ->
  secured settled (others_grow SR) (step_does SG L) (atom m) (fun w => K (w_db w))
    (fun r w => K (w_db w) /\ P r (w_db w)).
Proof.
  intros HP Hok Hg Hm. apply safe_step; [done..|]. intros w Hw HKw. pose proof Hw as [Htx Hokw].
  apply (wp_keeps (grows_by eq (w_db w))); [apply Hg|done|reflexivity|].
  eapply wp_mono; [by apply Hm|]. intros r w' [Htx' H] Hgr. split; [done|]. intros Hw'.
  destruct (H Hw') as [Hev HPr].
  assert (forall S, SagaStep S -> grows_by S (w_db w) (w_db w')) as HS.
  { intros S HS. eapply grows_by_mono; [|exact Hgr]. intros a b ->. apply saga_step_refl. }
  split; [apply HS; apply _|]. assert (K (w_db w')) as HKw'; [|by auto].
  eapply HK; [exact Hokw|done|apply HS; apply _|done].
Qed.

Lemma safe_atom {A} (m : GoM X A) :
  keeps db_ok m -> (forall d, keeps (grows_by eq d) m) ->
  (forall w, settled w -> K (w_db w) -> wp m (fun r w' => w_tx w' = w_tx w /\
     evolves L (abs (w_db w)) (abs (w_db w'))) w) ->
  safe L K (atom m).
Proof.
  intros Hok Hg Hm. eapply secured_weaken; [apply (safe_step_grows m (fun _ _ => True))|..];
    try done.
  - intros w [Htx Hw] HKw. eapply wp_mono; [by apply Hm|]. intros r w' [-> ?]. done.
  - by intros r w _ [? _].
Qed.

(** A step that leaves the subscriptions alone. *)
Lemma safe_other {A} (m : GoM X A) :
  keeps db_ok m -> (forall d, keeps (grows_by eq d) m) ->
  (forall w, settled w -> wp m (fun _ w' => w_tx w' = w_tx w /\
     subscriptions (w_db w') = subscriptions (w_db w)) w) ->
  safe L K (atom m).
Proof.
  intros Hok Hg Hm. apply safe_atom; [done..|]. intros w Hw _.
  eapply wp_mono; [by apply Hm|]. intros r w' [? Hs]. split; [done|].
  rewrite (abs_same _ _ Hs). apply evolves_refl.
Qed.

(** A step that leaves the database alone. *)
Lemma safe_quiet {A} (m : GoM X A) :
  (forall w, wp m (fun _ w' => w_tx w' = w_tx w /\ w_db w' = w_db w) w) -> safe L K (atom m).
Proof.
  intros Hm.
  assert (forall P : DB -> Prop, keeps P m) as Hkeeps.
  { intros P w Hw. destruct (Hm w) as [Htx Hdb]. unfold winv. by rewrite Hdb, Htx. }
  apply safe_other; [done..|]. intros w _. eapply wp_mono; [by apply Hm|].
  by intros r w' [? ->].
Qed.
End Rules.

(** What a step teaches the rest of the program. *)
Lemma safe_learn {A B} (L : Label -> Prop) (K : DB -> Prop) (K' : A -> DB -> Prop)
    (p : Prog X A) (k : A -> Prog X B) :
  secured settled (others_grow SR) (step_does SG L) p (fun w => K (w_db w))
    (fun r w => K (w_db w) /\ forall a, r = Ok a -> K' a (w_db w)) ->
  (forall a, safe L (fun d => K d /\ K' a d) (k a)) -> safe L K (p ≫= k).
Proof. apply (along_learn _ _ _ _ (fun a w => K' a (w_db w))). Qed.
End Safe.

(** *** The steps *)

Section Steps.
Context {X : Type} `{!Env X} `{!PgServerLaws env_server} `{!RedisLaws X}.
Context (SR SG : Saga -> Saga -> Prop) `{!SagaRel SR} `{!SagaStep SG}.
Variables (L : Label -> Prop) (K : DB -> Prop).
Hypothesis HK : lasting SR K.
Implicit Types w : World X.
Local Abbreviation safe_here := (safe (X := X) SR SG L K).

(** The state of the saga with key [id] may be set to [st] where [K] holds. *)
Definition may_update (id : string) (st : SagaState) : Prop :=
  forall d u le now, db_ok d -> K d -> pg_uuid id = Some u ->
    let d' := set_saga (update_where (by_saga_id u) (set_state st le now) (saga d)) d in
    grows_by SG d d' /\ (db_ok d' -> K d').

(** Statements that write other tables, or only read. *)
Lemma UpdateState_safe id st le : may_update id st -> safe_here (atom (UpdateState id st le)).
Proof.
  intros Hu. eapply secured_weaken.
  { apply (safe_step SR SG L K HK (UpdateState id st le) (fun _ _ => True));
      [done|auto with go_db|].
    intros w [Htx Hok] HKw. eapply wp_mono; [apply wp_UpdateState|].
    intros r w' ((Htx' & _) & Hdb & _). split; [congruence|]. intros Hok'.
    destruct Hdb as [-> |(u & Hid & le' & now & Heq)].
    - split; [done|]. split; [done|]. split; [apply evolves_refl|done].
    - destruct (Hu _ u le' now Hok HKw Hid) as [Hg HK']. rewrite <- Heq in Hg, HK'.
      split; [exact Hg|]. split; [by apply HK'|]. split; [|done].
      rewrite (abs_same (w_db w) (w_db w')) by by rewrite Heq. apply evolves_refl. }
  { done. }
  by intros r w _ [? _].
Qed.
Lemma Requeue_safe id : safe_here (atom (Requeue id)).
Proof.
  apply (safe_other SR SG); auto with go_db. intros w _. unfold Requeue.
  apply wp_wrap, wp_db_stmt; intros; simpl; repeat case_match; done.
Qed.
Lemma MarkPublished_safe id : safe_here (atom (MarkPublished id)).
Proof.
  apply (safe_other SR SG); auto with go_db. intros w _. unfold MarkPublished.
  apply wp_wrap, wp_db_stmt; intros; simpl; done.
Qed.
Lemma RegisterRepo_safe repo : safe_here (atom (RegisterRepo repo)).
Proof.
  apply (safe_other SR SG); auto with go_db. intros w _. eapply wp_mono; [apply wp_RegisterRepo|].
  intros r w' ((Htx & _) & (Hs & _) & _). done.
Qed.
Lemma TouchLastChecked_safe repo : safe_here (atom (TouchLastChecked repo)).
Proof.
  apply (safe_other SR SG); auto with go_db. intros w _. eapply wp_mono; [apply wp_TouchLastChecked|].
  intros r w' ((Htx & _) & (Hs & _) & _). done.
Qed.
Lemma RecordRelease_safe repo tag : safe_here (atom (RecordRelease repo tag)).
Proof.
  apply (safe_other SR SG); auto with go_db. intros w _. eapply wp_mono; [apply wp_RecordRelease|].
  intros r w' ((Htx & _) & (Hs & _) & _). done.
Qed.

Lemma query_safe {A} (f : DB -> result A) : safe_here (atom (db_stmt (fun _ d => (f d, d)))).
Proof. apply (safe_quiet SR SG); [done|]. intros w. by apply wp_query. Qed.
Lemma FetchUnpublished_safe n : safe_here (atom (FetchUnpublished n)).
Proof. apply (safe_quiet SR SG); [done|]. intros w. apply wp_wrap. by apply wp_query. Qed.
Lemma FindResumable_safe before : safe_here (atom (FindResumable before)).
Proof. apply (safe_quiet SR SG); [done|]. intros w. apply wp_wrap. by apply wp_query. Qed.
Lemma GetByID_safe id : safe_here (atom (GetByID id)).
Proof.
  apply (safe_quiet SR SG); [done|]. intros w. unfold GetByID.
  apply wp_wrap, wp_db_stmt; intros; simpl; repeat case_match; done.
Qed.
Lemma SubscribersForRepo_safe repo : safe_here (atom (SubscribersForRepo repo)).
Proof.
  apply (safe_quiet SR SG); [done|]. intros w. apply wp_bind. apply wp_query; [done|]. intros x.
  by apply wp_ret.
Qed.
Lemma inc_safe name ls : safe_here (atom (inc name ls)).
Proof. by apply (safe_quiet SR SG). Qed.
Lemma observe_safe name ls : safe_here (atom (observe name ls)).
Proof. apply inc_safe. Qed.
Lemma ext_read_safe {A} (f : X -> A * X) : safe_here (atom (ext_read f)).
Proof. by apply (safe_quiet SR SG). Qed.
Lemma ext_call_safe {A} (f : X -> ext_result A * X) ev : safe_here (atom (ext_call f ev)).
Proof. apply (safe_quiet SR SG); [done|]. intros w. apply wp_ext_call; intros; by destruct ev. Qed.
Lemma select_safe d : safe_here (atom (select_done_or_after d)).
Proof. apply (safe_quiet SR SG); [done|]. intros w. by apply wp_select. Qed.
Lemma settle_safe r : safe_here (atom (settle r)).
Proof. by apply (safe_quiet SR SG). Qed.
Lemma SendConfirmation_safe email repo url : safe_here (atom (SendConfirmation email repo url)).
Proof. apply (safe_quiet SR SG); [done|]. intros w. apply wp_wrap. by apply wp_ext_call. Qed.
Lemma CheckRepoExists_safe (gh : GitHubClient X) `{!GitHubClientSpec gh} owner name :
  safe_here (atom (CheckRepoExists gh owner name)).
Proof.
  apply (safe_quiet SR SG); [done|]. intros w. eapply wp_mono; [apply check_repo_frame|].
  by intros r w' (? & ? & _).
Qed.
Lemma handler_GetSubscriptions_steps email : safe_here (handler_GetSubscriptions_t email).
Proof.
  apply (safe_quiet SR SG); [done|]. intros w. unfold handler_GetSubscriptions.
  case_match; [by apply wp_ret|]. apply wp_bind, wp_try.
  eapply wp_mono; [apply GetSubscriptions_result|]. intros r w' ((Htx & _) & Hdb & _).
  by apply wp_ret.
Qed.

(** Statements that write a subscription. *)
Lemma MarkFailed_safe id :
  (forall d s, K d -> s ∈ subscriptions d -> sub_ID s = id -> L (LFail (sub_key s))) ->
  safe_here (atom (MarkFailed id)).
Proof.
  intros HL. apply (safe_atom SR SG); auto with go_db. intros w [_ Hok] HKw.
  eapply wp_mono; [apply wp_MarkFailed|]. intros r w' ((Htx & _) & [-> | ->] & _).
  - split; [done|]. apply evolves_refl.
  - split; [done|]. apply sub_failed_evolves; [done|]. eauto.
Qed.
Lemma ConfirmSubscription_safe token :
  L (LConfirm token) -> L (LReconfirm token) -> safe_here (atom (ConfirmSubscription token)).
Proof.
  intros H1 H2. apply (safe_atom SR SG); auto with go_db. intros w [_ Hok] _.
  eapply wp_mono; [apply wp_ConfirmSubscription|]. intros r w' ((Htx & _) & [-> | ->] & _).
  - split; [done|]. apply evolves_refl.
  - split; [done|]. by apply reconfirm_evolves.
Qed.
Lemma DeleteSubscription_safe token :
  L (LUnsubscribe token) -> safe_here (atom (DeleteSubscription token)).
Proof.
  intros HL. apply (safe_atom SR SG); auto with go_db. intros w [_ Hok] _.
  unfold DeleteSubscription. apply wp_db_stmt; intros; simpl; (split; [done|]);
    try apply evolves_refl; by apply deleted_evolves.
Qed.
End Steps.

(** *** The transactions *)

Section Transactions.
Context {X : Type} `{!Env X} `{!PgServerLaws env_server} `{!RedisLaws X}.
Context (SR SG : Saga -> Saga -> Prop) `{!SagaRel SR} `{!SagaStep SG}.
Variables (L : Label -> Prop) (email repo token : string).
Hypothesis HL : forall l, token_label (email, repo) token l -> L l.
Implicit Types w : World X.

Lemma new_labels : L (LSubscribe (email, repo) token) /\ L (LFail (email, repo)).
Proof. split; apply HL; [by left|by right; right]. Qed.
Lemma revive_labels : L (LRevive (email, repo) token) /\ L (LFail (email, repo)).
Proof. split; apply HL; [by right; left|by right; right]. Qed.

Lemma revived_here id d d' :
  db_ok d -> db_ok d' -> named id (email, repo) d -> revived id token d d' ->
  evolves L (abs d) (abs d').
Proof.
  intros Hok Hok' [_ Hk] Hr. pose proof Hr as ((s & Hs & Hid & _) & _). subst id.
  eapply revived_evolves; [done..|]. rewrite (Hk s Hs eq_refl). apply revive_labels.
Qed.

Lemma StartConfirmation_safe K url :
  lasting SR K -> safe (X := X) SR SG L K (atom (StartConfirmation None email repo token url)).
Proof.
  intros HK. apply (safe_atom SR SG); [done|exact (StartConfirmation_keeps TransportBroker _ _ _ _)|..].
  { intros d. apply (StartConfirmation_broker_grows eq). }
  intros w [Htx Hok] _. eapply wp_mono.
  { by apply (start_spec (sg := Orchestrator (transport_sender TransportBroker))). }
  intros r w' (Htx' & Hok' & _ & H). split; [congruence|].
  assert (same_subs (w_db w) (w_db w') \/ subscribed email repo token (w_db w) (w_db w'))
    as [[Hs _]|Hs] by (destruct r; [by right|apply H]).
  - rewrite (abs_same _ _ Hs). apply evolves_refl.
  - eapply subscribed_evolves; [done..|]. apply new_labels.
Qed.

Lemma ReactivateConfirmation_safe K id url :
  lasting SR K -> (forall d, K d -> named id (email, repo) d) ->
  safe (X := X) SR SG L K (atom (ReactivateConfirmation None id email repo token url)).
Proof.
  intros HK Hn. apply (safe_atom SR SG); [done|exact (ReactivateConfirmation_keeps TransportBroker _ _ _ _ _)|..].
  { intros d. apply (ReactivateConfirmation_broker_grows eq). }
  intros w [Htx Hok] HKw. apply Hn in HKw. eapply wp_mono.
  { apply (reactivate_spec (sg := Orchestrator (transport_sender TransportBroker))); [done..|].
    destruct HKw as [? _]. lia. }
  intros r w' (Htx' & Hok' & _ & H). split; [congruence|].
  assert (same_subs (w_db w) (w_db w') \/ revived id token (w_db w) (w_db w'))
    as [[Hs _]|Hs] by (destruct r; [by right|apply H]).
  - rewrite (abs_same _ _ Hs). apply evolves_refl.
  - by eapply revived_here.
Qed.

(** The synchronous T1 names the row that the rest of the program works on. *)
Definition names_row (r : result (Z * string)) (d : DB) : Prop :=
  forall a, r = Ok a -> named a.1 (email, repo) d.

Lemma lasting_names r : lasting SR (names_row r).
Proof. intros d d' _ _ Hg Hn a Ha. eapply named_grows; [exact Hg|by apply Hn]. Qed.

Lemma create_safe K :
  lasting SR K ->
  secured (X := X) settled (others_grow SR) (step_does SG L)
    (atom (createSubscriptionAndSaga email repo token 0))
    (fun w => K (w_db w)) (fun r w => K (w_db w) /\ names_row r (w_db w)).
Proof.
  intros HK. apply (safe_step_grows SR SG); [done|intros r; apply lasting_names|
    apply createSubscriptionAndSaga_keeps|intros d; apply (createSubscriptionAndSaga_grows eq)|].
  intros w [Htx Hok] _. eapply wp_mono; [by apply createSubscriptionAndSaga_result|].
  intros r w' (Htx' & _ & _ & H). split; [done|]. intros Hok'.
  assert (forall a now, created_sync email repo token a now (w_db w) (w_db w') ->
    subscribed email repo token (w_db w) (w_db w') /\
    named a.1 (email, repo) (w_db w')) as Hc.
  { intros a now (-> & u & _ & Hs & Hr & _). split.
    - exists (subscriptions_id_seq (w_db w) + 1), now, StatusPending. auto.
    - apply (named_row _ (created_row (w_db w) email repo token now)); [done|].
      rewrite Hs. apply elem_of_app. right. by apply list_elem_of_singleton. }
  destruct r as [a|e].
  - destruct H as (now & H). apply Hc in H as [Hs Hn]. split; [|by intros _ b [= <-]].
    eapply subscribed_evolves; [done..|]. apply new_labels.
  - split; [|done]. destruct H as [(Hs & _)|(a & now & H)].
    + rewrite (abs_same _ _ Hs). apply evolves_refl.
    + apply Hc in H as [Hs _]. eapply subscribed_evolves; [done..|]. apply new_labels.
Qed.

Lemma recreate_safe K id :
  lasting SR K -> (forall d, K d -> named id (email, repo) d) ->
  secured (X := X) settled (others_grow SR) (step_does SG L)
    (atom (createSubscriptionAndSaga email repo token id))
    (fun w => K (w_db w)) (fun r w => K (w_db w) /\ names_row r (w_db w)).
Proof.
  intros HK Hn. apply (safe_step_grows SR SG); [done|intros r; apply lasting_names|
    apply createSubscriptionAndSaga_keeps|intros d; apply (createSubscriptionAndSaga_grows eq)|].
  intros w [Htx Hok] HKw. pose proof (Hn _ HKw) as Hnw. clear HKw.
  eapply wp_mono; [apply createSubscriptionAndSaga_reactivate; [|done]|].
  { destruct Hnw as [? _]. lia. }
  intros r w' (Htx' & _ & _ & H). split; [done|]. intros Hok'.
  assert (forall a now, reactivated_sync id email repo token a now (w_db w) (w_db w') ->
    revived id token (w_db w) (w_db w') /\ a.1 = id) as Hc.
  { intros a now (Hex & Ha & u & _ & Hs & Hr & _). split; [|done].
    apply reactivated_revived; [done|done|by left|done]. }
  destruct r as [a|e].
  - destruct H as (now & H). apply Hc in H as [Hs Ha]. split; [by eapply revived_here|].
    intros HKw b [= <-]. rewrite Ha. by apply Hn.
  - split; [|done]. destruct H as [(Hs & _)|(a & now & H)].
    + rewrite (abs_same _ _ Hs). apply evolves_refl.
    + apply Hc in H as [Hs _]. by eapply revived_here.
Qed.
End Transactions.

(** *** The programs *)

#[export] Hint Resolve safe_ret safe_throw UpdateState_safe Requeue_safe MarkPublished_safe
  RegisterRepo_safe TouchLastChecked_safe RecordRelease_safe query_safe FetchUnpublished_safe
  FindResumable_safe GetByID_safe SubscribersForRepo_safe inc_safe observe_safe ext_read_safe ext_call_safe
  select_safe settle_safe SendConfirmation_safe CheckRepoExists_safe
  handler_GetSubscriptions_steps MarkFailed_safe ConfirmSubscription_safe
  DeleteSubscription_safe StartConfirmation_safe lasting_true : go_db.

(** [solve_safe]: the structure of the program, and the steps above. *)
Ltac solve_safe :=
  intros; cbv zeta;
  first
  [ solve [auto with go_db nocore]
  | lazymatch goal with
    | |- safe _ _ _ _ (_ ≫= _) => apply safe_bind
    | |- safe _ _ _ _ (wrap_t _ _) => apply safe_wrap
    | |- safe _ _ _ _ (try_t _) => apply safe_try
    | |- safe _ _ _ _ (for_each_t _ _) => apply safe_for_each
    | |- safe _ _ _ _ (match ?x with _ => _ end) => destruct x
    end; solve_safe
  | idtac ].

Section Programs.
Context {X : Type} `{!Env X} `{!PgServerLaws env_server} `{!RedisLaws X}.
Context (SR SG : Saga -> Saga -> Prop) `{!SagaRel SR} `{!SagaStep SG}.
Implicit Types w : World X.
Local Abbreviation safe_always L := (safe (X := X) SR SG L (fun _ => True)).

(** Any saga may be set to any state, and the others expect it. *)
Definition any_update : Prop :=
  (forall st, may_take SG st) /\ (forall a b, SG a b -> SR a b).

Lemma any_update_may K id st : any_update -> lasting SR K -> may_update SG K id st.
Proof.
  intros [Ht Hs] HK d u le now Hok HKd Hid d'.
  assert (grows_by SG d d') as Hg.
  { pose proof (update_state_grows SG id st le (Ht st) now d) as Hg.
    unfold update_state_stmt in Hg. by rewrite Hid in Hg. }
  split; [exact Hg|]. intros Hok'. eapply HK; [exact Hok|exact Hok'| |exact HKd].
  by eapply grows_by_mono.
Qed.

Lemma dispatchSync_t_safe (L : Label -> Prop) K sagaID id email repo url :
  any_update -> lasting SR K -> L (LFail (email, repo)) ->
  (forall d, K d -> named id (email, repo) d) ->
  safe (X := X) SR SG L K (dispatchSync_t SendConfirmation sagaID id email repo url).
Proof.
  intros Ha HK HL Hn. unfold dispatchSync_t, compensateSync_t.
  pose proof (fun id st => any_update_may K id st Ha HK) as Hu.
  assert (forall d s, K d -> s ∈ subscriptions d -> sub_ID s = id -> L (LFail (sub_key s))) as Hf.
  { intros d s HKd Hs Hid. destruct (Hn d HKd) as [_ Hk]. by rewrite (Hk s Hs Hid). }
  solve_safe.
Qed.

Lemma start_dispatch_safe (L : Label -> Prop) K email repo token url id :
  any_update -> lasting SR K -> L (LFail (email, repo)) ->
  secured (X := X) settled (others_grow SR) (step_does SG L)
    (atom (createSubscriptionAndSaga email repo token id))
    (fun w => K (w_db w)) (fun r w => K (w_db w) /\ names_row email repo r (w_db w)) ->
  safe (X := X) SR SG L K ('(subID, sagaID) ← atom (createSubscriptionAndSaga email repo token id);
    dispatchSync_t SendConfirmation sagaID subID email repo url).
Proof.
  intros Ha HK HL Hc. eapply (safe_learn _ _ _ _ (fun a => named a.1 (email, repo))); [exact Hc|].
  intros [subID sagaID]. apply dispatchSync_t_safe; [done| |exact HL|by intros d [_ ?]].
  intros d d' Hok Hok' Hg [HKd Hnd]. split; [exact (HK _ _ Hok Hok' Hg HKd)|by eapply named_grows].
Qed.

Lemma StartConfirmation_t_safe (L : Label -> Prop) t email repo token url :
  (t = TransportBroker \/ any_update) -> subscribe_labels L (email, repo) ->
  safe_always L (StartConfirmation_t (transport_sender t) email repo token url).
Proof.
  intros Ht HL. pose proof (subscribe_token L (email, repo) token HL) as HT.
  destruct t; simpl; [by apply (StartConfirmation_safe SR SG)|].
  destruct Ht as [?|Ha]; [done|].
  apply start_dispatch_safe; [done|done|apply HL|].
  by apply (create_safe SR SG L _ _ _ HT (fun _ => True)).
Qed.

Lemma ReactivateConfirmation_t_safe (L : Label -> Prop) K t id email repo token url :
  (t = TransportBroker \/ any_update) -> lasting SR K -> subscribe_labels L (email, repo) ->
  (forall d, K d -> named id (email, repo) d) ->
  safe (X := X) SR SG L K (ReactivateConfirmation_t (transport_sender t) id email repo token url).
Proof.
  intros Ht HK HL Hn. pose proof (subscribe_token L (email, repo) token HL) as HT.
  destruct t; simpl; [by apply (ReactivateConfirmation_safe SR SG)|].
  destruct Ht as [?|Ha]; [done|].
  apply start_dispatch_safe; [done|done|apply HL|]. by apply (recreate_safe SR SG L _ _ _ HT K).
Qed.

(** The lookup of [Subscribe] names the row it finds. *)
Lemma lookup_names (L : Label -> Prop) email repo :
  secured (X := X) settled (others_grow SR) (step_does SG L)
    (wrap_t "database error" (atom (GetSubscriptionByEmailAndRepo email repo)))
    (fun _ => True) (fun r w => True /\ forall o, r = Ok o ->
       forall s, o = Some s -> named (sub_ID s) (email, repo) (w_db w)).
Proof.
  apply secured_wrap. eapply secured_weaken.
  { apply (safe_step_grows SR SG L (fun _ => True) (lasting_true SR)
      (GetSubscriptionByEmailAndRepo email repo)
      (fun r d => forall s, r = Ok (Some s) -> named (sub_ID s) (email, repo) d)).
    - intros r d d' _ _ Hg Hn s Hs. eapply named_grows; [exact Hg|by apply Hn].
    - auto with go_db.
    - auto with go_db.
    - intros w [Htx Hok] _. unfold GetSubscriptionByEmailAndRepo. apply wp_first_such.
      + intros x m. split; [done|]. split; [apply evolves_refl|done].
      + intros x o Ho. split; [done|]. split; [apply evolves_refl|]. intros _ s [= ->].
        destruct Ho as [Hs Hk%by_email_repo_key]. rewrite <- Hk. by apply named_row. }
  { done. }
  intros [o|e] w _ [_ H]; [|done]. split; [done|]. intros o' [= <-] s ->. by apply H.
Qed.

Lemma Subscribe_t_safe (L : Label -> Prop) gh `{!GitHubClientSpec gh} t baseURL email repo :
  (t = TransportBroker \/ any_update) -> subscribe_labels L (email, repo) ->
  safe_always L (Subscribe_t gh (transport_sender t) baseURL email repo).
Proof.
  intros Ht HL. unfold Subscribe_t. case_match; [by apply safe_throw|].
  case_match; [|by apply safe_throw]. apply safe_bind; [solve_safe|]. intros [].
  2: { by apply safe_throw. }
  apply (safe_learn SR SG _ (fun _ => True) (fun o d =>
    forall s, o = Some s -> named (sub_ID s) (email, repo) d)); [apply lookup_names|]. intros o.
  assert (lasting SR (fun d => True /\ forall s, o = Some s -> named (sub_ID s) (email, repo) d)) as HK.
  { intros d d' _ _ Hg [_ Hn]. split; [done|]. intros s Hs. eapply named_grows; [exact Hg|by apply Hn]. }
  apply safe_bind; [by apply (ext_read_safe SR SG)|]. intros token. cbv zeta. destruct o as [s|].
  - case_match; [by apply safe_throw|]. apply safe_wrap.
    apply ReactivateConfirmation_t_safe; [done..|]. intros d [_ Hn]. by apply Hn.
  - apply safe_wrap. eapply secured_weaken; [by apply StartConfirmation_t_safe|done|].
    intros r w _ _. by split.
Qed.

Lemma Confirm_t_safe (L : Label -> Prop) token :
  L (LConfirm token) -> L (LReconfirm token) -> safe_always L (Confirm_t token).
Proof. intros H1 H2. unfold Confirm_t, GetSubscriptionByToken. solve_safe. Qed.

Lemma Unsubscribe_t_safe (L : Label -> Prop) token :
  L (LUnsubscribe token) -> safe_always L (Unsubscribe_t token).
Proof. intros HL. unfold Unsubscribe_t, GetSubscriptionByToken. solve_safe. Qed.

Lemma handleTokenAction_t_safe (L : Label -> Prop) token action s m :
  safe_always L (action token) -> safe_always L (handleTokenAction_t token action s m).
Proof. intros Ha. unfold handleTokenAction_t. solve_safe. Qed.

Lemma APIKeyAuth_t_safe (L : Label -> Prop) key req p :
  (authorized key req = true -> safe_always L p) -> safe_always L (APIKeyAuth_t key req p).
Proof.
  unfold APIKeyAuth_t, authorized. intros Hp. destruct (is_empty key); [by apply Hp|].
  destruct (is_empty (r_APIKey req)); [by apply safe_ret|].
  destruct (String.eqb (r_APIKey req) key); [by apply Hp|by apply safe_ret].
Qed.
End Programs.

(** *** The operations and the goroutines *)

Section Operations.
Context {X : Type} `{!Env X} `{!PgServerLaws env_server} `{!RedisLaws X}.
Variables (cfg : Config) (redis : bool) (transport : Transport).
Variable bind : string -> option SubscribeRequest.
Context (SR SG : Saga -> Saga -> Prop) `{!SagaRel SR} `{!SagaStep SG}.
Implicit Types w : World X.
Local Abbreviation safe_always L := (safe (X := X) SR SG L (fun _ => True)).
Local Abbreviation may := (step_label cfg bind).
Local Abbreviation any_update := (any_update SR SG).

Lemma BuildRouter_t_safe req :
  transport = TransportBroker \/ any_update ->
  safe_always (may (OpRequest req))
    (BuildRouter_t (github_service (run_github X cfg redis)) (transport_sender transport)
       (BaseURL cfg) (APIKey cfg) true bind req).
Proof.
  intros Ht. unfold BuildRouter_t, RequestLogger_t, GinMiddleware_t, uuid_NewString.
  cut (safe_always (may (OpRequest req))
    (dispatch_route_t (github_service (run_github X cfg redis)) (transport_sender transport)
       (BaseURL cfg) (APIKey cfg) true bind req)); [solve_safe|].
  unfold dispatch_route_t. destruct (r_Route req) as [| | | |tok|tok| |] eqn:E;
    try (by apply safe_ret); apply APIKeyAuth_t_safe; intros Ha.
  - unfold handler_Subscribe_t. destruct (bind (r_Body req)) as [sr|] eqn:Hb;
      [|by apply safe_ret].
    apply safe_bind; [apply safe_try|solve_safe]. apply Subscribe_t_safe; [apply _..|exact Ht|].
    unfold subscribe_labels, step_label, op_label. rewrite E.
    split; [intros tok; split|]; left; eauto.
  - apply handleTokenAction_t_safe, Confirm_t_safe; [apply _..| |].
    + left. unfold op_label. by rewrite E.
    + right. by exists req, tok.
  - apply handleTokenAction_t_safe, Unsubscribe_t_safe; [apply _..|]. left. unfold op_label. by rewrite E.
  - auto with go_db.
Qed.

(** The retries of a delivery. *)
Lemma run_delivery_loop (L : Label -> Prop) body :
  safe_always L (HandleReply_t body) -> safe_always L (run_delivery_t body).
Proof.
  intros Hr. unfold run_delivery_t. apply safe_bind; [apply safe_try|solve_safe].
  generalize 3%nat. intros n. induction n as [|n IH]; cbn [retry_reply_t]; solve_safe.
Qed.

Lemma run_delivery_t_safe (L : Label -> Prop) body :
  any_update -> (forall k, L (LFail k)) -> safe_always L (run_delivery_t body).
Proof.
  intros Ha HL. pose proof (fun id st => any_update_may SR SG _ id st Ha (lasting_true SR)) as Hu.
  apply run_delivery_loop. unfold HandleReply_t, advance_t, compensate_t. solve_safe.
Qed.

Lemma Sweep_t_safe (L : Label -> Prop) stale :
  any_update -> (forall k, L (LFail k)) -> safe_always L (Sweep_t stale).
Proof.
  intros Ha HL. pose proof (fun id st => any_update_may SR SG _ id st Ha (lasting_true SR)) as Hu.
  unfold Sweep_t, sweep_one_t, time_Now. solve_safe.
Qed.

Lemma drain_t_safe (L : Label -> Prop) : safe_always L drain_t.
Proof.
  unfold drain_t. apply safe_bind; [solve_safe|]. intros [msgs|e]; [|by apply safe_ret].
  induction msgs as [|m msgs IH]; cbn [drain_batch_t]; [by apply safe_ret|].
  unfold Publish. solve_safe.
Qed.

Lemma scan_t_safe (L : Label -> Prop) :
  safe_always L (scan_t (up_GetLatestRelease (run_github X cfg redis)) SendReleaseNotification
    (BaseURL cfg)).
Proof.
  assert (forall owner name,
    safe_always L (atom (up_GetLatestRelease (run_github X cfg redis) owner name))) as Hgh.
  { intros owner name. apply (safe_quiet SR SG); [done|]. intros w. eapply wp_mono.
    { apply (checker_spec (github := up_GetLatestRelease (run_github X cfg redis))). }
    intros r w' ((Hdb & Htx & _) & _). by split. }
  unfold scan_t, checkRepo_t, detectNewRelease_t, recordAndNotify_t, notify_t, scanner_error,
    ActiveRepos, GetActiveRepos, GetRepoTracking, SendReleaseNotification, publish, Publish.
  solve_safe.
Qed.

Lemma op_t_safe op : any_update -> safe_always (may op) (op_t cfg redis transport bind op).
Proof.
  assert (forall k, (exists k', LFail k = LFail k')) as HF by eauto.
  intros Ha. destruct op as [req| | |body|]; unfold op_t.
  - apply safe_bind; [apply BuildRouter_t_safe; by right|solve_safe].
  - apply scan_t_safe.
  - apply drain_t_safe.
  - apply run_delivery_t_safe; [done|]. left. apply HF.
  - apply Sweep_t_safe; [done|]. left. apply HF.
Qed.

(** The labels of the operations of a goroutine. *)
Definition thread_label (ops : list Op) (l : Label) : Prop := exists op, op ∈ ops /\ may op l.

Lemma goroutine_safe ops :
  (forall op, op ∈ ops -> safe_always (may op) (op_t cfg redis transport bind op)) ->
  safe_always (thread_label ops) (goroutine cfg redis transport bind ops).
Proof.
  intros Hops. unfold goroutine. apply secured_for_each. intros op Hop.
  apply (safe_bind SR SG (thread_label ops) (fun _ => True)); [|intros; by apply safe_ret].
  apply (safe_try SR SG _ (fun _ => True)).
  eapply secured_guarantee; [|by apply Hops].
  intros w w' [Hg He]. split; [exact Hg|]. eapply evolves_mono; [|exact He].
  intros l Hl. by exists op.
Qed.

End Operations.

(** *** The process *)

Section Process.
Context {X : Type} `{!Env X} `{!PgServerLaws env_server} `{!RedisLaws X}.
Variables (cfg : Config) (redis : bool) (transport : Transport).
Variable bind : string -> option SubscribeRequest.
Variable threads : list (list Op).
Implicit Types w : World X.

(** What thread [i] may do. *)
Definition threads_label (i : nat) (l : Label) : Prop :=
  exists ops, threads !! i = Some ops /\ thread_label cfg bind ops l.

(** The abstract machine along a schedule: a turn of thread [i] makes steps of
    the operations of thread [i]; nothing else moves it. *)
Inductive spec_turns : list (Turn X) -> Spec -> Spec -> Prop :=
  | st_done m : spec_turns [] m m
  | st_run i s m1 m2 m3 :
      evolves (threads_label i) m1 m2 -> spec_turns s m2 m3 -> spec_turns (Run i :: s) m1 m3
  | st_kill i s m m' : spec_turns s m m' -> spec_turns (Kill i :: s) m m'
  | st_outside x s m m' : spec_turns s m m' -> spec_turns (Outside x :: s) m m'.

(** What the steps of thread [i] may do to a saga, what it expects of the
    others, and what all of them do. *)
Variables (SR SG : nat -> Saga -> Saga -> Prop) (S : Saga -> Saga -> Prop).
Context `{!SagaRel S}.
Hypothesis SR_rel : forall i, SagaRel (SR i).
Hypothesis guarantees : forall i j a b, i <> j -> SG j a b -> SR i a b.
Hypothesis all_of_them : forall i a b, SG i a b -> S a b.
Hypothesis goroutines_safe : forall i ops, threads !! i = Some ops ->
  safe (SR i) (SG i) (thread_label cfg bind ops) (fun _ => True)
    (goroutine cfg redis transport bind ops).

Definition process_ok (c : Pool X) : Prop :=
  pool_ok settled (fun i => others_grow (SR i)) (fun i => step_does (SG i) (threads_label i))
    c.1 c.2.

Lemma process_starts_ok w :
  settled w -> process_ok (process cfg redis transport bind threads w).
Proof.
  intros Hw. split; [exact Hw|]. simpl. intros i p Hp.
  rewrite list_lookup_fmap in Hp. apply fmap_Some in Hp as (ops & Hops & ->).
  exists (fun _ => True). split; [done|]. split; [done|].
  eapply secured_guarantee;
    [|eapply secured_weaken; [by apply (goroutines_safe i ops)|done|done]].
  intros w1 w2 [Hg He]. split; [exact Hg|]. eapply evolves_mono; [|exact He].
  intros l Hl. by exists ops.
Qed.

Lemma process_turn t c :
  process_ok c ->
  process_ok (turn t c) /\ grows_by S (w_db c.2) (w_db (turn t c).2) /\
  (forall s m, spec_turns s (abs (w_db (turn t c).2)) m -> spec_turns (t :: s) (abs (w_db c.2)) m).
Proof.
  intros Hc. assert (forall i j w w', i <> j -> settled w -> settled w' ->
    step_does (SG j) (threads_label j) w w' -> others_grow (SR i) w w') as Ho.
  { intros i j w w' Hij _ _ [Hg _]. eapply grows_by_mono; [|exact Hg]. intros a b.
    by apply guarantees. }
  assert (forall i x w, others_grow (SR i) w (set_ext x w)) as Hr.
  { intros i x w. unfold others_grow. pose proof (SR_rel i). reflexivity. }
  destruct c as [ps w].
  destruct (secured_turn settled (fun i => others_grow (SR i))
    (fun i => step_does (SG i) (threads_label i)) set_ext Ho ltac:(done) ltac:(done) Hr t ps w Hc)
    as (w' & Hv & Hc' & Ht).
  change (w' = (turn t (ps, w)).2) in Hv. subst w'. split; [exact Hc'|].
  destruct t as [i|i|x].
  - destruct Ht as [->|[_ [Hg He]]].
    + split; [done|]. intros s m Hs. eapply st_run; [apply evolves_refl|exact Hs].
    + split; [eapply grows_by_mono; [apply (all_of_them i)|exact Hg]|].
      intros s m Hs. by eapply st_run.
  - rewrite Ht. split; [done|]. by constructor.
  - rewrite Ht. split; [done|]. by constructor.
Qed.

Lemma process_turns sched c :
  process_ok c ->
  settled (play_turns sched c).2 /\ grows_by S (w_db c.2) (w_db (play_turns sched c).2) /\
  spec_turns sched (abs (w_db c.2)) (abs (w_db (play_turns sched c).2)).
Proof.
  revert c. induction sched as [|t s IH]; intros c Hc; simpl.
  - split; [apply Hc|]. split; [done|constructor].
  - destruct (process_turn t c Hc) as (Hc' & Hg & Hs). destruct (IH _ Hc') as (Hw & Hg' & Hs').
    split; [exact Hw|]. split; [by etrans|]. by apply Hs.
Qed.

Lemma process_runs sched w :
  settled w ->
  let w' := (play_turns sched (process cfg redis transport bind threads w)).2 in
  settled w' /\ grows_by S (w_db w) (w_db w') /\
  spec_turns sched (abs (w_db w)) (abs (w_db w')).
Proof.
  intros Hw. apply (process_turns sched (process cfg redis transport bind threads w)).
  by apply process_starts_ok.
Qed.

Lemma spec_turns_evolves s m m' :
  spec_turns s m m' ->
  evolves (fun l => exists ops op, ops ∈ threads /\ op ∈ ops /\ step_label cfg bind op l) m m'.
Proof.
  induction 1 as [m|i s m1 m2 m3 H12 H23 IH|i s m m' H IH|x s m m' H IH]; try done;
    [apply evolves_refl|].
  eapply evolves_trans; [|exact IH]. eapply evolves_mono; [|exact H12].
  intros l (ops & Hops & op & Hop & Hl). exists ops, op.
  split; [by eapply list_elem_of_lookup_2|done].
Qed.
End Process.

(** Whatever the goroutines are: the sagas keep their identities. *)
Section AnyProcess.
Context {X : Type} `{!Env X} `{!PgServerLaws env_server} `{!RedisLaws X}.
Variables (cfg : Config) (redis : bool) (transport : Transport).
Variable bind : string -> option SubscribeRequest.

Lemma any_process_runs threads sched (w : World X) :
  settled w ->
  let w' := (play_turns sched (process cfg redis transport bind threads w)).2 in
  settled w' /\ grows (w_db w) (w_db w') /\
  spec_turns cfg bind threads sched (abs (w_db w)) (abs (w_db w')).
Proof.
  apply (process_runs cfg redis transport bind threads (fun _ => same_saga) (fun _ => same_saga)
    same_saga); [apply _|done..|].
  intros i ops _. apply goroutine_safe; [apply _..|]. intros op _.
  by apply op_t_safe; [apply _..|split; [by intros st sg le now|]].
Qed.
End AnyProcess.

(** ** The properties of the interleaved process *)

Section Properties.
Context {X : Type} `{!Env X} `{!PgServerLaws env_server} `{!RedisLaws X}.
Variables (cfg : Config) (redis : bool) (transport : Transport).
Variable bind : string -> option SubscribeRequest.
Implicit Types w : World X.
Local Abbreviation process := (process cfg redis transport bind).

(** C2: Refinement under concurrency: any number of goroutines, each running its
    requests, scans, drains, replies and sweeps, interleaved at every statement,
    killed between any two, whatever fails: the subscriptions still move by
    steps of the abstract machine, and each turn makes only steps of the
    operations of the goroutine that ran. *)
Theorem interleaved_refines_spec threads sched w :
  settled w ->
  spec_turns cfg bind threads sched (abs (w_db w))
    (abs (w_db (play_turns sched (process threads w)).2)).
Proof. intros Hw. by apply any_process_runs. Qed.

(** C7: Invariant under concurrency: in every such interleaving no transaction
    is left open between two steps, the tables stay well-formed, no saga is lost
    or changes its identity, and no identifier is given to another pair. *)
Theorem interleaved_invariant threads sched w :
  settled w ->
  let w' := (play_turns sched (process threads w)).2 in
  settled w' /\ grows (w_db w) (w_db w').
Proof.
  intros Hw. by destruct (any_process_runs cfg redis transport bind threads sched w Hw) as (Hw' & Hg & _).
Qed.

(** C6: Double opt-in under concurrency: a subscription that is confirmed at the
    end of an interleaving, when none was at its start, was confirmed by a
    request of one of the goroutines that presented its token, and the API key
    if one is configured. *)
Theorem interleaved_double_opt_in threads sched w s :
  settled w -> (forall s0, s0 ∈ subscriptions (w_db w) -> sub_Confirmed s0 = false) ->
  s ∈ subscriptions (w_db (play_turns sched (process threads w)).2) -> sub_Confirmed s = true ->
  exists ops req, ops ∈ threads /\ OpRequest req ∈ ops /\
    r_Route req = RConfirm (sub_Token s) /\ authorized (APIKey cfg) req = true.
Proof.
  intros Hw Hnone Hs Hc. destruct (any_process_runs cfg redis transport bind threads sched w Hw) as ([_ Hok'] & _ & Hspec).
  apply spec_turns_evolves in Hspec as (ls & Hls & Hsteps).
  assert (abs (w_db (play_turns sched (process threads w)).2) !! sub_key s = Some (state_of s))
    as Hlook by (apply abs_rows_lookup; [apply Hok'|by exists s]).
  destruct (spec_steps_receives _ _ _ Hsteps _ _ Hlook) as [Hin|(st & Hst & Hr & _)];
    [by rewrite state_of_receives| |].
  - rewrite state_of_token in Hin. rewrite Forall_forall in Hls.
    destruct (Hls _ Hin) as (ops & op & Hops & Hop & [Hl|(req & tok & _ & _ & _ & [=])]).
    destruct op as [req| | |body|]; try done; [|by destruct Hl|by destruct Hl].
    destruct Hl as [Ha Hl]. exists ops, req. destruct (r_Route req); try done. by subst.
  - apply abs_rows_lookup in Hst as (s0 & Hs0 & _ & <-); [|apply Hw].
    rewrite state_of_receives in Hr. by rewrite (Hnone s0 Hs0) in Hr.
Qed.

(** Equivalence with the sequential process: operations that run one after
    the other, with whatever happens outside in between, are one interleaving of
    a goroutine with these operations: the programs in steps do, uninterrupted,
    exactly what the operations do. *)
Theorem runs_interleaved ops w w' :
  runs cfg redis transport bind ops w w' ->
  exists sched, (play_turns sched (process [ops] w)).2 = w'.
Proof.
  enough (forall ps, ps !! 0%nat = Some (goroutine cfg redis transport bind ops) ->
    runs cfg redis transport bind ops w w' -> exists sched, (play_turns sched (ps, w)).2 = w')
    as H by (intros Hr; by apply H).
  intros ps Hps Hrun. revert ps Hps.
  induction Hrun as [w|op ops w w' Hrun IH|x ops w w' Hrun IH]; intros ps Hps.
  - by exists [].
  - unfold goroutine in Hps. cbn [for_each_t] in Hps.
    destruct (run_first _ _ 0 ps w Hps) as [n Hn].
    assert (forall v, denote (try_t (op_t cfg redis transport bind op) ;; mret ()) v =
      (Ok (), (run_op cfg redis transport bind op v).2)) as Hd.
    { intros v. pose proof (cuts_try _ _ (op_cuts cfg redis transport bind op) v) as Ht.
      unfold mbind, prog_bind. rewrite denote_bind, Ht. done. }
    rewrite Hd in Hn. cbn [fst snd] in Hn.
    destruct (IH (<[0%nat := goroutine cfg redis transport bind ops]> ps)) as [sched Hs].
    { apply list_lookup_insert_eq. by eapply lookup_lt_Some. }
    exists (app (replicate n (Run 0)) sched). rewrite play_turns_app, Hn. exact Hs.
  - destruct (IH ps Hps) as [sched Hs]. by exists (Outside x :: sched).
Qed.
End Properties.
