(* ===== verification/Outcome.v ===== *)
(** * The verdict on a saga, under concurrency

    A saga is decided by one goroutine: with the broker transport by the reply
    consumer, which completes it or begins its compensation; the sweeper only
    finishes what was begun. The state written by [UpdateState] does not depend
    on the state it replaces, so what protects a decision is that nobody else
    decides between the read and the write. This file has the verdict, what one
    write may do to a saga ([moves], [decides]: it is no preorder, a run may do
    more), and the steps of the consumer and of the sweeper, statement by
    statement; Verdict.v puts them beside the other goroutines, with either
    transport. *)

From S2P Require Import Prelude GoErrors Tables Env Logic Script Schema Samples Json Wire.
From S2P Require Import Spec SubStore SagaStore OutboxStore TrackStore Notification SagaMachine.
From S2P Require Import Orchestrator Service Gateway Scanner Handler Config Relay ReplyConsumer.
From S2P Require Import Sweeper Wiring System Growth Threads Stepwise Interleave.

Local Open Scope string_scope.
Local Open Scope Z_scope.

(** [Some true]: the confirmation was sent; [Some false]: it failed, and its
    compensation has begun. *)
Definition verdict (st : SagaState) : option bool :=
  match st with
  | StateSubscriptionCreated => None
  | StateCompleted => Some true
  | StateCompensating | StateFailed => Some false
  end.

Definition same_verdict (a b : Saga) : Prop :=
  same_saga a b /\ verdict (saga_State b) = verdict (saga_State a).
Definition final_verdict (a b : Saga) : Prop :=
  same_saga a b /\ forall v, verdict (saga_State a) = Some v -> verdict (saga_State b) = Some v.

#[export] Instance same_verdict_rel : SagaRel same_verdict.
Proof.
  split; [|by intros a b [? _]]. split; [done|].
  intros a b c [Hs1 Hv1] [Hs2 Hv2]. split; [by etrans|congruence].
Qed.
#[export] Instance final_verdict_rel : SagaRel final_verdict.
Proof.
  split; [|by intros a b [? _]]. split; [done|].
  intros a b c [Hs1 Hv1] [Hs2 Hv2]. split; [by etrans|auto].
Qed.
Lemma same_final a b : same_verdict a b -> final_verdict a b.
Proof. intros [Hs Hv]. split; [done|]. by rewrite Hv. Qed.

Lemma same_saga_ID a b : same_saga a b -> saga_ID b = saga_ID a.
Proof. intros H. by injection H. Qed.

(** No verdict is reversed, and the sagas in [P] are not decided. *)
Definition spares (P : string -> Prop) (a b : Saga) : Prop :=
  final_verdict a b /\ (P (saga_ID a) -> same_verdict a b).

#[export] Instance spares_rel P : SagaRel (spares P).
Proof.
  split; [|by intros a b [[? _] _]]. split; [by intros a|].
  intros a b c [Hf1 Hs1] [Hf2 Hs2]. split; [by etrans|]. intros HP.
  etrans; [by apply Hs1|]. apply Hs2. by rewrite (same_saga_ID a b (proj1 Hf1)).
Qed.
Lemma same_spares P a b : same_verdict a b -> spares P a b.
Proof. intros H. split; [by apply same_final|done]. Qed.
Lemma spares_final P a b : spares P a b -> final_verdict a b.
Proof. by intros [? _]. Qed.
Lemma spares_weaken (P P' : string -> Prop) a b :
  (P' (saga_ID a) -> P (saga_ID a)) -> spares P a b -> spares P' a b.
Proof. intros HP [Hf Hs]. split; auto. Qed.

(** One write of a state: nothing, a documented transition, or a compensation
    that is begun again after it was finished (Races.v has the schedule). *)
Definition reopens (st st' : SagaState) : Prop :=
  st = StateFailed /\ st' = StateCompensating.
Definition moves (st st' : SagaState) : Prop :=
  st' = st \/ transition st st' \/ reopens st st'.

(** What a goroutine does to the sagas that others decide: it may finish a
    compensation. *)
Definition finishes (a b : Saga) : Prop :=
  same_saga a b /\ (saga_State b = saga_State a \/
    (saga_State a = StateCompensating /\ saga_State b = StateFailed)).

#[export] Instance finishes_rel : SagaRel finishes.
Proof.
  split; [|by intros a b [? _]]. split; [by intros a; split; [|left]|].
  intros a b c [Hs1 H1] [Hs2 H2]. split; [by etrans|].
  destruct H1 as [H1|[H1 H1']], H2 as [H2|[H2 H2']]; [left|right; split|right; split|]; congruence.
Qed.
Lemma finishes_same a b : finishes a b -> same_verdict a b.
Proof. intros [Hs [H|[H H']]]; (split; [done|]); [by rewrite H|by rewrite H, H']. Qed.

(** One step: a write of a state that reverses no verdict, and of the sagas in
    [P] no more than the end of a compensation. *)
Definition decides (P : string -> Prop) (a b : Saga) : Prop :=
  final_verdict a b /\ moves (saga_State a) (saga_State b) /\ (P (saga_ID a) -> finishes a b).

#[export] Instance decides_step P : SagaStep (decides P).
Proof.
  split; [|by intros a b [[? _] _]]. intros a. split; [done|]. split; [by left|done].
Qed.
Lemma decides_spares P a b : decides P a b -> spares P a b.
Proof. intros (Hf & _ & Hs). split; [done|]. intros HP. by apply finishes_same, Hs. Qed.
Lemma finishes_decides P a b : finishes a b -> decides P a b.
Proof.
  intros H. split; [by apply same_final, finishes_same|]. split; [|done].
  destruct H as [_ [H|[H H']]]; [by left|right; left]. rewrite H, H'. constructor.
Qed.
Lemma decides_weaken (P P' : string -> Prop) a b :
  (P' (saga_ID a) -> P (saga_ID a)) -> decides P a b -> decides P' a b.
Proof. intros HP (Hf & Hm & Hs). split; [done|]. split; [done|]. auto. Qed.

(** The state [st] may be written over every state whose verdict is in [V]. *)
Definition writable (V : option bool -> Prop) (st : SagaState) : Prop :=
  forall st0, V (verdict st0) ->
    moves st0 st /\ forall v, verdict st0 = Some v -> verdict st = Some v.

Lemma writable_completed : writable (.= None) StateCompleted.
Proof. intros []; try done. intros _. split; [right; left; constructor|done]. Qed.
Lemma writable_compensating : writable (fun v => v <> Some true) StateCompensating.
Proof.
  intros [] Hv; try by destruct Hv. all: split; try done.
  - right. left. constructor.
  - by left.
  - by right; right.
Qed.
Lemma writable_failed : writable (.= Some false) StateFailed.
Proof. intros []; try done; (split; [|done]); [right; left; constructor|by left]. Qed.

(** ** A saga whose verdict is in [V] *)

Definition stands (u : string) (V : option bool -> Prop) (d : DB) : Prop :=
  exists a, a ∈ saga d /\ saga_ID a = u /\ V (verdict (saga_State a)).

Lemma grows_saga S d d' a :
  grows_by S d d' -> a ∈ saga d -> exists b, b ∈ saga d' /\ S a b.
Proof.
  intros [_ _ (l & new & -> & Hm)] (i & Hi)%list_elem_of_lookup_1.
  destruct (Forall2_lookup_l _ _ _ _ _ Hm Hi) as (b & Hb & Hab).
  exists b. split; [|done]. apply elem_of_app. left. by eapply list_elem_of_lookup_2.
Qed.

Lemma stands_grows S u V d d' :
  SagaRel S -> (forall a b, saga_ID a = u -> S a b ->
    V (verdict (saga_State a)) -> V (verdict (saga_State b))) ->
  grows_by S d d' -> stands u V d -> stands u V d'.
Proof.
  intros HS HV Hg (a & Ha & Hu & Hv). destruct (grows_saga _ _ _ _ Hg Ha) as (b & Hb & Hab).
  exists b. split; [done|]. split; [|eauto].
  rewrite (same_saga_ID a b); [done|]. by eapply saga_rel_same.
Qed.

Lemma stands_spared (P : string -> Prop) u V d d' :
  P u -> grows_by (spares P) d d' -> stands u V d -> stands u V d'.
Proof.
  intros HP. apply stands_grows; [apply _|]. intros a b <- [_ Hs]. by destruct (Hs HP) as [_ ->].
Qed.
Lemma stands_final u v d d' :
  grows_by final_verdict d d' -> stands u (.= Some v) d -> stands u (.= Some v) d'.
Proof. apply stands_grows; [apply _|]. intros a b _ [_ H]. apply H. Qed.

Section Updates.
Context `{!PgServer}.

(** Setting the state of the saga that stands. *)
Lemma set_state_stands S u V st le now d :
  db_ok d -> stands u V d -> SagaStep S ->
  (forall a, saga_ID a = u -> V (verdict (saga_State a)) -> S a (set_state st le now a)) ->
  grows_by S d (set_saga (update_where (by_saga_id u) (set_state st le now) (saga d)) d).
Proof.
  intros Hok (a & Ha & Hu & HV) HS Hst. split; simpl; [lia|intros s' Hs'; left; by exists s'|].
  eexists _, []. rewrite app_nil_r. split; [done|].
  apply Forall2_fmap_r, Forall_Forall2_diag, Forall_forall. intros b Hb. simpl.
  destruct (by_saga_id u b) eqn:E; [|done]. apply String.eqb_eq in E.
  assert (b = a) as ->; [|by apply Hst].
  apply (NoDup_fmap_inj saga_ID (saga d)); [apply Hok|done|done|congruence].
Qed.

Lemma set_state_stood u (V V' : option bool -> Prop) st le now d :
  stands u V d -> V' (verdict st) ->
  stands u V' (set_saga (update_where (by_saga_id u) (set_state st le now) (saga d)) d).
Proof.
  intros (a & Ha & Hu & _) Hst. exists (set_state st le now a).
  split; [by apply update_saga_lookup|done].
Qed.
End Updates.

(** ** The reply consumer decides *)

Section Consumer.
Context {X : Type} `{!Env X} `{!PgServerLaws env_server} `{!RedisLaws X}.
Variable L : Label -> Prop.
Hypothesis HL : forall k, L (LFail k).
(** The sagas that are the consumer's to decide. *)
Variable mine : string -> Prop.
Implicit Types w : World X.
Local Abbreviation rely := (spares mine).
Local Abbreviation guarantee := (decides (fun u => ~ mine u)).
Local Abbreviation safe_consumer := (safe (X := X) rely guarantee L).
Local Abbreviation secured_consumer :=
  (secured (X := X) settled (others_grow rely) (step_does guarantee L)).

(** What the consumer knows after it loaded a saga: nobody else has decided it. *)
Definition loaded (o : option Saga) (d : DB) : Prop :=
  forall sg, o = Some sg -> mine (saga_ID sg) /\ pg_uuid (saga_ID sg) = Some (saga_ID sg) /\
    stands (saga_ID sg) (.= verdict (saga_State sg)) d.

Lemma lasting_loaded o : lasting rely (loaded o).
Proof.
  intros d d' _ _ Hg H sg Hsg. destruct (H sg Hsg) as (Hm & Hu & Hs).
  split; [done|]. split; [done|]. by eapply stands_spared.
Qed.

(** Setting one of them. *)
Lemma mine_decides V u st le now a :
  mine u -> saga_ID a = u -> writable V st -> V (verdict (saga_State a)) ->
  guarantee a (set_state st le now a).
Proof.
  intros Hm <- Hw Hv. destruct (Hw _ Hv) as [Hmv Hf]. split; [by split|]. split; [done|]. by intros [].
Qed.

Lemma GetByID_loads id :
  (forall u, pg_uuid id = Some u -> mine u) ->
  secured_consumer (atom (GetByID id)) (fun _ => True)
    (fun r w => True /\ forall o, r = Ok o -> loaded o (w_db w)).
Proof.
  intros Hmine.
  apply (safe_step_grows rely guarantee L (fun _ => True) (lasting_true _) (GetByID id)
    (fun r d => forall o, r = Ok o -> loaded o d)).
  - intros r d d' H1 H2 Hg Hr o Ho. eapply lasting_loaded; [exact H1|exact H2|exact Hg|by apply Hr].
  - auto with go_db.
  - auto with go_db.
  - intros w [Htx Hok] _. unfold GetByID.
    apply wp_wrap, wp_db_stmt; intros; simpl; try (split; [done|]; intros _; split;
      [apply evolves_refl|done]).
    all: destruct (pg_uuid id) as [u|] eqn:Hu; simpl;
      (split; [done|]; intros _; split; [apply evolves_refl|]); try done.
    intros _ o [= <-] sg Hsg. apply head_scan_Some in Hsg.
    apply elem_of_select_where in Hsg as [Hin Hid%String.eqb_eq].
    split; [by rewrite Hid; apply Hmine|].
    split; [by apply (db_saga_ids_canonical _ Hok)|by exists sg].
Qed.

(** A saga of the consumer's own that stands as [V] says. *)
Definition held (V : option bool -> Prop) (sg : Saga) (d : DB) : Prop :=
  mine (saga_ID sg) /\ pg_uuid (saga_ID sg) = Some (saga_ID sg) /\ stands (saga_ID sg) V d.

Lemma lasting_held V sg : lasting rely (held V sg).
Proof.
  intros d d' _ _ Hg (Hm & Hu & Hs). split; [done|]. split; [done|]. by eapply stands_spared.
Qed.

Lemma UpdateState_held V st sg le :
  writable V st ->
  secured_consumer (atom (UpdateState (saga_ID sg) st le)) (fun w => held V sg (w_db w))
    (fun r w => r = Ok () -> held (.= verdict st) sg (w_db w)).
Proof.
  intros Hst. apply secured_atom.
  { intros r w w' [_ Hw] [_ Hw'] Hd H Hr. exact (lasting_held _ _ _ _ Hw Hw' Hd (H Hr)). }
  intros w [Htx Hok] (Hm & Hu & Hs). apply (wp_keeps db_ok); [auto with go_db|done|done|].
  eapply wp_mono; [apply wp_UpdateState|]. intros r w' ((Htx' & _) & Hdb & Hr) Hok'.
  split; [split; [congruence|done]|]. split.
  - unfold step_does.
    destruct Hdb as [-> |(u & Hu' & le' & now & Heq)]; [split; [done|apply evolves_refl]|].
    simplify_eq. split.
    + rewrite Heq. apply (set_state_stands _ _ V); [done|done|apply _|].
      intros a Hid Ha. by eapply mine_decides.
    + rewrite (abs_same (w_db w) (w_db w')) by by rewrite Heq. apply evolves_refl.
  - intros Ho. destruct (Hr Ho) as (u & Hu' & le' & now & Heq). simplify_eq.
    split; [done|]. split; [done|]. rewrite Heq. by eapply set_state_stood.
Qed.

Lemma loaded_held V sg d :
  V (verdict (saga_State sg)) -> loaded (Some sg) d -> held V sg d.
Proof.
  intros HV Hl. destruct (Hl sg eq_refl) as (Hm & Hu & a & Ha & Hid & Hv).
  split; [done|]. split; [done|]. exists a. split; [done|]. split; [done|]. by rewrite Hv.
Qed.

Lemma complete_safe sg :
  saga_State sg = StateSubscriptionCreated ->
  secured_consumer (atom (UpdateState (saga_ID sg) StateCompleted "")) (fun w => loaded (Some sg) (w_db w))
    (fun _ _ => True).
Proof.
  intros Hst. eapply secured_weaken; [apply UpdateState_held, writable_completed| |done].
  intros w _. apply loaded_held. by rewrite Hst.
Qed.

Lemma compensate_t_safe sg :
  saga_State sg = StateSubscriptionCreated \/ saga_State sg = StateCompensating ->
  secured_consumer (compensate_t sg) (fun w => loaded (Some sg) (w_db w)) (fun _ _ => True).
Proof.
  intros Hst. unfold compensate_t.
  eapply secured_bind with (S := fun r w => r = Ok () -> held (.= Some false) sg (w_db w)); [|intros []|done].
  { apply secured_wrap. eapply secured_weaken; [apply UpdateState_held, writable_compensating| |by intros [[]|]].
    intros w _. apply loaded_held. by destruct Hst as [-> | ->]. }
  pose proof (lasting_held (.= Some false) sg) as HK.
  eapply secured_bind with (S := fun _ w => held (.= Some false) sg (w_db w)); [|intros []|done].
  { eapply secured_weaken with (P := fun w => held (.= Some false) sg (w_db w))
      (Q := fun _ w => held (.= Some false) sg (w_db w)); [|auto|done].
    cut (safe_consumer (held (.= Some false) sg)
      (wrap_t ("compensate saga " +:+ saga_ID sg) (atom (MarkFailed (saga_SubscriptionID sg)))));
      [done|solve_safe]. }
  apply secured_wrap. eapply secured_weaken; [apply UpdateState_held, writable_failed|auto|by intros [[]|]].
Qed.

(** The replies that name only these. *)
Definition answers (body : string) : Prop :=
  forall rep u, unmarshal (A := SagaReply) body = Ok rep ->
    pg_uuid (sr_SagaID rep) = Some u -> mine u.

Lemma HandleReply_t_decides body :
  answers body -> safe_consumer (fun _ => True) (HandleReply_t body).
Proof.
  unfold HandleReply_t, answers. intros Hm.
  destruct (unmarshal body) as [rep|e]; [|by apply safe_throw].
  eapply secured_bind with (S := fun r w => forall o, r = Ok o -> loaded o (w_db w)); [| |done].
  { apply secured_wrap. eapply secured_weaken; [apply GetByID_loads; eauto|done|].
    intros [o|e] w _ [_ H]; [exact H|done]. }
  intros [sg|]; [|by apply secured_ret].
  eapply secured_weaken with (P := fun w => loaded (Some sg) (w_db w)) (Q := fun _ _ => True);
    [|by intros w _ H; apply H|done].
  unfold advance_t. destruct (String.eqb _ _).
  - destruct (decide _) as [Hst|]; [|by apply secured_ret]. apply secured_wrap.
    eapply secured_weaken; [by apply complete_safe|done|by intros []].
  - destruct (String.eqb _ _); [|by apply secured_ret].
    destruct (decide _) as [Hst|]; [|by apply secured_ret]. by apply compensate_t_safe.
Qed.
End Consumer.

(** ** The sweeper only finishes *)

Section Finisher.
Context {X : Type} `{!Env X} `{!PgServerLaws env_server} `{!RedisLaws X}.
Variable L : Label -> Prop.
Hypothesis HL : forall k, L (LFail k).
Implicit Types w : World X.
Local Abbreviation safe_sweeper := (safe (X := X) final_verdict finishes L).

(** The sagas it found compensating are decided, and stay so. *)
Definition found (sagas : list Saga) (d : DB) : Prop :=
  forall sg, sg ∈ sagas -> saga_State sg = StateCompensating ->
    pg_uuid (saga_ID sg) = Some (saga_ID sg) /\ stands (saga_ID sg) (.= Some false) d.

Lemma lasting_found sagas : lasting final_verdict (found sagas).
Proof.
  intros d d' _ _ Hg H sg Hin Hst. destruct (H sg Hin Hst) as [Hu Hs].
  split; [done|by eapply stands_final].
Qed.

Lemma FindResumable_finds before :
  secured (X := X) settled (others_grow final_verdict) (step_does finishes L)
    (atom (FindResumable before)) (fun _ => True)
    (fun r w => True /\ forall l, r = Ok l -> found l (w_db w)).
Proof.
  apply (safe_step_grows final_verdict finishes L (fun _ => True) (lasting_true _)
    (FindResumable before) (fun r d => forall l, r = Ok l -> found l d)).
  - intros r d d' H1 H2 Hg Hr l Hl. eapply lasting_found; [exact H1|exact H2|exact Hg|by apply Hr].
  - auto with go_db.
  - auto with go_db.
  - intros w [Htx Hok] _. unfold FindResumable. apply wp_wrap, wp_query.
    + intros x m. split; [done|]. intros _. split; [apply evolves_refl|done].
    + intros x. split; [done|]. intros _. split; [apply evolves_refl|]. intros _ l [= <-] sg Hin Hst.
      apply resumable_rows_elem in Hin as (Hin & _ & _).
      split; [by apply (db_saga_ids_canonical _ Hok)|]. exists sg. by rewrite Hst.
Qed.

Lemma Sweep_t_finishes stale : safe_sweeper (fun _ => True) (Sweep_t stale).
Proof.
  unfold Sweep_t, time_Now. apply safe_bind; [by apply (ext_read_safe final_verdict finishes)|].
  intros now. eapply secured_bind with (S := fun r w => forall l, r = Ok l -> found l (w_db w));
    [|intros sagas|done].
  { eapply secured_weaken; [apply FindResumable_finds|done|]. by intros r w _ [_ H]. }
  eapply secured_weaken with (P := fun w => found sagas (w_db w))
    (Q := fun _ w => found sagas (w_db w)); [|by intros w _ H; apply H|done].
  apply secured_for_each. intros sg Hin.
  cut (safe_sweeper (found sagas) (sweep_one_t sg)); [done|].
  pose proof (lasting_found sagas) as HK. unfold sweep_one_t.
  destruct (saga_State sg) eqn:Hst; try by apply safe_ret.
  { solve_safe. }
  assert (may_update finishes (found sagas) (saga_ID sg) StateFailed) as Hup.
  { intros d u le now' Hok Hf Hu. destruct (Hf sg Hin Hst) as [Hu' Hs]. simplify_eq. cbv zeta.
    assert (grows_by finishes d (set_saga (update_where (by_saga_id (saga_ID sg))
      (set_state StateFailed le now') (saga d)) d)) as Hg.
    { apply (set_state_stands _ _ (.= Some false)); [done|done|apply _|].
      intros a _ Ha. split; [done|]. simpl. destruct (saga_State a); try done; [by right|by left]. }
    split; [exact Hg|]. intros Hok'. eapply HK; [exact Hok|exact Hok'| |exact Hf].
    eapply grows_by_mono; [|exact Hg]. intros a b Hab. by apply same_final, finishes_same. }
  solve_safe.
Qed.
End Finisher.

