(* ===== verification/Verdict.v ===== *)
(** * One verdict per saga, and its lifecycle, with either transport

    With the broker transport all sagas are decided by the reply consumer; with
    the gRPC transport each is decided by the request that created it, and the
    consumer decides those of before. Which goroutine a saga belongs to is not in
    the tables, so the goroutines are followed with a record beside the world
    ([Owners]) that exists only for the proof: who decides which saga. A
    goroutine relies on the others not to decide its sagas, and does not decide
    theirs. *)

From S2P Require Import Prelude GoErrors Tables Env Logic Script Schema Samples Json Wire.
From S2P Require Import Spec SubStore SagaStore OutboxStore TrackStore Notification SagaMachine.
From S2P Require Import Orchestrator RepoSpec Email Service Gateway Scanner Handler Config Relay.
From S2P Require Import ReplyConsumer Sweeper Wiring Footprint System Growth Threads Stepwise.
From S2P Require Import Interleave Outcome.

Local Open Scope string_scope.
Local Open Scope Z_scope.

(** ** The record *)

Abbreviation Owners := (gmap string nat).

Definition saga_ids (d : DB) : gset string := list_to_set (saga_ID <$> saga d).

(** The sagas that are new in [d] are goroutine [j]'s. *)
Definition claim (j : nat) (own : Owners) (d : DB) : Owners := own ∪ gset_to_gmap j (saga_ids d).

Lemma elem_of_saga_ids u d : u ∈ saga_ids d <-> exists a, a ∈ saga d /\ saga_ID a = u.
Proof.
  unfold saga_ids. rewrite elem_of_list_to_set, list_elem_of_fmap. split; intros (a & ? & ?); eauto.
Qed.

Lemma saga_ids_grow S d d' : SagaStep S -> grows_by S d d' -> saga_ids d ⊆ saga_ids d'.
Proof.
  intros HS Hg u (a & Ha & <-)%elem_of_saga_ids. apply elem_of_saga_ids.
  destruct (grows_saga _ _ _ _ Hg Ha) as (b & Hb & Hab). exists b. split; [done|].
  eapply same_saga_ID, saga_step_same, Hab.
Qed.

Lemma claim_new j own d u : own !! u = None -> u ∈ saga_ids d -> claim j own d !! u = Some j.
Proof.
  intros Hn Hu. unfold claim. rewrite lookup_union_r by done. by apply lookup_gset_to_gmap_Some.
Qed.

Section Verdict.
Context {X : Type} `{!Env X} `{!PgServerLaws env_server} `{!RedisLaws X}.
Variables (cfg : Config) (redis : bool) (transport : Transport).
Variable bind : string -> option SubscribeRequest.
(** The goroutine of the reply consumer, and the sagas of before. *)
Variables (ic : nat) (inherited : gset string).
Implicit Types (w : World X) (own : Owners) (a b : Owners * World X).

(** Whose the sagas are that goroutine [i] creates, and which the consumer may
    be asked about. *)
Definition decider (i : nat) : nat :=
  match transport with TransportBroker => ic | TransportGRPC => i end.
Definition answerable (u : string) : Prop :=
  match transport with TransportBroker => True | TransportGRPC => u ∈ inherited end.

Record judged a : Prop := {
  jd_settled : settled a.2;
  jd_owned : dom a.1 = saga_ids (w_db a.2);
  jd_inherited : forall u, u ∈ inherited -> a.1 !! u = Some ic;
  jd_broker : forall u j, transport = TransportBroker -> a.1 !! u = Some j -> j = ic }.

Definition others_judge (i : nat) a b : Prop :=
  a.1 ⊆ b.1 /\ grows_by (spares (fun u => a.1 !! u = Some i)) (w_db a.2) (w_db b.2).
Definition judges (i : nat) a b : Prop :=
  a.1 ⊆ b.1 /\ grows_by (decides (fun u => a.1 !! u <> Some i)) (w_db a.2) (w_db b.2).

Local Abbreviation judging i := (secured (X := X) judged (others_judge i) (judges i)).
Local Abbreviation judging_along i := (along (X := X) judged (others_judge i) (judges i) (fun _ => True)).

Lemma claim_judged i S own w w' :
  SagaStep S -> judged (own, w) -> settled w' -> grows_by S (w_db w) (w_db w') ->
  judged (claim (decider i) own (w_db w'), w') /\ own ⊆ claim (decider i) own (w_db w').
Proof.
  intros HS [Hw Hd Hi Hb] Hw' Hg. simpl in *.
  assert (own ⊆ claim (decider i) own (w_db w')) as Hsub by apply map_union_subseteq_l.
  split; [|done]. split; simpl; [done| |intros u Hu; eapply lookup_weaken; eauto|].
  - unfold claim. rewrite dom_union_L, dom_gset_to_gmap, Hd.
    pose proof (saga_ids_grow S _ _ HS Hg). set_solver.
  - intros u j Ht. unfold claim. intros [?|[_ Hu]]%lookup_union_Some_raw; [by eapply Hb|].
    apply lookup_gset_to_gmap_Some in Hu as [_ <-]. unfold decider. by rewrite Ht.
Qed.

(** What the consumer may be asked about and that exists is its own. *)
Lemma answerable_owned own w s :
  judged (own, w) -> s ∈ saga (w_db w) -> answerable (saga_ID s) -> own !! saga_ID s = Some ic.
Proof.
  intros [_ Hd Hi Hb] Hs Ha. unfold answerable in Ha. simpl in *.
  destruct transport; [|by apply Hi].
  assert (saga_ID s ∈ dom own) as (j & Hj)%elem_of_dom by (rewrite Hd; apply elem_of_saga_ids; eauto).
  by rewrite Hj, (Hb _ _ eq_refl Hj).
Qed.

(** A step of goroutine [i]. *)
Lemma judging_atom {A} i (m : GoM X A) (P : Owners * World X -> Prop)
    (Q : result A -> Owners * World X -> Prop) :
  (forall r, stable judged (others_judge i) (Q r)) ->
  (forall own w, judged (own, w) -> P (own, w) -> wp m (fun r w' => settled w' /\
     grows_by (decides (fun u => own !! u <> Some i)) (w_db w) (w_db w') /\
     Q r (claim (decider i) own (w_db w'), w')) w) ->
  judging i (atom m) P Q.
Proof.
  intros HQ Hm. exists Q. split; [done|]. split; [|by simpl]. intros [own w] Hj HP.
  destruct (Hm own w Hj HP) as (Hw' & Hg & HQ').
  destruct (claim_judged i _ own w (m w).2 _ Hj Hw' Hg) as [Hj' Hsub].
  by exists (claim (decider i) own (w_db (m w).2), (m w).2).
Qed.

(** ** What is safe on the world alone *)

Lemma judging_safe {A} i L K (p : Prog X A) :
  safe final_verdict finishes L K p ->
  judging i p (fun a => K (w_db a.2)) (fun _ a => K (w_db a.2)).
Proof.
  intros Hp. refine (secured_record _ _ _ _ _ _ p (fun w => K (w_db w)) (fun _ w => K (w_db w))
    _ _ _ Hp); [apply jd_settled|..].
  - intros a b _ _ [_ Hg]. eapply grows_by_mono; [apply spares_final|exact Hg].
  - intros [own w] w' Hj Hw' [Hg _].
    destruct (claim_judged i _ own w w' _ Hj Hw' Hg) as [Hj' Hsub].
    exists (claim (decider i) own (w_db w')). split; [done|]. split; [done|].
    eapply grows_by_mono; [apply finishes_decides|exact Hg].
Qed.

Lemma consumer_safe {A} L K (p : Prog X A) :
  safe (spares answerable) (decides (fun u => ~ answerable u)) L K p ->
  judging ic p (fun a => K (w_db a.2)) (fun _ a => K (w_db a.2)).
Proof.
  intros Hp. refine (secured_record _ _ _ _ _ _ p (fun w => K (w_db w)) (fun _ w => K (w_db w))
    _ _ _ Hp); [apply jd_settled|..].
  - intros [own w] [own' w'] Hj _ [_ Hg]. eapply grows_by_mono_in; [|exact Hg].
    intros s s' Hs. apply spares_weaken. by apply (answerable_owned own w).
  - intros [own w] w' Hj Hw' [Hg _].
    destruct (claim_judged ic _ own w w' _ Hj Hw' Hg) as [Hj' Hsub].
    exists (claim (decider ic) own (w_db w')). split; [done|]. split; [done|].
    eapply grows_by_mono_in; [|exact Hg]. intros s s' Hs. apply decides_weaken.
    intros Hne Ha. by apply Hne, (answerable_owned own w).
Qed.

(** ** The saga of a synchronous request *)

(** Goroutine [i] decides the saga with key [id], and its verdict is in [V]. *)
Definition owned (i : nat) (id : string) (V : option bool -> Prop) a : Prop :=
  exists u, pg_uuid id = Some u /\ a.1 !! u = Some i /\ stands u V (w_db a.2).

Lemma owned_stable i id V : stable judged (others_judge i) (owned i id V).
Proof.
  intros a b _ _ [Hsub Hg] (u & Hu & Hi & Hs). exists u. split; [done|].
  split; [by eapply lookup_weaken|]. eapply stands_spared; [|exact Hg|exact Hs]. done.
Qed.

(** A statement that touches no saga. *)
Lemma owned_along {A} i id V (m : GoM X A) :
  keeps db_ok m -> (forall d, keeps (grows_by eq d) m) ->
  (forall w, w_tx w = None -> w_tx (m w).2 = None) ->
  along judged (others_judge i) (judges i) (owned i id V) (atom m).
Proof.
  intros Hok Hg Htx. apply judging_atom; [intros r; apply owned_stable|].
  intros own w Hj (u & Hu & Hi & Hs). pose proof (jd_settled _ Hj) as [Hn Hd]. simpl in *.
  assert (grows_by eq (w_db w) (w_db (m w).2)) as Hw by by apply (keeps_db _ m w (Hg _)).
  split; [split; [by apply Htx|by apply (keeps_db _ m w Hok)]|]. split.
  - eapply grows_by_mono; [|exact Hw]. intros a b ->. apply saga_step_refl.
  - exists u. split; [done|]. split; [by apply lookup_union_Some_l|].
    eapply stands_grows; [apply eq_rel| |exact Hw|exact Hs]. by intros a b _ ->.
Qed.

(** The verdict is given once. *)
Lemma UpdateState_owned i id st le V :
  writable V st ->
  judging i (atom (UpdateState id st le)) (owned i id V)
    (fun r a => r = Ok () -> owned i id (.= verdict st) a).
Proof.
  intros Hst. apply judging_atom;
    [intros r a b Ha Hb Hab H Hr; exact (owned_stable i id _ a b Ha Hb Hab (H Hr))|].
  intros own w Hj (u & Hu & Hi & Hs). pose proof (jd_settled _ Hj) as [Hn Hd]. simpl in *.
  apply (wp_keeps db_ok); [auto with go_db|done|done|]. eapply wp_mono; [apply wp_UpdateState|].
  intros r w' ((Htx & _) & Hdb & Hr) Hok'. split; [split; [congruence|done]|]. split.
  - destruct Hdb as [Hdb|(u' & Hu' & le' & now & Hdb)]; [by rewrite Hdb|].
    simplify_eq. rewrite Hdb. apply (set_state_stands _ _ V); [done|done|apply _|].
    intros a <- Ha. destruct (Hst _ Ha) as [Hm Hf]. split; [by split|]. split; [done|].
    simpl. congruence.
  - intros Ho. destruct (Hr Ho) as (u' & Hu' & le' & now & Heq). simplify_eq. exists u.
    split; [done|]. split; [by apply lookup_union_Some_l|]. simpl. rewrite Heq.
    by eapply set_state_stood.
Qed.

Lemma dispatchSync_t_judging i sagaID subID email repo url :
  judging i (dispatchSync_t SendConfirmation sagaID subID email repo url)
    (owned i sagaID (.= None)) (fun _ _ => True).
Proof.
  unfold dispatchSync_t.
  eapply secured_bind with (S := fun _ => owned i sagaID (.= None)); [apply secured_try| |done].
  { apply owned_along; [apply SendConfirmation_keeps|intros d; apply SendConfirmation_keeps|].
    intros w Hw. enough (wp (SendConfirmation email repo url) (fun _ w' => w_tx w' = None) w) as H
      by exact H. apply wp_wrap. by apply wp_ext_call. }
  intros [[]|e].
  - apply secured_wrap.
    eapply secured_weaken; [apply UpdateState_owned, writable_completed|done|by intros [[]|]].
  - unfold compensateSync_t.
    eapply secured_bind with (S := fun r a => r = Ok () -> owned i sagaID (.= Some false) a);
      [|intros []|done].
    { apply secured_wrap.
      eapply secured_weaken; [apply UpdateState_owned, writable_compensating| |by intros [[]|]].
      intros a _ (u & Hu & Hi & s & Hs & Hid & Hv). exists u. split; [done|]. split; [done|].
      exists s. split; [done|]. split; [done|]. by rewrite Hv. }
    eapply secured_bind with (S := fun _ a => owned i sagaID (.= Some false) a); [|intros []|done].
    { apply secured_wrap. eapply secured_weaken with (P := owned i sagaID (.= Some false))
        (Q := fun _ => owned i sagaID (.= Some false)); [|auto|by intros [[]|]].
      apply owned_along; [auto with go_db..|]. intros w Hw.
      enough (wp (MarkFailed subID) (fun _ w' => w_tx w' = None) w) as H by exact H.
      eapply wp_mono; [apply wp_MarkFailed|]. intros r w' ((Htx & _) & _). congruence. }
    apply secured_wrap.
    eapply secured_weaken; [apply UpdateState_owned, writable_failed|auto|by intros [[]|]].
Qed.

(** ** The requests of the gRPC transport *)

(** What the synchronous T1 adds to the sagas. *)
Lemma createSubscriptionAndSaga_adds w email repo token id :
  w_tx w = None ->
  wp (createSubscriptionAndSaga email repo token id) (fun r w' => w_tx w' = None /\
    forall x, r = Ok x -> exists u sg, pg_uuid x.2 = Some u /\ saga_ID sg = u /\
      saga_State sg = StateSubscriptionCreated /\
      saga (w_db w') = app (saga (w_db w)) [sg]) w.
Proof.
  intros Htx.
  assert (forall r w' (C : Z * string -> Z -> DB -> DB -> Prop),
    (forall x now d d', C x now d d' -> exists u sg, pg_uuid x.2 = Some u /\ saga_ID sg = u /\
      saga_State sg = StateSubscriptionCreated /\ saga d' = app (saga d) [sg]) ->
    tx_result C w r w' -> w_tx w' = None /\ forall x, r = Ok x -> exists u sg,
      pg_uuid x.2 = Some u /\ saga_ID sg = u /\ saga_State sg = StateSubscriptionCreated /\
      saga (w_db w') = app (saga (w_db w)) [sg]) as Hadds.
  { intros r w' C HC (Htx' & _ & _ & H). split; [done|]. intros x ->. destruct H as (now & H).
    by eapply HC. }
  destruct (decide (id = 0)) as [->|Hid].
  - eapply wp_mono; [by apply createSubscriptionAndSaga_result|]. intros r w'. apply Hadds.
    intros x now d d' (_ & u & Hu & _ & _ & _ & Hg). eexists u, _. split_and!; [exact Hu| | |exact Hg]; done.
  - eapply wp_mono; [by apply createSubscriptionAndSaga_reactivate|]. intros r w'. apply Hadds.
    intros x now d d' (_ & _ & u & Hu & _ & _ & _ & Hg). eexists u, _. split_and!; [exact Hu| | |exact Hg]; done.
Qed.

Section Synchronous.
Hypothesis grpc : transport = TransportGRPC.
Variable i : nat.

(** The new saga is the request's own. *)
Lemma createSubscriptionAndSaga_owned email repo token id :
  judging i (atom (createSubscriptionAndSaga email repo token id)) (fun _ => True)
    (fun r a => forall x, r = Ok x -> owned i x.2 (.= None) a).
Proof.
  apply judging_atom.
  { intros r a b Ha Hb Hab H x Hx. exact (owned_stable i x.2 _ a b Ha Hb Hab (H x Hx)). }
  intros own w Hj _. pose proof (jd_settled _ Hj) as [Hn Hd]. simpl in *.
  apply (wp_keeps db_ok); [apply createSubscriptionAndSaga_keeps|done|done|].
  apply (wp_keeps (grows_by eq (w_db w)));
    [apply (createSubscriptionAndSaga_grows eq)|done|reflexivity|].
  eapply wp_mono; [by apply createSubscriptionAndSaga_adds|].
  intros r w' [Htx Hr] Hg Hok'. split; [done|]. split.
  { eapply grows_by_mono; [|exact Hg]. by intros a b ->. }
  intros x Hx. destruct (Hr x Hx) as (u & sg & Hu & Hid & Hst & Hs).
  assert (sg ∈ saga (w_db w')) as Hin.
  { rewrite Hs. apply elem_of_app. right. by apply list_elem_of_singleton. }
  exists u. split; [done|]. split.
  - assert (decider i = i) as Hi by (unfold decider; by rewrite grpc).
    simpl. rewrite Hi. apply claim_new.
    + pose proof (jd_owned _ Hj) as Hdom. simpl in Hdom. apply not_elem_of_dom. rewrite Hdom. intros (a & Ha & Heq)%elem_of_saga_ids.
      pose proof (db_saga_ids_unique _ Hok') as Hnd. rewrite Hs, fmap_app in Hnd.
      apply NoDup_app in Hnd as (_ & Hnd & _). apply (Hnd (saga_ID a)).
      * by apply list_elem_of_fmap_2.
      * apply list_elem_of_singleton. congruence.
    + apply elem_of_saga_ids. by exists sg.
  - exists sg. by rewrite Hst.
Qed.

Lemma start_dispatch_judging email repo token url id :
  judging_along i ('(subID, sagaID) ← atom (createSubscriptionAndSaga email repo token id);
    dispatchSync_t SendConfirmation sagaID subID email repo url).
Proof.
  eapply secured_bind; [apply createSubscriptionAndSaga_owned| |done]. intros [subID sagaID].
  eapply secured_weaken; [apply dispatchSync_t_judging| |done]. intros a _ H.
  exact (H (subID, sagaID) eq_refl).
Qed.

Lemma Subscribe_t_judging email repo :
  judging_along i (Subscribe_t (github_service (run_github X cfg redis)) (Some SendConfirmation)
    (BaseURL cfg) email repo).
Proof.
  pose proof (fun A (p : Prog X A) => judging_safe i (fun _ => True) (fun _ => True) p) as Hl.
  unfold Subscribe_t. case_match; [by apply along_throw|].
  case_match; [|by apply along_throw]. apply along_bind.
  { apply Hl, safe_wrap. apply (CheckRepoExists_safe final_verdict finishes); [apply lasting_true|apply _]. }
  intros []; [|by apply along_throw]. apply along_bind.
  { apply Hl. unfold GetSubscriptionByEmailAndRepo. solve_safe. }
  intros o. apply along_bind; [apply Hl; by apply (ext_read_safe final_verdict finishes)|].
  intros token. cbv zeta. destruct o as [s|].
  - case_match; [by apply along_throw|]. apply along_wrap, start_dispatch_judging.
  - apply along_wrap, start_dispatch_judging.
Qed.

(** Only [Subscribe] uses the transport. *)
Lemma dispatch_route_t_judging req :
  judging_along i (dispatch_route_t (github_service (run_github X cfg redis))
    (transport_sender transport) (BaseURL cfg) (APIKey cfg) true bind req).
Proof.
  pose proof (fun A (p : Prog X A) => judging_safe i (fun _ => True) (fun _ => True) p) as Hl.
  unfold dispatch_route_t. destruct (r_Route req) as [| | | |tok|tok| |] eqn:E;
    try (by apply along_ret).
  2-4: apply Hl, APIKeyAuth_t_safe; intros Ha;
    first [solve [apply handleTokenAction_t_safe, Confirm_t_safe; first [apply _|done]]
          |solve [apply handleTokenAction_t_safe, Unsubscribe_t_safe; first [apply _|done]]
          |auto with go_db].
  assert (transport_sender (X := X) transport = Some SendConfirmation) as Ht by by rewrite grpc.
  rewrite Ht. unfold APIKeyAuth_t. repeat case_match; try (by apply along_ret).
  all: unfold handler_Subscribe_t; destruct (bind (r_Body req)) as [sr|]; [|by apply along_ret].
  all: apply along_bind; [apply along_try, Subscribe_t_judging|intros r; apply Hl; solve_safe].
Qed.

Lemma BuildRouter_t_judging req :
  judging_along i (BuildRouter_t (github_service (run_github X cfg redis))
    (transport_sender transport) (BaseURL cfg) (APIKey cfg) true bind req).
Proof.
  pose proof (fun A (p : Prog X A) => judging_safe i (fun _ => True) (fun _ => True) p) as Hl.
  unfold BuildRouter_t, RequestLogger_t, GinMiddleware_t, uuid_NewString.
  apply along_bind; [apply Hl; solve_safe|]. intros id. apply along_bind; [|intros res; by apply along_ret].
  apply along_bind; [apply dispatch_route_t_judging|intros res; apply Hl; solve_safe].
Qed.
End Synchronous.

(** ** The goroutines *)

Definition is_reply (op : Op) : bool :=
  match op with OpReply _ => true | _ => false end.

Lemma op_t_judging i op :
  (is_reply op = true <-> i = ic) -> (forall body, op = OpReply body -> answers answerable body) ->
  judging_along i (op_t cfg redis transport bind op).
Proof.
  intros Hi Hr.
  pose proof (fun A (p : Prog X A) => judging_safe i (fun _ => True) (fun _ => True) p) as Hl.
  destruct op as [req| | |body|]; unfold op_t.
  - apply along_bind; [|intros resp; by apply along_ret].
    assert (transport = TransportBroker \/ transport = TransportGRPC) as [Ht|Ht]
      by (destruct transport; auto); [|by apply BuildRouter_t_judging].
    eapply (judging_safe i (step_label cfg bind (OpRequest req)) (fun _ => True)).
    by apply BuildRouter_t_safe; [apply _..|left].
  - apply Hl. by apply (scan_t_safe cfg redis final_verdict finishes).
  - apply Hl. by apply (drain_t_safe final_verdict finishes).
  - assert (i = ic) as -> by by apply Hi.
    apply (consumer_safe (step_label cfg bind (OpReply body)) (fun _ => True)).
    apply run_delivery_loop; [apply _..|]. apply HandleReply_t_decides; [|by apply Hr].
    intros k. left. by exists k.
  - by apply Hl, Sweep_t_finishes.
Qed.

Lemma goroutine_judging i ops :
  (forall op, op ∈ ops -> is_reply op = true <-> i = ic) ->
  (forall body, OpReply body ∈ ops -> answers answerable body) ->
  judging_along i (goroutine cfg redis transport bind ops).
Proof.
  intros Hi Hr. unfold goroutine. apply secured_for_each. intros op Hop.
  change (judging_along i (try_t (op_t cfg redis transport bind op) ;; mret ())).
  apply along_bind; [|intros r; by apply along_ret]. apply along_try, op_t_judging; [by apply Hi|].
  intros body ->. by apply Hr.
Qed.

(** ** The pool *)

Definition pool_judged (c : Pool X) : Prop :=
  exists own, pool_ok judged others_judge judges c.1 (own, c.2).

(** What the turn [t] may do to a saga. *)
Definition turn_moves (t : Turn X) (s s' : Saga) : Prop :=
  final_verdict s s' /\ moves (saga_State s) (saga_State s') /\
  (reopens (saga_State s) (saga_State s') ->
     exists j, t = Run j /\ (transport = TransportBroker -> j = ic)).

#[export] Instance turn_moves_step t : SagaStep (turn_moves t).
Proof.
  split; [|by intros a b [[? _] _]]. intros a. split; [done|]. split; [by left|].
  intros [Ha Hb]. congruence.
Qed.

(** With the broker, goroutine [i] decides no saga unless it is the consumer. *)
Lemma decides_turn_moves i a s s' :
  judged a -> s ∈ saga (w_db a.2) -> decides (fun u => a.1 !! u <> Some i) s s' ->
  turn_moves (Run i) s s'.
Proof.
  intros Hj Hs (Hf & Hm & Hd). split; [done|]. split; [done|]. intros [Ha Hb]. exists i.
  split; [done|]. intros Ht. destruct (decide (a.1 !! saga_ID s = Some i)) as [Hi|Hi].
  - by eapply (jd_broker _ Hj).
  - destruct (Hd Hi) as [_ [H|[H _]]]; congruence.
Qed.

Lemma pool_turn t c :
  pool_judged c -> pool_judged (turn t c) /\ grows_by (turn_moves t) (w_db c.2) (w_db (turn t c).2).
Proof.
  destruct c as [ps w]. intros [own Hc].
  assert (forall i j a b, i <> j -> judged a -> judged b -> judges j a b -> others_judge i a b) as Ho.
  { intros i j a b Hij _ _ [Hsub Hg]. split; [done|]. eapply grows_by_mono; [|exact Hg].
    intros s s' Hd%decides_spares. eapply spares_weaken; [|exact Hd]. simpl. congruence. }
  destruct (secured_turn judged others_judge judges (fun x a => (a.1, set_ext x a.2)) Ho ltac:(done))
    with (t := t) (ps := ps) (a := (own, w)) as ([own' w'] & Hv & Hc' & Ht); [| |done|].
  - intros x [own0 w0] [H1 H2 H3 H4]. by split.
  - intros i x [own0 w0]. by split.
  - change (w' = (turn t (ps, w)).2) in Hv. subst w'. split; [by exists own'|]. simpl.
    destruct t as [i|i|x]; [|done|done].
    destruct Ht as [Ht%(f_equal snd)|(_ & _ & Hg)]; [cbn [snd] in Ht; by rewrite Ht|].
    eapply grows_by_mono_in; [|exact Hg]. intros s s' Hs Hd.
    by eapply (decides_turn_moves i (own, w)); [apply Hc| |].
Qed.

Lemma pool_turns sched c :
  pool_judged c ->
  pool_judged (play_turns sched c) /\ grows_by final_verdict (w_db c.2) (w_db (play_turns sched c).2).
Proof.
  revert c. induction sched as [|t sched IH]; intros c Hc; simpl; [done|].
  destruct (pool_turn t c Hc) as [Hc' Hg]. destruct (IH _ Hc') as [Hc'' Hg'].
  split; [done|]. etrans; [|exact Hg']. eapply grows_by_mono; [|exact Hg]. by intros s s' [? _].
Qed.
End Verdict.

(** ** The process with one reply consumer *)

(** Goroutine [ic] handles the replies, and nothing else; the others do not. *)
Definition one_consumer (ic : nat) (threads : list (list Op)) : Prop :=
  forall i ops op, threads !! i = Some ops -> op ∈ ops -> is_reply op = true <-> i = ic.

Section Property.
Context {X : Type} `{!Env X} `{!PgServerLaws env_server} `{!RedisLaws X}.
Variables (cfg : Config) (redis : bool) (transport : Transport).
Variable bind : string -> option SubscribeRequest.
Implicit Types w : World X.

(** With the gRPC transport no command is sent for a new saga (T1 writes none),
    so the replies are about sagas of before. *)
Definition replies_known (threads : list (list Op)) (d : DB) : Prop :=
  transport = TransportGRPC -> forall (ops : list Op) body, ops ∈ threads -> OpReply body ∈ ops ->
    answers (X := X) (fun u => u ∈ saga_ids d) body.

Lemma process_judged ic threads w :
  one_consumer ic threads -> replies_known threads (w_db w) -> settled w ->
  pool_judged transport ic (saga_ids (w_db w)) (process cfg redis transport bind threads w).
Proof.
  intros Hone Hk Hw. exists (gset_to_gmap ic (saga_ids (w_db w))). split.
  - split; simpl; [done|apply dom_gset_to_gmap|..].
    + intros u Hu. by apply lookup_gset_to_gmap_Some.
    + intros u j _ Hu. by apply lookup_gset_to_gmap_Some in Hu as [_ <-].
  - intros i p Hp. simpl in Hp. rewrite list_lookup_fmap in Hp.
    apply fmap_Some in Hp as (ops & Hops & ->). exists (fun _ => True). split; [done|]. split; [done|].
    apply goroutine_judging; [intros op; by apply (Hone i)|]. intros body Hb rep u Hrep Hu.
    unfold answerable. destruct transport eqn:Ht; [done|].
    apply (Hk Ht ops body (list_elem_of_lookup_2 _ _ _ Hops) Hb rep u Hrep Hu).
Qed.

(** C5: One verdict per saga, under concurrency: with either transport and one
    reply consumer, the verdict on a saga is never reversed: however the
    statements of the requests, the scanner, the relay, the sweeper and the
    consumer interleave, and wherever they are killed, a saga that is completed
    at some point of the run stays completed, and one whose compensation has
    begun is never completed nor started again. (With the gRPC transport, the
    replies that still come are about sagas of before.) *)
Theorem verdict_is_final ic threads sched1 sched2 w i sg v :
  one_consumer ic threads -> replies_known threads (w_db w) -> settled w ->
  let c := play_turns sched1 (process cfg redis transport bind threads w) in
  saga (w_db c.2) !! i = Some sg -> verdict (saga_State sg) = Some v ->
  exists sg', saga (w_db (play_turns sched2 c).2) !! i = Some sg' /\
    saga_identity sg' = saga_identity sg /\ verdict (saga_State sg') = Some v.
Proof.
  intros Hone Hk Hw c Hi Hv.
  destruct (pool_turns _ _ _ sched1 _ (process_judged ic threads w Hone Hk Hw)) as [Hc _].
  destruct (pool_turns _ _ _ sched2 _ Hc) as [_ Hg]. fold c in Hg.
  destruct (gr_sagas Hg) as (l & new & Hs & Hm).
  destruct (Forall2_lookup_l _ _ _ _ _ Hm Hi) as (sg' & Hi' & Hid & Hv').
  exists sg'. split; [|by split; [|apply Hv']]. rewrite Hs. by apply lookup_app_l_Some.
Qed.

(** C8: The saga's lifecycle, under concurrency: with either transport and one
    reply consumer, at every point of every interleaving, kills included, the
    next turn (one statement of one goroutine, a kill, or an event outside)
    loses no saga and changes no identity, and a saga that it moves takes one
    transition of the documented lifecycle: created to completed, created to
    compensating, compensating to failed. There is one exception, which the
    source leaves open: a failed saga may be set to compensating again, and with
    the broker only the reply consumer does that ([reply_reopens_failed_saga] in
    Races.v is such a schedule); nobody fails a saga that was not compensating,
    and a completed saga moves no more. (With the gRPC transport, the replies
    that still come are about sagas of before.) *)
Theorem interleaved_saga_lifecycle ic threads sched t w i sg :
  one_consumer ic threads -> replies_known threads (w_db w) -> settled w ->
  let c := play_turns sched (process cfg redis transport bind threads w) in
  saga (w_db c.2) !! i = Some sg ->
  exists sg', saga (w_db (turn t c).2) !! i = Some sg' /\
    saga_identity sg' = saga_identity sg /\
    (saga_State sg' = saga_State sg \/
     transition (saga_State sg) (saga_State sg') \/
     (saga_State sg = StateFailed /\ saga_State sg' = StateCompensating /\
      exists j, t = Run j /\ (transport = TransportBroker -> j = ic))).
Proof.
  intros Hone Hk Hw c Hi.
  destruct (pool_turns _ _ _ sched _ (process_judged ic threads w Hone Hk Hw)) as [Hc _]. fold c in Hc.
  destruct (pool_turn _ _ _ t c Hc) as [_ Hg]. destruct (gr_sagas Hg) as (l & new & Hs & Hm).
  destruct (Forall2_lookup_l _ _ _ _ _ Hm Hi) as (sg' & Hi' & [Hid _] & Hmv & Hr).
  exists sg'. split; [rewrite Hs; by apply lookup_app_l_Some|]. split; [done|].
  destruct Hmv as [?|[?|Hre]]; [by left|by right; left|]. right. right.
  pose proof Hre as [? ?]. split_and!; [done..|]. by apply Hr.
Qed.
End Property.
