(* ===== verification/Races.v ===== *)
(** * Worked interleavings

    Concrete schedules of the goroutines: witnesses of the theorems on the
    interleaved process, and the races the source leaves open, each evaluated to
    its end. *)

From S2P Require Import Prelude GoErrors Tables Env Logic Script Schema Samples Json Wire.
From S2P Require Import Spec SubStore SagaStore Notification SagaMachine Orchestrator Service Handler Config.
From S2P Require Import Gateway Wiring System Growth Threads Stepwise Interleave Outcome Verdict.

Local Open Scope string_scope.
Local Open Scope Z_scope.

Section Races.
#[local] Existing Instance calm_env.
#[local] Instance calm_redis_laws : @RedisLaws Script calm_env := script_redis false.

(** Long after the sample rows were written. *)
Definition late : Script := mkScript [] 1000000000000 7 [] ∅ [] [] [] [] [].

Definition sample_process (threads : list (list Op)) (d : DB) : Pool Script :=
  process (sample_config "") true TransportBroker sample_bind threads (play d late).

Definition subscribing : Op :=
  OpRequest (mkRequest "POST" RSubscribe "" "r1" "" "new@example.com").
Definition confirming : Op := OpRequest (get (RConfirm "tok-1")).
Definition unsubscribing : Op := OpRequest (get (RUnsubscribe "tok-1")).
Definition replying (status : string) : Op := OpReply (marshal (mkSagaReply sample_uuid status)).

(** The goroutines that run, turn by turn. *)
Definition order (l : list nat) : list (Turn Script) := Run <$> l.

Definition states (c : Pool Script) : list SagaState := saga_State <$> saga (w_db c.2).
Definition rows (c : Pool Script) : list (Z * bool * string) :=
  (fun s => (sub_ID s, sub_Confirmed s, sub_Status s)) <$> subscriptions (w_db c.2).
Definition answered (c : Pool Script) (path status : string) (n : nat) : Prop :=
  exists m, w_metrics c.2 !! ("http_requests_total", [m; path; status]) = Some n.

(** ** The races *)

(** Two requests that subscribe the same pair and both look before either
    writes: one subscription is made, and the loser is told of an internal error
    (500), not of a conflict (409). *)
Theorem concurrent_subscribe_answers_500 :
  exists sched, let c := play_turns sched (sample_process [[subscribing]; [subscribing]] empty_db) in
    length (subscriptions (w_db c.2)) = 1%nat /\
    answered c "/api/subscribe" "200" 1 /\ answered c "/api/subscribe" "500" 1.
Proof.
  exists (order [0; 0; 1; 1; 0; 0; 0; 0; 1; 1; 1; 1]%nat). vm_compute.
  split; [reflexivity|]. split; exists "POST"; reflexivity.
Qed.

(** A failed reply that read the saga while the sweeper was finishing it: the
    saga leaves its final state and is compensating again, and stays so when the
    consumer is killed there. *)
Theorem reply_reopens_failed_saga :
  exists sched1 sched2,
    let c := sample_process [[replying "failed"]; [OpSweep]] (sample_db StateCompensating) in
    states (play_turns sched1 c) = [StateFailed] /\
    states (play_turns sched2 (play_turns sched1 c)) = [StateCompensating].
Proof.
  exists (order [0; 1; 1; 1; 1]%nat), (app (order [0]%nat) [Kill 0]).
  split; vm_compute; reflexivity.
Qed.

(** Two openings of the confirmation link around a failed reply: the second one,
    which had read the row before, undoes the failure that the compensation
    recorded: the step [LReconfirm] of the machine. *)
Theorem stale_confirmation_undoes_failure :
  exists sched1 sched2,
    let c := sample_process [[confirming]; [confirming]; [replying "failed"]]
               (sample_db StateSubscriptionCreated) in
    rows (play_turns sched1 c) =
      [(1, true, StatusFailed); (2, true, StatusConfirmed); (3, false, StatusFailed)] /\
    rows (play_turns sched2 (play_turns sched1 c)) =
      [(1, true, StatusConfirmed); (2, true, StatusConfirmed); (3, false, StatusFailed)] /\
    states (play_turns sched2 (play_turns sched1 c)) = [StateFailed].
Proof.
  exists (order [0; 1; 1; 1; 1; 1; 1; 2; 2; 2; 2; 2]%nat), (order [0]%nat).
  split; [|split]; vm_compute; reflexivity.
Qed.

(** A confirmation around which the subscription is deleted: the request is
    answered 200 and counted, and nothing is confirmed. *)
Theorem confirmation_of_deleted_answers_200 :
  exists sched, let c := play_turns sched (sample_process [[confirming]; [unsubscribing]]
                                             (sample_db StateSubscriptionCreated)) in
    rows c = [(2, true, StatusConfirmed); (3, false, StatusFailed)] /\
    answered c "/api/confirm/:token" "200" 1.
Proof.
  exists (order [0; 1; 1; 1; 1; 1; 1; 0; 0; 0; 0; 0]%nat).
  split; [vm_compute; reflexivity|]. exists "GET". vm_compute. reflexivity.
Qed.

(** ** Witnesses *)

(** Two subscribe requests, a relay and a sweeper. *)
Definition a_crowd : list (list Op) := [[subscribing]; [subscribing]; [OpDrain]; [OpSweep]].
Definition a_schedule : list (Turn Script) :=
  app (order [0; 1; 0; 1; 3; 0; 1; 0; 1; 2; 2]%nat) [Kill 2; Run 3].

Lemma empty_settled : @settled Script calm_env (play empty_db late).
Proof. split; [done|apply empty_db_ok]. Qed.
Lemma sample_settled st : @settled Script calm_env (play (sample_db st) late).
Proof. split; [done|apply sample_db_ok]. Qed.

Lemma interleaved_refines_spec_witness :
  length (subscriptions (w_db (play_turns a_schedule (sample_process a_crowd empty_db)).2)) = 1%nat /\
  spec_turns (sample_config "") sample_bind a_crowd a_schedule ∅
    (abs (w_db (play_turns a_schedule (sample_process a_crowd empty_db)).2)).
Proof.
  split; [vm_compute; reflexivity|].
  exact (interleaved_refines_spec (Env0 := calm_env) _ _ _ _ a_crowd a_schedule
           (play empty_db late) empty_settled).
Defined.

Lemma interleaved_invariant_witness :
  @settled Script calm_env (play_turns a_schedule (sample_process a_crowd empty_db)).2.
Proof.
  exact (proj1 (interleaved_invariant (Env0 := calm_env) (sample_config "") true TransportBroker
    sample_bind a_crowd a_schedule (play empty_db late) empty_settled)).
Defined.

(** The new subscription, and its link opened between the statements of a scan. *)
Definition a_confirmation : list (list Op) :=
  [[subscribing]; [OpRequest (get (RConfirm (script_uuid 7)))]; [OpScan]].
Definition confirmed_meanwhile : list (Turn Script) :=
  order [0; 0; 2; 0; 0; 1; 2; 1; 2; 1]%nat.

Lemma interleaved_double_opt_in_witness :
  exists s, s ∈ subscriptions
      (w_db (play_turns confirmed_meanwhile (sample_process a_confirmation empty_db)).2) /\
    sub_Confirmed s = true /\
    exists ops req, ops ∈ a_confirmation /\ OpRequest req ∈ ops /\
      r_Route req = RConfirm (sub_Token s) /\ authorized (APIKey (sample_config "")) req = true.
Proof.
  eexists. split; [vm_compute; apply elem_of_cons; left; reflexivity|]. split; [reflexivity|].
  apply (interleaved_double_opt_in (Env0 := calm_env) (sample_config "") true TransportBroker
    sample_bind a_confirmation confirmed_meanwhile (play empty_db late)).
  - exact empty_settled.
  - intros s0 Hs0. by apply elem_of_nil in Hs0.
  - vm_compute. apply elem_of_cons. by left.
  - reflexivity.
Defined.

Lemma runs_interleaved_witness :
  exists sched, (play_turns sched (process (sample_config "") true TransportBroker sample_bind
    [a_day] morning)).2 = evening.
Proof.
  exact (runs_interleaved (Env0 := calm_env) (sample_config "") true TransportBroker sample_bind
    a_day morning evening a_day_runs).
Defined.

(** The gRPC transport: a subscribe request whose call fails, the consumer with
    contrary replies about the saga of before, and a sweeper. *)
Definition a_dispute : list (list Op) :=
  [[replying "sent"; replying "failed"]; [OpSweep]; [subscribing]].

Definition failing_call : Script :=
  mkScript [] 1000000000000 7 [] ∅ [] [] [] [] [inl "deadline exceeded"].

Definition dispute_process : Pool Script :=
  process (sample_config "") true TransportGRPC sample_bind a_dispute
    (play (sample_db StateSubscriptionCreated) failing_call).

Lemma a_dispute_one_consumer : one_consumer 0 a_dispute.
Proof.
  intros [|[|[|i]]] ops op Hops Hop; simplify_eq/=.
  - repeat (apply elem_of_cons in Hop as [->|Hop]; [done|]). by apply elem_of_nil in Hop.
  - apply list_elem_of_singleton in Hop as ->. done.
  - apply list_elem_of_singleton in Hop as ->. done.
Qed.

Lemma a_dispute_known : replies_known (X := Script) TransportGRPC a_dispute (sample_db StateSubscriptionCreated).
Proof.
  assert (sample_uuid ∈ saga_ids (sample_db StateSubscriptionCreated)) as Hold.
  { apply elem_of_saga_ids. exists (sample_saga StateSubscriptionCreated).
    by split; [apply elem_of_cons; left|]. }
  intros _ ops body Hops Hb rep u Hrep Hu.
  assert (exists status, body = marshal (mkSagaReply sample_uuid status) /\
    (status = "sent" \/ status = "failed")) as (status & -> & Hst).
  { repeat (apply elem_of_cons in Hops as [->|Hops]);
      repeat (apply elem_of_cons in Hb as [[= ->]|Hb]); try (by apply elem_of_nil in Hb); eauto.
    by apply elem_of_nil in Hops. }
  assert (sr_SagaID rep = sample_uuid) as Hid
    by (destruct Hst as [-> | ->]; vm_compute in Hrep; by injection Hrep as <-).
  rewrite Hid in Hu. vm_compute in Hu. by injection Hu as <-.
Qed.

Definition compensating_call : list (Turn Script) :=
  order (app (replicate 7 2%nat) [0; 1; 1; 0]%nat).
Definition dispute_goes_on : list (Turn Script) :=
  order [0; 0; 1; 0; 0; 0; 2; 2; 2; 2; 2; 2; 2; 0; 0; 0]%nat.

(** The call fails, and the new saga is being compensated while the consumer
    completes the old one; both verdicts stay. *)
Lemma verdict_is_final_witness :
  let c := play_turns compensating_call dispute_process in
  states c = [StateCompleted; StateCompensating] /\
  exists sg', saga (w_db (play_turns dispute_goes_on c).2) !! 1%nat = Some sg' /\
    verdict (saga_State sg') = Some false.
Proof.
  intros c. split; [vm_compute; reflexivity|].
  destruct (verdict_is_final (Env0 := calm_env) (sample_config "") true TransportGRPC sample_bind 0
    a_dispute compensating_call dispute_goes_on
    (play (sample_db StateSubscriptionCreated) failing_call) 1
    (mkSaga (script_uuid 8) 4 "new@example.com" "golang/go" StateCompensating 0
       (Some "confirmation email failed (grpc)") 1000000000001 1000000000002) false
    a_dispute_one_consumer a_dispute_known) as (sg' & Hi' & _ & Hv').
  - split; [done|apply sample_db_ok].
  - vm_compute. reflexivity.
  - reflexivity.
  - exists sg'. split; [exact Hi'|exact Hv'].
Defined.

(** The next turn of the request fails its saga. *)
Lemma interleaved_saga_lifecycle_witness :
  let c := play_turns compensating_call dispute_process in
  states c = [StateCompleted; StateCompensating] /\
  states (turn (Run 2) c) = [StateCompleted; StateFailed] /\
  exists sg', saga (w_db (turn (Run 2) c).2) !! 1%nat = Some sg' /\
    (saga_State sg' = StateCompensating \/ transition StateCompensating (saga_State sg')).
Proof.
  intros c. split; [vm_compute; reflexivity|]. split; [vm_compute; reflexivity|].
  destruct (interleaved_saga_lifecycle (Env0 := calm_env) (sample_config "") true TransportGRPC
    sample_bind 0 a_dispute compensating_call (Run 2)
    (play (sample_db StateSubscriptionCreated) failing_call) 1
    (mkSaga (script_uuid 8) 4 "new@example.com" "golang/go" StateCompensating 0
       (Some "confirmation email failed (grpc)") 1000000000001 1000000000002)
    a_dispute_one_consumer a_dispute_known) as (sg' & Hi' & _ & Hst').
  - split; [done|apply sample_db_ok].
  - vm_compute. reflexivity.
  - exists sg'. split; [exact Hi'|]. destruct Hst' as [Hst'|[Hst'|(Ha & _)]];
      [by left|by right|discriminate Ha].
Defined.
End Races.
