(* ===== verification/Issue.v ===== *)
(** * What a request issues

    A subscribe request that comes through issues one token for the pair in its
    body, and everything the request leaves is of that token: the step of the
    subscriptions, the command in the outbox, the call of the notifier. Every
    other request leaves no command and calls nobody. *)

From S2P Require Import Prelude GoErrors Tables Env Logic Script Schema Samples Json Wire.
From S2P Require Import Spec SubStore SagaStore OutboxStore TrackStore Notification SagaMachine.
From S2P Require Import Orchestrator RepoSpec Email Service Gateway Scanner Handler Config.
From S2P Require Import ReplyConsumer Sweeper Relay Wiring Footprint Commands System.

Local Open Scope string_scope.
Local Open Scope Z_scope.

(** Nothing leaves the process but requests to GitHub and to Redis. *)
Definition silent : Allow :=
  mkAllow False (fun _ => False) (fun _ => False) (fun _ => False) true.

(** The one call of the notifier that is allowed. *)
Definition only_call (r : SendConfirmationRequest) : Allow :=
  mkAllow False (fun _ => False) (fun r' => r' = r) (fun _ => False) true.

Lemma business_silent allow ev : business silent ev -> business allow ev.
Proof. by destruct ev. Qed.

(** The events between two worlds. *)
Definition leaves {X : Type} (allow : Allow) (w w' : World X) : Prop :=
  exists evs, w_trace w' = app (w_trace w) evs /\ Forall (business allow) evs.

Lemma leaves_same {X : Type} allow (w w' : World X) : w_trace w' = w_trace w -> leaves allow w w'.
Proof. intros H. exists []. by rewrite app_nil_r. Qed.
Lemma leaves_trans {X : Type} allow (w1 w2 w3 : World X) :
  leaves allow w1 w2 -> leaves allow w2 w3 -> leaves allow w1 w3.
Proof.
  intros (e1 & Htr1 & H1) (e2 & Htr2 & H2). exists (app e1 e2).
  split; [by rewrite Htr2, Htr1, app_assoc|by apply Forall_app].
Qed.
Lemma leaves_silent {X : Type} allow (w w' : World X) : leaves silent w w' -> leaves allow w w'.
Proof.
  intros (evs & Htr & H). exists evs. split; [done|]. eapply Forall_impl; [exact H|].
  apply business_silent.
Qed.
Lemma effects_leaves {X A : Type} `{!Env X} allow (m : GoM X A) w :
  effects allow m -> leaves allow w (m w).2.
Proof. apply effects_trace. Qed.

Section Issue.
Context {X : Type} `{!Env X} `{!PgServerLaws env_server} `{!RedisLaws X}.
Variables (cfg : Config) (redis : bool) (transport : Transport).
Implicit Types w : World X.

Local Abbreviation link := (confirm_link (BaseURL cfg)).
Local Abbreviation sender := (Orchestrator (X := X) (transport_sender transport)).
Local Abbreviation github := (github_service (run_github X cfg redis)).

(** Between [w] and [w'], [token] was issued for the pair, if any was. *)
Record issued_for (email repo token : string) w w' : Prop := {
  if_rows : evolves (token_label (email, repo) token) (abs (w_db w)) (abs (w_db w'));
  if_commands : forall C : Command -> Prop,
    (forall c, confirm_command email token (link token) c -> C c) ->
    commands_in C (w_db w) -> commands_in C (w_db w');
  if_leaves : leaves (only_call (mkSendConfirmationRequest email repo (link token))) w w' }.

Lemma issued_same email repo token w w' :
  w_db w' = w_db w -> leaves silent w w' -> issued_for email repo token w w'.
Proof.
  intros Hdb Htr. split; rewrite ?Hdb; [apply evolves_refl|done|by apply leaves_silent].
Qed.

Lemma issued_from email repo token w w1 w2 :
  w_db w1 = w_db w -> leaves silent w w1 -> issued_for email repo token w1 w2 ->
  issued_for email repo token w w2.
Proof.
  intros Hdb Htr [Hr Hc Hl]. rewrite Hdb in Hr, Hc. split; [done|done|].
  eapply leaves_trans; [by apply leaves_silent|exact Hl].
Qed.

(** A start of the saga, from what it may do to the rows. *)
Lemma start_issued (m : GoM X unit) (P : DB -> DB -> Prop) email repo token w :
  db_ok (w_db w) -> w_tx w = None ->
  wp m (start_post P w) w -> keeps db_ok m ->
  (forall C : Command -> Prop, (forall c, confirm_command email token (link token) c -> C c) ->
     keeps (commands_in C) m) ->
  effects (only_call (mkSendConfirmationRequest email repo (link token))) m ->
  (forall d', db_ok d' -> P (w_db w) d' ->
     evolves (token_label (email, repo) token) (abs (w_db w)) (abs d')) ->
  wp m (fun _ w' => issued_for email repo token w w') w.
Proof.
  intros Hok Htx Hpost Hk Hc He HP. apply (wp_keeps db_ok); [done..|].
  apply (wp_mono _ (fun r w' => start_post P w r w' /\
    (forall C : Command -> Prop, (forall c, confirm_command email token (link token) c -> C c) ->
       commands_in C (w_db w) -> commands_in C (w_db w')) /\
    leaves (only_call (mkSendConfirmationRequest email repo (link token))) w w')).
  { apply wp_conj; [exact Hpost|]. apply wp_conj.
    - intros C HC. by apply (keeps_db _ m w (Hc C HC)).
    - by apply effects_leaves. }
  intros r w' ((_ & _ & Hr) & Hcmd & Hl) Hok'. split; [|done|done].
  assert (same_subs (w_db w) (w_db w') \/ P (w_db w) (w_db w')) as [[Hs _]|H]
    by (destruct r; auto).
  - rewrite (abs_same _ _ Hs). apply evolves_refl.
  - by apply HP.
Qed.

Lemma start_issues email repo token w :
  db_ok (w_db w) -> w_tx w = None ->
  wp (saga_StartConfirmation sender email repo token (link token))
    (fun _ w' => issued_for email repo token w w') w.
Proof.
  intros Hok Htx. apply (start_issued _ (subscribed email repo token)); try done.
  - by apply StartConfirmation_post.
  - apply StartConfirmation_keeps.
  - intros C HC. by apply StartConfirmation_commands.
  - by apply StartConfirmation_effects.
  - intros d' Hok' H. eapply subscribed_evolves; [done|done|exact H|].
    split; [by left|by right; right].
Qed.

Lemma reactivate_issues s token w :
  db_ok (w_db w) -> w_tx w = None -> s ∈ subscriptions (w_db w) ->
  wp (saga_ReactivateConfirmation sender (sub_ID s) (sub_Email s) (sub_Repo s) token (link token))
    (fun _ w' => issued_for (sub_Email s) (sub_Repo s) token w w') w.
Proof.
  intros Hok Htx Hs. apply (start_issued _ (revived (sub_ID s) token)); try done.
  - apply ReactivateConfirmation_post; [done|done|].
    destruct (sub_rows_ok _ _ (db_subscriptions_ok _ Hok) s Hs). lia.
  - apply ReactivateConfirmation_keeps.
  - intros C HC. by apply ReactivateConfirmation_commands.
  - by apply ReactivateConfirmation_effects.
  - intros d' Hok' H. eapply revived_evolves; [done|done|exact Hs|exact H|].
    split; [by right; left|by right; right].
Qed.

Lemma Subscribe_issues email repo w :
  db_ok (w_db w) -> w_tx w = None ->
  wp (Subscribe github sender (BaseURL cfg) email repo)
    (fun _ w' => exists token, issued_for email repo token w w') w.
Proof.
  intros Hok Htx. unfold Subscribe.
  assert (forall w', w_db w' = w_db w -> leaves silent w w' ->
    exists token, issued_for email repo token w w') as Hsame
    by (intros w' Hdb Hl; exists ""; by apply issued_same).
  destruct (ValidateEmail email); simpl; [|by apply wp_throw, Hsame, leaves_same].
  destruct (ParseRepoSpec repo) as [spec|e]; [|by apply wp_throw, Hsame, leaves_same].
  apply wp_bind, wp_wrap.
  apply (wp_mono _ (fun _ w1 => (w_db w1 = w_db w /\ w_tx w1 = w_tx w) /\ leaves silent w w1)).
  { apply wp_conj; [|apply (effects_leaves silent), run_github_effects].
    eapply wp_mono; [apply (check_repo_frame (gh := github))|]. by intros r w1 (? & ? & _). }
  intros r w1 [[Hdb1 Htx1] Hl1]. destruct r as [ex|e]; [|by apply Hsame].
  destruct ex; simpl; [|by apply wp_throw, Hsame].
  apply wp_bind, wp_wrap, wp_first_such; [intros x m; by apply Hsame|].
  intros x o Ho. apply wp_bind, wp_ext_read. intros x' _. rewrite Hdb1 in Ho.
  set (token := (env_uuid (w_ext (set_ext x w1))).1).
  assert (forall msg (m : GoM X unit), (forall w2, w_db w2 = w_db w -> w_tx w2 = None ->
      wp m (fun _ w' => issued_for email repo token w2 w') w2) ->
    wp (wrap msg m) (fun _ w' => exists token, issued_for email repo token w w')
      (set_ext x' (set_ext x w1))) as Hstart.
  { intros msg m Hm. apply wp_wrap. eapply wp_mono; [apply Hm; simpl; [done|congruence]|].
    intros [[]|e] w2 Hi; exists token; by eapply issued_from; [| |exact Hi]. }
  destruct o as [s|]; simpl in Ho.
  - destruct Ho as [Hs Hkey%by_email_repo_key]. injection Hkey as <- <-.
    destruct (has_status StatusFailed s); simpl; [|by apply wp_throw, Hsame].
    apply Hstart. intros w2 Hdb2 Htx2. apply reactivate_issues; rewrite ?Hdb2; done.
  - apply Hstart. intros w2 Hdb2 Htx2. apply start_issues; rewrite ?Hdb2; done.
Qed.

(** ** The whole request *)

Variable bind : string -> option SubscribeRequest.

(** Nothing was issued: what is left of the request is its confirmation or its
    unsubscription. *)
Record nothing_issued (req : Request) w w' : Prop := {
  ni_rows : evolves (fun l => r_Route req <> RSubscribe /\ op_label cfg bind (OpRequest req) l)
              (abs (w_db w)) (abs (w_db w'));
  ni_commands : forall C : Command -> Prop, commands_in C (w_db w) -> commands_in C (w_db w');
  ni_leaves : leaves silent w w' }.

Definition request_issues (req : Request) w w' : Prop :=
  (exists sr token, asks (APIKey cfg) bind req sr /\
     issued_for (sr_Email sr) (sr_Repo sr) token w w') \/
  nothing_issued req w w'.

Lemma nothing_same req w w' :
  w_db w' = w_db w -> w_trace w' = w_trace w -> request_issues req w w'.
Proof.
  intros Hdb Htr. right. split; rewrite ?Hdb; [apply evolves_refl|done|by apply leaves_same].
Qed.

Lemma handler_Subscribe_issues req w :
  db_ok (w_db w) -> w_tx w = None -> r_Route req = RSubscribe ->
  authorized (APIKey cfg) req = true ->
  wp (handler_Subscribe github sender (BaseURL cfg) bind (r_Body req))
    (fun _ w' => request_issues req w w') w.
Proof.
  intros Hok Htx Hr Ha. unfold handler_Subscribe.
  destruct (bind (r_Body req)) as [sr|] eqn:Hb; [|by apply wp_ret, nothing_same].
  destruct (ValidateEmail (sr_Email sr)) eqn:Hv.
  2: { unfold Subscribe. rewrite Hv. cbn [negb]. apply wp_bind, wp_try, wp_throw, wp_ret.
       by apply nothing_same. }
  apply wp_bind, wp_try. eapply wp_mono; [by apply Subscribe_issues|].
  intros r w1 (token & Hi).
  assert (request_issues req w w1) as H by (left; by exists sr, token).
  destruct r as [[]|e]; [apply wp_bind, wp_inc, wp_ret|apply wp_ret]; [|exact H].
  destruct H as [(sr' & tok' & Has & [H1 H2 H3])|[H1 H2 H3]];
    [left; exists sr', tok'; split; [done|]|right]; by split.
Qed.

Lemma run_request_steady P `{!Steady P} req :
  r_Route req <> RSubscribe ->
  keeps (X := X) P (run_request cfg redis transport bind req).
Proof.
  intros Hr. pose proof (Confirm_steady (X := X) P). pose proof (Unsubscribe_steady (X := X) P).
  pose proof (GetSubscriptions_steady (X := X) P).
  unfold run_request, BuildRouter, RequestLogger, GinMiddleware, dispatch_route, APIKeyAuth,
    handler_ConfirmSubscription, handler_Unsubscribe, handleTokenAction, handler_GetSubscriptions.
  destruct (r_Route req); try done; cbv zeta; solve_commands.
Qed.

Lemma run_request_issues req w :
  db_ok (w_db w) -> w_tx w = None ->
  wp (run_request cfg redis transport bind req) (fun _ w' => request_issues req w w') w.
Proof.
  intros Hok Htx. destruct (decide (r_Route req = RSubscribe)) as [Hr|Hr].
  - apply BuildRouter_wp. intros x.
    apply (wp_mono _ (fun _ w' => request_issues req (set_ext x w) w')).
    2: { intros [res|e] w' H; [intros id m|];
           (destruct H as [(sr & tok & Has & [H1 H2 H3])|[H1 H2 H3]];
            [left; exists sr, tok; split; [done|]|right]; by split). }
    unfold dispatch_route. rewrite Hr. apply wp_APIKeyAuth.
    + intros Ha. by apply handler_Subscribe_issues.
    + intros res _ _. by apply nothing_same.
  - eapply wp_mono; [apply wp_conj; [by apply run_request_safe|]|].
    { apply (wp_conj _ (fun _ w' => forall C : Command -> Prop,
        commands_in C (w_db w) -> commands_in C (w_db w')) (fun _ w' => leaves silent w w')).
      - intros C HC. by apply (keeps_db _ _ w (run_request_steady (commands_in C) req Hr)).
      - apply effects_leaves, run_request_effects; [|by left].
        intros sr token (_ & ? & _). done. }
    intros r w' [(_ & _ & _ & Hev) [Hc Hl]]. right. split; [|done|done].
    eapply evolves_mono; [|exact Hev]. by intros l.
Qed.
End Issue.
