(* ===== verification/Ledger.v ===== *)
(** * What was asked for

    A ledger says which tokens were issued, each for an address and a
    repository, and which links were opened. What the monolith holds and sends
    is explained by a ledger ([issued_rows], [issued_command], [issued_message],
    [issued_call]), and the mails it explains are the [solicited] ones; from a
    message to its mails. Cluster.v builds the ledger of a sequence of whole
    operations, Mingle.v that of interleaved goroutines. *)

From S2P Require Import Prelude GoErrors Tables Env Logic Schema Json Wire Metrics.
From S2P Require Import Notifier.
From S2P Require Import Spec SubStore OutboxStore Notification SagaMachine.
From S2P Require Import Email Service Scanner Handler Config Footprint Commands System Issue.

Local Open Scope string_scope.
Local Open Scope Z_scope.

(** Documented behaviour of JSONB: an object with distinct keys whose values are
    strings is given back with the same members, in some order and spacing. *)
Class PgJsonLaws {P : PgServer} : Prop := {
  pg_jsonb_members : forall text body ms,
    pg_jsonb text = Some body -> NoDup ms.*1 ->
    parse_document text = Some (JObject (prod_map id JString <$> ms)) ->
    exists ms', ms' ≡ₚ ms /\
      parse_document body = Some (JObject (prod_map id JString <$> ms')) }.
Arguments PgJsonLaws P : clear implicits.

(** A message as it is delivered. *)
Definition delivery_of (p : Publishing) : Delivery :=
  mkDelivery (pub_Key p) (MessageId p) (pub_Body p).

Record Ledger := mkLedger {
  given : string -> Key -> Prop;
  followed : string -> Prop }.

(** A ledger that explains more. *)
Record extends (l l' : Ledger) : Prop := {
  ext_given : forall token k, given l token k -> given l' token k;
  ext_followed : forall token, followed l token -> followed l' token }.

#[export] Instance extends_preorder : PreOrder extends.
Proof. split; [by intros l|]. intros l1 l2 l3 [H1 H2] [H3 H4]. split; auto. Qed.

Section Opened.
Variable cfg : Config.

(** Somebody opened the link of the token, with the API key. *)
Definition opened (ops : list Op) (token : string) : Prop :=
  exists req, OpRequest req ∈ ops /\ r_Route req = RConfirm token /\
    authorized (APIKey cfg) req = true.

Lemma opened_mono ops ops' token : opened ops token -> opened (app ops ops') token.
Proof. intros (req & ? & ?). exists req. set_solver. Qed.
End Opened.

(** ** What a ledger explains *)

Section Explained.
Variable cfg : Config.
Implicit Types l : Ledger.

Definition issued_command `{!PgServer} l (cmd : Command) : Prop :=
  exists token email repo, given l token (email, repo) /\
    confirm_command email token (confirm_link (BaseURL cfg) token) cmd.

Definition issued_message `{!PgServer} l (p : Publishing) : Prop :=
  (exists key mid body, issued_command l (key, mid, body) /\
     p = mkPublishing ExchangeName key "application/json" true mid body) \/
  exists tag sub repo, given l (subscriber_Token sub) (subscriber_Email sub, repo) /\
    followed l (subscriber_Token sub) /\ p = release_publishing (BaseURL cfg) repo tag sub.

Definition issued_call l (r : SendConfirmationRequest) : Prop :=
  exists token email repo, given l token (email, repo) /\
    r = mkSendConfirmationRequest email repo (confirm_link (BaseURL cfg) token).

(** The subscriptions have issued tokens, and those that receive were confirmed. *)
Definition issued_rows l (m : Spec) : Prop :=
  forall k st, m !! k = Some st ->
    given l (token_of st) k /\ (receives st = true -> followed l (token_of st)).

(** The labels that keep it. *)
Definition issued_label l (lb : Label) : Prop :=
  match lb with
  | LSubscribe k token | LRevive k token => given l token k
  | LConfirm token | LReconfirm token => followed l token
  | LUnsubscribe _ | LFail _ => True
  end.

Lemma issued_rows_step l lb m m' :
  spec_step lb m m' -> issued_label l lb -> issued_rows l m -> issued_rows l m'.
Proof.
  destruct 1 as [k tok m Hk Hf|k old r tok m Hk Hf|k st m Hk|k tok m Hk|k st m Hk|k st m Hk];
    simpl; intros Hl Hm k' st' Hk'.
  - apply lookup_insert_Some in Hk' as [[<- <-]|[_ Hk']]; [by split; [exact Hl|]|by apply Hm].
  - apply lookup_insert_Some in Hk' as [[<- <-]|[_ Hk']]; [by split; [exact Hl|]|by apply Hm].
  - apply lookup_insert_Some in Hk' as [[<- <-]|[_ Hk']]; [|by apply Hm].
    destruct (Hm _ _ Hk) as [Hin Ho]. unfold activate. by destruct (receives st).
  - apply lookup_insert_Some in Hk' as [[<- <-]|[_ Hk']]; [|by apply Hm].
    split; [|done]. by destruct (Hm _ _ Hk).
  - apply lookup_delete_Some in Hk' as [_ Hk']. by apply Hm.
  - apply lookup_insert_Some in Hk' as [[<- <-]|[_ Hk']]; [exact (Hm k st Hk)|by apply Hm].
Qed.

Lemma issued_rows_evolves (L : Label -> Prop) l m m' :
  evolves L m m' -> (forall lb, L lb -> issued_label l lb) -> issued_rows l m -> issued_rows l m'.
Proof.
  intros (ls & Hls & Hsteps) HL. induction Hsteps as [m|lb ls m1 m2 m3 H12 H23 IH]; [done|].
  apply Forall_cons in Hls as [Hl Hls]. intros Hm. apply IH; [done|].
  eapply issued_rows_step; [exact H12|by apply HL|done].
Qed.

(** More of what was asked for explains more. *)
Lemma issued_rows_mono l l' m : extends l l' -> issued_rows l m -> issued_rows l' m.
Proof.
  intros [Hg Hf] Hm k st Hk. destruct (Hm k st Hk) as [? ?]. split; [by apply Hg|].
  intros Hr. by apply Hf; auto.
Qed.
Lemma issued_command_mono `{!PgServer} l l' cmd :
  extends l l' -> issued_command l cmd -> issued_command l' cmd.
Proof. intros [Hg _] (token & email & repo & ? & ?). exists token, email, repo. auto. Qed.
Lemma issued_message_mono `{!PgServer} l l' p :
  extends l l' -> issued_message l p -> issued_message l' p.
Proof.
  intros Hl [(key & mid & body & Hc & ->)|(tag & sub & repo & Hin & Ho & ->)]; [left|right].
  - exists key, mid, body. split; [by eapply issued_command_mono|done].
  - exists tag, sub, repo. split; [by apply (ext_given _ _ Hl)|].
    split; [by apply (ext_followed _ _ Hl)|done].
Qed.
Lemma issued_call_mono l l' r : extends l l' -> issued_call l r -> issued_call l' r.
Proof. intros [Hg _] (token & email & repo & ? & ?). exists token, email, repo. auto. Qed.

(** A confirmed row of the table. *)
Lemma issued_receives `{!PgServer} l d s :
  db_ok d -> issued_rows l (abs d) -> s ∈ subscriptions d -> sub_Confirmed s = true ->
  given l (sub_Token s) (sub_key s) /\ followed l (sub_Token s).
Proof.
  intros Hok Hr Hs Hc. destruct (Hr (sub_key s) (state_of s)) as [Hin Ho].
  { apply abs_rows_lookup; [apply Hok|by exists s]. }
  rewrite state_of_token, state_of_receives in *. auto.
Qed.
End Explained.

(** ** The state of the monolith *)

Lemma elem_of_publishes p ok tr : (p, ok) ∈ publishes tr <-> EvPublish p ok ∈ tr.
Proof.
  unfold publishes. rewrite list_elem_of_omap. split.
  - intros (ev & Hev & H). destruct ev; try done. by injection H as -> ->.
  - intros H. by exists (EvPublish p ok).
Qed.

Lemma leaves_elem {X : Type} allow (w w' : World X) ev :
  leaves allow w w' -> ev ∈ w_trace w' -> ev ∈ w_trace w \/ business allow ev.
Proof.
  intros (evs & -> & Hevs) [Hin|Hin]%elem_of_app; [by left|right].
  rewrite Forall_forall in Hevs. by apply Hevs.
Qed.

Section Posted.
Context {X : Type} `{!Env X}.
Variable cfg : Config.
Implicit Types (w : World X) (l : Ledger).

(** The ledger explains the rows, the commands that wait and all that was sent. *)
Record posted l w : Prop := {
  po_rows : issued_rows l (abs (w_db w));
  po_commands : commands_in (issued_command cfg l) (w_db w);
  po_messages : forall p ok, EvPublish p ok ∈ w_trace w -> issued_message cfg l p;
  po_calls : forall r ok, EvGrpc r ok ∈ w_trace w -> issued_call cfg l r }.

Lemma posted_start l w :
  subscriptions (w_db w) = [] -> outbox (w_db w) = [] -> w_trace w = [] -> posted l w.
Proof.
  intros Hs Ho Htr. split.
  - intros k st. unfold abs. by rewrite Hs.
  - intros m Hin. rewrite Ho in Hin. by apply elem_of_nil in Hin.
  - intros p ok Hin. rewrite Htr in Hin. by apply elem_of_nil in Hin.
  - intros r ok Hin. rewrite Htr in Hin. by apply elem_of_nil in Hin.
Qed.

Lemma posted_mono l l' w : extends l l' -> posted l w -> posted l' w.
Proof.
  intros Hx [Hr Hc Hm Hg]. split.
  - by eapply issued_rows_mono.
  - intros m Hin. eapply issued_command_mono; [exact Hx|by apply Hc].
  - intros p ok Hin. by eapply issued_message_mono, (Hm p ok).
  - intros r ok Hin. by eapply issued_call_mono, (Hg r ok).
Qed.
Lemma posted_outside l x w : posted l w -> posted l (set_ext x w).
Proof. by intros []. Qed.

(** A step, from what it may do to the rows, the commands and the trace. *)
Lemma posted_step (L : Label -> Prop) allow l l' w w' :
  extends l l' -> posted l w ->
  evolves L (abs (w_db w)) (abs (w_db w')) -> (forall lb, L lb -> issued_label l' lb) ->
  (commands_in (issued_command cfg l') (w_db w) -> commands_in (issued_command cfg l') (w_db w')) ->
  leaves allow w w' -> (forall r, may_call allow r -> issued_call cfg l' r) ->
  (forall p ok, may_publish allow p -> EvPublish p ok ∈ w_trace w' ->
     EvPublish p ok ∈ w_trace w \/ issued_message cfg l' p) ->
  posted l' w'.
Proof.
  intros Hx Hp Hev HL Hcmd Hl Hcall Hpub.
  destruct (posted_mono l l' w Hx Hp) as [Hr Hc Hm Hg]. split.
  - by eapply issued_rows_evolves; [exact Hev|exact HL|].
  - by apply Hcmd.
  - intros p ok Hin. destruct (leaves_elem _ _ _ _ Hl Hin) as [H|H]; [by eapply Hm|].
    destruct (Hpub p ok H Hin) as [H'|H']; [by eapply Hm|done].
  - intros r ok Hin. destruct (leaves_elem _ _ _ _ Hl Hin) as [H|H]; [by eapply Hg|by apply Hcall].
Qed.
End Posted.

(** ** The mails *)

Section Solicited.
Variables (cfg : Config) (smtp : SMTPSender).

(** The mails that were asked for: the confirmation of an issued token, to the
    address it was issued for; and a release of the repository it was issued
    for, to that address, once the link of the token was opened. *)
Definition solicited (l : Ledger) (m : Mail) : Prop :=
  exists token email repo, given l token (email, repo) /\
    ((exists link, m = confirmation_mail smtp email link /\
        (link = confirm_link (BaseURL cfg) token \/
         link = coerce_utf8 (confirm_link (BaseURL cfg) token))) \/
     followed l token /\ exists tag,
       m = release_mail smtp email (coerce_utf8 repo) (coerce_utf8 tag)
             (coerce_utf8 (unsubscribe_link (BaseURL cfg) token))).

Lemma solicited_mono l l' m : extends l l' -> solicited l m -> solicited l' m.
Proof.
  intros [Hg Hf] (token & email & repo & Hin & H). exists token, email, repo.
  split; [by apply Hg|]. destruct H as [?|[? ?]]; [by left|right]. auto.
Qed.
End Solicited.

(** ** From a message to its mails *)

Lemma all_chars_ascii p s :
  (forall c, p c = true -> (code c <? 128)%N = true) -> all_chars p s = true ->
  ascii_text s = true.
Proof.
  intros Hp. induction s as [|c s IH]; [done|]. simpl. intros [Hc Hs]%andb_true_iff.
  by rewrite Hp, IH.
Qed.

Lemma ascii_text_app s t : ascii_text (s +:+ t) = ascii_text s && ascii_text t.
Proof.
  induction s as [|c s IH]; [done|]. rewrite string_app_cons. simpl. by rewrite IH, andb_assoc.
Qed.

(** A valid address is ASCII: the mail goes to that very address. *)
Lemma valid_email_coerced email : ValidateEmail email = true -> coerce_utf8 email = email.
Proof.
  intros (l & d & t & [-> [_ Hl] [_ Hd] [_ Ht]])%ValidateEmail_shape.
  assert (forall p, p ∈ [local_char; domain_char; letter] ->
    forall c, p c = true -> (code c <? 128)%N = true) as Hp.
  { intros p Hp c. repeat (apply elem_of_cons in Hp as [->|Hp]; [by all_bytes c|]).
    by apply elem_of_nil in Hp. }
  apply coerce_valid, ascii_valid. rewrite !ascii_text_app.
  rewrite (all_chars_ascii local_char l), (all_chars_ascii domain_char d),
    (all_chars_ascii letter t); try done; apply Hp; set_solver.
Qed.

Section Delivered.
Context `{!PgServer} `{!PgJsonLaws _}.
Variables (cfg : Config) (smtp : SMTPSender).

(** The stored payload is decoded to the command that was enqueued. *)
Lemma stored_decodes (req : ConfirmationRequest) body :
  pg_jsonb (marshal req) = Some body -> unmarshal body = Ok (coerced req).
Proof.
  intros Hb. destruct (pg_jsonb_members _ _ (members_of (coerced req)) Hb) as (ms & Hp & Hparse);
    [apply members_keys|apply parse_marshal|].
  by apply (unmarshal_members _ ms).
Qed.

Lemma confirm_command_decodes email token url key mid body :
  confirm_command email token url (key, mid, body) ->
  key = RoutingConfirm /\ exists sagaID,
    unmarshal body = Ok (coerced (mkConfirmationRequest sagaID email url)).
Proof.
  intros (sagaID & body' & Hb & [= -> -> ->]). split; [done|]. exists sagaID.
  by apply stored_decodes.
Qed.

Lemma delivery_solicited l p m :
  (forall token email repo, given l token (email, repo) -> ValidateEmail email = true) ->
  issued_message cfg l p -> delivery_mail smtp (delivery_of p) m -> solicited cfg smtp l m.
Proof.
  intros Hv [(key & mid & body & (token & email & repo & Hin & Hc) & ->)|
             (tag & sub & repo & Hin & Ho & ->)] Hm.
  - apply confirm_command_decodes in Hc as (-> & sagaID & Hdec).
    destruct Hm as [(_ & req & Hu & ->)|(Hk & _)]; [|done].
    change (unmarshal body = Ok req) in Hu. rewrite Hdec in Hu. injection Hu as <-. exists token, email, repo.
    split; [done|]. left. simpl. rewrite valid_email_coerced by by eapply Hv. eauto.
  - destruct Hm as [(Hk & _)|(_ & req & Hu & ->)]; [done|].
    cbn [d_Body delivery_of pub_Body release_publishing] in Hu.
    rewrite unmarshal_marshal in Hu. injection Hu as <-.
    exists (subscriber_Token sub), (subscriber_Email sub), repo. split; [done|]. right.
    split; [done|]. exists tag. simpl. by rewrite valid_email_coerced by by eapply Hv.
Qed.

Lemma call_solicited l r :
  issued_call cfg l r -> solicited cfg smtp l (confirmation_mail smtp (req_Email r) (req_ConfirmUrl r)).
Proof.
  intros (token & email & repo & Hin & ->). exists token, email, repo. split; [done|]. left.
  simpl. eauto.
Qed.
End Delivered.
