(* ===== verification/History.v ===== *)
(** * Interleaved goroutines, with a record of the tokens they draw

    Between the statement that stores a subscription and the one that sends a
    message about it other goroutines run, and the row may have changed or gone.
    What explains the message is then not in the tables. So the goroutines of
    Stepwise.v are followed with a record beside the world ([Story]), which
    exists only for the proof: which goroutines started, and the token that each
    of their requests drew. It only grows, and each goroutine writes only its own
    part. With it the ledger of Ledger.v explains, between any two steps, the
    rows, the waiting commands and all that the monolith sent. *)

From S2P Require Import Prelude GoErrors Tables Env Logic Schema Json Wire.
From S2P Require Import Notifier.
From S2P Require Import Spec SubStore SagaStore OutboxStore TrackStore Notification SagaMachine.
From S2P Require Import Orchestrator RepoSpec Email Service Gateway Scanner Handler Config.
From S2P Require Import Relay ReplyConsumer Sweeper Wiring Footprint Commands System Growth.
From S2P Require Import Threads Stepwise Interleave Issue Ledger.

Local Open Scope string_scope.
Local Open Scope Z_scope.

(** ** The record *)

(** [drawn] at [(i, j)]: the token that operation [j] of goroutine [i] drew, and
    the pair it drew it for. *)
Record Story := mkStory {
  arrived : list (list Op);
  drawn : gmap (nat * nat) (string * Key) }.

Definition draw (i j : nat) (x : string * Key) (h : Story) : Story :=
  mkStory (arrived h) (<[(i, j) := x]> (drawn h)).

Record continues (h h' : Story) : Prop := {
  cn_arrived : arrived h `prefix_of` arrived h';
  cn_drawn : drawn h ⊆ drawn h' }.

#[export] Instance continues_preorder : PreOrder continues.
Proof. split; [by intros h|]. intros h1 h2 h3 [H1 H2] [H3 H4]. split; by etrans. Qed.

Lemma draw_continues i j x h : drawn h !! (i, j) = None -> continues h (draw i j x h).
Proof. intros Hn. split; [done|]. simpl. by apply insert_subseteq. Qed.

(** Goroutine [i] drew nothing between the two. *)
Definition same_draws (i : nat) (h h' : Story) : Prop :=
  forall j, drawn h' !! (i, j) = drawn h !! (i, j).

Section Story.
Variables (cfg : Config) (bind : string -> option SubscribeRequest).

(** What the record explains. *)
Definition story_ledger (h : Story) : Ledger :=
  mkLedger (fun token k => exists p, drawn h !! p = Some (token, k))
    (opened cfg (concat (arrived h))).

Lemma story_ledger_mono h h' : continues h h' -> extends (story_ledger h) (story_ledger h').
Proof.
  intros [[new Ha] Hd]. split; simpl.
  - intros token k (p & Hp). exists p. by eapply lookup_weaken.
  - intros token Ho. rewrite Ha, concat_app. by apply opened_mono.
Qed.

(** Every token was drawn by a subscribe request that had the API key and a
    valid address, for the pair it names; no request drew two. *)
Definition drawn_ok (h : Story) : Prop :=
  forall i j token k, drawn h !! (i, j) = Some (token, k) ->
    exists ops req sr, arrived h !! i = Some ops /\ ops !! j = Some (OpRequest req) /\
      asks (APIKey cfg) bind req sr /\ k = (sr_Email sr, sr_Repo sr).

Lemma drawn_ok_valid h token email repo :
  drawn_ok h -> given (story_ledger h) token (email, repo) -> ValidateEmail email = true.
Proof.
  intros Hok ([i j] & Hp). destruct (Hok _ _ _ _ Hp) as (? & ? & sr & _ & _ & (_ & _ & _ & Hv) & Heq).
  by injection Heq as -> ->.
Qed.

Lemma drawn_ok_arrive ops h : drawn_ok h -> drawn_ok (mkStory (app (arrived h) [ops]) (drawn h)).
Proof.
  intros Hok i j token k Hp. destruct (Hok _ _ _ _ Hp) as (ops' & req & sr & Hi & ?).
  exists ops', req, sr. split; [|done]. simpl. by apply lookup_app_l_Some.
Qed.

(** The request at this place. *)
Definition request_at (h : Story) (i j : nat) (req : Request) : Prop :=
  exists ops, arrived h !! i = Some ops /\ ops !! j = Some (OpRequest req).

Lemma request_opened h i j req token :
  request_at h i j req -> r_Route req = RConfirm token -> authorized (APIKey cfg) req = true ->
  followed (story_ledger h) token.
Proof.
  intros (ops & Hi & Hj) Hr Ha. exists req. split; [|done]. apply list_elem_of_In, in_concat.
  exists ops. split; apply list_elem_of_In; by eapply list_elem_of_lookup_2.
Qed.

Lemma drawn_ok_draw h i j req sr token :
  drawn_ok h -> request_at h i j req -> asks (APIKey cfg) bind req sr ->
  drawn_ok (draw i j (token, (sr_Email sr, sr_Repo sr)) h).
Proof.
  intros Hok (ops & Hi & Hj) Ha i' j' token' k. simpl.
  intros [[[= <- <-] [= <- <-]]|[_ Hp]]%lookup_insert_Some; [by exists ops, req, sr|].
  destruct (Hok _ _ _ _ Hp) as (? & ? & ? & ?). eauto.
Qed.
End Story.

(** ** The goroutines and the record *)

(** What a step may send, and a step that fits a ledger. *)
Definition sends `{!PgServer} (cfg : Config) (l : Ledger) : Allow :=
  mkAllow True (issued_message cfg l) (issued_call cfg l) (fun _ => False) true.

Section Told.
Context {X : Type} `{!Env X} `{!PgServerLaws env_server} `{!RedisLaws X}.
Variables (cfg : Config) (bind : string -> option SubscribeRequest).
Implicit Types (w : World X) (h : Story) (a b : Story * World X).
Local Abbreviation ledger := (story_ledger cfg).

Definition told a : Prop :=
  settled a.2 /\ posted cfg (ledger a.1) a.2 /\ drawn_ok cfg bind a.1.

Definition others_tell (i : nat) a b : Prop :=
  grows (w_db a.2) (w_db b.2) /\ continues a.1 b.1 /\ same_draws i a.1 b.1.
Definition tells (i : nat) a b : Prop :=
  grows (w_db a.2) (w_db b.2) /\ continues a.1 b.1 /\ arrived b.1 = arrived a.1 /\
  forall i', i' <> i -> same_draws i' a.1 b.1.

(** What goroutine [i] knows and the others cannot make false. *)
Definition kept (i : nat) (K : Story -> DB -> Prop) : Prop :=
  forall h h' d d', db_ok d -> db_ok d' -> grows d d' -> continues h h' -> same_draws i h h' ->
    K h d -> K h' d'.

Definition knows (K : Story -> DB -> Prop) a : Prop := K a.1 (w_db a.2).

Definition noted {A} (i : nat) (K : Story -> DB -> Prop) (p : Prog X A) : Prop :=
  along told (others_tell i) (tells i) (knows K) p.

Section Rules.
Variables (i : nat) (K : Story -> DB -> Prop).
Local Abbreviation noted := (noted i K).

Lemma noted_ret {A} (x : A) : noted (mret x).
Proof. apply along_ret. Qed.
Lemma noted_throw {A} e : noted (throw_t (A := A) e).
Proof. apply along_throw. Qed.
Lemma noted_bind {A B} (p : Prog X A) (k : A -> Prog X B) :
  noted p -> (forall x, noted (k x)) -> noted (p ≫= k).
Proof. apply along_bind. Qed.
Lemma noted_try {A} (p : Prog X A) : noted p -> noted (try_t p).
Proof. apply along_try. Qed.
Lemma noted_wrap {A} s (p : Prog X A) : noted p -> noted (wrap_t s p).
Proof. apply along_wrap. Qed.
Lemma noted_for_each {A} (body : A -> Prog X unit) l :
  (forall x, noted (body x)) -> noted (for_each_t body l).
Proof. apply along_for_each. Qed.
End Rules.

Lemma kept_stable i K : kept i K -> stable told (others_tell i) (knows K).
Proof. intros HK a b [[_ Ha] _] [[_ Hb] _] (Hg & Hc & Hs). by apply HK. Qed.

Lemma kept_and i K K' : kept i K -> kept i K' -> kept i (fun h d => K h d /\ K' h d).
Proof. intros H H' h h' d d' H1 H2 H3 H4 H5 [? ?]. 
  split; [exact (H _ _ _ _ H1 H2 H3 H4 H5 ltac:(done))|exact (H' _ _ _ _ H1 H2 H3 H4 H5 ltac:(done))]. Qed.
Lemma kept_named i id k : kept i (fun _ d => named id k d).
Proof. intros h h' d d' _ _ Hg _ _. by eapply named_grows. Qed.

(** A step that fits: it is safe (Interleave.v) by labels of the ledger, enqueues
    only commands and sends only messages that the ledger explains. *)
Record fits {A} (K : DB -> Prop) (l : Ledger) (m : GoM X A) : Prop := {
  fit_safe : safe same_saga same_saga (issued_label l) K (atom m);
  fit_commands : keeps (commands_in (issued_command cfg l)) m;
  fit_effects : effects (sends cfg l) m }.

(** What a step does to the state. *)
Lemma fits_step {A} K l (m : GoM X A) w :
  fits K l m -> settled w -> K (w_db w) -> posted cfg l w ->
  settled (m w).2 /\ posted cfg l (m w).2 /\ grows (w_db w) (w_db (m w).2) /\ K (w_db (m w).2).
Proof.
  intros [Hs Hc He] Hw HK Hp.
  destruct (secured_atom_inv _ _ _ m _ _ w Hs Hw HK) as (Hw' & [Hg Hev] & HK').
  split; [done|]. split; [|done]. destruct Hw as [Htx _].
  eapply (posted_step cfg (issued_label l) (sends cfg l)); [done|exact Hp|exact Hev|done| |by apply effects_leaves|done|].
  - by apply (keeps_db _ m w Hc).
  - intros p ok H _. by right.
Qed.

Lemma told_atom {A} i K (m : GoM X A) (P : result A -> Story -> DB -> Prop) :
  kept i K -> (forall r, kept i (P r)) ->
  (forall h, (exists d, K h d) -> fits (K h) (ledger h) m) ->
  (forall h w, told (h, w) -> K h (w_db w) ->
     wp m (fun r w' => settled w' -> P r h (w_db w')) w) ->
  secured told (others_tell i) (tells i) (atom m) (knows K)
    (fun r a => knows K a /\ knows (P r) a).
Proof.
  intros HK HP Hf Hm. exists (fun r a => knows K a /\ knows (P r) a). split; [|split; [|by simpl]].
  - intros r a b Ha Hb Hab [H1 H2].
    split; [exact (kept_stable i K HK a b Ha Hb Hab H1)|].
    exact (kept_stable i (P r) (HP r) a b Ha Hb Hab H2).
  - intros [h w] Ht HKw. pose proof Ht as (Hw & Hp & Hd). simpl in *.
    destruct (fits_step (K h) (ledger h) m w) as (Hw' & Hp' & Hg & HK'); [eauto|done..|].
    exists (h, (m w).2). split; [done|]. split; [by split|]. split; [by split_and!|].
    split; [done|]. exact (Hm h w Ht HKw Hw').
Qed.

Lemma noted_atom {A} i K (m : GoM X A) :
  kept i K -> (forall h, (exists d, K h d) -> fits (K h) (ledger h) m) -> noted i K (atom m).
Proof.
  intros HK Hf. eapply secured_weaken; [by apply (told_atom i K m (fun _ _ _ => True))|done|].
  by intros r a _ [? _].
Qed.

(** What a step teaches the rest of the program. *)
Lemma noted_learn {A B} i K (P : result A -> Story -> DB -> Prop) (p : Prog X A)
    (k : A -> Prog X B) :
  secured told (others_tell i) (tells i) p (knows K) (fun r a => knows K a /\ knows (P r) a) ->
  (forall x, noted i (fun h d => K h d /\ P (Ok x) h d) (k x)) -> noted i K (p ≫= k).
Proof.
  intros Hp Hk. apply (along_learn _ _ _ _ (fun x a => knows (P (Ok x)) a)); [|exact Hk].
  eapply secured_weaken; [exact Hp|done|]. intros r a _ [? H]. split; [done|]. by intros x ->.
Qed.
Lemma noted_learn_try {A B} i K (P : result A -> Story -> DB -> Prop) (p : Prog X A)
    (k : result A -> Prog X B) :
  secured told (others_tell i) (tells i) p (knows K) (fun r a => knows K a /\ knows (P r) a) ->
  (forall r, noted i (fun h d => K h d /\ P r h d) (k r)) -> noted i K (try_t p ≫= k).
Proof.
  intros Hp Hk. apply (noted_learn i K (fun rr h d => forall r, rr = Ok r -> P r h d)).
  - apply secured_try. eapply secured_weaken; [exact Hp|done|]. intros r a _ [? H].
    split; [done|]. by intros r' [= <-].
  - intros r. eapply secured_weaken; [apply Hk| |].
    + intros a _ [? H]. split; [done|by apply H].
    + intros r' a _ [? H]. split; [done|by intros r'' [= <-]].
Qed.

(** A request draws its token. *)
Lemma told_draw i j req sr K :
  kept i K -> (forall h d x, K h d -> K (draw i j x h) d) ->
  (forall h d, K h d -> request_at h i j req) -> asks (APIKey cfg) bind req sr ->
  secured told (others_tell i) (tells i) (atom uuid_NewString)
    (knows (fun h d => K h d /\ drawn h !! (i, j) = None))
    (fun r a => knows K a /\
       forall token, r = Ok token -> drawn a.1 !! (i, j) = Some (token, (sr_Email sr, sr_Repo sr))).
Proof.
  intros HK Hdraw Hat Ha.
  exists (fun r a => knows K a /\
    forall token, r = Ok token -> drawn a.1 !! (i, j) = Some (token, (sr_Email sr, sr_Repo sr))).
  split; [|split; [|by simpl]].
  - intros r a b Hta Htb Hab [H1 H2]. split; [exact (kept_stable i K HK a b Hta Htb Hab H1)|].
    destruct Hab as (_ & _ & Hs). intros token Hr. rewrite Hs. auto.
  - intros [h w] (Hw & Hp & Hd) [HKh Hn]. simpl in *.
    set (token := (env_uuid (w_ext w)).1). set (k := (sr_Email sr, sr_Repo sr)).
    assert (continues h (draw i j (token, k) h)) as Hc by by apply draw_continues.
    exists (draw i j (token, k) h, (uuid_NewString w).2). split; [done|]. split; [split; [done|split]|].
    + apply posted_outside. eapply posted_mono; [by apply story_ledger_mono|exact Hp].
    + eapply drawn_ok_draw; [done|by eapply Hat|done].
    + split; [split; [done|split; [done|split; [done|]]]|].
      * intros i' Hne j'. simpl. by rewrite lookup_insert_ne by congruence.
      * split; [by apply Hdraw|]. simpl. intros token' [= <-]. apply lookup_insert_eq.
Qed.
End Told.
