(* ===== verification/Provenance.v ===== *)
(** * Every operation, with the record

    The programs of Stepwise.v again, statement by statement, beside the record
    of History.v: at every step of every operation, whatever the other goroutines
    did in between, the ledger of the record explains what is written and sent. *)

From stdpp Require Import pretty.
From S2P Require Import Prelude GoErrors Tables Env Logic Schema Json Wire.
From S2P Require Import Notifier.
From S2P Require Import Spec SubStore SagaStore OutboxStore TrackStore Notification SagaMachine.
From S2P Require Import Orchestrator RepoSpec Email Service Gateway Scanner Handler Config.
From S2P Require Import Relay ReplyConsumer Sweeper Wiring Footprint Commands System Growth.
From S2P Require Import Threads Stepwise Interleave Issue Ledger History.

Local Open Scope string_scope.
Local Open Scope Z_scope.

Section Steps.
Context {X : Type} `{!Env X} `{!PgServerLaws env_server} `{!RedisLaws X}.
Variables (cfg : Config) (bind : string -> option SubscribeRequest).
Implicit Types (w : World X) (h : Story).
Local Abbreviation ledger := (story_ledger cfg).

Lemma kept_lasting i K h : kept i K -> lasting same_saga (K h).
Proof.
  intros HK d d' H1 H2 Hg. apply (HK h h d d'); [done..|reflexivity|by intros j].
Qed.

(** Steps that send nothing, by the hints of Interleave.v, Commands.v and
    Footprint.v. *)
Lemma noted_by {A} i K (m : GoM X A) :
  kept i K ->
  (forall h, (exists d, K h d) -> lasting same_saga (K h) ->
     safe same_saga same_saga (issued_label (ledger h)) (K h) (atom m)) ->
  (forall C : Command -> Prop, keeps (commands_in C) m) ->
  (forall h, (exists d, K h d) -> effects (sends cfg (ledger h)) m) ->
  noted cfg bind i K (atom m).
Proof.
  intros HK Hs Hc He. apply noted_atom; [done|]. intros h Hh.
  split; [|done|by apply He]. apply Hs; [done|]. by eapply kept_lasting.
Qed.

(** A step that leaves the database alone and sends nothing. *)
Lemma noted_quiet {A} i K (m : GoM X A) :
  kept i K -> (forall w, wp m (fun _ w' => w_tx w' = w_tx w /\ w_db w' = w_db w) w) ->
  (forall h, (exists d, K h d) -> effects (sends cfg (ledger h)) m) -> noted cfg bind i K (atom m).
Proof.
  intros HK Hm He. apply noted_by; [done| |intros C|done].
  - intros h _ Hl. by apply (safe_quiet same_saga same_saga).
  - intros w Hw. destruct (Hm w) as [Htx Hdb]. unfold winv. by rewrite Hdb, Htx.
Qed.

Lemma any_saga_update : any_update same_saga same_saga.
Proof. by split; [intros st sg le now|]. Qed.
End Steps.

Lemma MarkPublished_commands {X : Type} `{!Env X} C id :
  keeps (X := X) (commands_in C) (MarkPublished id).
Proof.
  unfold MarkPublished. apply keeps_wrap, keeps_db_stmt. intros now d. simpl.
  by apply update_commands.
Qed.
#[export] Hint Resolve MarkPublished_commands : go_db.

(** [solve_noted]: the structure of the program; each step by its hints. *)
Ltac noted_step :=
  apply noted_by; [assumption
    |intros ? ? ?; auto with go_db nocore
    |intros ?; solve_commands
    |intros ? ?; solve_effects].

Ltac solve_noted :=
  intros; cbv zeta;
  first
  [ solve [auto with go_db nocore]
  | lazymatch goal with
    | |- noted _ _ _ _ (mret _) => apply noted_ret
    | |- noted _ _ _ _ (throw_t _) => apply noted_throw
    | |- noted _ _ _ _ (_ ≫= _) => apply noted_bind
    | |- noted _ _ _ _ (wrap_t _ _) => apply noted_wrap
    | |- noted _ _ _ _ (try_t _) => apply noted_try
    | |- noted _ _ _ _ (for_each_t _ _) => apply noted_for_each
    | |- noted _ _ _ _ (match ?x with _ => _ end) => destruct x
    | |- noted _ _ _ _ (atom _) => noted_step
    end; solve_noted
  | idtac ].

Section Programs.
Context {X : Type} `{!Env X} `{!PgServerLaws env_server} `{!RedisLaws X}.
Variables (cfg : Config) (redis : bool) (transport : Transport).
Variable bind : string -> option SubscribeRequest.
Variables (i : nat) (K : Story -> DB -> Prop).
Hypothesis HK : kept i K.
Implicit Types (w : World X) (h : Story).
Local Abbreviation ledger := (story_ledger cfg).
Local Abbreviation noted := (noted (X := X) cfg bind i K).

Lemma UpdateState_noted id st le : noted (atom (UpdateState id st le)).
Proof.
  apply noted_by; [done| |intros C; auto with go_db|intros h _; auto with go_db].
  intros h _ Hl. apply (UpdateState_safe same_saga same_saga); [done|].
  apply (any_update_may (X := X) same_saga same_saga); [apply any_saga_update|done].
Qed.
Lemma MarkFailed_noted id : noted (atom (MarkFailed id)).
Proof.
  apply noted_by; [done| |intros C; auto with go_db|intros h _; auto with go_db].
  intros h _ Hl. by apply (MarkFailed_safe same_saga same_saga).
Qed.
Lemma inc_noted name ls : noted (atom (inc name ls)).
Proof.
  apply noted_quiet; [done|by intros w|]. intros h _. apply effects_inc. by left.
Qed.
Lemma observe_noted name ls : noted (atom (observe name ls)).
Proof. apply inc_noted. Qed.
Lemma select_noted d : noted (atom (select_done_or_after d)).
Proof. apply noted_quiet; [done| |intros h _; auto with go_db]. intros w. by apply wp_select. Qed.
Lemma settle_noted r : noted (atom (Stepwise.settle r)).
Proof.
  apply noted_quiet; [done|by intros w|]. intros h _ w. apply rtc_once, eff_emit. by destruct r.
Qed.
Lemma time_noted : noted (atom time_Now).
Proof. apply noted_quiet; [done|by intros w|intros h _; auto with go_db]. Qed.
Lemma uuid_noted : noted (atom uuid_NewString).
Proof. apply noted_quiet; [done|by intros w|intros h _; auto with go_db]. Qed.
Lemma scanner_error_noted reason : noted (atom (scanner_error reason)).
Proof. apply inc_noted. Qed.
Lemma query_noted {A} (f : DB -> result A) : noted (atom (db_stmt (fun _ d => (f d, d)))).
Proof. apply noted_quiet; [done| |intros h _; auto with go_db]. intros w. by apply wp_query. Qed.
Lemma GetByID_noted id : noted (atom (GetByID id)).
Proof.
  apply noted_quiet; [done| |intros h _; unfold GetByID; solve_effects]. intros w. unfold GetByID.
  apply wp_wrap, wp_db_stmt; intros; simpl; repeat case_match; done.
Qed.
Lemma CheckRepoExists_noted owner name :
  noted (atom (CheckRepoExists (github_service (run_github X cfg redis)) owner name)).
Proof.
  apply noted_quiet; [done| |intros h _; apply run_github_effects]. intros w.
  eapply wp_mono; [apply check_repo_frame|]. by intros r w' (? & ? & _).
Qed.
Lemma GetLatestRelease_noted owner name :
  noted (atom (up_GetLatestRelease (run_github X cfg redis) owner name)).
Proof.
  apply noted_quiet; [done| |intros h _; apply run_github_effects]. intros w. eapply wp_mono.
  { apply (checker_spec (github := up_GetLatestRelease (run_github X cfg redis))). }
  intros r w' ((Hdb & Htx & _) & _). by split.
Qed.
Lemma handler_GetSubscriptions_noted email : noted (handler_GetSubscriptions_t email).
Proof.
  apply noted_by; [done| | |].
  - intros h _ Hl. by apply (handler_GetSubscriptions_steps same_saga same_saga).
  - intros C. unfold handler_GetSubscriptions. pose proof (GetSubscriptions_steady (X := X)).
    solve_commands.
  - intros h _. unfold handler_GetSubscriptions. pose proof (GetSubscriptions_effects (X := X)).
    solve_effects.
Qed.
End Programs.

#[export] Hint Resolve noted_ret noted_throw UpdateState_noted MarkFailed_noted inc_noted
  observe_noted select_noted settle_noted time_noted uuid_noted scanner_error_noted query_noted GetByID_noted
  CheckRepoExists_noted GetLatestRelease_noted handler_GetSubscriptions_noted : go_db.

Section Requests.
Context {X : Type} `{!Env X} `{!PgServerLaws env_server} `{!RedisLaws X}.
Variables (cfg : Config) (redis : bool) (transport : Transport).
Variable bind : string -> option SubscribeRequest.
Variables (i : nat) (K : Story -> DB -> Prop).
Hypothesis HK : kept i K.
Implicit Types (w : World X) (h : Story).
Local Abbreviation ledger := (story_ledger cfg).
Local Abbreviation noted := (noted (X := X) cfg bind i).

Lemma Confirm_t_noted token :
  (forall h d, K h d -> followed (ledger h) token) -> noted K (Confirm_t token).
Proof.
  intros Ho. assert (noted K (atom (ConfirmSubscription token))) as Hc.
  { apply noted_by; [done| |intros C; unfold ConfirmSubscription; solve_commands
      |intros h _; unfold ConfirmSubscription; solve_effects].
    intros h (d & Hh%Ho) Hl. by apply (ConfirmSubscription_safe same_saga same_saga). }
  unfold Confirm_t, GetSubscriptionByToken. solve_noted.
Qed.

Lemma Unsubscribe_t_noted token : noted K (Unsubscribe_t token).
Proof.
  assert (noted K (atom (DeleteSubscription token))) as Hc.
  { apply noted_by; [done| |intros C; unfold DeleteSubscription; solve_commands
      |intros h _; unfold DeleteSubscription; solve_effects].
    intros h _ Hl. by apply (DeleteSubscription_safe same_saga same_saga). }
  unfold Unsubscribe_t, GetSubscriptionByToken. solve_noted.
Qed.
End Requests.

(** ** The workers *)

Section Workers.
Context {X : Type} `{!Env X} `{!PgServerLaws env_server} `{!RedisLaws X}.
Variables (cfg : Config) (redis : bool) (transport : Transport).
Variable bind : string -> option SubscribeRequest.
Variables (i : nat) (K : Story -> DB -> Prop).
Hypothesis HK : kept i K.
Implicit Types (w : World X) (h : Story).
Local Abbreviation ledger := (story_ledger cfg).
Local Abbreviation noted := (noted (X := X) cfg bind i).

(** A publish of a message that the ledger explains. *)
Lemma Publish_noted K' key mid body :
  kept i K' ->
  (forall h d, K' h d ->
     issued_message cfg (ledger h) (mkPublishing ExchangeName key "application/json" true mid body)) ->
  noted K' (atom (Publish key mid body)).
Proof.
  intros HK' Hm. apply noted_quiet; [done| |].
  - intros w. unfold Publish. apply wp_ext_call; intros; done.
  - intros h (d & Hh). apply Publish_effects. by eapply Hm.
Qed.

Lemma run_delivery_t_noted body : noted K (run_delivery_t body).
Proof.
  assert (noted K (HandleReply_t body)) as Hr
    by (unfold HandleReply_t, advance_t, compensate_t; solve_noted).
  unfold run_delivery_t. apply noted_bind; [apply noted_try|solve_noted].
  generalize 3%nat. intros n. induction n as [|n IH]; cbn [retry_reply_t]; solve_noted.
Qed.

Lemma Sweep_t_noted stale : noted K (Sweep_t stale).
Proof. unfold Sweep_t, sweep_one_t. solve_noted. Qed.

(** *** The relay *)

(** The rows that were fetched hold commands of the ledger. *)
Definition fetched (r : result (list OutboxMessage)) h (d : DB) : Prop :=
  forall msgs m, r = Ok msgs -> m ∈ msgs -> issued_command cfg (ledger h) (ob_command m).

Lemma kept_fetched r : kept i (fetched r).
Proof.
  intros h h' d d' _ _ _ Hc _ H msgs m Hr Hm.
  eapply issued_command_mono; [by apply story_ledger_mono|by eapply H].
Qed.

Lemma FetchUnpublished_told n :
  secured (told cfg bind) (others_tell i) (tells i) (atom (FetchUnpublished (X := X) n))
    (knows K) (fun r a => knows K a /\ knows (fetched r) a).
Proof.
  apply told_atom; [done|apply kept_fetched| |].
  - intros h _. split; [|auto with go_db|auto with go_db].
    apply (FetchUnpublished_safe same_saga same_saga). by eapply kept_lasting.
  - intros h w (_ & [_ Hc _ _] & _) _. unfold FetchUnpublished. apply wp_wrap, wp_query; [done|].
    intros x _ msgs m [= <-] Hm. apply Hc. by apply unpublished_rows_elem in Hm as [? _].
Qed.

Lemma drain_t_noted : noted K drain_t.
Proof.
  unfold drain_t. eapply noted_learn_try; [apply FetchUnpublished_told|]. intros [msgs|e].
  2: { apply noted_ret. }
  assert (forall K', kept i K' -> (forall h d m, K' h d -> m ∈ msgs ->
    issued_command cfg (ledger h) (ob_command m)) -> noted K' (drain_batch_t msgs)) as Hb.
  { clear. induction msgs as [|m msgs IH]; intros K' HK' Hm; cbn [drain_batch_t]; [apply noted_ret|].
    apply noted_bind; [apply noted_try, Publish_noted; [done|]|].
    - intros h d Hh. left. eexists _, _, _. split; [|done]. apply (Hm h d m); [done|set_solver].
    - intros [[]|e]; [|apply noted_ret]. apply noted_bind; [solve_noted|]. intros _.
      apply IH; [done|]. intros h d m' Hh Hin. apply (Hm h d m'); [done|set_solver]. }
  apply Hb; [by apply kept_and, kept_fetched|]. intros h d m [_ Hf] Hm. by eapply Hf.
Qed.

(** *** The scanner *)

(** The subscribers that were read have tokens of the ledger, whose links were
    opened. *)
Definition readers (repo : string) (r : result (list Subscriber)) h (d : DB) : Prop :=
  forall subs sub, r = Ok subs -> sub ∈ subs ->
    given (ledger h) (subscriber_Token sub) (subscriber_Email sub, repo) /\
    followed (ledger h) (subscriber_Token sub).

Lemma kept_readers repo r : kept i (readers repo r).
Proof.
  intros h h' d d' _ _ _ Hc _ H subs sub Hr Hs. destruct (H subs sub Hr Hs) as [Hg Hf].
  destruct (story_ledger_mono cfg h h' Hc) as [Hx Hy]. split; [by apply Hx|by apply Hy].
Qed.

Lemma SubscribersForRepo_told repo :
  secured (told cfg bind) (others_tell i) (tells i) (atom (SubscribersForRepo (X := X) repo))
    (knows K) (fun r a => knows K a /\ knows (readers repo r) a).
Proof.
  apply told_atom; [done|apply kept_readers| |].
  - intros h _. split; [|auto with go_db|auto with go_db].
    apply (SubscribersForRepo_safe same_saga same_saga). by eapply kept_lasting.
  - intros h w (_ & Hp & _) _. eapply wp_mono; [apply SubscribersForRepo_result|].
    intros r w' (_ & Hdb & Hsubs) [_ Hok'] subs sub -> Hs. simpl in Hp, Hsubs.
    rewrite Hsubs in Hs. apply list_elem_of_fmap in Hs as (s & -> & Hs).
    apply elem_of_select_where in Hs as [Hs [Hr Hc]%andb_true_iff]. apply String.eqb_eq in Hr.
    subst repo. rewrite Hdb in Hok'. apply (issued_receives _ (w_db w)); [done|apply Hp|done..].
Qed.

Lemma notify_t_noted K' repo tag sub :
  kept i K' ->
  (forall h d, K' h d -> given (ledger h) (subscriber_Token sub) (subscriber_Email sub, repo) /\
     followed (ledger h) (subscriber_Token sub)) ->
  noted K' (notify_t SendReleaseNotification (BaseURL cfg) repo tag sub).
Proof.
  intros HK' Hs. unfold notify_t, SendReleaseNotification, publish.
  apply noted_bind; [apply noted_try, Publish_noted; [done|]|solve_noted].
  intros h d [Hg Hf]%Hs. right. by exists tag, sub, repo.
Qed.

Lemma recordAndNotify_t_noted repo tag :
  noted K (recordAndNotify_t SendReleaseNotification (BaseURL cfg) repo tag).
Proof.
  unfold recordAndNotify_t. apply noted_bind; [solve_noted|]. intros [[]|e]; [|solve_noted].
  eapply noted_learn_try; [apply SubscribersForRepo_told|]. intros r.
  pose proof (kept_and i K (readers repo r) HK (kept_readers repo r)) as HK'.
  destruct r as [subs|e]; [|solve_noted].
  assert (forall sub, sub ∈ subs -> noted (fun h d => K h d /\ readers repo (Ok subs) h d)
    (notify_t SendReleaseNotification (BaseURL cfg) repo tag sub)) as Hn.
  { intros sub Hs. apply notify_t_noted; [done|]. intros h d [_ H]. by eapply H. }
  by apply secured_for_each.
Qed.

Lemma scan_t_noted :
  noted K (scan_t (up_GetLatestRelease (run_github X cfg redis)) SendReleaseNotification
    (BaseURL cfg)).
Proof.
  assert (forall repo, noted K (checkRepo_t (up_GetLatestRelease (run_github X cfg redis))
    SendReleaseNotification (BaseURL cfg) repo)) as Hc.
  { intros repo. pose proof recordAndNotify_t_noted. unfold checkRepo_t, detectNewRelease_t, GetRepoTracking. solve_noted. }
  unfold scan_t, ActiveRepos, GetActiveRepos. solve_noted.
Qed.
End Workers.

(** ** The start of a saga *)

Section Starts.
Context {X : Type} `{!Env X} `{!PgServerLaws env_server} `{!RedisLaws X}.
Variables (cfg : Config) (transport : Transport).
Variable bind : string -> option SubscribeRequest.
Variables (i : nat) (K : Story -> DB -> Prop) (email repo token : string).
Hypothesis HK : kept i K.
Hypothesis token_given : forall h d, K h d -> given (story_ledger cfg h) token (email, repo).
Implicit Types (w : World X) (h : Story).
Local Abbreviation ledger := (story_ledger cfg).
Local Abbreviation link := (confirm_link (BaseURL cfg) token).
Local Abbreviation noted := (noted (X := X) cfg bind i).

(** What the token explains: its steps, its command and its call. *)
Lemma given_label h d : K h d -> forall l, token_label (email, repo) token l -> issued_label (ledger h) l.
Proof. intros Hh l [->|[->| ->]]; [by eapply token_given..|done]. Qed.
Lemma given_command h d c :
  K h d -> confirm_command email token link c -> issued_command cfg (ledger h) c.
Proof. intros Hh Hc. exists token, email, repo. split; [by eapply token_given|done]. Qed.
Lemma given_call h d : K h d -> issued_call cfg (ledger h) (mkSendConfirmationRequest email repo link).
Proof. intros Hh. exists token, email, repo. split; [by eapply token_given|done]. Qed.

Lemma SendConfirmation_noted K' :
  kept i K' -> (forall h d, K' h d -> K h d) -> noted K' (atom (SendConfirmation email repo link)).
Proof.
  intros HK' Hw. apply noted_quiet; [done| |].
  - intros w. apply wp_wrap. by apply wp_ext_call.
  - intros h (d & Hh). apply SendConfirmation_effects. by eapply given_call, Hw.
Qed.

Lemma dispatchSync_t_noted K' sagaID id :
  kept i K' -> (forall h d, K' h d -> K h d) ->
  noted K' (dispatchSync_t SendConfirmation sagaID id email repo link).
Proof.
  intros HK' Hw. pose proof (SendConfirmation_noted K' HK' Hw).
  unfold dispatchSync_t, compensateSync_t. solve_noted.
Qed.

(** The synchronous T1, and the dispatch after it. *)
Lemma start_dispatch_noted id :
  (forall h, (exists d, K h d) ->
     secured settled (others_grow same_saga) (step_does same_saga (issued_label (ledger h)))
       (atom (createSubscriptionAndSaga (X := X) email repo token id)) (fun w => K h (w_db w))
       (fun r w => K h (w_db w) /\ names_row email repo r (w_db w))) ->
  noted K ('(subID, sagaID) ← atom (createSubscriptionAndSaga email repo token id);
    dispatchSync_t SendConfirmation sagaID subID email repo link).
Proof.
  intros Hc. apply noted_bind; [|intros [subID sagaID]; by apply dispatchSync_t_noted].
  apply noted_atom; [done|]. intros h Hh. split.
  - eapply secured_weaken; [by apply Hc|done|]. by intros r w _ [? _].
  - apply createSubscriptionAndSaga_commands.
  - apply createSubscriptionAndSaga_effects.
Qed.

Lemma StartConfirmation_t_noted :
  noted K (StartConfirmation_t (transport_sender transport) email repo token link).
Proof.
  destruct transport; simpl.
  - apply noted_atom; [done|]. intros h (d & Hh). split.
    + apply (StartConfirmation_safe same_saga same_saga _ _ _ _ (given_label h d Hh)).
      by eapply kept_lasting.
    + apply (StartConfirmation_commands _ _ _ _ _ (fun c => given_command h d c Hh) TransportBroker).
    + apply (StartConfirmation_effects _ TransportBroker). by eapply given_call.
  - apply start_dispatch_noted. intros h (d & Hh).
    apply (create_safe same_saga same_saga _ _ _ _ (given_label h d Hh)). by eapply kept_lasting.
Qed.

Lemma ReactivateConfirmation_t_noted id :
  (forall h d, K h d -> named id (email, repo) d) ->
  noted K (ReactivateConfirmation_t (transport_sender transport) id email repo token link).
Proof.
  intros Hn. destruct transport; simpl.
  - apply noted_atom; [done|]. intros h (d & Hh). split.
    + apply (ReactivateConfirmation_safe same_saga same_saga _ _ _ _ (given_label h d Hh));
        [by eapply kept_lasting|apply Hn].
    + apply (ReactivateConfirmation_commands _ _ _ _ _ (fun c => given_command h d c Hh) TransportBroker).
    + apply (ReactivateConfirmation_effects _ TransportBroker). by eapply given_call.
  - apply start_dispatch_noted. intros h (d & Hh).
    apply (recreate_safe same_saga same_saga _ _ _ _ (given_label h d Hh));
      [by eapply kept_lasting|apply Hn].
Qed.
End Starts.

(** ** The requests *)

Section Subscribe.
Context {X : Type} `{!Env X} `{!PgServerLaws env_server} `{!RedisLaws X}.
Variables (cfg : Config) (redis : bool) (transport : Transport).
Variable bind : string -> option SubscribeRequest.
Variables (i j : nat) (req : Request) (sr : SubscribeRequest) (K : Story -> DB -> Prop).
Hypothesis HK : kept i K.
Hypothesis K_draw : forall h d x, K h d -> K (draw i j x h) d.
Hypothesis K_request : forall h d, K h d -> request_at h i j req.
Hypothesis asked : asks (APIKey cfg) bind req sr.
Implicit Types (w : World X) (h : Story).
Local Abbreviation ledger := (story_ledger cfg).
Local Abbreviation email := (sr_Email sr).
Local Abbreviation repo := (sr_Repo sr).
Local Abbreviation told_prog := (secured (told cfg bind) (others_tell i) (tells i)).

(** The request has not drawn its token. *)
Definition undrawn h (d : DB) : Prop := drawn h !! (i, j) = None.
Lemma kept_undrawn : kept i undrawn.
Proof. intros h h' d d' _ _ _ _ Hs Hn. unfold undrawn. by rewrite Hs. Qed.
Definition has_drawn (token : string) h (d : DB) : Prop := drawn h !! (i, j) = Some (token, (email, repo)).
Lemma kept_has_drawn token : kept i (has_drawn token).
Proof. intros h h' d d' _ _ _ _ Hs Hn. unfold has_drawn. by rewrite Hs. Qed.

(** The lookup names the row that it finds. *)
Definition found_row (r : result (option Subscription)) (h : Story) (d : DB) : Prop :=
  forall s, r = Ok (Some s) -> named (sub_ID s) (email, repo) d.
Lemma kept_found_row r : kept i (found_row r).
Proof. intros h h' d d' _ _ Hg _ _ H s Hs. eapply named_grows; [exact Hg|by apply H]. Qed.

Lemma lookup_told K' :
  kept i K' ->
  told_prog (wrap_t "database error" (atom (GetSubscriptionByEmailAndRepo (X := X) email repo)))
    (knows K') (fun r a => knows K' a /\ knows (found_row r) a).
Proof.
  intros HK'. apply secured_wrap. eapply secured_weaken.
  { apply (told_atom cfg bind i K' (GetSubscriptionByEmailAndRepo email repo) found_row);
      [done|apply kept_found_row| |].
    - intros h _. split.
      + apply (safe_quiet same_saga same_saga); [by eapply kept_lasting|]. intros w.
        by apply wp_first_such.
      + unfold GetSubscriptionByEmailAndRepo. solve_commands.
      + unfold GetSubscriptionByEmailAndRepo. solve_effects.
    - intros h w _ _. unfold GetSubscriptionByEmailAndRepo. apply wp_first_such.
      + intros x m. done.
      + intros x o Ho [_ Hok] s [= ->]. destruct Ho as [Hs Hk%by_email_repo_key].
        rewrite <- Hk. by apply named_row. }
  { done. }
  intros [o|e] a _ [? H]; [done|]. split; [done|]. by intros s.
Qed.

Lemma Subscribe_t_told :
  told_prog (Subscribe_t (github_service (run_github X cfg redis)) (transport_sender transport)
      (BaseURL cfg) email repo)
    (knows (fun h d => K h d /\ undrawn h d)) (fun _ => knows K).
Proof.
  set (Kf := fun h d => K h d /\ undrawn h d).
  assert (kept i Kf) as HKf by by apply kept_and, kept_undrawn.
  assert (forall a : Story * World X, knows Kf a -> knows K a) as Hw by by intros a [? _].
  assert (forall e, told_prog (throw_t (A := unit) e) (knows Kf) (fun _ => knows K)) as Hthrow
    by (intros e a _ Ha; by apply Hw).
  unfold Subscribe_t. case_match; [done|]. destruct (ParseRepoSpec repo) as [spec|err]; [|done].
  eapply (secured_bind _ _ _ _ _ _ (fun _ => knows Kf));
    [|intros ex|intros e a _; apply Hw].
  { apply noted_wrap. auto with go_db. }
  case_match; [done|].
  eapply secured_bind; [by apply lookup_told|intros o|by intros e a _ [? _]; apply Hw].
  set (Kn := fun h d => K h d /\ found_row (Ok o) h d).
  assert (kept i Kn) as HKn by by apply kept_and, kept_found_row.
  eapply secured_bind with (S := fun r a => knows Kn a /\
    forall token, r = Ok token -> drawn a.1 !! (i, j) = Some (token, (email, repo)));
    [|intros token|by intros e a _ [[? _] _]].
  { eapply secured_weaken; [eapply (told_draw cfg bind i j req sr Kn); [done| | |done]|..].
    - intros h d x [? ?]. split; [by apply K_draw|done].
    - intros h d [? _]. by eapply K_request.
    - by intros a _ [[? ?] ?].
    - done. }
  set (Kt := fun h d => Kn h d /\ has_drawn token h d).
  assert (kept i Kt) as HKt by by apply kept_and, kept_has_drawn.
  assert (forall h d, Kt h d -> given (ledger h) token (email, repo)) as Hg
    by (intros h d [_ ?]; by exists (i, j)).
  cbv zeta.
  enough (noted cfg bind i Kt (match o with
    | Some sub => if negb (has_status StatusFailed sub) then throw_t (EDomain ErrAlreadySubscribed)
        else wrap_t "failed to reactivate subscription saga" (ReactivateConfirmation_t
               (transport_sender transport) (sub_ID sub) email repo token
               (confirm_link (BaseURL cfg) token))
    | None => wrap_t "failed to start subscription saga" (StartConfirmation_t
        (transport_sender transport) email repo token (confirm_link (BaseURL cfg) token))
    end)) as Hk.
  { eapply secured_weaken; [exact Hk| |].
    - intros a _ [? Hd]. split; [done|by apply Hd].
    - by intros r a _ [[? _] _]. }
  destruct o as [s|].
  - case_match; [apply noted_throw|]. apply noted_wrap.
    apply ReactivateConfirmation_t_noted; [done..|]. intros h d [[_ Hn] _]. by apply Hn.
  - apply noted_wrap. by apply StartConfirmation_t_noted.
Qed.
End Subscribe.

(** A whole request, with the place of its operation. *)
Section Request.
Context {X : Type} `{!Env X} `{!PgServerLaws env_server} `{!RedisLaws X}.
Variables (cfg : Config) (redis : bool) (transport : Transport).
Variable bind : string -> option SubscribeRequest.
Variables (i j : nat) (req : Request) (K : Story -> DB -> Prop).
Hypothesis HK : kept i K.
Hypothesis K_draw : forall h d x, K h d -> K (draw i j x h) d.
Hypothesis K_request : forall h d, K h d -> request_at h i j req.
Implicit Types (w : World X) (h : Story).
Local Abbreviation ledger := (story_ledger cfg).
Local Abbreviation github := (github_service (run_github X cfg redis)).
Local Abbreviation sender := (transport_sender transport).
Local Abbreviation told_prog := (secured (told cfg bind) (others_tell i) (tells i)).
Local Abbreviation Kf := (fun h d => K h d /\ undrawn i j h d).

Lemma kept_Kf : kept i Kf.
Proof. by apply kept_and, kept_undrawn. Qed.

(** From a program that draws nothing. *)
Lemma told_noted {A} (p : Prog X A) :
  noted cfg bind i K p -> told_prog p (knows Kf) (fun _ => knows K).
Proof. intros Hp. eapply secured_weaken; [exact Hp| |done]. by intros a _ [? _]. Qed.

Lemma handler_Subscribe_t_told :
  r_Route req = RSubscribe -> authorized (APIKey cfg) req = true ->
  told_prog (handler_Subscribe_t github sender (BaseURL cfg) bind (r_Body req))
    (knows Kf) (fun _ => knows K).
Proof.
  intros Hr Ha. unfold handler_Subscribe_t.
  destruct (bind (r_Body req)) as [sr|] eqn:Hb; [|apply told_noted, noted_ret].
  eapply secured_bind with (S := fun _ => knows K); [apply secured_try| |done].
  - destruct (ValidateEmail (sr_Email sr)) eqn:Hv.
    + by apply Subscribe_t_told with (req := req).
    + unfold Subscribe_t. rewrite Hv. apply told_noted, noted_throw.
  - intros r. assert (noted cfg bind i K (match r with
      | Ok _ => atom (inc "subscriptions_created_total" []) ;;
          mret (200, PMessage "subscription created, check your email to confirm")
      | Err e => mret (error_response e)
      end)) as Hk by solve_noted.
    exact Hk.
Qed.

Lemma handleTokenAction_t_noted token action s m :
  noted (X := X) cfg bind i K (action token) ->
  noted cfg bind i K (handleTokenAction_t token action s m).
Proof. intros Ha. unfold handleTokenAction_t. solve_noted. Qed.

Lemma APIKeyAuth_t_told (p : Prog X (Z * Payload)) :
  (authorized (APIKey cfg) req = true -> told_prog p (knows Kf) (fun _ => knows K)) ->
  told_prog (APIKeyAuth_t (APIKey cfg) req p) (knows Kf) (fun _ => knows K).
Proof.
  unfold APIKeyAuth_t, authorized. intros Hp. destruct (is_empty (APIKey cfg)); [by apply Hp|].
  destruct (is_empty (r_APIKey req)); [apply told_noted, noted_ret|].
  destruct (String.eqb (r_APIKey req) (APIKey cfg)); [by apply Hp|apply told_noted, noted_ret].
Qed.

Lemma dispatch_route_t_told idx :
  told_prog (dispatch_route_t github sender (BaseURL cfg) (APIKey cfg) idx bind req)
    (knows Kf) (fun _ => knows K).
Proof.
  unfold dispatch_route_t. destruct (r_Route req) as [| | | |tok|tok| |] eqn:E;
    try (apply told_noted, noted_ret); apply APIKeyAuth_t_told; intros Ha.
  - by apply handler_Subscribe_t_told.
  - apply told_noted, handleTokenAction_t_noted, Confirm_t_noted; [done|].
    intros h d Hh. by eapply request_opened; [eapply K_request|..].
  - by apply told_noted, handleTokenAction_t_noted, Unsubscribe_t_noted.
  - apply told_noted. auto with go_db.
Qed.

Lemma BuildRouter_t_told :
  told_prog (BuildRouter_t github sender (BaseURL cfg) (APIKey cfg) true bind req)
    (knows Kf) (fun _ => knows K).
Proof.
  pose proof kept_Kf as HKf. unfold BuildRouter_t, RequestLogger_t, GinMiddleware_t.
  eapply secured_bind with (S := fun _ => knows Kf); [| |by intros e a _ [? _]].
  { destruct (is_empty (r_RequestID req)); [by apply uuid_noted|apply noted_ret]. }
  intros id. eapply secured_bind with (S := fun _ => knows K); [|intros res; apply noted_ret|done].
  eapply secured_bind with (S := fun _ => knows K); [apply dispatch_route_t_told| |done].
  intros res. cbv zeta.
  set (path := if is_empty (FullPath true (r_Route req)) then "unknown"
               else FullPath true (r_Route req)).
  assert (noted (X := X) cfg bind i K (if String.eqb path "/metrics" then mret res
    else atom (inc "http_requests_total" [r_Method req; path; pretty (fst res)]) ;;
         atom (observe "http_request_duration_seconds" [r_Method req; path]) ;; mret res)) as Hk
    by solve_noted.
  exact Hk.
Qed.
End Request.

(** ** The operations and the goroutines *)

Section Operations.
Context {X : Type} `{!Env X} `{!PgServerLaws env_server} `{!RedisLaws X}.
Variables (cfg : Config) (redis : bool) (transport : Transport).
Variable bind : string -> option SubscribeRequest.
Implicit Types (w : World X) (h : Story).
Local Abbreviation told_prog i := (secured (told cfg bind) (others_tell i) (tells i)).

(** Goroutine [i] runs [ops], and those from the [j]th on have drawn nothing. *)
Definition placed (i : nat) (ops : list Op) (j : nat) h (d : DB) : Prop :=
  arrived h !! i = Some ops /\ forall j', (j <= j')%nat -> drawn h !! (i, j') = None.

Lemma kept_placed i ops j : kept i (placed i ops j).
Proof.
  intros h h' d d' _ _ _ [Ha _] Hs [Hi Hj]. split; [by eapply prefix_lookup_Some|].
  intros j' Hle. rewrite Hs. by apply Hj.
Qed.

Lemma op_t_told i ops j op :
  ops !! j = Some op ->
  told_prog i (op_t (X := X) cfg redis transport bind op) (knows (placed i ops j))
    (fun _ => knows (placed i ops (S j))).
Proof.
  intros Hop. pose proof (kept_placed i ops (S j)) as HK.
  assert (forall h d, placed i ops j h d -> placed i ops (S j) h d /\ undrawn i j h d) as Hstart.
  { intros h d [Hi Hj]. split; [split; [done|]|by apply Hj]. intros j' Hle. apply Hj. lia. }
  eapply secured_weaken with (P := knows (fun h d => placed i ops (S j) h d /\ undrawn i j h d))
    (Q := fun _ => knows (placed i ops (S j))); [|intros a _; apply Hstart|done].
  destruct op as [req| | |body|]; unfold op_t;
    [|apply told_noted; first [by apply scan_t_noted|by apply drain_t_noted
        |by apply run_delivery_t_noted|by apply Sweep_t_noted] ..].
  eapply secured_bind with (S := fun _ => knows (placed i ops (S j)));
    [|intros resp; apply noted_ret|done].
  apply BuildRouter_t_told; [done| |].
  - intros h d x [Hi Hj]. split; [done|]. intros j' Hle. simpl.
    rewrite lookup_insert_ne; [by apply Hj|]. intros [= ->]. lia.
  - intros h d [Hi _]. by exists ops.
Qed.

Lemma goroutine_told i ops :
  told_prog i (goroutine (X := X) cfg redis transport bind ops) (knows (placed i ops 0))
    (fun _ _ => True).
Proof.
  unfold goroutine. set (body := fun op => try_t (op_t cfg redis transport bind op) ;; mret ()).
  enough (forall rest j, drop j ops = rest ->
    told_prog i (for_each_t body rest) (knows (placed i ops j)) (fun _ _ => True)) as H
    by by apply (H ops 0%nat).
  induction rest as [|op rest IH]; intros j Hd; simpl; [done|].
  assert (ops !! j = Some op) as Hop.
  { rewrite <- (Nat.add_0_r j), <- lookup_drop, Hd. done. }
  eapply secured_bind with (S := fun _ => knows (placed i ops (S j))); [| |done].
  - unfold body. eapply secured_bind with (S := fun _ => knows (placed i ops (S j)));
      [by apply secured_try, op_t_told|intros r; apply noted_ret|done].
  - intros []. apply IH. by rewrite <- Nat.add_1_r, <- drop_drop, Hd.
Qed.
End Operations.
