(* ===== verification/Courier.v ===== *)
(** * The notifier, statement by statement

    The handling of a delivery and of a call (Notifier.v) again, as programs in
    steps: one step is one call to Redis, to SMTP or to the broker, or one pause.
    The consumer of the source handles its deliveries one after the other; the
    gRPC server runs a goroutine per call beside it. Here each handling is a
    goroutine, so any number of them may overlap. *)

From S2P Require Import Prelude GoErrors Tables Env Logic Script Samples GoStrings Json Wire.
From S2P Require Import Notification Notifier Threads Stepwise Footprint.

Local Open Scope string_scope.
Local Open Scope Z_scope.

Section Courier.
Context {Y : Type} `{!Env Y}.
Local Abbreviation P := (Prog Y).
Variables (sender : emailSender Y) (dedup : deduper Y).

Fixpoint send_attempts_t (attempts : nat) (send : GoM Y unit) : P unit :=
  match attempts with
  | O => mret ()
  | S k =>
      r ← try_t (atom send);
      match r, k with
      | Ok _, _ => mret ()
      | Err e, O => throw_t e
      | Err e, S _ =>
          canceled ← atom (select_done_or_after consumer_backoff);
          if (canceled : bool) then throw_t (EPlain "context canceled")
          else send_attempts_t k send
      end
  end.

Definition dispatch_confirmation_t (req : ConfirmationRequest) : P unit :=
  sendErr ← try_t (send_attempts_t maxAttempts
                     (SendConfirmationEmail sender (cr_To req) (cr_ConfirmURL req)));
  if is_empty (cr_SagaID req) then
    match sendErr with
    | Err e => throw_t (EWrap "send confirmation" e)
    | Ok _ => mret ()
    end
  else
    let status := match sendErr with Ok _ => SagaStatusSent | Err _ => SagaStatusFailed end in
    replyErr ← try_t (atom (ReplyConfirmation (cr_SagaID req) status));
    match sendErr, replyErr with
    | Err e, Err _ =>
        throw_t (EWrap ("send confirmation failed and reply not delivered (saga " +:+
                        cr_SagaID req +:+ ")") e)
    | _, _ => mret ()
    end.

Definition dispatch_t (d : Delivery) : P unit :=
  if String.eqb (d_RoutingKey d) RoutingConfirm then
    match unmarshal (A := ConfirmationRequest) (d_Body d) with
    | Err e => throw_t (EWrap "decode confirmation" e)
    | Ok req => dispatch_confirmation_t req
    end
  else if String.eqb (d_RoutingKey d) RoutingRelease then
    match unmarshal (A := ReleaseRequest) (d_Body d) with
    | Err e => throw_t (EWrap "decode release" e)
    | Ok req =>
        atom (SendReleaseEmail sender (rr_To req) (rr_Repo req) (rr_Tag req)
                (rr_UnsubscribeURL req))
    end
  else throw_t (EPlain ("unknown routing key " +:+
                        String dquote (d_RoutingKey d +:+ String dquote ""))).

Definition replyAlreadySent_t (d : Delivery) : P unit :=
  if negb (String.eqb (d_RoutingKey d) RoutingConfirm) then mret () else
  match unmarshal (A := ConfirmationRequest) (d_Body d) with
  | Err _ => mret ()
  | Ok req =>
      if is_empty (cr_SagaID req) then mret ()
      else try_t (atom (ReplyConfirmation (cr_SagaID req) SagaStatusSent)) ;; mret ()
  end.

Definition check_seen_t (d : Delivery) : P bool :=
  if is_empty (d_MessageId d) then mret false
  else
    r ← try_t (atom (AlreadyProcessed dedup (d_MessageId d)));
    mret (match r with Ok seen => seen | Err _ => false end).

Definition handle_t (d : Delivery) : P unit :=
  seen ← check_seen_t d;
  if (seen : bool) then replyAlreadySent_t d
  else
    dispatch_t d ;;
    if is_empty (d_MessageId d) then mret ()
    else try_t (atom (MarkProcessed dedup (d_MessageId d))) ;; mret ().

(** The loop body of [Run]: the handling and its settlement. *)
Definition consume_t (d : Delivery) : P unit :=
  r ← try_t (handle_t d); atom (Stepwise.settle r).

Definition serve_SendConfirmation_t (req : SendConfirmationRequest) : P grpc_code :=
  if is_empty (req_Email req) || is_empty (req_Repo req) || is_empty (req_ConfirmUrl req)
  then mret codes_InvalidArgument
  else
    let messageID := confirmation_id (req_ConfirmUrl req) in
    seen ← try_t (atom (AlreadyProcessed dedup messageID));
    match seen with
    | Ok true => mret codes_OK
    | _ =>
        sent ← try_t (atom (SendConfirmationEmail sender (req_Email req) (req_ConfirmUrl req)));
        match sent with
        | Err _ => mret codes_Unavailable
        | Ok _ => try_t (atom (MarkProcessed dedup messageID)) ;; mret codes_OK
        end
    end.

(** ** Uninterrupted, they are the handlings of Notifier.v *)

#[export] Instance send_attempts_cuts n send :
  Cuts (send_attempts_t n send) (send_attempts n send).
Proof.
  induction n as [|n IH]; cbn [send_attempts_t send_attempts]; [apply _|].
  apply cuts_bind; [apply _|]. intros [a|e]; [apply _|]. destruct n; solve_cuts.
Qed.
#[export] Instance handle_cuts d : Cuts (handle_t d) (handle sender dedup d).
Proof.
  unfold handle_t, handle, check_seen_t, check_seen, replyAlreadySent_t, replyAlreadySent,
    dispatch_t, dispatch, dispatch_confirmation_t, dispatch_confirmation, sendWithRetry.
  solve_cuts.
Qed.
#[export] Instance consume_cuts d : Cuts (consume_t d) (consume sender dedup d).
Proof.
  intros w. unfold consume_t, mbind, prog_bind. rewrite denote_bind.
  rewrite (cuts_try _ _ (handle_cuts d)). unfold consume, try.
  by destruct (handle sender dedup d w) as [r w'].
Qed.
#[export] Instance serve_cuts req :
  Cuts (serve_SendConfirmation_t req) (serve_SendConfirmation sender dedup req).
Proof. unfold serve_SendConfirmation_t, serve_SendConfirmation. solve_cuts. Qed.
End Courier.

(** ** The effects of every step *)

Abbreviation made allow := (every (fun B (m : GoM _ B) => effects allow m)).

Ltac solve_made := solve_every ltac:(solve_effects).

Section Mails.
Context {Y : Type} `{!Env Y}.
Variable allow : Allow.
Variables (smtp : SMTPSender) (ttl : Z).

Lemma send_attempts_made n m : may_mail allow m -> made allow (send_attempts_t (Y := Y) n (SendMail m)).
Proof.
  intros Hm. pose proof (SendMail_effects (X := Y) allow m Hm).
  induction n as [|n IH]; cbn [send_attempts_t]; solve_made.
Qed.

Lemma consume_made d :
  may_settle allow -> (forall sagaID status, may_publish allow (reply_message sagaID status)) ->
  (forall m, delivery_mail smtp d m -> may_mail allow m) ->
  made allow (consume_t (SMTP (X := Y) smtp) (redisDeduper ttl) d).
Proof.
  intros Hs Hp Hm. pose proof (ReplyConfirmation_effects (X := Y) allow) as Hr.
  assert (forall id, effects allow (AlreadyProcessed (redisDeduper (X := Y) ttl) id)) as Hd
    by apply AlreadyProcessed_effects.
  assert (forall id, effects allow (MarkProcessed (redisDeduper (X := Y) ttl) id)) as Hk
    by apply MarkProcessed_effects.
  assert (made allow (dispatch_t (SMTP (X := Y) smtp) d)) as Hdis.
  { unfold dispatch_t. destruct (String.eqb (d_RoutingKey d) RoutingConfirm) eqn:E1.
    { apply String.eqb_eq in E1.
      destruct (unmarshal (A := ConfirmationRequest) (d_Body d)) as [req|e] eqn:Eu; [|solve_made].
      pose proof (send_attempts_made maxAttempts (confirmation_mail smtp (cr_To req) (cr_ConfirmURL req))
        (Hm _ (or_introl (conj E1 (ex_intro _ req (conj Eu eq_refl)))))).
      unfold dispatch_confirmation_t. cbn [SendConfirmationEmail SMTP]. solve_made. }
    destruct (String.eqb (d_RoutingKey d) RoutingRelease) eqn:E2; [|solve_made].
    apply String.eqb_eq in E2.
    destruct (unmarshal (A := ReleaseRequest) (d_Body d)) as [req|e] eqn:Eu; [|solve_made].
    apply every_atom, SendMail_effects, Hm. right. eauto. }
  unfold consume_t, handle_t, check_seen_t, replyAlreadySent_t. apply every_bind; [solve_made|].
  intros r. apply every_atom. intros w. apply rtc_once, eff_emit. by destruct r.
Qed.

Lemma serve_made r :
  may_mail allow (confirmation_mail smtp (req_Email r) (req_ConfirmUrl r)) ->
  made allow (serve_SendConfirmation_t (SMTP (X := Y) smtp) (redisDeduper ttl) r).
Proof.
  intros Hm. pose proof (SendMail_effects (X := Y) allow _ Hm).
  assert (forall id, effects allow (AlreadyProcessed (redisDeduper (X := Y) ttl) id)) as Hd
    by apply AlreadyProcessed_effects.
  assert (forall id, effects allow (MarkProcessed (redisDeduper (X := Y) ttl) id)) as Hk
    by apply MarkProcessed_effects.
  unfold serve_SendConfirmation_t. cbn [SendConfirmationEmail SMTP]. solve_made.
Qed.
End Mails.

(** ** A race *)

Section Race.
#[local] Existing Instance calm_env.

Definition race_smtp : SMTPSender := mkSMTPSender "mail" "25" "" "" "noreply@x".
Definition race_link : string := "http://localhost:8080/api/confirm/tok-1".

(** The confirmation of one token, by the broker and by gRPC. *)
Definition by_broker : Prog Script unit :=
  consume_t (SMTP race_smtp) (redisDeduper 60)
    (mkDelivery RoutingConfirm "confirm:tok-1"
       (marshal (mkConfirmationRequest sample_uuid "a@x.io" race_link))).
Definition by_grpc : Prog Script unit :=
  serve_SendConfirmation_t (SMTP race_smtp) (redisDeduper 60)
    (mkSendConfirmationRequest "a@x.io" "o/r" race_link) ;; mret ().

Definition mails_sent (c : Pool Script) : nat :=
  length (omap (fun ev => match ev with EvMail m true => Some m | _ => None end) (w_trace c.2)).

(** The same confirmation over both transports: one after the other it is mailed
    once; when both ask Redis before either has marked the message it is mailed
    twice, although Redis and SMTP never fail. *)
Theorem overlapping_transports_mail_twice :
  let c := ([by_broker; by_grpc], play empty_db calm) in
  mails_sent (play_turns (Run <$> app (replicate 5 0%nat) (replicate 5 1%nat)) c) = 1%nat /\
  mails_sent (play_turns (Run <$> [0; 1; 0; 1; 0; 0; 0; 1]%nat) c) = 2%nat.
Proof. split; vm_compute; reflexivity. Qed.
End Race.
