(* ===== verification/Cluster.v ===== *)
(** * The two processes together

    The monolith and the notifier as one system, joined by the broker and by the
    gRPC transport: what the monolith publishes, and only that, may be delivered
    to the notifier, at any time, in any order, any number of times or never
    (also a publish that was reported as refused); what it calls is served
    likewise. The replies the monolith receives are arbitrary. Each
    step is a whole operation; Mingle.v cuts them at their statements. The
    theorem is what the whole program promises to the outside: nobody gets a
    mail that was not asked for with the API key. *)

From S2P Require Import Prelude GoErrors Tables Env Logic Script Schema Samples Json Wire Metrics.
From S2P Require Import Notifier.
From S2P Require Import Spec SubStore SagaStore OutboxStore TrackStore Notification SagaMachine.
From S2P Require Import Orchestrator RepoSpec Email Service Gateway Scanner Handler Config.
From S2P Require Import ReplyConsumer Sweeper Relay Wiring Footprint Commands System Issue Ledger.

Local Open Scope string_scope.
Local Open Scope Z_scope.

(** ** The cluster *)

Record Cluster (X Y : Type) := mkCluster { monolith : World X; notifier : World Y }.
Arguments mkCluster {X Y}. Arguments monolith {X Y}. Arguments notifier {X Y}.

Section Cluster.
Context {X Y : Type} `{!Env X} `{!Env Y}.
Variables (cfg : Config) (redis : bool) (transport : Transport).
Variable bind : string -> option SubscribeRequest.
Variables (smtp : SMTPSender) (ttl : Z).
Implicit Types c : Cluster X Y.

(** [cluster_runs ops c c']: the processes went from [c] to [c'] while the
    monolith did [ops]. It over-approximates the broker, for what must hold in
    every run: a message may be delivered any number of times and at any later
    moment, also one whose publish was not confirmed or that was acked before
    (RabbitMQ redelivers only what was not acked). What can happen, in
    Completion.v and Recovery.v, is shown on runs that are written out instead,
    with one delivery of a message just published. *)
Inductive cluster_runs : list Op -> Cluster X Y -> Cluster X Y -> Prop :=
  | cl_start c : cluster_runs [] c c
  | cl_op op ops c c' : cluster_runs ops c c' ->
      cluster_runs (app ops [op]) c
        (mkCluster (run_op cfg redis transport bind op (monolith c')).2 (notifier c'))
  | cl_deliver p ok ops c c' : cluster_runs ops c c' ->
      EvPublish p ok ∈ w_trace (monolith c') ->
      cluster_runs ops c (mkCluster (monolith c')
        (consume (SMTP smtp) (redisDeduper ttl) (delivery_of p) (notifier c')).2)
  | cl_call r ok ops c c' : cluster_runs ops c c' ->
      EvGrpc r ok ∈ w_trace (monolith c') ->
      cluster_runs ops c (mkCluster (monolith c')
        (serve_SendConfirmation (SMTP smtp) (redisDeduper ttl) r (notifier c')).2)
  | cl_env x y ops c c' : cluster_runs ops c c' ->
      cluster_runs ops c (mkCluster (set_ext x (monolith c')) (set_ext y (notifier c'))).

End Cluster.

(** ** What was asked for *)

Section Asked.
Variable cfg : Config.

(** The ledger of a run: the tokens that were issued in it, and its operations. *)
Definition run_ledger (ops : list Op) (toks : list (string * Key)) : Ledger :=
  mkLedger (fun token k => (token, k) ∈ toks) (opened cfg ops).

Lemma run_ledger_app ops toks ops' toks' :
  extends (run_ledger ops toks) (run_ledger (app ops ops') (app toks toks')).
Proof. split; simpl; [set_solver|]. intros token. apply opened_mono. Qed.
End Asked.

Section Issues.
Variables (cfg : Config) (bind : string -> option SubscribeRequest).

(** The tokens that were issued, each for the pair of a subscribe request of the
    run that had the API key and a valid address; a request issues at most one. *)
Inductive issues : list Op -> list (string * Key) -> Prop :=
  | iss_none : issues [] []
  | iss_skip op ops toks : issues ops toks -> issues (app ops [op]) toks
  | iss_take req sr token ops toks :
      asks (APIKey cfg) bind req sr -> issues ops toks ->
      issues (app ops [OpRequest req]) (app toks [(token, (sr_Email sr, sr_Repo sr))]).

Lemma issues_valid ops toks token email repo :
  issues ops toks -> (token, (email, repo)) ∈ toks -> ValidateEmail email = true.
Proof.
  induction 1 as [|op ops toks Hi IH|req sr tok ops toks (_ & _ & _ & Hv) Hi IH]; [set_solver|done|].
  intros [Hin|Hin]%elem_of_app; [by apply IH|].
  apply list_elem_of_singleton in Hin. by injection Hin as -> -> ->.
Qed.
End Issues.

(** ** The invariant of the monolith *)

Lemma wp_leaves {X A : Type} `{!Env X} allow (m : GoM X A) Q (w : World X) :
  effects allow m -> wp m Q w -> wp m (fun r w' => Q r w' /\ leaves allow w w') w.
Proof. intros Hm HQ. apply wp_conj; [exact HQ|by apply effects_leaves]. Qed.

(** The operations that publish call nobody, and those that reply do neither. *)
Definition no_calls : Allow :=
  mkAllow False (fun _ => True) (fun _ => False) (fun _ => False) true.
Definition settles_only : Allow :=
  mkAllow True (fun _ => False) (fun _ => False) (fun _ => False) true.

Section Monolith.
Context {X : Type} `{!Env X} `{!PgServerLaws env_server} `{!RedisLaws X}.
Variables (cfg : Config) (redis : bool) (transport : Transport).
Variable bind : string -> option SubscribeRequest.
Implicit Types w : World X.
Implicit Types toks new : list (string * Key).

Record monolith_ok (ops : list Op) toks w : Prop := {
  mo_db : db_ok (w_db w);
  mo_tx : w_tx w = None;
  mo_posted : posted cfg (run_ledger cfg ops toks) w }.

(** One operation, from what it may do to the rows, the commands and the trace. *)
Lemma monolith_ok_step (L : Label -> Prop) allow op ops toks new w w' :
  let l := run_ledger cfg (app ops [op]) (app toks new) in
  monolith_ok ops toks w -> w_tx w' = None -> db_ok (w_db w') ->
  evolves L (abs (w_db w)) (abs (w_db w')) -> (forall lb, L lb -> issued_label l lb) ->
  (commands_in (issued_command cfg l) (w_db w) -> commands_in (issued_command cfg l) (w_db w')) ->
  leaves allow w w' -> (forall r, may_call allow r -> issued_call cfg l r) ->
  (forall p ok, may_publish allow p -> EvPublish p ok ∈ w_trace w' ->
     EvPublish p ok ∈ w_trace w \/ issued_message cfg l p) ->
  monolith_ok (app ops [op]) (app toks new) w'.
Proof.
  intros l [Hok Htx Hp] Htx' Hok' Hev HL Hcmd Hl Hcall Hpub. split; [done|done|].
  eapply (posted_step cfg L allow); [apply run_ledger_app|exact Hp|done..].
Qed.

(** The same when nothing is issued or published. *)
Lemma monolith_ok_quiet (L : Label -> Prop) allow op ops toks w w' :
  monolith_ok ops toks w -> w_tx w' = None -> db_ok (w_db w') ->
  evolves L (abs (w_db w)) (abs (w_db w')) ->
  (forall l, L l -> issued_label (run_ledger cfg (app ops [op]) toks) l) ->
  (forall C : Command -> Prop, commands_in C (w_db w) -> commands_in C (w_db w')) ->
  leaves allow w w' -> (forall r, ~ may_call allow r) -> (forall p, ~ may_publish allow p) ->
  monolith_ok (app ops [op]) toks w'.
Proof.
  intros Hw Htx Hok Hev HL Hc Hl Hcall Hpub. rewrite <- (app_nil_r toks).
  eapply (monolith_ok_step L allow op ops toks []); try done.
  - by rewrite app_nil_r.
  - apply Hc.
  - intros r H. by apply Hcall in H.
  - intros p ok H. by apply Hpub in H.
Qed.

Lemma monolith_ok_request req ops toks w :
  monolith_ok ops toks w ->
  wp (run_request cfg redis transport bind req) (fun _ w' => exists new,
    monolith_ok (app ops [OpRequest req]) (app toks new) w' /\
    (new = [] \/ exists sr token, asks (APIKey cfg) bind req sr /\
       new = [(token, (sr_Email sr, sr_Repo sr))])) w.
Proof.
  intros Hw. pose proof (mo_db _ _ _ Hw) as Hok. pose proof (mo_tx _ _ _ Hw) as Htx.
  eapply wp_mono; [apply wp_conj; [by apply run_request_safe|by apply run_request_issues]|].
  intros r w' [(Htx' & Hok' & _ & _) [(sr & token & Ha & [Hr Hc Hl])|[Hr Hc Hl]]].
  - exists [(token, (sr_Email sr, sr_Repo sr))]. split; [|right; eauto].
    eapply (monolith_ok_step _ _ (OpRequest req)); [done|done|done|exact Hr| |apply Hc|exact Hl|..].
    + intros l [->|[->| ->]]; simpl; set_solver.
    + intros c Hcmd. exists token, (sr_Email sr), (sr_Repo sr). split; [set_solver|done].
    + intros r' ->. exists token, (sr_Email sr), (sr_Repo sr). split; [set_solver|done].
    + done.
  - exists []. split; [|by left]. rewrite app_nil_r.
    eapply (monolith_ok_quiet _ _ (OpRequest req)); [done|done|done|exact Hr| |exact Hc|exact Hl|auto|auto].
    intros l [Hne [Ha Hl']]. destruct (r_Route req) eqn:E, l; try done; simpl.
    subst. exists req. split; [set_solver|done].
Qed.

(** A release message of a scan is for a subscription that receives. *)
Lemma news_issued l w d' p :
  db_ok (w_db w) -> posted cfg l w -> news_of (BaseURL cfg) (fun _ _ => True) (w_db w) d' p ->
  issued_message cfg l p.
Proof.
  intros Hok Hp (s & tag & Hs & Hc & _ & _ & _ & _ & ->). right.
  destruct (issued_receives l (w_db w) s) as [Hin Ho]; [done|apply Hp|done..|].
  exists tag, (mkSubscriber (sub_ID s) (sub_Email s) (sub_Token s)), (sub_Repo s). done.
Qed.

Lemma monolith_ok_scan ops toks w :
  monolith_ok ops toks w ->
  wp (run_scan cfg redis) (fun _ w' => monolith_ok (app ops [OpScan]) toks w') w.
Proof.
  intros Hw. pose proof (mo_db _ _ _ Hw) as Hok. pose proof (mo_tx _ _ _ Hw) as Htx.
  eapply wp_mono.
  { apply (wp_leaves no_calls); [by apply run_scan_effects|].
    by apply (scan_result _ (fun _ _ => True)); [apply run_checker_spec|..]. }
  intros r w' [(_ & Htx' & Hok' & Hs & Ho & _ & news & Hp & Hnews) Hl].
  rewrite <- (app_nil_r toks).
  eapply (monolith_ok_step (fun _ => False) _ OpScan); try done.
  - rewrite (abs_same _ _ Hs). apply evolves_refl.
  - apply commands_same, Ho.
  - intros p ok _ Hin. apply elem_of_publishes in Hin. rewrite Hp in Hin.
    apply elem_of_app in Hin as [Hin|Hin]; [left; by apply elem_of_publishes|right].
    eapply issued_message_mono; [apply run_ledger_app|].
    eapply news_issued; [exact Hok|apply Hw|by eapply Hnews].
Qed.

Lemma monolith_ok_drain ops toks w :
  monolith_ok ops toks w ->
  wp (drain Publish) (fun _ w' => monolith_ok (app ops [OpDrain]) toks w') w.
Proof.
  intros Hw. pose proof (mo_db _ _ _ Hw) as Hok. pose proof (mo_tx _ _ _ Hw) as Htx.
  apply (wp_keeps db_ok); [apply drain_keeps|done|done|]. eapply wp_mono.
  { apply (wp_leaves no_calls); [by apply drain_effects|apply drain_result]. }
  intros r w' [(_ & msgs & Hmsgs & sent & rest & Heq & Htr & Hmark & Htx' & Hs & _) Hl] Hok'.
  assert (forall m, m ∈ msgs -> m ∈ outbox (w_db w)) as Hin.
  { intros m Hm. destruct Hmsgs as [->| ->]; [set_solver|].
    by apply unpublished_rows_elem in Hm as [? _]. }
  rewrite <- (app_nil_r toks).
  eapply (monolith_ok_step (fun _ => False) _ OpDrain); try done; [congruence|..].
  - rewrite (abs_same _ _ Hs). apply evolves_refl.
  - intros HC m Hm. destruct (Forall2_elem_r _ _ _ _ Hmark Hm) as (m0 & Hm0 & H).
    specialize (HC m0 Hm0). by destruct H as [->|(t & s & -> & _)].
  - intros p ok _ Hp. rewrite Htr in Hp. apply elem_of_app in Hp as [Hp|Hp]; [by left|right; left].
    assert (exists m, m ∈ msgs /\ p = message_of m) as (m & Hm & ->).
    { subst msgs. unfold batch_events in Hp. apply elem_of_app in Hp as [Hp|Hp].
      - apply list_elem_of_fmap in Hp as (m & [= -> ->] & Hm). exists m. set_solver.
      - destruct rest as [|m rest]; [set_solver|]. apply list_elem_of_singleton in Hp.
        injection Hp as -> ->. exists m. set_solver. }
    exists (ob_RoutingKey m), (ob_MessageID m), (ob_Payload m). split; [|done].
    eapply issued_command_mono; [apply run_ledger_app|].
    by apply (po_commands _ _ _ (mo_posted _ _ _ Hw)), Hin.
Qed.

Lemma run_delivery_steady P `{!Steady P} body w :
  w_tx w = None -> P (w_db w) -> P (w_db (run_delivery body w).2).
Proof.
  intros Htx HP. pose proof (keeps_db _ _ w (retry_reply_steady (X := X) P 3 body) Htx HP) as H.
  unfold run_delivery, handleWithRetry. by destruct (retry_reply 3 body w) as [r w'].
Qed.

(** A reply or a sweep: what [op_safe] says of the rows, and no command, message
    or call. *)
Lemma monolith_ok_fails op (m : GoM X unit) ops toks w :
  op = OpSweep \/ (exists body, op = OpReply body) ->
  m = run_op cfg redis transport bind op ->
  monolith_ok ops toks w ->
  (forall C : Command -> Prop, commands_in C (w_db w) -> commands_in C (w_db (m w).2)) ->
  effects settles_only m -> monolith_ok (app ops [op]) toks (m w).2.
Proof.
  intros Hop -> Hw Hc He. pose proof (mo_db _ _ _ Hw) as Hok. pose proof (mo_tx _ _ _ Hw) as Htx.
  destruct (run_op_safe cfg redis transport bind op w Hok Htx) as (Htx' & Hok' & _ & Hev).
  eapply (monolith_ok_quiet _ settles_only op); [done|done|done|exact Hev| |exact Hc| |auto|auto].
  - destruct Hop as [->|(body & ->)]; intros l (k & ->); done.
  - by apply effects_leaves.
Qed.

Lemma monolith_ok_op op ops toks w :
  monolith_ok ops toks w ->
  exists new, monolith_ok (app ops [op]) (app toks new) (run_op cfg redis transport bind op w).2 /\
    (new = [] \/ exists req sr token, op = OpRequest req /\ asks (APIKey cfg) bind req sr /\
       new = [(token, (sr_Email sr, sr_Repo sr))]).
Proof.
  intros Hw. pose proof (mo_tx _ _ _ Hw) as Htx.
  destruct op as [req| | |body|].
  - pose proof (monolith_ok_request req ops toks w Hw) as H. unfold wp in H.
    simpl run_op. unfold mbind, gom_bind.
    destruct (run_request cfg redis transport bind req w) as [[res|e] w']; simpl in *;
      destruct H as (new & Hw' & Hnew); exists new; (split; [exact Hw'|]);
      (destruct Hnew as [->|(sr & token & Ha & ->)]; [by left|right; by exists req, sr, token]).
  - exists []. rewrite app_nil_r. split; [|by left]. by apply monolith_ok_scan.
  - exists []. rewrite app_nil_r. split; [|by left]. by apply monolith_ok_drain.
  - exists []. rewrite app_nil_r. split; [|by left].
    apply (monolith_ok_fails (OpReply body)); try done; [right; by exists body| |].
    + intros C. by apply (run_delivery_steady (commands_in C)).
    + by apply run_delivery_effects.
  - exists []. rewrite app_nil_r. split; [|by left].
    apply (monolith_ok_fails OpSweep); try done; [by left| |].
    + intros C HC. by apply (keeps_db _ _ w (Sweep_steady (X := X) (commands_in C) (stale_after cfg))).
    + apply Sweep_effects.
Qed.
End Monolith.

(** ** The property of the whole program *)

Section Properties.
Context {X Y : Type} `{!Env X} `{!Env Y}.
Context `{!PgServerLaws (env_server (X := X))} `{!PgJsonLaws (env_server (X := X))}.
Context `{!RedisLaws X}.
Variables (cfg : Config) (redis : bool) (transport : Transport).
Variable bind : string -> option SubscribeRequest.
Variables (smtp : SMTPSender) (ttl : Z).

Local Abbreviation runs := (cluster_runs (X := X) (Y := Y) cfg redis transport bind smtp ttl).

(** What holds all along a run. *)
Definition cluster_ok (ops : list Op) (c : Cluster X Y) : Prop :=
  exists toks, issues cfg bind ops toks /\ monolith_ok cfg ops toks (monolith c) /\
    forall m ok, EvMail m ok ∈ w_trace (notifier c) -> solicited cfg smtp (run_ledger cfg ops toks) m.

(** A handling by the notifier adds only the mails that are allowed. *)
Lemma notifier_step {A} allow ops toks (m : GoM Y A) w :
  effects allow m -> (forall ml, may_mail allow ml -> solicited cfg smtp (run_ledger cfg ops toks) ml) ->
  (forall ml ok, EvMail ml ok ∈ w_trace w -> solicited cfg smtp (run_ledger cfg ops toks) ml) ->
  forall ml ok, EvMail ml ok ∈ w_trace (m w).2 -> solicited cfg smtp (run_ledger cfg ops toks) ml.
Proof.
  intros He Hm Hw ml ok Hin.
  destruct (leaves_elem allow w (m w).2 _ (effects_leaves allow m w He) Hin); eauto.
Qed.

Record cluster_start (c : Cluster X Y) : Prop := {
  cs_db : @db_ok (env_server (X := X)) (w_db (monolith c));
  cs_tx : w_tx (monolith c) = None;
  cs_rows : subscriptions (w_db (monolith c)) = [] /\ outbox (w_db (monolith c)) = [];
  cs_trace : w_trace (monolith c) = [] /\ w_trace (notifier c) = [] }.

Lemma cluster_runs_ok ops c c' : runs ops c c' -> cluster_start c -> cluster_ok ops c'.
Proof.
  induction 1 as [c|op ops c c' Hrun IH|p ok ops c c' Hrun IH Hp|r ok ops c c' Hrun IH Hr
                  |x y ops c c' Hrun IH]; intros Hc.
  - destruct Hc as [Hok Htx [Hs Ho] [Ht1 Ht2]]. exists []. split; [constructor|].
    split; [by split; [..|apply posted_start]|]. rewrite Ht2. set_solver.
  - destruct (IH Hc) as (toks & Hi & Hw & Hm).
    destruct (monolith_ok_op cfg redis transport bind op ops toks _ Hw) as (new & Hw' & Hnew).
    exists (app toks new). split; [|split; [exact Hw'|]].
    + destruct Hnew as [->|(req & sr & token & -> & Ha & ->)]; [|by apply iss_take].
      rewrite app_nil_r. by apply iss_skip.
    + intros m ok Hin. by eapply solicited_mono, Hm; [apply run_ledger_app|].
  - destruct (IH Hc) as (toks & Hi & Hw & Hm). exists toks. split; [done|]. split; [done|].
    eapply (notifier_step (mkAllow True (fun _ => True) (fun _ => True)
      (delivery_mail smtp (delivery_of p)) true)); [by apply consume_effects| |exact Hm].
    intros m Hmail. eapply delivery_solicited; [|by eapply (po_messages _ _ _ (mo_posted _ _ _ _ Hw))|exact Hmail].
    intros token email repo. by eapply issues_valid.
  - destruct (IH Hc) as (toks & Hi & Hw & Hm). exists toks. split; [done|]. split; [done|].
    eapply (notifier_step (mkAllow True (fun _ => True) (fun _ => True)
      (fun m => m = confirmation_mail smtp (req_Email r) (req_ConfirmUrl r)) true));
      [by apply serve_SendConfirmation_effects| |exact Hm].
    intros m ->. by eapply call_solicited, (po_calls _ _ _ (mo_posted _ _ _ _ Hw)).
  - destruct (IH Hc) as (toks & Hi & [H1 H2 [H3 H4 H5 H6]] & Hm). by exists toks.
Qed.

(** Nobody gets a mail that was not asked for. In any run of the two processes
    from empty tables, with either transport, whatever fails, whatever messages
    are lost, delayed, reordered or delivered again and whatever replies come
    back: the requests of the run issue tokens, each at most one, for a pair
    whose subscription was asked for with the API key and a valid address; and
    every mail the notifier hands to the relay goes to the address of an issued
    token, and either confirms that token, or announces a release of the
    repository the token is for after the link of the token was opened with the
    API key. *)
Theorem cluster_mails_solicited ops c c' :
  cluster_start c -> runs ops c c' ->
  exists toks, issues cfg bind ops toks /\
    forall m ok, EvMail m ok ∈ w_trace (notifier c') -> solicited cfg smtp (run_ledger cfg ops toks) m.
Proof.
  intros Hc Hrun. destruct (cluster_runs_ok ops c c' Hrun Hc) as (toks & Hi & _ & Hm).
  by exists toks.
Qed.
End Properties.

(** ** A worked run *)

#[export] Instance script_json_laws : PgJsonLaws script_server.
Proof. split. intros text body ms [= <-] _ H. by exists ms. Qed.

Section Witness.
#[local] Existing Instance calm_env.
#[local] Existing Instance script_server_laws.
#[local] Instance calm_redis_laws : @RedisLaws Script calm_env := script_redis false.

Definition sample_smtp : SMTPSender := mkSMTPSender "mail" "25" "" "" "noreply@x".

Local Abbreviation cruns :=
  (cluster_runs (sample_config "") false TransportBroker sample_bind sample_smtp 60).

(** One operation of the monolith, and the delivery of its last message. *)
Definition do_op (op : Op) (c : Cluster Script Script) : Cluster Script Script :=
  mkCluster (run_op (sample_config "") false TransportBroker sample_bind op (monolith c)).2
    (notifier c).
Definition deliver_last (c : Cluster Script Script) : Cluster Script Script :=
  match last (publishes (w_trace (monolith c))) with
  | Some (p, _) => mkCluster (monolith c)
      (consume (SMTP sample_smtp) (redisDeduper 60) (delivery_of p) (notifier c)).2
  | None => c
  end.

Lemma deliver_last_runs ops c c' : cruns ops c c' -> cruns ops c (deliver_last c').
Proof.
  intros Hrun. unfold deliver_last. destruct (last _) as [[p ok]|] eqn:E; [|done].
  apply last_Some_elem_of, elem_of_publishes in E. by eapply cl_deliver.
Qed.

(** A subscription, its confirmation mail, the link, and a release. *)
Definition subscribe_new : Op :=
  OpRequest (mkRequest "POST" RSubscribe "" "r1" "" "new@example.com").
Definition first_light : Cluster Script Script :=
  mkCluster (play empty_db (mkScript [] 100 7 [] ∅ []
    [inr (mkHttpResponse 200 "{}"); inr (mkHttpResponse 200 (Marshal [("tag_name", "v2")]))]
    [] [] [])) (play empty_db calm).
Definition confirmed_cluster : Cluster Script Script :=
  do_op (OpRequest (get (RConfirm (script_uuid 7))))
    (deliver_last (do_op OpDrain (do_op subscribe_new first_light))).
Definition nightfall : Cluster Script Script := deliver_last (do_op OpScan confirmed_cluster).

Lemma nightfall_runs :
  cruns [subscribe_new; OpDrain; OpRequest (get (RConfirm (script_uuid 7))); OpScan]
    first_light nightfall.
Proof.
  apply deliver_last_runs, (cl_op _ _ _ _ _ _ OpScan [subscribe_new; OpDrain; _]).
  apply (cl_op _ _ _ _ _ _ _ [subscribe_new; OpDrain]), deliver_last_runs.
  apply (cl_op _ _ _ _ _ _ OpDrain [subscribe_new]), (cl_op _ _ _ _ _ _ subscribe_new []).
  apply cl_start.
Qed.

Definition recipients (tr : list Event) : list (list string) :=
  omap (fun ev => match ev with EvMail m _ => Some (smtp_To m) | _ => None end) tr.

Lemma cluster_mails_solicited_witness :
  recipients (w_trace (notifier nightfall)) = [["new@example.com"]; ["new@example.com"]] /\
  exists toks, issues (sample_config "") sample_bind
      [subscribe_new; OpDrain; OpRequest (get (RConfirm (script_uuid 7))); OpScan] toks /\
    forall m ok, EvMail m ok ∈ w_trace (notifier nightfall) -> solicited (sample_config "")
      sample_smtp (run_ledger (sample_config "") [subscribe_new; OpDrain;
        OpRequest (get (RConfirm (script_uuid 7))); OpScan] toks) m.
Proof.
  split; [vm_compute; reflexivity|].
  refine (cluster_mails_solicited (Env0 := calm_env) (Env1 := calm_env) (sample_config "") false
    TransportBroker sample_bind sample_smtp 60 _ first_light nightfall _ nightfall_runs).
  by split; [apply empty_db_ok|..].
Defined.
End Witness.
