(* ===== verification/Mingle.v ===== *)
(** * The two processes, statement by statement

    The monolith and the notifier as two pools of goroutines, joined by the
    broker and by the gRPC transport. A request that arrives, or a worker, is a
    goroutine of the monolith (net/http serves every request in one of its own);
    a delivery or a call is a goroutine of the notifier. All of them interleave
    at every statement, on either side, and any may be killed between two. What
    the monolith publishes or calls may be delivered at any time, any number of
    times, or never. The theorem is that of Cluster.v, without the assumption
    that operations run one after the other. *)

From S2P Require Import Prelude GoErrors Tables Env Logic Script Schema Samples Json Wire Metrics.
From S2P Require Import Notifier.
From S2P Require Import Spec SubStore SagaStore OutboxStore TrackStore Notification SagaMachine.
From S2P Require Import Orchestrator RepoSpec Email Service Gateway Scanner Handler Config.
From S2P Require Import ReplyConsumer Sweeper Relay Wiring Footprint Commands System Growth.
From S2P Require Import Threads Stepwise Interleave Issue Ledger History Provenance Courier Cluster.

Local Open Scope string_scope.
Local Open Scope Z_scope.

(** ** The pools and their messages *)

Record City (X Y : Type) := mkCity {
  spawned : list (list Op);   (* the goroutines of the monolith, by their operations *)
  mono : Pool X;
  noti : Pool Y }.
Arguments mkCity {X Y}. Arguments spawned {X Y}. Arguments mono {X Y}. Arguments noti {X Y}.

Inductive Move (X Y : Type) :=
  | Arrive (ops : list Op)    (* a goroutine of the monolith starts *)
  | Mono (t : Turn X)         (* a turn of the monolith *)
  | Deliver (n : nat)         (* the [n]th message it published is delivered *)
  | Serve (n : nat)           (* the [n]th call it made is served *)
  | Noti (t : Turn Y).        (* a turn of the notifier *)
Arguments Arrive {X Y}. Arguments Mono {X Y}. Arguments Deliver {X Y}.
Arguments Serve {X Y}. Arguments Noti {X Y}.

Definition calls (tr : list Event) : list (SendConfirmationRequest * bool) :=
  omap (fun ev => match ev with EvGrpc r ok => Some (r, ok) | _ => None end) tr.

Lemma elem_of_calls r ok tr : (r, ok) ∈ calls tr -> EvGrpc r ok ∈ tr.
Proof.
  unfold calls. rewrite list_elem_of_omap. intros (ev & Hev & H).
  destruct ev; try done. by injection H as -> ->.
Qed.

Section City.
Context {X Y : Type} `{!Env X} `{!Env Y}.
Variables (cfg : Config) (redis : bool) (transport : Transport).
Variable bind : string -> option SubscribeRequest.
Variables (smtp : SMTPSender) (ttl : Z).
Implicit Types c : City X Y.

(** A goroutine of the notifier. *)
Definition handling (p : Publishing) : Prog Y unit :=
  consume_t (SMTP smtp) (redisDeduper ttl) (delivery_of p).
Definition serving (r : SendConfirmationRequest) : Prog Y unit :=
  serve_SendConfirmation_t (SMTP smtp) (redisDeduper ttl) r ;; mret ().

Definition start {Z : Type} (p : Prog Z unit) (c : Pool Z) : Pool Z := (app c.1 [p], c.2).

Definition move (m : Move X Y) c : City X Y :=
  match m with
  | Arrive ops =>
      mkCity (app (spawned c) [ops]) (start (goroutine cfg redis transport bind ops) (mono c)) (noti c)
  | Mono t => mkCity (spawned c) (turn t (mono c)) (noti c)
  | Deliver n =>
      match publishes (w_trace (mono c).2) !! n with
      | Some (p, _) => mkCity (spawned c) (mono c) (start (handling p) (noti c))
      | None => c
      end
  | Serve n =>
      match calls (w_trace (mono c).2) !! n with
      | Some (r, _) => mkCity (spawned c) (mono c) (start (serving r) (noti c))
      | None => c
      end
  | Noti t => mkCity (spawned c) (mono c) (turn t (noti c))
  end.

Definition moves (ms : list (Move X Y)) c : City X Y := fold_left (fun c m => move m c) ms c.

(** Nothing runs, and nothing was sent or stored. *)
Record city_start c : Prop := {
  ct_idle : spawned c = [] /\ (mono c).1 = [] /\ (noti c).1 = [];
  ct_db : settled (mono c).2;
  ct_rows : subscriptions (w_db (mono c).2) = [] /\ outbox (w_db (mono c).2) = [];
  ct_trace : w_trace (mono c).2 = [] /\ w_trace (noti c).2 = [] }.
End City.

(** ** The notifier sends what it is asked for *)

Section NotifierPool.
Context {Y : Type} `{!Env Y}.
Variables (cfg : Config) (smtp : SMTPSender).

(** Every goroutine of the notifier sends only mails of the ledger. *)
Definition faithful (l : Ledger) (p : Prog Y unit) : Prop :=
  exists allow, made allow p /\ forall m, may_mail allow m -> solicited cfg smtp l m.

Definition notifier_ok (l : Ledger) (c : Pool Y) : Prop :=
  (forall p, p ∈ c.1 -> faithful l p) /\
  forall m ok, EvMail m ok ∈ w_trace c.2 -> solicited cfg smtp l m.

Lemma notifier_ok_mono l l' c : extends l l' -> notifier_ok l c -> notifier_ok l' c.
Proof.
  intros Hx [Hp Hm]. split.
  - intros p (allow & Hmade & Hs)%Hp. exists allow. split; [done|].
    intros m Hmail. by eapply solicited_mono, Hs.
  - intros m ok Hin. by eapply solicited_mono, Hm.
Qed.

Lemma notifier_ok_start l p c : faithful l p -> notifier_ok l c -> notifier_ok l (start p c).
Proof.
  intros Hp [Hps Hm]. split; [|done]. simpl. intros q [Hq|Hq]%elem_of_app; [by apply Hps|].
  by apply list_elem_of_singleton in Hq as ->.
Qed.

Lemma notifier_ok_insert l i p ps w :
  faithful l p -> notifier_ok l (ps, w) -> notifier_ok l (<[i := p]> ps, w).
Proof.
  intros Hp [Hps Hm]. split; [|done]. simpl. intros q (j & Hj)%list_elem_of_lookup_1.
  apply list_lookup_insert_Some in Hj as [(_ & <- & _)|[_ Hj]]; [done|].
  apply Hps. by eapply list_elem_of_lookup_2.
Qed.

Lemma notifier_ok_turn l t c : notifier_ok l c -> notifier_ok l (turn t c).
Proof.
  destruct c as [ps w]. intros Hc. destruct t as [i|i|x]; unfold turn; simpl; [|
    apply notifier_ok_insert; [by exists silent|done]|by destruct Hc].
  destruct (ps !! i) as [p|] eqn:Ei; [|done].
  destruct Hc as [Hps Hm]. destruct (Hps p) as (allow & Hmade & Hs);
    [by eapply list_elem_of_lookup_2|].
  destruct p as [r|B m k]; simpl; [apply notifier_ok_insert; [by exists allow|by split]|].
  destruct Hmade as [He Hk]. apply notifier_ok_insert; [by exists allow|]. split; [done|].
  simpl. intros ml ok Hin.
  destruct (leaves_elem allow w (m w).2 _ (effects_leaves allow m w He) Hin); eauto.
Qed.
End NotifierPool.

(** ** The property *)

Section Properties.
Context {X Y : Type} `{!Env X} `{!Env Y}.
Context `{!PgServerLaws (env_server (X := X))} `{!PgJsonLaws (env_server (X := X))}.
Context `{!RedisLaws X}.
Variables (cfg : Config) (redis : bool) (transport : Transport).
Variable bind : string -> option SubscribeRequest.
Variables (smtp : SMTPSender) (ttl : Z).
Implicit Types (c : City X Y) (h : Story).
Local Abbreviation ledger := (story_ledger cfg).
Local Abbreviation move := (move cfg redis transport bind smtp ttl).
Local Abbreviation moves := (moves cfg redis transport bind smtp ttl).

Definition city_ok h c : Prop :=
  arrived h = spawned c /\ length (mono c).1 = length (spawned c) /\
  pool_ok (told cfg bind) others_tell tells (mono c).1 (h, (mono c).2) /\
  notifier_ok cfg smtp (ledger h) (noti c).

Lemma city_starts c : city_start c -> city_ok (mkStory [] ∅) c.
Proof.
  intros [(Hs & Hp & Hq) Hdb [Hr Ho] [Ht1 Ht2]]. unfold city_ok. rewrite Hs, Hp.
  split; [done|]. split; [done|]. split.
  - split; [|by intros i p Hi]. split; [done|]. split; [by apply posted_start|].
    intros i j token k Hd. by destruct (lookup_empty_Some _ _ Hd).
  - split; [rewrite Hq; intros p Hin; by apply elem_of_nil in Hin|].
    rewrite Ht2. intros m ok Hin. by apply elem_of_nil in Hin.
Qed.

Lemma city_arrives ops h c :
  city_ok h c -> city_ok (mkStory (app (arrived h) [ops]) (drawn h)) (move (Arrive ops) c).
Proof.
  intros (Ha & Hlen & [Hj Hps] & Hn).
  set (h' := mkStory (app (arrived h) [ops]) (drawn h)).
  assert (continues h h') as Hc by (split; [by apply prefix_app_r|done]).
  assert (told cfg bind (h', (mono c).2)) as Ht.
  { destruct Hj as (Hw & Hp & Hd). split; [done|]. split; [|by apply drawn_ok_arrive].
    eapply posted_mono; [by apply story_ledger_mono|exact Hp]. }
  split; [by simpl; rewrite Ha|]. split; [simpl; rewrite !length_app; simpl; lia|]. split.
  - apply (pool_ok_spawn _ _ _ _ _ (h, (mono c).2)); [by split|done|by intros i; split_and!|].
    exists (knows (placed (length (mono c).1) ops 0)).
    split; [apply kept_stable, kept_placed|]. split; [|by apply goroutine_told].
    split.
    + simpl. rewrite Hlen, <- Ha. by apply list_lookup_middle.
    + intros j _. simpl. destruct (drawn h !! (length (mono c).1, j)) as [[token k]|] eqn:E; [|done].
      destruct Hj as (_ & _ & Hd). destruct (Hd _ _ _ _ E) as (ops' & _ & _ & Hi & _).
      apply lookup_lt_Some in Hi. simpl in Hi. rewrite Ha in Hi. lia.
  - eapply notifier_ok_mono; [by apply story_ledger_mono|exact Hn].
Qed.

Lemma city_turns t h c : city_ok h c -> exists h', city_ok h' (move (Mono t) c).
Proof.
  intros (Ha & Hlen & Hp & Hn).
  assert (forall i j (a b : Story * World X), i <> j -> told cfg bind a -> told cfg bind b ->
    tells j a b -> others_tell i a b) as Ho.
  { intros i j a b Hij _ _ (Hg & Hc & _ & Hs). split; [done|]. split; [done|by apply Hs]. }
  destruct (secured_turn (told cfg bind) others_tell tells (fun x a => (a.1, set_ext x a.2)) Ho
    ltac:(done)) with (t := t) (ps := (mono c).1) (a := (h, (mono c).2)) as ([h' w'] & Hv & Hp' & Ht).
  - intros x [h0 w] (Hw & Hpo & Hd). split; [done|]. split; [by apply posted_outside|done].
  - by intros i x [h0 w].
  - done.
  - assert (turn t (mono c) = turn t ((mono c).1, (mono c).2)) as Heq by by destruct (mono c).
    assert (continues h h' /\ arrived h' = arrived h) as [Hc Harr].
    { destruct t as [i|i|x]; [|by injection Ht as -> _ ..].
      destruct Ht as [Ht|(_ & _ & ? & ? & _)]; [by injection Ht as -> _|done]. }
    exists h'. unfold move. split; [by rewrite Harr|]. split; [|split].
    + cbn [spawned mono]. rewrite <- Hlen, Heq. destruct t as [i|i|x]; simpl; [|by rewrite length_insert|done].
      destruct ((mono c).1 !! i); simpl; [by rewrite length_insert|done].
    + cbn [mono]. rewrite Heq. change (w' = (turn t ((mono c).1, (mono c).2)).2) in Hv.
      by rewrite <- Hv.
    + eapply notifier_ok_mono; [by apply story_ledger_mono|exact Hn].
Qed.

Lemma city_moves m h c : city_ok h c -> exists h', city_ok h' (move m c).
Proof.
  destruct m as [ops|t|n|n|t]; intros Hc.
  - eexists. by apply city_arrives.
  - by apply (city_turns t h).
  - exists h. unfold move, Mingle.move. destruct (_ !! n) as [[p ok]|] eqn:E; [|done].
    destruct Hc as (Ha & Hlen & Hp & Hn). split; [done|]. split; [done|]. split; [done|].
    apply notifier_ok_start; [|done].
    exists (mkAllow True (fun _ => True) (fun _ => True) (delivery_mail smtp (delivery_of p)) true).
    split; [by apply consume_made|]. destruct Hp as [(_ & Hpost & Hd) _].
    intros m Hm. eapply delivery_solicited; [|eapply (po_messages _ _ _ Hpost)|exact Hm].
    + intros token email repo. by eapply drawn_ok_valid.
    + eapply elem_of_publishes, list_elem_of_lookup_2, E.
  - exists h. unfold move, Mingle.move. destruct (_ !! n) as [[r ok]|] eqn:E; [|done].
    destruct Hc as (Ha & Hlen & Hp & Hn). split; [done|]. split; [done|]. split; [done|].
    apply notifier_ok_start; [|done].
    exists (mkAllow True (fun _ => True) (fun _ => True)
      (fun m => m = confirmation_mail smtp (req_Email r) (req_ConfirmUrl r)) true).
    split; [by apply every_bind; [apply serve_made|]|]. destruct Hp as [(_ & Hpost & _) _].
    intros m ->. eapply call_solicited, (po_calls _ _ _ Hpost).
    by eapply elem_of_calls, list_elem_of_lookup_2.
  - exists h. destruct Hc as (Ha & Hlen & Hp & Hn). split; [done|]. split; [done|].
    split; [done|]. by apply notifier_ok_turn.
Qed.

(** C1: Nobody gets a mail that was not asked for, under full concurrency. Any
    number of goroutines of the two processes, started at any time, interleave at
    every statement and are killed between any two; whatever fails, whatever
    messages are lost, delayed, reordered or delivered again, whatever replies
    come back, with either transport: there is a record of the tokens that the
    requests drew, at most one each, each by a subscribe request that had arrived
    with the API key and a valid address, for the pair it names; and every mail
    the notifier hands to the relay goes to the address of such a token, and
    either confirms that token, or announces a release of the repository the
    token is for after a request had arrived that opens the link of the token
    with the API key. *)
Theorem mingled_mails_solicited ms c :
  city_start c ->
  let c' := moves ms c in
  exists h, arrived h = spawned c' /\ drawn_ok cfg bind h /\
    forall m ok, EvMail m ok ∈ w_trace (noti c').2 -> solicited cfg smtp (ledger h) m.
Proof.
  intros Hc. enough (exists h, city_ok h (moves ms c)) as (h & Ha & _ & [(_ & _ & Hd) _] & _ & Hm)
    by by exists h.
  assert (exists h, city_ok h c) as [h Hok] by (eexists; by apply city_starts).
  clear Hc. revert c h Hok. induction ms as [|m ms IH]; intros c h Hok; simpl; [by exists h|].
  destruct (city_moves m h c Hok) as [h' Hok']. by eapply IH.
Qed.
End Properties.

(** ** A worked city *)

Section Witness.
#[local] Existing Instance calm_env.
#[local] Existing Instance script_server_laws.
#[local] Instance calm_redis_laws : @RedisLaws Script calm_env := script_redis false.

Definition quiet_city : City Script Script :=
  mkCity [] ([], monolith first_light) ([], notifier first_light).
Definition sample_moves (ms : list (Move Script Script)) : City Script Script :=
  moves (sample_config "") false TransportBroker sample_bind sample_smtp 60 ms quiet_city.

Definition runs_of (n i : nat) : list (Move Script Script) := replicate n (Mono (Run i)).
Definition handles (n i : nat) : list (Move Script Script) := replicate n (Noti (Run i)).

(** A subscription; its command is published while the request is still being
    answered; the mail is sent while the relay marks it; the link, and a release
    that is scanned before the request of the link is answered. *)
Definition busy_day : list (Move Script Script) :=
  app (Arrive [subscribe_new] :: runs_of 4 0)
  (app (Arrive [OpDrain] :: runs_of 2 1)
  (app (Deliver 0 :: handles 2 0)
  (app (runs_of 4 0)
  (app (runs_of 1 1)
  (app (handles 4 0)
  (app (Arrive [OpRequest (get (RConfirm (script_uuid 7)))] :: runs_of 3 2)
  (app (Arrive [OpScan] :: runs_of 14 3)
  (app (Deliver 1 :: runs_of 4 2)
       (handles 6 1))))))))).

Lemma mingled_mails_solicited_witness :
  recipients (w_trace (noti (sample_moves busy_day)).2) =
    [["new@example.com"]; ["new@example.com"]] /\
  exists h, arrived h = spawned (sample_moves busy_day) /\
    drawn_ok (sample_config "") sample_bind h /\
    forall m ok, EvMail m ok ∈ w_trace (noti (sample_moves busy_day)).2 ->
      solicited (sample_config "") sample_smtp (story_ledger (sample_config "") h) m.
Proof.
  split; [vm_compute; reflexivity|].
  refine (mingled_mails_solicited (Env0 := calm_env) (Env1 := calm_env) (sample_config "") false
    TransportBroker sample_bind sample_smtp 60 busy_day quiet_city _).
  split; [done|split; [done|apply empty_db_ok]|done|done].
Defined.
End Witness.
