(* ===== verification/Completion.v ===== *)
(** * An accepted subscription is decided

    The whole way of a subscription through the two processes, with the broker
    transport: the request is answered 200, the relay publishes its command
    after finitely many drains whatever else waits in the outbox, the notifier
    tries the mail and reports, and the report decides the saga as the mail went.
    The database and the broker answer; the SMTP relay and Redis may fail. *)

From S2P Require Import Prelude GoErrors Tables Env Logic Script Schema Samples Json Wire Metrics.
From S2P Require Import Notifier.
From S2P Require Import Spec SubStore SagaStore OutboxStore Notification SagaMachine.
From S2P Require Import Orchestrator RepoSpec Email Service Gateway Handler Config.
From S2P Require Import ReplyConsumer Relay Wiring Footprint System Issue Ledger Cluster.

Local Open Scope string_scope.
Local Open Scope Z_scope.

(** Documented behaviour of the type UUID: its texts are hexadecimal digits,
    hyphens and braces. *)
Class PgUuidText (P : PgServer) : Prop :=
  { pg_uuid_ascii : forall s u, pg_uuid s = Some u -> ascii_text s = true }.

(** ** The relay gets to every row *)

Section Drains.
Context {X : Type} `{!Env X} `{!PgServerLaws env_server} `{!healthy_db X} `{!broker_up X}.
Implicit Types w : World X.

(** What a drain leaves alone. *)
Definition same_sagas w w' : Prop :=
  w_tx w' = w_tx w /\ subscriptions (w_db w') = subscriptions (w_db w) /\
  saga (w_db w') = saga (w_db w).

Lemma drain_batch_all msgs w :
  wp (drain_batch Publish msgs) (fun _ w' => same_sagas w w' /\
    w_trace w' = app (w_trace w) ((fun m => EvPublish (message_of m) true) <$> msgs) /\
    forall m, m ∈ outbox (w_db w) -> ob_ID m ∉ ob_ID <$> msgs -> m ∈ outbox (w_db w')) w.
Proof.
  revert w. induction msgs as [|m msgs IH]; intros w; simpl.
  { apply wp_ret. split; [done|]. by rewrite app_nil_r. }
  apply wp_bind, wp_try, wp_ext_call; simpl.
  2: { intros e x He. destruct (broker_accepts (message_of m) (w_ext w)) as [x' Hx].
       unfold message_of in Hx. by rewrite Hx in He. }
  intros [] x _. apply wp_bind, wp_try, wp_wrap, wp_db_stmt_ok; [done|].
  intros x' now. simpl. eapply wp_mono; [apply IH|]. simpl.
  intros _ w' (Hs & Htr & Hkeep). split; [exact Hs|]. split; [by rewrite Htr, <- app_assoc|].
  intros m' Hm' [Hne Hn]%not_elem_of_cons. apply Hkeep; [|done].
  by apply elem_of_mark_other.
Qed.

(** A waiting row is published by a drain, or still waits after it; and fewer
    rows wait than before. *)
Lemma drain_next m w :
  db_ok (w_db w) -> w_tx w = None -> m ∈ outbox (w_db w) -> unpublished m = true ->
  wp (drain Publish) (fun _ w' => db_ok (w_db w') /\ same_sagas w w' /\
    (count_where unpublished (outbox (w_db w')) < count_where unpublished (outbox (w_db w)))%nat /\
    exists evs, w_trace w' = app (w_trace w) evs /\
      (EvPublish (message_of m) true ∈ evs \/ m ∈ outbox (w_db w'))) w.
Proof.
  intros Hok Htx Hm Hu. apply (wp_keeps db_ok); [apply drain_keeps|done|done|].
  unfold drain. apply wp_bind, wp_try, wp_wrap, wp_db_stmt_ok; [done|]. intros x now. simpl.
  pose proof (outbox_ids_NoDup _ _ (db_outbox_ok _ Hok)) as Hids.
  assert (forall m', m' ∈ unpublished_rows batch (w_db w) ->
    m' ∈ outbox (w_db w) /\ unpublished m' = true) as Hrows
    by (intros m'; apply unpublished_rows_elem).
  eapply wp_mono.
  { apply wp_conj; [apply drain_batch_all|].
    apply drain_batch_progress; [by apply unpublished_rows_NoDup|done|done]. }
  simpl. intros _ w' [(Hs & Htr & Hkeep) Hc] Hok'. split; [done|]. split; [by destruct w|].
  assert (count_where unpublished (outbox (w_db w)) <> 0%nat) as Hpos.
  { intros H0. rewrite count_where_zero in H0. by rewrite H0 in Hu. }
  split; [rewrite unpublished_rows_length in Hc; unfold batch in Hc; lia|].
  eexists. split; [exact Htr|].
  destruct (decide (ob_ID m ∈ ob_ID <$> unpublished_rows batch (w_db w))) as [Hin|Hout];
    [left|right; by apply Hkeep].
  apply list_elem_of_fmap in Hin as (m' & Heq & Hin). destruct (Hrows m' Hin) as [Hm' _].
  assert (m = m') as -> by (by eapply (NoDup_fmap_inj ob_ID)).
  apply list_elem_of_fmap. by exists m'.
Qed.

(** [n] drains, one after the other. *)
Definition drains (n : nat) w : World X := Nat.iter n (fun w => (drain Publish w).2) w.

(** A waiting row is published after finitely many of them. *)
Lemma drains_reach m w :
  db_ok (w_db w) -> w_tx w = None -> m ∈ outbox (w_db w) -> unpublished m = true ->
  exists n evs, (n <= count_where unpublished (outbox (w_db w)))%nat /\
    db_ok (w_db (drains n w)) /\ same_sagas w (drains n w) /\
    w_trace (drains n w) = app (w_trace w) evs /\ EvPublish (message_of m) true ∈ evs.
Proof.
  remember (count_where unpublished (outbox (w_db w))) as k eqn:Hk.
  revert w Hk. induction k as [k IH] using lt_wf_ind. intros w -> Hok Htx Hm Hu.
  pose proof (drain_next m w Hok Htx Hm Hu) as H. unfold wp in H.
  set (w1 := (drain Publish w).2) in H. destruct H as (Hok1 & Hs1 & Hlt & evs1 & Htr1 & Hcase).
  destruct Hcase as [Hp|Hm1].
  { exists 1%nat, evs1. split; [lia|]. by split_and!. }
  assert (w_tx w1 = None) as Htx1 by (destruct Hs1; congruence).
  destruct (IH _ Hlt w1 eq_refl Hok1 Htx1 Hm1 Hu) as (n & evs & Hn & Hok' & Hs & Htr & Hp).
  exists (S n), (app evs1 evs). unfold drains in *. rewrite Nat.iter_succ_r. fold w1.
  split; [lia|]. split; [done|].
  split; [destruct Hs as (? & ? & ?), Hs1 as (? & ? & ?); repeat split; congruence|].
  split; [by rewrite Htr, Htr1, app_assoc|set_solver].
Qed.
End Drains.

(** ** The notifier tries and reports *)

Section Consumes.
Context {Y : Type} `{!Env Y} `{!broker_up Y}.
Variables (smtp : SMTPSender) (ttl : Z).
Implicit Types v : World Y.

(** Redis does not say that the message is known. *)
Definition unseen (messageID : string) v : Prop :=
  forall n, (env_redis_exists (dedupKey messageID) (w_ext v)).1 = inr n -> n <= 0.

Definition status_of (sent : bool) : string := if sent then SagaStatusSent else SagaStatusFailed.

(** The events of a confirmation that is tried: at most three attempts, the
    report, the mark and the ack. *)
Definition tried (m : Mail) (sagaID mid : string) (sent : bool) (evs : list Event) : Prop :=
  exists k marked, (k <= 2)%nat /\
    evs = app (refused m k) (app [EvMail m sent]
      (EvPublish (reply_message sagaID (status_of sent)) true :: settle mid true marked)).

Lemma check_seen_unseen d v :
  unseen (d_MessageId d) v ->
  wp (check_seen (redisDeduper ttl) d) (fun r v' => r = Ok false /\ grew v [] v') v.
Proof.
  intros Hf. unfold check_seen. destruct (is_empty (d_MessageId d)).
  { apply wp_ret. split; [done|by apply grew_nil]. }
  apply wp_bind, wp_try. simpl. apply wp_bind, wp_ext_call.
  - intros n x E. apply wp_ret, wp_ret. split; [|by apply grew_nil].
    f_equal. apply Z.ltb_ge, Hf. by rewrite E.
  - intros e x _. apply wp_ret. split; [done|by apply grew_nil].
Qed.

Lemma ReplyConfirmation_up sagaID status v :
  wp (ReplyConfirmation sagaID status) (fun r v' => r = Ok () /\
    grew v [EvPublish (reply_message sagaID status) true] v') v.
Proof.
  apply wp_ext_call; [by intros [] x _|]. intros e x He.
  destruct (broker_accepts (reply_message sagaID status) (w_ext v)) as [x' Hx].
  by rewrite Hx in He.
Qed.

Lemma dispatch_confirmation_reports req v :
  cr_SagaID req <> "" ->
  let m := confirmation_mail smtp (cr_To req) (cr_ConfirmURL req) in
  wp (dispatch_confirmation (SMTP smtp) req) (fun r v' => r = Ok () /\ exists k sent, (k <= 2)%nat /\
    grew v (app (refused m k) (app [EvMail m sent]
      [EvPublish (reply_message (cr_SagaID req) (status_of sent)) true])) v') v.
Proof.
  intros Hid m. unfold dispatch_confirmation. apply wp_bind, wp_try.
  eapply wp_mono; [apply (send_attempts_result 2)|]. intros r1 v1 (k & Hk & Hg1).
  apply is_empty_false in Hid. rewrite Hid.
  apply wp_bind, wp_try. eapply wp_mono; [apply ReplyConfirmation_up|].
  intros r2 v2 (-> & Hg2). pose proof (grew_trans _ _ _ _ _ Hg1 Hg2) as Hg.
  rewrite <- app_assoc in Hg.
  destruct r1 as [[]|e]; apply wp_ret; (split; [done|]); exists k; [by exists true|by exists false].
Qed.

Lemma consume_tries req d v :
  unseen (d_MessageId d) v -> d_RoutingKey d = RoutingConfirm ->
  unmarshal (d_Body d) = Ok req -> cr_SagaID req <> "" ->
  wp (consume (SMTP smtp) (redisDeduper ttl) d) (fun _ v' => exists sent evs, grew v evs v' /\
    tried (confirmation_mail smtp (cr_To req) (cr_ConfirmURL req)) (cr_SagaID req)
      (d_MessageId d) sent evs) v.
Proof.
  intros Hf Hkey Hb Hid.
  set (m := confirmation_mail smtp (cr_To req) (cr_ConfirmURL req)).
  cut (wp (handle (SMTP smtp) (redisDeduper ttl) d) (fun r v' => r = Ok () /\
    exists sent evs, grew v evs v' /\
      tried m (cr_SagaID req) (d_MessageId d) sent (app evs [EvAck])) v).
  { unfold wp, consume. destruct (handle (SMTP smtp) (redisDeduper ttl) d v) as [r v1]. simpl.
    intros (-> & sent & evs & Hg & Ht). exists sent, (app evs [EvAck]). split; [|done].
    by apply (grew_trans _ v1). }
  unfold handle. apply wp_bind. eapply wp_mono; [by apply check_seen_unseen|].
  intros r v1 (-> & Hg1). apply wp_bind. unfold dispatch. rewrite Hkey, Hb. simpl.
  eapply wp_mono; [by apply dispatch_confirmation_reports|].
  intros r v2 (-> & k & sent & Hk & Hg2).
  pose proof (settle_result ttl d _ v v2 (Ok ()) (grew_trans _ _ _ _ _ Hg1 Hg2)) as Hs.
  eapply wp_mono; [exact Hs|]. intros r v3 (marked & evs & Hr & Hg3 & Heq).
  split; [by destruct r as [[]|e]|]. exists sent, evs. split; [done|].
  exists k, marked. split; [done|]. simpl in Heq. rewrite Heq. simpl. by rewrite <- !app_assoc.
Qed.
End Consumes.

(** ** The subscription whose command waits *)

(** [s] is pending, its saga [sg] waits, and the command [m] of that saga, to
    the address and with the link of the subscription, is in the outbox. *)
Record waits `{!PgServer} (email url : string) (s : Subscription) (sg : Saga)
    (m : OutboxMessage) (d : DB) : Prop := {
  wa_sub : s ∈ subscriptions d;
  wa_pending : sub_Status s = StatusPending;
  wa_saga : sg ∈ saga d;
  wa_waiting : saga_State sg = StateSubscriptionCreated;
  wa_of : saga_SubscriptionID sg = sub_ID s;
  wa_message : m ∈ outbox d;
  wa_unpublished : unpublished m = true;
  wa_key : ob_RoutingKey m = RoutingConfirm;
  wa_mid : ob_MessageID m = "confirm:" +:+ sub_Token s;
  wa_command : exists sagaID, pg_uuid sagaID = Some (saga_ID sg) /\
    ascii_text sagaID = true /\
    unmarshal (ob_Payload m) = Ok (mkConfirmationRequest sagaID email url) }.

(** The saga has ended as the mail went, and its subscription with it. *)
Definition decided (sent : bool) (s : Subscription) (sg : Saga) (d : DB) : Prop :=
  (exists sg', sg' ∈ saga d /\ saga_identity sg' = saga_identity sg /\
     saga_State sg' = if sent then StateCompleted else StateFailed) /\
  (if sent then s else set_failed s) ∈ subscriptions d.

Section Reply.
Context {X : Type} `{!Env X} `{!PgServerLaws env_server} `{!healthy_db X}.
Implicit Types w : World X.

Lemma reply_effect_decides sent s sg d d' :
  s ∈ subscriptions d -> sg ∈ saga d -> saga_State sg = StateSubscriptionCreated ->
  saga_SubscriptionID sg = sub_ID s ->
  reply_effect (status_of sent) sg d d' -> decided sent s sg d'.
Proof.
  intros Hs Hsg Hst Hid. unfold reply_effect. rewrite Hst.
  destruct sent; simpl; intros (le & now & Hsaga & Hsubs & _); unfold decided; rewrite Hsaga, Hsubs.
  all: split;
    [eexists; split; [apply elem_of_update_where; exists sg; split; [done|]|];
       [unfold by_saga_id; by rewrite String.eqb_refl|by destruct sg]|].
  - done.
  - apply elem_of_update_where. exists s. split; [done|].
    unfold by_id. by rewrite Hid, Z.eqb_refl.
Qed.

(** The reply the notifier sent, delivered once. *)
Lemma run_delivery_decides sent sagaID s sg w :
  db_ok (w_db w) -> s ∈ subscriptions (w_db w) -> sg ∈ saga (w_db w) ->
  saga_State sg = StateSubscriptionCreated -> saga_SubscriptionID sg = sub_ID s ->
  pg_uuid sagaID = Some (saga_ID sg) -> ascii_text sagaID = true ->
  wp (run_delivery (marshal (mkSagaReply sagaID (status_of sent))))
    (fun _ w' => decided sent s sg (w_db w') /\ w_trace w' = app (w_trace w) [EvAck]) w.
Proof.
  intros Hok Hs Hsg Hst Hid Hu Ha. set (body := marshal _).
  assert (unmarshal body = Ok (mkSagaReply sagaID (status_of sent))) as Hb.
  { unfold body. rewrite unmarshal_marshal. simpl. f_equal. f_equal.
    - by apply coerce_valid, ascii_valid.
    - by destruct sent. }
  pose proof (HandleReply_ok w body _ sg s Hok Hb Hsg Hu Hs (eq_sym Hid)) as H.
  unfold wp, run_delivery, handleWithRetry in *. cbn [retry_reply]. unfold mbind, gom_bind, try.
  destruct (HandleReply body w) as [r w1]. simpl in H. destruct H as (-> & (_ & Htr & _) & He).
  simpl. split; [by eapply reply_effect_decides|by rewrite Htr].
Qed.
End Reply.

(** ** An accepted request leaves a command that waits *)

Section Accepted.
Context {X : Type} `{!Env X} `{!PgServerLaws env_server} `{!PgJsonLaws env_server}.
Context `{!PgUuidText env_server} `{!RedisLaws X}.
Variables (cfg : Config) (redis : bool).
Variable bind : string -> option SubscribeRequest.
Implicit Types w : World X.

Local Abbreviation link := (confirm_link (BaseURL cfg)).
Local Abbreviation github := (github_service (run_github X cfg redis)).

(** What an accepted subscribe of [email] and [repo] leaves. *)
Definition accepted (email repo : string) (d : DB) : Prop :=
  exists s sg m, sub_key s = (email, repo) /\
    waits email (coerce_utf8 (link (sub_Token s))) s sg m d.

(** The step T1 of a subscription of [email] and [repo]. *)
Definition t1_done (email repo : string) (d d' : DB) : Prop :=
  ValidateEmail email = true /\ exists s subs' now,
    s ∈ subs' /\ sub_key s = (email, repo) /\ sub_Status s = StatusPending /\
    t1_effect (sub_ID s) subs' email repo (sub_Token s) (link (sub_Token s)) now d d'.

(** The saga of T1 and its command. *)
Lemma t1_command subID subs' email repo token url now d d' :
  ValidateEmail email = true ->
  t1_effect subID subs' email repo token url now d d' ->
  exists sagaID u m, pg_uuid sagaID = Some u /\
    saga d' = app (saga d) [mkSaga u subID email repo StateSubscriptionCreated 0 None now now] /\
    outbox d' = app (outbox d) [m] /\ unpublished m = true /\ ob_SagaID m = Some u /\
    ob_RoutingKey m = RoutingConfirm /\ ob_MessageID m = "confirm:" +:+ token /\
    unmarshal (ob_Payload m) = Ok (mkConfirmationRequest sagaID email (coerce_utf8 url)).
Proof.
  intros Hv (sagaID & u & body & Hu & Hbody & _ & _ & Hsaga & Hout).
  exists sagaID, u, (mkOutboxMessage (outbox_id_seq d + 1) (Some u) RoutingConfirm
    ("confirm:" +:+ token) body now None).
  repeat (split; [done|]). etrans; [exact (stored_decodes _ _ Hbody)|]. simpl.
  pose proof (pg_uuid_ascii _ _ Hu).
  by rewrite (valid_email_coerced email), (coerce_valid sagaID) by first [done|by apply ascii_valid].
Qed.

Lemma t1_accepted email repo d d' : t1_done email repo d d' -> accepted email repo d'.
Proof.
  intros (Hv & s & subs' & now & Hs & Hkey & Hst & Heff).
  destruct (t1_command _ _ _ _ _ _ _ _ _ Hv Heff) as (sagaID & u & m & Hu & Hsaga & Hout & Hm & Hrest).
  destruct Heff as (? & ? & ? & _ & _ & Hsubs & _).
  eexists s, _, m. split; [done|].
  split; rewrite ?Hsubs, ?Hsaga, ?Hout; try apply Hrest; try done.
  - apply elem_of_app. right. by apply list_elem_of_singleton.
  - done.
  - done.
  - apply elem_of_app. right. by apply list_elem_of_singleton.
  - exists sagaID. split; [done|]. split; [by eapply pg_uuid_ascii|apply Hrest].
Qed.

Lemma Subscribe_t1 email repo w :
  db_ok (w_db w) -> w_tx w = None ->
  wp (Subscribe github (Orchestrator None) (BaseURL cfg) email repo) (fun r w' =>
    t1_done email repo (w_db w) (w_db w') \/ same_rows (w_db w') (w_db w) /\ r <> Ok ()) w.
Proof.
  intros Hok Htx. unfold Subscribe.
  assert (forall w1 e, w_db w1 = w_db w -> t1_done email repo (w_db w) (w_db w1) \/
    same_rows (w_db w1) (w_db w) /\ Err (A := unit) e <> Ok ()) as Hsame
    by (intros w1 e ->; by right).
  destruct (ValidateEmail email) eqn:Hv; simpl; [|by apply wp_throw, Hsame].
  destruct (ParseRepoSpec repo) as [spec|e]; [|by apply wp_throw, Hsame].
  apply wp_bind, wp_wrap. eapply wp_mono; [apply (check_repo_frame (gh := github))|].
  intros r w1 (Hdb1 & Htx1 & _). destruct r as [ex|e]; [|by apply Hsame].
  destruct ex; simpl; [|by apply wp_throw, Hsame].
  apply wp_bind, wp_wrap, wp_first_such; [intros x m; by apply Hsame|].
  intros x o Ho. apply wp_bind, wp_ext_read. intros x' _. rewrite Hdb1 in Ho.
  set (token := (env_uuid (w_ext (set_ext x w1))).1).
  assert (forall msg (m : GoM X unit) (eff : Z -> DB -> DB -> Prop),
    wp m (tx_result (fun _ : unit => eff) (set_ext x' (set_ext x w1))) (set_ext x' (set_ext x w1)) ->
    (forall now d', eff now (w_db w1) d' -> t1_done email repo (w_db w1) d') ->
    wp (wrap msg m) (fun r w' => t1_done email repo (w_db w) (w_db w') \/
      same_rows (w_db w') (w_db w) /\ r <> Ok ()) (set_ext x' (set_ext x w1))) as Hstart.
  { intros msg m eff Hm Heff. apply wp_wrap. eapply wp_mono; [exact Hm|]. simpl. rewrite <- Hdb1.
    intros [[]|e] w2 (_ & _ & _ & H); [|destruct H as [Hrows|([] & H)]; [by right|]];
      destruct H as (now & H); left; by eapply Heff. }
  rewrite <- Hdb1 in Ho. destruct o as [s|]; simpl in Ho.
  - destruct Ho as [Hs Hkey%by_email_repo_key]. injection Hkey as <- <-.
    destruct (has_status StatusFailed s) eqn:Hf; simpl; [|by apply wp_throw, Hsame].
    eapply Hstart; [apply ReactivateConfirmation_broker_result; simpl; congruence|].
    intros now d' [_ H]. split; [done|]. eexists (set_reactivated token s), _, now.
    split; [|split; [reflexivity|split; [reflexivity|exact H]]].
    apply elem_of_update_where. exists s. split; [done|]. unfold by_id. by rewrite Z.eqb_refl, Hf.
  - eapply Hstart; [apply StartConfirmation_broker_result; simpl; congruence|].
    intros now d' H. split; [done|]. eexists (created_row (w_db w1) email repo token now), _, now.
    split; [|split; [reflexivity|split; [reflexivity|exact H]]].
    apply elem_of_app. right. by apply list_elem_of_singleton.
Qed.

Lemma error_response_status e : (error_response e).1 <> 200.
Proof. unfold error_response, translateError. by destruct (KindOf e). Qed.

(** A subscribe request, as a whole: T1, or the rows of before and no 200. *)
Lemma run_request_t1 req w :
  db_ok (w_db w) -> w_tx w = None -> r_Route req = RSubscribe ->
  wp (run_request cfg redis TransportBroker bind req) (fun r w' =>
    (exists sr, asks (APIKey cfg) bind req sr /\
       t1_done (sr_Email sr) (sr_Repo sr) (w_db w) (w_db w')) \/
    same_rows (w_db w') (w_db w) /\ forall resp, r = Ok resp -> rs_Status resp <> 200) w.
Proof.
  intros Hok Htx Hr. apply BuildRouter_wp. intros x.
  apply (wp_mono _ (fun r w' =>
    (exists sr, asks (APIKey cfg) bind req sr /\
       t1_done (sr_Email sr) (sr_Repo sr) (w_db w) (w_db w')) \/
    same_rows (w_db w') (w_db w) /\ forall res, r = Ok res -> res.1 <> 200)).
  2: { intros [res|e] w' [H|[Hs H]]; try (intros id m); [by left|right|by left|by right].
       split; [done|]. intros resp [= <-]. by apply H. }
  assert (forall res, res.1 <> 200 -> forall res', @Ok (Z * Payload) res = Ok res' -> res'.1 <> 200)
    as Hne by by intros res Hres res' [= <-].
  unfold dispatch_route. rewrite Hr. apply wp_APIKeyAuth.
  2: { intros res _ Hres. right. split; [done|by apply Hne]. }
  intros Ha. unfold handler_Subscribe.
  destruct (bind (r_Body req)) as [sr|] eqn:Hb.
  2: { apply wp_ret. right. split; [done|by apply Hne]. }
  apply wp_bind, wp_try.
  eapply wp_mono; [by apply (Subscribe_t1 (sr_Email sr) (sr_Repo sr) (set_ext x w))|].
  intros r w1 [H|[Hs Hno]].
  - assert (asks (APIKey cfg) bind req sr) as Hask by (split; [done|split; [done|split; [done|apply H]]]).
    destruct r as [[]|e]; [apply wp_bind, wp_inc, wp_ret|apply wp_ret]; left; by exists sr.
  - destruct r as [[]|e]; [done|]. apply wp_ret. right. split; [done|].
    apply Hne, error_response_status.
Qed.
End Accepted.

(** ** The property *)

Section Properties.
Context {X Y : Type} `{!Env X} `{!Env Y}.
Context `{!PgServerLaws (env_server (X := X))} `{!PgJsonLaws (env_server (X := X))}.
Context `{!PgUuidText (env_server (X := X))} `{!RedisLaws X}.
Variables (cfg : Config) (redis : bool).
Variable bind : string -> option SubscribeRequest.
Variables (smtp : SMTPSender) (ttl : Z).
Implicit Types c : Cluster X Y.

Local Abbreviation runs :=
  (cluster_runs (X := X) (Y := Y) cfg redis TransportBroker bind smtp ttl).

Local Abbreviation well_formed := (@db_ok (env_server (X := X))).

Lemma cluster_runs_trans ops1 ops2 c1 c2 c3 :
  runs ops1 c1 c2 -> runs ops2 c2 c3 -> runs (app ops1 ops2) c1 c3.
Proof.
  intros H12 H23. induction H23 as [c|op ops c c' Hrun IH|p ok ops c c' Hrun IH Hp
    |r ok ops c c' Hrun IH Hr|x y ops c c' Hrun IH].
  - by rewrite app_nil_r.
  - rewrite app_assoc. apply cl_op. by apply IH.
  - apply (cl_deliver _ _ _ _ _ _ p ok); [by apply IH|done].
  - apply (cl_call _ _ _ _ _ _ r ok); [by apply IH|done].
  - apply cl_env. by apply IH.
Qed.

Lemma cluster_runs_op op c :
  runs [op] c (mkCluster (run_op cfg redis TransportBroker bind op (monolith c)).2 (notifier c)).
Proof. apply (cl_op _ _ _ _ _ _ op []), cl_start. Qed.

Section Healthy.
Context `{!healthy_db X} `{!broker_up X} `{!broker_up Y}.

Lemma drains_run n c :
  runs (replicate n OpDrain) c (mkCluster (drains n (monolith c)) (notifier c)).
Proof.
  revert c. induction n as [|n IH]; intros c; [destruct c; apply cl_start|].
  unfold drains. rewrite Nat.iter_succ_r.
  exact (cluster_runs_trans [OpDrain] _ _ _ _ (cluster_runs_op OpDrain c) (IH _)).
Qed.

(** The relay publishes a waiting row after finitely many drains. *)
Lemma drains_publish m c :
  well_formed (w_db (monolith c)) -> w_tx (monolith c) = None ->
  m ∈ outbox (w_db (monolith c)) -> unpublished m = true ->
  exists n w', runs (replicate n OpDrain) c (mkCluster w' (notifier c)) /\
    (n <= count_where unpublished (outbox (w_db (monolith c))))%nat /\
    well_formed (w_db w') /\ same_sagas (monolith c) w' /\ EvPublish (message_of m) true ∈ w_trace w'.
Proof.
  intros Hok Htx Hm Hu.
  destruct (drains_reach m _ Hok Htx Hm Hu) as (n & evs & Hn & Hok' & Hs & Htr & Hp).
  exists n, (drains n (monolith c)). split; [apply drains_run|]. split; [done|].
  split; [done|]. split; [done|]. rewrite Htr. set_solver.
Qed.

(** From a command that waits to the verdict. *)
Lemma waiting_is_decided email url s sg m c :
  well_formed (w_db (monolith c)) -> w_tx (monolith c) = None ->
  @waits (env_server (X := X)) email url s sg m (w_db (monolith c)) -> unseen ("confirm:" +:+ sub_Token s) (notifier c) ->
  exists n sagaID sent evs c',
    runs (app (replicate n OpDrain)
      [OpReply (marshal (mkSagaReply sagaID (status_of sent)))]) c c' /\
    (n <= count_where unpublished (outbox (w_db (monolith c))))%nat /\
    w_trace (notifier c') = app (w_trace (notifier c)) evs /\
    tried (confirmation_mail smtp email url) sagaID ("confirm:" +:+ sub_Token s) sent evs /\
    decided sent s sg (w_db (monolith c')) /\ last (w_trace (monolith c')) = Some EvAck.
Proof.
  intros Hok Htx [Hs Hst Hsg Hsgst Hid Hm Hu Hkey Hmid (sagaID & Hpg & Ha & Hdec)] Hf.
  destruct (drains_publish m c Hok Htx Hm Hu) as (n & w1 & Hrun & Hn & Hok1 & (Htx1 & Hs1 & Hg1) & Hp).
  assert (sagaID <> "") as Hne by (intros ->; by rewrite pg_uuid_empty in Hpg).
  pose proof (consume_tries smtp ttl (mkConfirmationRequest sagaID email url)
    (delivery_of (message_of m)) (notifier c)) as Hc. simpl in Hc. rewrite Hmid in Hc.
  destruct (Hc Hf Hkey Hdec Hne) as (sent & evs & (Htr & _) & Ht).
  rewrite <- Hs1 in Hs. rewrite <- Hg1 in Hsg.
  pose proof (run_delivery_decides sent sagaID s sg w1 Hok1 Hs Hsg Hsgst Hid Hpg Ha) as [Hd Hack].
  exists n, sagaID, sent, evs. eexists. split.
  { apply cl_op, (cl_deliver _ _ _ _ _ _ (message_of m) true); [exact Hrun|exact Hp]. }
  split; [exact Hn|]. split; [exact Htr|]. split; [exact Ht|]. split; [exact Hd|].
  simpl. by rewrite Hack, last_snoc.
Qed.
End Healthy.

(** C4: Liveness, end to end, with the broker transport: while PostgreSQL and the
    broker answer, a subscribe request that was answered 200 can be carried to
    its end, whatever else waits in the outbox and whether the SMTP relay and
    Redis answer or not: the relay publishes its command after at most as many
    drains as rows wait, the notifier, unless it knows the message, tries the
    confirmation mail to the requested address with the link of the issued
    token and reports, and the report decides the saga as the mail went:
    completed when the mail was accepted, failed with its subscription when all
    attempts were refused. *)
Theorem accepted_subscription_is_decided req resp c w1 :
  healthy_db X -> broker_up X -> broker_up Y ->
  well_formed (w_db (monolith c)) -> w_tx (monolith c) = None -> r_Route req = RSubscribe ->
  run_request cfg redis TransportBroker bind req (monolith c) = (Ok resp, w1) ->
  rs_Status resp = 200 ->
  exists sr s sg, asks (APIKey cfg) bind req sr /\ sub_key s = (sr_Email sr, sr_Repo sr) /\
    s ∈ subscriptions (w_db w1) /\ sg ∈ saga (w_db w1) /\ saga_SubscriptionID sg = sub_ID s /\
    (unseen ("confirm:" +:+ sub_Token s) (notifier c) ->
     exists n sagaID sent evs c',
       runs (OpRequest req :: app (replicate n OpDrain)
         [OpReply (marshal (mkSagaReply sagaID (status_of sent)))]) c c' /\
       (n <= count_where unpublished (outbox (w_db w1)))%nat /\
       w_trace (notifier c') = app (w_trace (notifier c)) evs /\
       tried (confirmation_mail smtp (sr_Email sr)
                (coerce_utf8 (confirm_link (BaseURL cfg) (sub_Token s))))
         sagaID ("confirm:" +:+ sub_Token s) sent evs /\
       decided sent s sg (w_db (monolith c')) /\ last (w_trace (monolith c')) = Some EvAck).
Proof.
  intros Hh Hb Hb' Hok Htx Hr Hrun H200.
  destruct (wp_elim _ _ _ _ _ (run_request_t1 cfg redis bind req _ Hok Htx Hr) Hrun)
    as [(sr & Has & Ht1)|[_ Hno]]; [|by specialize (Hno resp eq_refl)].
  apply t1_accepted in Ht1 as (s & sg & m & Hkey & Hw).
  destruct (wp_elim _ _ _ _ _ (run_request_safe cfg redis TransportBroker bind req _ Hok Htx) Hrun)
    as (Htx1 & Hok1 & _).
  exists sr, s, sg. do 2 (split; [done|]). do 3 (split; [by apply Hw|]). intros Hf.
  destruct (waiting_is_decided _ _ s sg m (mkCluster w1 (notifier c)) Hok1 Htx1 Hw Hf)
    as (n & sagaID & sent & evs & c' & Hrun' & Hrest).
  exists n, sagaID, sent, evs, c'. split; [|exact Hrest].
  apply (cluster_runs_trans [OpRequest req] _ _ (mkCluster w1 (notifier c))); [|done].
  pose proof (cluster_runs_op (OpRequest req) c) as H1. simpl in H1.
  unfold mbind, gom_bind in H1. by rewrite Hrun in H1.
Qed.
End Properties.

(** ** A worked subscription *)

#[export] Instance script_uuid_text : PgUuidText script_server.
Proof.
  split. intros s u. simpl. destruct (_ =? 36)%nat; [|done]. simpl.
  by destruct (ascii_text s).
Qed.

Section Witness.
#[local] Existing Instance calm_env.
#[local] Existing Instance script_server_laws.
#[local] Existing Instance calm_redis_laws.

Definition new_request : Request :=
  mkRequest "POST" RSubscribe "" "r1" "" "new@example.com".
Definition new_answer : result Response * World Script :=
  run_request (sample_config "") false TransportBroker sample_bind new_request
    (monolith first_light).
Definition new_response : Response :=
  mkResponse 200 (PMessage "subscription created, check your email to confirm") "r1".

(** The mail relay is down: all three attempts are refused. *)
Definition mail_down : World Script :=
  play empty_db (mkScript [] 0 0 [] ∅ [] [] [] [inl "421"; inl "421"; inl "421"] []).

Lemma accepted_subscription_is_decided_witness :
  exists s sg, s ∈ subscriptions (w_db new_answer.2) /\
    exists n sagaID sent c',
      cluster_runs (sample_config "") false TransportBroker sample_bind sample_smtp 60
        (OpRequest new_request :: app (replicate n OpDrain)
           [OpReply (marshal (mkSagaReply sagaID (status_of sent)))])
        (mkCluster (monolith first_light) mail_down) c' /\
      decided sent s sg (w_db (monolith c')).
Proof.
  destruct (accepted_subscription_is_decided (Env0 := calm_env) (Env1 := calm_env)
    (sample_config "") false sample_bind sample_smtp 60 new_request new_response
    (mkCluster (monolith first_light) mail_down) new_answer.2 calm_healthy calm_broker calm_broker)
    as (sr & s & sg & _ & _ & Hs & _ & _ & H).
  - apply empty_db_ok.
  - reflexivity.
  - reflexivity.
  - unfold new_answer. vm_compute. reflexivity.
  - reflexivity.
  - exists s, sg. split; [exact Hs|].
    destruct H as (n & sagaID & sent & evs & c' & Hrun & _ & _ & _ & Hd & _).
    + intros k. vm_compute. by intros [= <-].
    + exists n, sagaID, sent, c'. by split.
Defined.
End Witness.
