(* ===== verification/Recovery.v ===== *)
(** * No waiting saga is stuck

    With the broker transport, in every state that a run of the two processes
    can reach, whatever failed, was lost, delayed or delivered twice on the way:
    once the services answer again, any saga that still waits can be decided. The
    reason is an invariant of the monolith: every saga has its command in the
    outbox, and the rows that are marked published were accepted by the broker. *)

From S2P Require Import Prelude GoErrors Tables Env Logic Script Schema Samples Json Wire Metrics.
From S2P Require Import Notifier.
From S2P Require Import Spec SubStore SagaStore OutboxStore Notification SagaMachine.
From S2P Require Import Orchestrator RepoSpec Email Service Gateway Scanner Handler Config.
From S2P Require Import ReplyConsumer Sweeper Relay Wiring Footprint Commands System Issue Ledger Cluster.
From S2P Require Import Completion.

Local Open Scope string_scope.
Local Open Scope Z_scope.

(** ** The invariant *)

(** [m] is the confirmation command of saga [u]. *)
Definition carries `{!PgServer} (u : string) (m : OutboxMessage) : Prop :=
  ob_SagaID m = Some u /\ ob_RoutingKey m = RoutingConfirm /\ ob_MessageID m <> "" /\
  exists sagaID email url,
    pg_uuid sagaID = Some u /\
    unmarshal (ob_Payload m) = Ok (mkConfirmationRequest sagaID email url).

Record recoverable `{!PgServer} (S : Publishing -> Prop) (d : DB) : Prop := {
  rc_commands : forall u, u ∈ saga_ID <$> saga d -> exists m, m ∈ outbox d /\ carries u m;
  rc_published : forall m, m ∈ outbox d -> unpublished m = false -> S (message_of m) }.

#[export] Instance recoverable_steady `{!PgServer} S : Steady (recoverable S).
Proof.
  split.
  - split. by intros t d _ [H1 H2].
  - intros d d' Ho Hs [H1 H2]. split; rewrite Ho; [rewrite Hs|]; done.
  - intros u d [H1 H2]. split; simpl.
    + intros v (m & Hm & Hc)%H1. exists (if of_saga u m then set_published None m else m).
      split; [apply elem_of_update_where; by exists m|by destruct (of_saga u m)].
    + intros m (a & Ha & ->)%elem_of_update_where. destruct (of_saga u a); [done|by apply H2].
Qed.

Section Invariant.
Context `{!PgServer}.
Implicit Types d : DB.

Lemma recoverable_mono (S S' : Publishing -> Prop) d :
  (forall p, S p -> S' p) -> recoverable S d -> recoverable S' d.
Proof. intros HS [H1 H2]. split; [done|]. intros m Hm Hu. by apply HS, H2. Qed.

Lemma recoverable_rows S d d' : same_rows d' d -> recoverable S d -> recoverable S d'.
Proof. intros (_ & _ & Ho & Hs). apply steady_same; [done|by rewrite Hs]. Qed.

(** A drain marks what the broker accepted. *)
Lemma recoverable_marked (S : Publishing -> Prop) sent d d' :
  saga d' = saga d -> marked sent (outbox d) (outbox d') ->
  (forall m s, m ∈ outbox d -> s ∈ sent -> ob_ID s = ob_ID m -> S (message_of m)) ->
  recoverable S d -> recoverable S d'.
Proof.
  intros Hs Hmark Hsent [H1 H2]. split.
  - rewrite Hs. intros u (m & Hm & Hc)%H1.
    destruct (Forall2_elem_l _ _ _ _ Hmark Hm) as (m' & Hm' & Heq). exists m'. split; [done|].
    by destruct Heq as [->|(t & s & -> & _)].
  - intros m' Hm' Hu. destruct (Forall2_elem_r _ _ _ _ Hmark Hm') as (m & Hm & Heq).
    destruct Heq as [->|(t & s & -> & Hin & Hid)]; [by apply H2|].
    exact (Hsent m s Hm Hin Hid).
Qed.
End Invariant.

Section Started.
Context {X : Type} `{!Env X} `{!PgServerLaws env_server} `{!PgJsonLaws env_server}.
Context `{!PgUuidText env_server}.

(** T1 leaves the command of the saga that it makes. *)
Lemma recoverable_started S subID subs' email repo token url now d d' :
  ValidateEmail email = true -> t1_effect subID subs' email repo token url now d d' ->
  recoverable S d -> recoverable S d'.
Proof.
  intros Hv Heff [H1 H2].
  destruct (t1_command _ _ _ _ _ _ _ _ _ Hv Heff)
    as (sagaID & u & m & Hu & Hsaga & Hout & Hm & Hcol & Hkey & Hmid & Hdec).
  split; rewrite Hout; [rewrite Hsaga, fmap_app|].
  - intros v [Hin|Hin]%elem_of_app.
    + destruct (H1 v Hin) as (m' & Hm' & Hc). exists m'. set_solver.
    + apply list_elem_of_singleton in Hin as ->. exists m. split; [set_solver|].
      split; [done|]. split; [done|]. split; [by rewrite Hmid|]. by eexists _, _, _.
  - intros m' [Hm'|Hm']%elem_of_app; [by apply H2|].
    apply list_elem_of_singleton in Hm' as ->. intros Hp. by rewrite Hm in Hp.
Qed.

End Started.

Section Operations.
Context {X : Type} `{!Env X} `{!PgServerLaws env_server} `{!PgJsonLaws env_server}.
Context `{!PgUuidText env_server} `{!RedisLaws X}.
Variables (cfg : Config) (redis : bool).
Variable bind : string -> option SubscribeRequest.
Implicit Types w : World X.

(** What the broker accepted so far. *)
Definition taken w (p : Publishing) : Prop := EvPublish p true ∈ w_trace w.

Lemma recoverable_t1 S email repo d d' :
  t1_done cfg email repo d d' -> recoverable S d -> recoverable S d'.
Proof. intros (Hv & s & subs' & now & _ & _ & _ & Heff). by eapply recoverable_started. Qed.

(** The trace only grows. *)
Lemma run_op_taken op w p :
  taken w p -> taken (run_op cfg redis TransportBroker bind op w).2 p.
Proof.
  set (all := mkAllow True (fun _ => True) (fun _ => True) (fun _ => True) true).
  assert (effects all (run_op cfg redis TransportBroker bind op)) as He.
  { destruct op as [req| | |body|]; simpl.
    - apply effects_bind; [|auto with go_db]. apply run_request_effects; [done|by left].
    - by apply run_scan_effects.
    - by apply drain_effects.
    - by apply run_delivery_effects.
    - apply Sweep_effects. }
  destruct (effects_leaves all _ w He) as (evs & Htr & _). unfold taken. rewrite Htr. set_solver.
Qed.

Lemma drain_recoverable w :
  db_ok (w_db w) -> recoverable (taken w) (w_db w) ->
  recoverable (taken (drain Publish w).2) (w_db (drain Publish w).2).
Proof.
  intros Hok Hw. set (w' := (drain Publish w).2).
  destruct (drain_result w) as (_ & msgs & Hmsgs & sent & rest & -> & Htr & Hmark & _ & _ & Hs).
  fold w' in Htr, Hmark, Hs.
  pose proof (outbox_ids_NoDup _ _ (db_outbox_ok _ Hok)) as Hids.
  eapply recoverable_marked; [exact Hs|exact Hmark| |].
  - intros m s Hm Hin Hid. assert (s ∈ outbox (w_db w)) as Hso.
    { destruct Hmsgs as [Heq|Heq]; [apply app_nil in Heq as [-> _]; set_solver|].
      apply (unpublished_rows_elem batch). rewrite <- Heq. set_solver. }
    assert (s = m) as -> by (by eapply (NoDup_fmap_inj ob_ID)).
    unfold taken. rewrite Htr. apply elem_of_app. right. apply elem_of_app. left.
    apply list_elem_of_fmap. by exists m.
  - eapply recoverable_mono; [|exact Hw]. intros p Hp. unfold taken. rewrite Htr. set_solver.
Qed.

Lemma request_recoverable S req w :
  db_ok (w_db w) -> w_tx w = None -> recoverable S (w_db w) ->
  wp (run_request cfg redis TransportBroker bind req) (fun _ w' => recoverable S (w_db w')) w.
Proof.
  intros Hok Htx Hw. destruct (decide (r_Route req = RSubscribe)) as [Hr|Hr].
  - eapply wp_mono; [by apply run_request_t1|].
    intros r w' [(sr & _ & Ht1)|[Hs _]]; [by eapply recoverable_t1|by eapply recoverable_rows].
  - exact (keeps_db _ _ w (run_request_steady cfg redis TransportBroker bind _ req Hr) Htx Hw).
Qed.

Lemma run_op_recoverable op w :
  db_ok (w_db w) -> w_tx w = None -> recoverable (taken w) (w_db w) ->
  let w' := (run_op cfg redis TransportBroker bind op w).2 in
  recoverable (taken w') (w_db w').
Proof.
  intros Hok Htx Hw w'.
  assert (recoverable (taken w) (w_db w') -> recoverable (taken w') (w_db w')) as Hmono
    by (apply recoverable_mono; intros p; apply run_op_taken).
  destruct op as [req| | |body|].
  - apply Hmono. pose proof (request_recoverable (taken w) req w Hok Htx Hw) as H. unfold wp in H.
    unfold w'. simpl run_op. unfold mbind, gom_bind.
    by destruct (run_request cfg redis TransportBroker bind req w) as [[res|e] w1].
  - apply Hmono. cut (wp (run_scan cfg redis) (fun _ w2 => recoverable (taken w) (w_db w2)) w); [done|].
    eapply wp_mono; [by apply (scan_result _ (fun _ _ => True)); [apply run_checker_spec|..]|].
    intros r w2 (_ & _ & _ & _ & Ho & Hs & _). eapply steady_same; [exact Ho|by rewrite Hs|done].
  - by apply drain_recoverable.
  - apply Hmono. by apply (run_delivery_steady (recoverable (taken w))).
  - apply Hmono.
    by apply (keeps_db _ _ w (Sweep_steady (X := X) (recoverable (taken w)) (stale_after cfg))).
Qed.
End Operations.

(** ** The notifier answers every command *)

Section Replies.
Context {Y : Type} `{!Env Y} `{!broker_up Y}.
Variables (smtp : SMTPSender) (ttl : Z).
Implicit Types v : World Y.

(** The relay accepted a mail. *)
Definition mail_taken (ev : Event) : bool :=
  match ev with EvMail _ ok => ok | _ => false end.

Lemma tried_taken m sagaID mid sent evs :
  tried m sagaID mid sent evs ->
  existsb mail_taken evs = sent /\
  EvPublish (reply_message sagaID (status_of sent)) true ∈ evs.
Proof.
  intros (k & marked & _ & ->). split; [|set_solver].
  assert (forall k, existsb mail_taken (refused m k) = false) as Hr
    by (intros j; induction j as [|j IH]; [done|exact IH]).
  rewrite !existsb_app, Hr. simpl. unfold settle. by destruct sent, (is_empty mid).
Qed.

(** The command of a saga is answered: sent when the message is known or the
    relay accepts the mail, failed otherwise. *)
Lemma consume_replies req d v :
  saga_command d = Some req -> d_MessageId d <> "" ->
  wp (consume (SMTP smtp) (redisDeduper ttl) d) (fun _ v' => exists evs,
    w_trace v' = app (w_trace v) evs /\
    let sent := message_known d (w_ext v) || existsb mail_taken evs in
    EvPublish (reply_message (cr_SagaID req) (status_of sent)) true ∈ evs) v.
Proof.
  intros Hreq Hne. destruct (saga_command_Some d req Hreq) as (Hkey & Hb & Hid).
  destruct (message_known d (w_ext v)) eqn:Hk; simpl.
  - apply (wp_mono _ (fun r v' => exists evs, grew v evs v' /\
      EvPublish (reply_message (cr_SagaID req) SagaStatusSent) true ∈ evs)).
    2: { intros r v' (evs & (Htr & _) & Hin). by exists evs. }
    unfold consume. cut (wp (handle (SMTP smtp) (redisDeduper ttl) d) (fun _ v' =>
      grew v [EvPublish (reply_message (cr_SagaID req) SagaStatusSent) true] v') v).
    { unfold wp. destruct (handle _ _ d v) as [r v1]. simpl. intros (Htr & ? & ? & ?).
      eexists (app _ _). split; [split; [by rewrite app_assoc, <- Htr|done]|set_solver]. }
    unfold handle. apply wp_bind. eapply wp_mono; [apply check_seen_result|].
    intros r v1 (-> & Hg1 & _). rewrite Hk.
    unfold replyAlreadySent. rewrite Hkey, Hb, Hid. simpl.
    apply wp_bind, wp_try. eapply wp_mono; [apply ReplyConfirmation_up|].
    intros r2 v2 (_ & Hg2). apply wp_ret. exact (grew_trans _ _ _ _ _ Hg1 Hg2).
  - assert (unseen (d_MessageId d) v) as Hf.
    { intros n Hn. unfold message_known, redis_knows in Hk. rewrite Hn in Hk.
      apply is_empty_false in Hne. rewrite Hne in Hk. by apply Z.ltb_ge. }
    apply is_empty_false in Hid.
    eapply wp_mono; [by eapply consume_tries|]. intros r v' (sent & evs & (Htr & _) & Ht).
    exists evs. split; [done|]. by destruct (tried_taken _ _ _ _ _ Ht) as [-> ?].
Qed.
End Replies.

(** ** From any reachable state *)

Section History.
Context {X Y : Type} `{!Env X} `{!Env Y}.
Context `{!PgServerLaws (env_server (X := X))} `{!PgJsonLaws (env_server (X := X))}.
Context `{!PgUuidText (env_server (X := X))} `{!RedisLaws X}.
Variables (cfg : Config) (redis : bool).
Variable bind : string -> option SubscribeRequest.
Variables (smtp : SMTPSender) (ttl : Z).

(** What holds of the monolith in every reachable state. *)
Record monolith_recoverable (w : World X) : Prop := {
  mr_db : @db_ok (env_server (X := X)) (w_db w);
  mr_tx : w_tx w = None;
  mr_rows : @recoverable (env_server (X := X)) (taken w) (w_db w) }.

Lemma cluster_recoverable ops (c c' : Cluster X Y) :
  cluster_runs cfg redis TransportBroker bind smtp ttl ops c c' ->
  monolith_recoverable (monolith c) -> monolith_recoverable (monolith c').
Proof.
  intros Hrun Hc. induction Hrun as [c|op ops c c' Hrun IH|p ok ops c c' Hrun IH Hp
    |r ok ops c c' Hrun IH Hr|x y ops c c' Hrun IH]; [done|..|by apply IH|by apply IH|].
  - destruct (IH Hc) as [Hok Htx Hw].
    destruct (run_op_safe cfg redis TransportBroker bind op _ Hok Htx) as (Htx' & Hok' & _).
    split; [exact Hok'|exact Htx'|]. by apply run_op_recoverable.
  - by destruct (IH Hc).
Qed.
End History.

Section Future.
Context {X Y : Type} `{!Env X} `{!Env Y}.
Context `{!PgServerLaws (env_server (X := X))} `{!PgUuidText (env_server (X := X))}.
Context `{!RedisLaws X} `{!healthy_db X} `{!broker_up X} `{!broker_up Y}.
Variables (cfg : Config) (redis : bool).
Variable bind : string -> option SubscribeRequest.
Variables (smtp : SMTPSender) (ttl : Z).
Local Abbreviation runs :=
  (cluster_runs (X := X) (Y := Y) cfg redis TransportBroker bind smtp ttl).

Definition redo (op : Op) (w : World X) : World X :=
  (run_op cfg redis TransportBroker bind op w).2.

(** One way out for a saga [sg] that waits, from [w] and [v]: the sweeper runs
    once and then the relay [n] times; in that time (with the events [evs]) the
    broker accepts a message [p] that is the command of the saga; it is
    delivered to the notifier once, which does [evs'] and reports the mail as
    sent exactly when Redis knew the message or the SMTP relay accepted the
    mail; that report, delivered to the monolith once, decides the saga. [s'] is
    the subscription as the sweep left it: with the key and identifier of [s]. *)
Definition resumes (w : World X) (v : World Y) (s : Subscription) (sg : Saga) : Prop :=
  exists n p req evs evs' s',
    let w2 := Nat.iter n (redo OpDrain) (redo OpSweep w) in
    let sent := message_known (delivery_of p) (w_ext v) || existsb mail_taken evs' in
    (n <= count_where unpublished (outbox (w_db (redo OpSweep w))))%nat /\
    w_trace w2 = app (w_trace w) evs /\ EvPublish p true ∈ evs /\
    saga_command (delivery_of p) = Some req /\
    @pg_uuid (env_server (X := X)) (cr_SagaID req) = Some (saga_ID sg) /\
    w_trace (consume (SMTP smtp) (redisDeduper ttl) (delivery_of p) v).2 = app (w_trace v) evs' /\
    EvPublish (reply_message (cr_SagaID req) (status_of sent)) true ∈ evs' /\
    s' ∈ subscriptions (w_db w2) /\ sub_ID s' = sub_ID s /\ sub_key s' = sub_key s /\
    decided sent s' sg
      (w_db (redo (OpReply (marshal (mkSagaReply (cr_SagaID req) (status_of sent)))) w2)).

(** What the sweep leaves of a saga that it picks: its command waits again. *)
Lemma sweep_requeues w s sg :
  @db_ok (env_server (X := X)) (w_db w) -> w_tx w = None ->
  @recoverable (env_server (X := X)) (taken w) (w_db w) ->
  s ∈ subscriptions (w_db w) -> saga_State sg = StateSubscriptionCreated ->
  sg ∈ @resumable_rows (env_server (X := X)) ((env_clock (w_ext w)).1 - stale_after cfg) (w_db w) ->
  let w1 := redo OpSweep w in
  @db_ok (env_server (X := X)) (w_db w1) /\ w_tx w1 = None /\ w_trace w1 = w_trace w /\
  sg ∈ saga (w_db w1) /\
  (exists s', s' ∈ subscriptions (w_db w1) /\ sub_ID s' = sub_ID s /\ sub_key s' = sub_key s) /\
  exists m, m ∈ outbox (w_db w1) /\ unpublished m = true /\
    @carries (env_server (X := X)) (saga_ID sg) m.
Proof.
  intros Hok Htx [H1 _] Hs Hst Hpick w1.
  pose proof (Sweep_result (stale_after cfg) w Hok) as H. unfold wp in H.
  change (Sweep (stale_after cfg) w).2 with w1 in H.
  destruct H as ((Htx1 & Htr1 & _) & [Wsaga Wsubs Wout _] & Hsw).
  pose proof (keeps_db _ _ w (Sweep_keeps (stale_after cfg)) Htx Hok) as Hok1.
  change (Sweep (stale_after cfg) w).2 with w1 in Hok1.
  destruct (Hsw _) as [_ Hswept]. specialize (Hswept sg Hpick). unfold swept in Hswept.
  rewrite Hst in Hswept. destruct (resumable_rows_elem _ _ _ Hpick) as (Hsg & _ & _).
  split; [done|]. split; [congruence|]. split; [done|].
  split; [|split].
  - destruct (Forall2_elem_l _ _ _ _ Wsaga Hsg) as (b & Hb & [->|[Hc _]]); [done|congruence].
  - destruct (Forall2_elem_l _ _ _ _ Wsubs Hs) as (s' & Hs' & [->|[-> _]]); eauto.
  - destruct (H1 (saga_ID sg) (list_elem_of_fmap_2 _ _ _ Hsg)) as (m & Hm & Hc).
    destruct (Forall2_elem_l _ _ _ _ Wout Hm) as (m' & Hm' & Heq). exists m'. split; [done|].
    assert (@carries (env_server (X := X)) (saga_ID sg) m') as Hc'
      by (destruct Heq as [->|[-> _]]; exact Hc).
    split; [|done]. unfold unpublished. by rewrite (Hswept m' Hm' (proj1 Hc')).
Qed.

(** From a waiting saga that the sweeper picks to its verdict. *)
Lemma recoverable_resumes w (v : World Y) s sg :
  monolith_recoverable w -> s ∈ subscriptions (w_db w) ->
  saga_State sg = StateSubscriptionCreated -> saga_SubscriptionID sg = sub_ID s ->
  sg ∈ @resumable_rows (env_server (X := X)) ((env_clock (w_ext w)).1 - stale_after cfg) (w_db w) ->
  resumes w v s sg.
Proof.
  intros [Hok Htx Hrec] Hs Hst Hid Hpick.
  destruct (sweep_requeues w s sg Hok Htx Hrec Hs Hst Hpick)
    as (Hok1 & Htx1 & Htr1 & Hsg1 & (s' & Hs1 & Hid' & Hkey') & m & Hm & Hun & Hc).
  destruct Hc as (_ & Hkey & Hmid & sagaID & email & url & Hu & Hdec).
  destruct (drains_reach m (redo OpSweep w) Hok1 Htx1 Hm Hun)
    as (n & evs & Hn & Hok2 & (_ & Hs2 & Hg2) & Htr2 & Hp).
  change (drains n (redo OpSweep w)) with (Nat.iter n (redo OpDrain) (redo OpSweep w)) in *.
  set (w2 := Nat.iter n (redo OpDrain) (redo OpSweep w)) in *.
  set (req := mkConfirmationRequest sagaID email url).
  assert (saga_command (delivery_of (message_of m)) = Some req) as Hreq.
  { unfold saga_command, delivery_of, message_of.
    cbn [d_RoutingKey d_Body pub_Key pub_Body].
    rewrite Hkey, String.eqb_refl, Hdec. simpl.
    destruct sagaID; [by rewrite pg_uuid_empty in Hu|done]. }
  destruct (consume_replies smtp ttl req (delivery_of (message_of m)) v Hreq Hmid)
    as (evs' & Htr' & Hreply).
  rewrite <- Hs2 in Hs1. rewrite <- Hg2 in Hsg1. rewrite <- Hid' in Hid.
  destruct (run_delivery_decides
    (message_known (delivery_of (message_of m)) (w_ext v) || existsb mail_taken evs')
    sagaID s' sg w2 Hok2 Hs1 Hsg1 Hst Hid Hu (pg_uuid_ascii _ _ Hu)) as [Hd _].
  exists n, (message_of m), req, evs, evs', s'. fold w2.
  split; [done|]. split; [by rewrite Htr2, Htr1|]. by split_and!.
Qed.
End Future.

(** ** The property *)

(** No waiting saga is stuck: take any run of the two processes with the broker
    transport, from empty tables, in which anything failed, was lost, delayed,
    reordered or delivered again. Once PostgreSQL and the broker answer (the
    SMTP relay and Redis need not), every saga that still waits, whose
    subscription still exists, and which is among those that the sweeper picks
    (the [resume_limit] oldest of those left alone for long enough), can be
    decided by one sweep, at most as many drains as rows wait after it, one
    delivery of the command that was published again, and one delivery of the
    reply to it. *)
Theorem waiting_saga_is_not_stuck {X Y : Type} (past now : Env X) (past' now' : Env Y)
    (cfg : Config) (redis : bool) (bind : string -> option SubscribeRequest)
    (smtp : SMTPSender) (ttl : Z) ops (c c' : Cluster X Y) s sg :
  PgServerLaws (env_server (Env := past)) -> PgJsonLaws (env_server (Env := past)) ->
  PgUuidText (env_server (Env := past)) -> @RedisLaws X past ->
  @env_server X now = @env_server X past ->
  @healthy_db X now -> @broker_up X now -> @broker_up Y now' ->
  @cluster_start X Y past c -> saga (w_db (monolith c)) = [] ->
  @cluster_runs X Y past past' cfg redis TransportBroker bind smtp ttl ops c c' ->
  s ∈ subscriptions (w_db (monolith c')) ->
  saga_State sg = StateSubscriptionCreated -> saga_SubscriptionID sg = sub_ID s ->
  sg ∈ @resumable_rows (@env_server X now)
         ((@env_clock X now (w_ext (monolith c'))).1 - stale_after cfg) (w_db (monolith c')) ->
  @resumes X Y now now' cfg redis bind smtp ttl (monolith c') (notifier c') s sg.
Proof.
  intros HL HJ HU HR Hsrv Hh Hb Hb' [Hok Htx [Hsub Hout] _] Hsaga Hrun Hs Hst Hid Hpick.
  assert (@monolith_recoverable X past (monolith c)) as Hc.
  { split; [exact Hok|exact Htx|]. split; rewrite ?Hsaga, ?Hout; simpl; set_solver. }
  apply (cluster_recoverable cfg redis bind smtp ttl) in Hrun as [Hok' Htx' Hrec]; [|exact Hc].
  rewrite <- Hsrv in HL, HU, Hok', Hrec.
  by apply (recoverable_resumes (Env0 := now) (Env1 := now')).
Qed.

(** ** A worked recovery *)

Section Witness.
#[local] Existing Instance script_server_laws.
#[local] Existing Instance script_json_laws.
#[local] Existing Instance script_uuid_text.

Local Abbreviation run_faulty :=
  (@run_op Script faulty_env (sample_config "") false TransportBroker sample_bind).

(** The broker refuses the first publish. *)
Definition before_outage : Cluster Script Script :=
  mkCluster (play empty_db (mkScript [] 100 7 [] ∅ []
    [inr (mkHttpResponse 200 "{}")] [inl "connection refused"] [] [])) (play empty_db calm).
Definition faulty_op (op : Op) (c : Cluster Script Script) : Cluster Script Script :=
  mkCluster (run_faulty op (monolith c)).2 (notifier c).
Definition stuck : Cluster Script Script :=
  faulty_op OpDrain (faulty_op subscribe_new before_outage).

Definition stuck_row : Subscription :=
  mkSubscription 1 "new@example.com" "golang/go" (script_uuid 7) false StatusPending 101.
Definition stuck_saga : Saga :=
  mkSaga (script_uuid 8) 1 "new@example.com" "golang/go" StateSubscriptionCreated 0 None 101 101.

(** Three minutes later: a saga is stale after two. *)
Definition later (x : Script) : Script :=
  mkScript (sc_pg x) 180000000000 (sc_uuid x) (sc_canceled x) (sc_redis x) (sc_redis_up x)
    (sc_http x) (sc_publish x) (sc_smtp x) (sc_grpc x).
Definition stale : Cluster Script Script :=
  mkCluster (set_ext (later (w_ext (monolith stuck))) (monolith stuck))
    (set_ext (w_ext (notifier stuck)) (notifier stuck)).

Lemma stale_runs :
  @cluster_runs Script Script faulty_env calm_env (sample_config "") false TransportBroker
    sample_bind sample_smtp 60 [subscribe_new; OpDrain] before_outage stale.
Proof.
  unfold stale. apply (cl_env (Env0 := faulty_env) (Env1 := calm_env)).
  unfold stuck. apply (cl_op (Env0 := faulty_env) (Env1 := calm_env) _ _ _ _ _ _ OpDrain [subscribe_new]).
  apply (cl_op (Env0 := faulty_env) (Env1 := calm_env) _ _ _ _ _ _ subscribe_new []). apply cl_start.
Qed.

Lemma waiting_saga_is_not_stuck_witness :
  snd <$> publishes (w_trace (monolith stale)) = [false] /\
  @resumes Script Script calm_env calm_env (sample_config "") false sample_bind sample_smtp 60
    (monolith stale) (notifier stale) stuck_row stuck_saga.
Proof.
  split; [vm_compute; reflexivity|].
  apply (waiting_saga_is_not_stuck faulty_env calm_env calm_env calm_env (sample_config "") false
    sample_bind sample_smtp 60 [subscribe_new; OpDrain] before_outage stale stuck_row stuck_saga
    script_server_laws script_json_laws script_uuid_text (script_redis true) eq_refl
    calm_healthy calm_broker calm_broker).
  - by split; [apply empty_db_ok|..].
  - reflexivity.
  - exact stale_runs.
  - vm_compute. apply elem_of_cons. by left.
  - reflexivity.
  - reflexivity.
  - vm_compute. apply elem_of_cons. by left.
Defined.
End Witness.
