(* ===== verification/Crash.v ===== *)
(** * Recovery from a crash at any statement

    Recovery.v, for the goroutines: the invariant that makes a waiting saga
    recoverable holds between any two statements, whatever the other goroutines
    are in the middle of ([interleaved_outbox]). So a crash may come anywhere, between the publish of a
    command and its mark, or in the middle of a request, and the saga can still be
    decided afterwards. What the relay relies on is that a row of the outbox
    never changes its message. *)

From stdpp Require Import pretty.
From S2P Require Import Prelude GoErrors Tables Env Logic Script Schema Samples Json Wire Metrics.
From S2P Require Import Notifier.
From S2P Require Import Spec SubStore SagaStore OutboxStore TrackStore Notification SagaMachine.
From S2P Require Import Orchestrator RepoSpec Email Service Gateway Scanner Handler Config.
From S2P Require Import ReplyConsumer Sweeper Relay Wiring Footprint Commands System Growth.
From S2P Require Import Threads Stepwise Interleave Issue Ledger Provenance Cluster Completion.
From S2P Require Import Recovery.

Local Open Scope string_scope.
Local Open Scope Z_scope.

(** ** The rows of the outbox keep their messages *)

Definition same_message (a b : OutboxMessage) : Prop :=
  ob_ID b = ob_ID a /\ message_of b = message_of a.

#[export] Instance same_message_preorder : PreOrder same_message.
Proof. split; [done|]. intros a b c [H1 H2] [H3 H4]. split; congruence. Qed.

Definition queue_kept (d d' : DB) : Prop :=
  exists l new, outbox d' = app l new /\ Forall2 same_message (outbox d) l.

Lemma queue_same d d' : outbox d' = outbox d -> queue_kept d d'.
Proof. intros Ho. exists (outbox d), []. by rewrite app_nil_r. Qed.

Lemma queue_added d d' new : outbox d' = app (outbox d) new -> queue_kept d d'.
Proof. intros Ho. by exists (outbox d), new. Qed.

Lemma queue_update P f d :
  (forall m, same_message m (f m)) ->
  queue_kept d (set_outbox (update_where P f (outbox d)) d).
Proof.
  intros Hf. eexists _, []. simpl. rewrite app_nil_r. split; [done|].
  apply Forall2_fmap_r, Forall_Forall2_diag, Forall_forall. intros m _. simpl. by destruct (P m).
Qed.

#[export] Instance queue_kept_preorder : PreOrder queue_kept.
Proof.
  split; [intros d; by apply queue_same|].
  intros d1 d2 d3 (l1 & n1 & Ho1 & Hm1) (l2 & n2 & Ho2 & Hm2).
  rewrite Ho1 in Hm2. apply Forall2_app_inv_l in Hm2 as (k & n & Hk & Hn & ->).
  exists k, (app n n2). split; [by rewrite Ho2, app_assoc|]. by etrans.
Qed.

#[export] Instance queue_kept_steady d0 : Steady (queue_kept d0).
Proof.
  split.
  - split. by intros t d _ H.
  - intros d d' Ho _ H. etrans; [exact H|by apply queue_same].
  - intros u d H. etrans; [exact H|by apply queue_update].
Qed.

(** The message of [m] is that of its row. *)
Definition queued (m : OutboxMessage) (d : DB) : Prop := exists a, a ∈ outbox d /\ same_message m a.

Lemma queued_kept m d d' : queue_kept d d' -> queued m d -> queued m d'.
Proof.
  intros (l & new & Ho & Hm) (a & Ha & Hs).
  destruct (Forall2_elem_l _ _ _ _ Hm Ha) as (b & Hb & Hab).
  exists b. split; [rewrite Ho; set_solver|by etrans].
Qed.

(** ** What every step keeps *)

Section Sound.
Context {X : Type} `{!Env X} `{!PgServerLaws env_server} `{!RedisLaws X}.
Implicit Types w : World X.

Definition upheld w : Prop := settled w /\ recoverable (taken w) (w_db w).
Definition moves_on w w' : Prop :=
  queue_kept (w_db w) (w_db w') /\ forall p, taken w p -> taken w' p.

Definition sound {A} (m : GoM X A) : Prop :=
  forall w, upheld w -> upheld (m w).2 /\ moves_on w (m w).2.

Local Abbreviation any_effect := (mkAllow True (fun _ => True) (fun _ => True) (fun _ => True) true).
Local Abbreviation held := (along (X := X) upheld moves_on moves_on).

(** The trace grows. *)
Lemma effects_taken {A} (m : GoM X A) w p : effects any_effect m -> taken w p -> taken (m w).2 p.
Proof.
  intros He Hp. destruct (effects_leaves _ m w He) as (evs & Htr & _). unfold taken. rewrite Htr.
  set_solver.
Qed.

Lemma sound_step {A} (m : GoM X A) :
  effects any_effect m ->
  (forall w, upheld w -> settled (m w).2 /\ queue_kept (w_db w) (w_db (m w).2) /\
     recoverable (taken w) (w_db (m w).2)) -> sound m.
Proof.
  intros He Hm w Hw. destruct (Hm w Hw) as (Hw' & Hq & Hr).
  assert (forall p, taken w p -> taken (m w).2 p) as Ht by (intros p; by apply effects_taken).
  split; [|done]. split; [done|]. by eapply recoverable_mono, Hr.
Qed.

(** A statement that neither enqueues nor marks, by the hints of Interleave.v,
    Commands.v and Footprint.v. *)
Lemma sound_by {A} (m : GoM X A) :
  safe same_saga same_saga (fun _ => True) (fun _ => True) (atom m) ->
  (forall P, Steady P -> keeps P m) -> effects any_effect m -> sound m.
Proof.
  intros Hs Hk He. apply sound_step; [done|]. intros w [Hw Hr].
  destruct (secured_atom_inv _ _ _ m _ _ w Hs Hw I) as (Hw' & _ & _). destruct Hw as [Htx _].
  split; [done|]. split; [by apply (keeps_db _ m w (Hk _ _))|by apply (keeps_db _ m w (Hk _ _))].
Qed.

(** One that leaves the database alone. *)
Lemma sound_quiet {A} (m : GoM X A) :
  (forall w, wp m (fun _ w' => w_tx w' = w_tx w /\ w_db w' = w_db w) w) ->
  effects any_effect m -> sound m.
Proof.
  intros Hm He. apply sound_step; [done|]. intros w [[Htx Hok] Hr]. destruct (Hm w) as [Htx' Hdb].
  unfold settled. rewrite Hdb, Htx'. done.
Qed.

Lemma every_held {A} (K : World X -> Prop) (p : Prog X A) :
  stable upheld moves_on K -> every (@sound) p -> held K p.
Proof.
  intros HK. induction p as [r|B m k IH]; simpl; [by intros _ a|]. intros [Hm Hk].
  exists (fun _ => K). split; [done|]. split; [|by intros r; apply IH].
  intros w Hw HKw. destruct (Hm w Hw) as [Hw' Hmv]. exists (m w).2. split; [done|].
  split; [done|]. split; [done|]. by apply (HK w).
Qed.
End Sound.

Abbreviation sound_prog := (every (fun B (m : GoM _ B) => sound m)).

Section Steps.
Context {X : Type} `{!Env X} `{!PgServerLaws env_server} `{!RedisLaws X}.
Variables (cfg : Config) (redis : bool).
Local Abbreviation sound := (sound (X := X)).

Lemma UpdateState_sound id st le : sound (UpdateState id st le).
Proof.
  apply sound_by; [|intros P HP; auto with go_db|auto with go_db].
  apply (UpdateState_safe same_saga same_saga); [done|].
  apply (any_update_may (X := X) same_saga same_saga); [apply any_saga_update|done].
Qed.
Lemma MarkFailed_sound id : sound (MarkFailed id).
Proof.
  apply sound_by; [|intros P HP; auto with go_db|auto with go_db].
  by apply (MarkFailed_safe same_saga same_saga).
Qed.
Lemma inc_sound name ls : sound (inc name ls).
Proof. apply sound_quiet; [by intros w|]. apply effects_inc. by left. Qed.
Lemma observe_sound name ls : sound (observe name ls).
Proof. apply inc_sound. Qed.
Lemma scanner_error_sound reason : sound (scanner_error reason).
Proof. apply inc_sound. Qed.
Lemma select_sound d : sound (select_done_or_after d).
Proof. apply sound_quiet; [|auto with go_db]. intros w. by apply wp_select. Qed.
Lemma settle_sound r : sound (Stepwise.settle r).
Proof. apply sound_quiet; [by intros w|]. intros w. apply rtc_once, eff_emit. by destruct r. Qed.
Lemma time_sound : sound time_Now.
Proof. apply sound_quiet; [by intros w|auto with go_db]. Qed.
Lemma uuid_sound : sound uuid_NewString.
Proof. apply sound_quiet; [by intros w|auto with go_db]. Qed.
Lemma Publish_sound key mid body : sound (Publish key mid body).
Proof.
  apply sound_quiet; [|by apply Publish_effects]. intros w. unfold Publish.
  apply wp_ext_call; intros; done.
Qed.
Lemma query_sound {A} (f : DB -> result A) : sound (db_stmt (fun _ d => (f d, d))).
Proof. apply sound_quiet; [|auto with go_db]. intros w. by apply wp_query. Qed.
Lemma GetByID_sound id : sound (GetByID id).
Proof.
  apply sound_quiet; [|unfold GetByID; solve_effects]. intros w. unfold GetByID.
  apply wp_wrap, wp_db_stmt; intros; simpl; repeat case_match; done.
Qed.
Lemma CheckRepoExists_sound owner name :
  sound (CheckRepoExists (github_service (run_github X cfg redis)) owner name).
Proof.
  apply sound_quiet; [|apply run_github_effects]. intros w.
  eapply wp_mono; [apply check_repo_frame|]. by intros r w' (? & ? & _).
Qed.
Lemma GetLatestRelease_sound owner name :
  sound (up_GetLatestRelease (run_github X cfg redis) owner name).
Proof.
  apply sound_quiet; [|apply run_github_effects]. intros w. eapply wp_mono.
  { apply (checker_spec (github := up_GetLatestRelease (run_github X cfg redis))). }
  intros r w' ((Hdb & Htx & _) & _). by split.
Qed.
Lemma handler_GetSubscriptions_sound email : sound_prog (handler_GetSubscriptions_t (X := X) email).
Proof.
  apply every_atom, sound_by.
  - by apply (handler_GetSubscriptions_steps same_saga same_saga).
  - intros P HP. unfold handler_GetSubscriptions. pose proof (GetSubscriptions_steady (X := X)).
    solve_commands.
  - unfold handler_GetSubscriptions. pose proof (GetSubscriptions_effects (X := X)). solve_effects.
Qed.
End Steps.

#[export] Hint Resolve UpdateState_sound MarkFailed_sound inc_sound observe_sound
  scanner_error_sound select_sound settle_sound time_sound uuid_sound Publish_sound query_sound
  GetByID_sound CheckRepoExists_sound GetLatestRelease_sound handler_GetSubscriptions_sound : go_db.

Ltac solve_sound :=
  solve_every ltac:(first [solve [auto 2 with go_db nocore]
    | apply sound_by; [auto with go_db nocore|intros ? ?; solve_commands|solve_effects]]).

(** ** The programs *)

Section Programs.
Context {X : Type} `{!Env X} `{!PgServerLaws env_server} `{!PgJsonLaws env_server}.
Context `{!PgUuidText env_server} `{!RedisLaws X}.
Variables (cfg : Config) (redis : bool).
Variable bind : string -> option SubscribeRequest.
Implicit Types w : World X.
Local Abbreviation github := (github_service (run_github X cfg redis)).
Local Abbreviation held := (along (X := X) upheld moves_on moves_on).

(** The broker's T1, which leaves the command of its saga. *)
Lemma t1_sound email repo token url (m : GoM X unit) (eff : Z -> DB -> DB -> Prop) :
  ValidateEmail email = true -> effects (mkAllow True (fun _ => True) (fun _ => True) (fun _ => True) true) m ->
  keeps db_ok m ->
  (forall w, w_tx w = None -> wp m (tx_result (fun _ : unit => eff) w) w) ->
  (forall now d d', eff now d d' -> exists subID subs',
     t1_effect subID subs' email repo token url now d d') ->
  sound m.
Proof.
  intros Hv He Hok Hm Heff. apply sound_step; [done|]. intros w [[Htx Hd] Hr].
  destruct (Hm w Htx) as (Htx' & _ & _ & H).
  split; [split; [done|by apply (keeps_db _ m w Hok)]|].
  assert (same_rows (w_db (m w).2) (w_db w) \/ exists now, eff now (w_db w) (w_db (m w).2))
    as [Hrows|(now & (subID & subs' & Ht1)%Heff)].
  { destruct ((m w).1) as [[]|e]; [by right|].
    destruct H as [H|([] & now & H)]; [by left|right; by exists now]. }
  - split; [|by eapply recoverable_rows]. apply queue_same. by destruct Hrows as (_ & _ & -> & _).
  - split; [|eapply recoverable_started; [exact Hv|exact Ht1|exact Hr]].
    destruct Ht1 as (sagaID & u & body & _ & _ & _ & _ & _ & Hout). by eapply queue_added.
Qed.

Lemma StartConfirmation_sound email repo token url :
  ValidateEmail email = true -> sound (StartConfirmation None email repo token url).
Proof.
  intros Hv. eapply (t1_sound email repo token url); [done|..].
  - by apply (StartConfirmation_effects _ TransportBroker).
  - exact (StartConfirmation_keeps TransportBroker _ _ _ _).
  - intros w Htx. by apply StartConfirmation_broker_result.
  - intros now d d' H. by eexists _, _.
Qed.
Lemma ReactivateConfirmation_sound id email repo token url :
  ValidateEmail email = true -> sound (ReactivateConfirmation None id email repo token url).
Proof.
  intros Hv. eapply (t1_sound email repo token url); [done|..].
  - by apply (ReactivateConfirmation_effects _ TransportBroker).
  - exact (ReactivateConfirmation_keeps TransportBroker _ _ _ _ _).
  - intros w Htx. by apply ReactivateConfirmation_broker_result.
  - intros now d d' [_ H]. by eexists _, _.
Qed.

Lemma Subscribe_t_sound email repo :
  sound_prog (Subscribe_t github None (BaseURL cfg) email repo).
Proof.
  unfold Subscribe_t. destruct (ValidateEmail email) eqn:Hv; [|done]. cbn [negb].
  pose proof (fun token url => StartConfirmation_sound email repo token url Hv).
  pose proof (fun id token url => ReactivateConfirmation_sound id email repo token url Hv).
  unfold StartConfirmation_t, ReactivateConfirmation_t, GetSubscriptionByEmailAndRepo. solve_sound.
Qed.

Lemma Confirm_t_sound token : sound_prog (Confirm_t (X := X) token).
Proof.
  assert (sound (ConfirmSubscription (X := X) token)).
  { apply sound_by; [by apply (ConfirmSubscription_safe same_saga same_saga)
      |intros P HP; unfold ConfirmSubscription; solve_commands
      |unfold ConfirmSubscription; solve_effects]. }
  unfold Confirm_t, GetSubscriptionByToken. solve_sound.
Qed.

Lemma Unsubscribe_t_sound token : sound_prog (Unsubscribe_t (X := X) token).
Proof.
  assert (sound (DeleteSubscription (X := X) token)).
  { apply sound_by; [by apply (DeleteSubscription_safe same_saga same_saga)
      |intros P HP; unfold DeleteSubscription; solve_commands
      |unfold DeleteSubscription; solve_effects]. }
  unfold Unsubscribe_t, GetSubscriptionByToken. solve_sound.
Qed.

Lemma BuildRouter_t_sound req :
  sound_prog (BuildRouter_t github None (BaseURL cfg) (APIKey cfg) true bind req).
Proof.
  pose proof Subscribe_t_sound. pose proof Confirm_t_sound. pose proof Unsubscribe_t_sound.
  unfold BuildRouter_t, RequestLogger_t, GinMiddleware_t, dispatch_route_t, APIKeyAuth_t,
    handler_Subscribe_t, handleTokenAction_t. solve_sound.
Qed.

Lemma run_delivery_t_sound body : sound_prog (run_delivery_t (X := X) body).
Proof.
  assert (sound_prog (HandleReply_t (X := X) body)) as Hr
    by (unfold HandleReply_t, advance_t, compensate_t; solve_sound).
  unfold run_delivery_t. apply every_bind; [apply every_try|solve_sound].
  generalize 3%nat. intros n. induction n as [|n IH]; cbn [retry_reply_t]; solve_sound.
Qed.

Lemma Sweep_t_sound stale : sound_prog (Sweep_t (X := X) stale).
Proof. unfold Sweep_t, sweep_one_t. solve_sound. Qed.

Lemma scan_t_sound :
  sound_prog (scan_t (up_GetLatestRelease (run_github X cfg redis)) SendReleaseNotification
    (BaseURL cfg)).
Proof.
  unfold scan_t, checkRepo_t, detectNewRelease_t, recordAndNotify_t, notify_t, GetRepoTracking,
    ActiveRepos, GetActiveRepos, SendReleaseNotification, publish. solve_sound.
Qed.

(** *** The relay *)

Lemma queued_stable (msgs : list OutboxMessage) :
  stable upheld moves_on (fun w => forall m, m ∈ msgs -> queued m (w_db w)).
Proof. intros w w' _ _ [Hq _] H m Hm. eapply queued_kept; [exact Hq|by apply H]. Qed.

(** The rows that were fetched are rows of the outbox. *)
Lemma FetchUnpublished_queued n :
  secured (X := X) upheld moves_on moves_on (atom (FetchUnpublished n)) (fun _ => True)
    (fun r w => forall msgs : list OutboxMessage, r = Ok msgs ->
       forall m, m ∈ msgs -> queued m (w_db w)).
Proof.
  apply secured_atom.
  { intros r w w' H1 H2 Hm H msgs Hr. exact (queued_stable msgs w w' H1 H2 Hm (H msgs Hr)). }
  intros w Hw _. assert (sound (FetchUnpublished (X := X) n)) as Hs.
  { apply sound_by; [by apply (FetchUnpublished_safe same_saga same_saga)
      |intros P HP; solve_commands|auto with go_db]. }
  destruct (Hs w Hw) as [Hw' Hm]. unfold wp. split; [done|]. split; [done|].
  assert (wp (FetchUnpublished n) (fun r w' => forall msgs : list OutboxMessage, r = Ok msgs ->
    forall m, m ∈ msgs -> queued m (w_db w')) w) as H; [|exact H].
  apply wp_wrap, wp_query; [done|]. intros x msgs [= <-] m Hin.
  exists m. split; [|done]. by apply unpublished_rows_elem in Hin as [? _].
Qed.

(** A row is marked after the broker accepted its message. *)
Lemma MarkPublished_held m (K : World X -> Prop) :
  stable upheld moves_on K -> (forall w, K w -> queued m (w_db w) /\ taken w (message_of m)) ->
  held K (atom (MarkPublished (ob_ID m))).
Proof.
  intros HK Hm. apply secured_atom; [done|]. intros w Hw HKw.
  destruct (Hm w HKw) as [(a & Ha & Hid & Hmsg) Ht]. pose proof Hw as [[Htx Hok] [H1 H2]].
  set (mark t := set_outbox (update_where (by_outbox_id (ob_ID m)) (set_published (Some t))
    (outbox (w_db w))) (w_db w)).
  assert (wp (MarkPublished (ob_ID m)) (fun _ w' => w_tx w' = None /\ w_trace w' = w_trace w /\
    (w_db w' = w_db w \/ exists t, w_db w' = mark t)) w) as Hmark.
  { unfold MarkPublished. apply wp_wrap, wp_db_stmt; intros; simpl;
      (split; [done|]; split; [done|]); [by left|right; by eexists..]. }
  apply (wp_keeps db_ok); [auto with go_db|done|done|]. eapply wp_mono; [exact Hmark|].
  intros r w' (Htx' & Htr & Hdb) Hok'.
  assert (forall p, taken w p -> taken w' p) as Htk by (unfold taken; by rewrite Htr).
  assert (upheld w' /\ moves_on w w') as [Hw' Hmv]; [|by split_and!; eauto].
  destruct Hdb as [Hdb|(t & Hdb)].
  { split; [|split; [by rewrite Hdb|done]]. split; [done|]. rewrite Hdb.
    eapply recoverable_mono; [exact Htk|done]. }
  split; [split; [done|]|split; [rewrite Hdb; by apply queue_update|done]].
  pose proof (outbox_ids_NoDup _ _ (db_outbox_ok _ Hok)) as Hids.
  eapply recoverable_mono; [exact Htk|]. rewrite Hdb.
  apply (recoverable_marked _ [m] (w_db w) (mark t));
    [done|refine (marked_update [m] m t (outbox (w_db w)) _); set_solver| |done].
  intros m' s Hm' Hs%list_elem_of_singleton Heq. subst s.
  assert (m' = a) as -> by (eapply (NoDup_fmap_inj ob_ID); [done..|congruence]).
  by rewrite Hmsg.
Qed.

Lemma drain_batch_t_held msgs (K : World X -> Prop) :
  stable upheld moves_on K -> (forall w m, K w -> m ∈ msgs -> queued m (w_db w)) ->
  held K (drain_batch_t msgs).
Proof.
  revert K. induction msgs as [|m msgs IH]; intros K HK Hm; cbn [drain_batch_t]; [by apply along_ret|].
  set (K' := fun r w => K w /\ (r = Ok tt -> taken w (message_of m))).
  assert (forall r, stable upheld moves_on (K' r)) as HK'.
  { intros r w w' H1 H2 Hmv [Hk Ht]. split; [exact (HK w w' H1 H2 Hmv Hk)|].
    intros Hr. apply Hmv. auto. }
  eapply secured_bind with (S := fun r w => K w /\ forall r', r = Ok r' -> K' r' w);
    [| |by intros e w _ [H _]].
  { apply secured_try. eapply secured_weaken with (Q := K'); [|done|].
    2: { intros r w _ H. split; [apply H|by intros r' [= <-]]. }
    apply secured_atom; [done|]. intros w Hw HKw.
    destruct (Publish_sound (X := X) (ob_RoutingKey m) (ob_MessageID m) (ob_Payload m) w Hw)
      as [Hw' Hmv].
    unfold wp. split; [done|]. split; [done|]. split; [exact (HK w _ Hw Hw' Hmv HKw)|].
    assert (wp (Publish (ob_RoutingKey m) (ob_MessageID m) (ob_Payload m)) (fun r w' =>
      r = Ok tt -> taken w' (message_of m)) w) as H; [|exact H].
    apply wp_ext_call; intros a x _; [|done]. intros _. unfold taken. simpl. set_solver. }
  intros r. eapply secured_weaken with (P := K' r) (Q := fun _ => K' r);
    [|intros w _ H; by apply H|intros r' w _ [H _]; exact H].
  destruct r as [[]|e]; [|by apply along_ret].
  change (held (K' (Ok tt)) (try_t (atom (MarkPublished (ob_ID m))) ;; drain_batch_t msgs)).
  apply along_bind; [apply along_try, MarkPublished_held; [done|]|intros _; apply IH; [done|]].
  - intros w [Hk Ht]. split; [apply (Hm w); [done|set_solver]|by apply Ht].
  - intros w m' [Hk _] Hin. apply (Hm w); [done|set_solver].
Qed.

Lemma drain_t_held : held (fun _ => True) drain_t.
Proof.
  unfold drain_t. eapply secured_bind with (S := fun r w => forall msgs, r = Ok (Ok msgs) ->
    forall m, m ∈ msgs -> queued m (w_db w)); [| |done].
  { apply secured_try. eapply secured_weaken; [apply FetchUnpublished_queued|done|].
    intros r w _ H msgs [= ->]. by apply H. }
  intros [msgs|e]; [|done].
  eapply secured_weaken; [apply (drain_batch_t_held msgs _ (queued_stable msgs))| |done].
  - intros w m H. apply H.
  - intros w _ H. exact (H msgs eq_refl).
Qed.

(** ** The goroutines *)

Lemma op_t_held op : held (fun _ => True) (op_t cfg redis TransportBroker bind op).
Proof.
  destruct op as [req| | |body|]; unfold op_t.
  - apply along_bind; [|intros resp; by apply along_ret].
    by apply every_held; [|apply BuildRouter_t_sound].
  - by apply every_held; [|apply scan_t_sound].
  - apply drain_t_held.
  - by apply every_held; [|apply run_delivery_t_sound].
  - by apply every_held; [|apply Sweep_t_sound].
Qed.

Lemma process_upheld threads sched w :
  upheld w -> upheld (play_turns sched (process cfg redis TransportBroker bind threads w)).2.
Proof.
  intros Hw.
  assert (pool_ok upheld (fun _ => moves_on) (fun _ => moves_on)
    (process cfg redis TransportBroker bind threads w).1
    (process cfg redis TransportBroker bind threads w).2) as Hc.
  { split; [done|]. intros i p Hp. simpl in Hp. rewrite list_lookup_fmap in Hp.
    apply fmap_Some in Hp as (ops & _ & ->). exists (fun _ => True). split; [done|]. split; [done|].
    unfold goroutine. apply secured_for_each. intros op _.
    change (held (fun _ => True) (try_t (op_t cfg redis TransportBroker bind op) ;; mret ())).
    apply along_bind; [apply along_try, op_t_held|intros r; by apply along_ret]. }
  revert Hc. generalize (process cfg redis TransportBroker bind threads w).
  induction sched as [|t sched IH]; intros [ps v] Hc; simpl; [apply Hc|]. apply IH.
  destruct (secured_turn upheld (fun _ => moves_on) (fun _ => moves_on) set_ext ltac:(done) ltac:(done))
    with (t := t) (ps := ps) (a := v) as (v' & Hv & Hc' & _); [| |done|].
  - by intros x w1 [[H1 H2] H3].
  - intros i x w1. by split.
  - change (v' = (turn t (ps, v)).2) in Hv. subst v'. exact Hc'.
Qed.
End Programs.

(** ** The outbox, at every point *)

(** C33: The transactional outbox, under concurrency: take any number of
    goroutines of the monolith with the broker transport, from tables without
    sagas and messages, interleaved at every statement and killed between any
    two, whatever fails. At every point each saga has in the outbox the command
    that asks for its confirmation (so no saga is stored without its command,
    and no command is lost), and a row that is marked published holds a message
    that the broker has accepted. *)
Theorem interleaved_outbox {X : Type} `{!Env X} `{!PgServerLaws env_server}
    `{!PgJsonLaws env_server} `{!PgUuidText env_server} `{!RedisLaws X}
    (cfg : Config) (redis : bool) (bind : string -> option SubscribeRequest)
    threads sched (w0 : World X) :
  settled w0 -> outbox (w_db w0) = [] -> saga (w_db w0) = [] ->
  let w := (play_turns sched (process cfg redis TransportBroker bind threads w0)).2 in
  (forall sg, sg ∈ saga (w_db w) -> exists m req, m ∈ outbox (w_db w) /\
     ob_SagaID m = Some (saga_ID sg) /\ ob_RoutingKey m = RoutingConfirm /\
     ob_MessageID m <> "" /\ unmarshal (ob_Payload m) = Ok req /\
     pg_uuid (cr_SagaID req) = Some (saga_ID sg)) /\
  (forall m t, m ∈ outbox (w_db w) -> ob_PublishedAt m = Some t ->
     EvPublish (mkPublishing ExchangeName (ob_RoutingKey m) "application/json" true
       (ob_MessageID m) (ob_Payload m)) true ∈ w_trace w).
Proof.
  intros Hw0 Hout Hsaga w. assert (upheld w) as [_ [Hc Hp]].
  { apply process_upheld. split; [done|]. split; rewrite ?Hsaga, ?Hout; simpl; set_solver. }
  split.
  - intros sg Hsg. destruct (Hc (saga_ID sg)) as (m & Hm & Hid & Hkey & Hne & u & email & url & Hu & Hreq);
      [by apply list_elem_of_fmap_2|].
    by exists m, (mkConfirmationRequest u email url).
  - intros m t Hm Ht. apply (Hp m Hm). unfold unpublished. by rewrite Ht.
Qed.

(** ** The property *)

(** C3: No waiting saga is stuck, wherever the monolith crashed: take any number
    of its goroutines with the broker transport, from tables without sagas and
    messages, interleaved at every statement and killed between any two,
    whatever failed on the way (also before a publish, between a publish and its
    mark, or after the command was consumed and acked and its reply was lost),
    and any state of the notifier. Once PostgreSQL and the broker answer (the
    SMTP relay and Redis need not), take a saga that still waits, whose
    subscription still exists, and that is among the ones the sweeper picks:
    the [resume_limit] oldest of those left alone for the stale time. One sweep
    and then at most as many drains as rows wait after it publish the command of
    that saga again, and the broker accepts it; one delivery of that message
    makes the notifier publish a reply, sent exactly when Redis knew the message
    or the relay accepted the mail; and one delivery of that reply ends the
    saga, completed, or failed together with its subscription. *)
Theorem crashed_saga_is_not_stuck {X Y : Type} (past now : Env X) (now' : Env Y)
    (cfg : Config) (redis : bool) (bind : string -> option SubscribeRequest)
    (smtp : SMTPSender) (ttl : Z) threads sched (w0 : World X) (v : World Y) s sg :
  PgServerLaws (env_server (Env := past)) -> PgJsonLaws (env_server (Env := past)) ->
  PgUuidText (env_server (Env := past)) -> @RedisLaws X past ->
  @env_server X now = @env_server X past ->
  @healthy_db X now -> @broker_up X now -> @broker_up Y now' ->
  @settled X past w0 -> outbox (w_db w0) = [] -> saga (w_db w0) = [] ->
  let w := (play_turns sched (@process X past cfg redis TransportBroker bind threads w0)).2 in
  s ∈ subscriptions (w_db w) ->
  saga_State sg = StateSubscriptionCreated -> saga_SubscriptionID sg = sub_ID s ->
  sg ∈ @resumable_rows (@env_server X now) ((@env_clock X now (w_ext w)).1 - stale_after cfg)
         (w_db w) ->
  exists n p req evs evs' s',
    let redo op u := (@run_op X now cfg redis TransportBroker bind op u).2 in
    let w1 := redo OpSweep w in
    let w2 := Nat.iter n (redo OpDrain) w1 in
    let v' := (@consume Y now' (SMTP smtp) (redisDeduper ttl) (delivery_of p) v).2 in
    let sent := message_known (delivery_of p) (w_ext v) || existsb mail_taken evs' in
    (n <= count_where unpublished (outbox (w_db w1)))%nat /\
    w_trace w2 = app (w_trace w) evs /\ EvPublish p true ∈ evs /\
    saga_command (delivery_of p) = Some req /\
    @pg_uuid (@env_server X now) (cr_SagaID req) = Some (saga_ID sg) /\
    w_trace v' = app (w_trace v) evs' /\
    EvPublish (reply_message (cr_SagaID req) (status_of sent)) true ∈ evs' /\
    s' ∈ subscriptions (w_db w2) /\ sub_ID s' = sub_ID s /\ sub_key s' = sub_key s /\
    decided sent s' sg
      (w_db (redo (OpReply (marshal (mkSagaReply (cr_SagaID req) (status_of sent)))) w2)).
Proof.
  intros HL HJ HU HR Hsrv Hh Hb Hb' Hw0 Hout Hsaga w Hs Hst Hid Hpick.
  assert (@upheld X past w) as [[Htx Hok] Hrec].
  { apply process_upheld; [done..|]. split; [done|]. split; rewrite ?Hsaga, ?Hout; simpl; set_solver. }
  clearbody w. rewrite <- Hsrv in HL, HU, Hok, Hrec.
  by apply (recoverable_resumes (Env0 := now) (Env1 := now') cfg redis bind smtp ttl w v s sg).
Qed.

(** ** A worked crash *)

Section Witness.
#[local] Existing Instance script_server_laws.
#[local] Existing Instance script_json_laws.
#[local] Existing Instance script_uuid_text.

(** The relay published the command and marked its row before both goroutines
    were killed; the request was never answered, and no reply came in three
    minutes. *)
Definition before_crash : World Script :=
  play empty_db (mkScript [] 100 7 [] ∅ [] [inr (mkHttpResponse 200 "{}")] [] [] []).
Definition the_crash : list (Turn Script) :=
  app (Run <$> [0; 0; 0; 0; 1; 1; 1]%nat) [Kill 0; Kill 1; Outside (later (w_ext before_crash))].
Definition crashed : World Script :=
  (play_turns the_crash (@process Script calm_env (sample_config "") false TransportBroker
     sample_bind [[subscribe_new]; [OpDrain]] before_crash)).2.

Lemma interleaved_outbox_witness :
  saga_ID <$> saga (w_db crashed) = [saga_ID stuck_saga] /\
  unpublished <$> outbox (w_db crashed) = [false] /\
  (forall sg, sg ∈ saga (w_db crashed) -> exists m, m ∈ outbox (w_db crashed) /\
     ob_SagaID m = Some (saga_ID sg)) /\
  (forall m t, m ∈ outbox (w_db crashed) -> ob_PublishedAt m = Some t ->
     EvPublish (message_of m) true ∈ w_trace crashed).
Proof.
  split; [vm_compute; reflexivity|]. split; [vm_compute; reflexivity|].
  destruct (interleaved_outbox (Env0 := calm_env) (RedisLaws0 := script_redis false) (sample_config "") false sample_bind
    [[subscribe_new]; [OpDrain]] the_crash before_crash) as [Hc Hp].
  - split; [done|apply empty_db_ok].
  - reflexivity.
  - reflexivity.
  - split; [|exact Hp]. intros sg Hsg. destruct (Hc sg Hsg) as (m & req & Hm & Hid & _).
    exists m. by split.
Defined.

Lemma crashed_saga_is_not_stuck_witness :
  snd <$> publishes (w_trace crashed) = [true] /\
  unpublished <$> outbox (w_db crashed) = [false] /\
  @resumes Script Script calm_env calm_env (sample_config "") false sample_bind sample_smtp 60
    crashed (play empty_db calm) stuck_row stuck_saga.
Proof.
  split; [vm_compute; reflexivity|]. split; [vm_compute; reflexivity|].
  apply (crashed_saga_is_not_stuck calm_env calm_env calm_env (sample_config "") false
    sample_bind sample_smtp 60 [[subscribe_new]; [OpDrain]] the_crash before_crash
    (play empty_db calm) stuck_row stuck_saga
    script_server_laws script_json_laws script_uuid_text (script_redis false) eq_refl
    calm_healthy calm_broker calm_broker).
  - split; [done|apply empty_db_ok].
  - reflexivity.
  - reflexivity.
  - vm_compute. apply elem_of_cons. by left.
  - reflexivity.
  - reflexivity.
  - vm_compute. apply elem_of_cons. by left.
Defined.
End Witness.
