(* ===== verification/Counters.v ===== *)
(** * The Prometheus series of the running monolith

    Every step of every operation counts, observes and sets only series of the
    registered collectors: for the operations one after the other, and for the
    goroutines that interleave. *)

From stdpp Require Import pretty.
From S2P Require Import Prelude GoErrors Tables Env Logic Script Schema Samples Json Wire Metrics.
From S2P Require Import SubStore SagaStore OutboxStore TrackStore Notification Orchestrator RepoSpec.
From S2P Require Import Email Service Gateway Scanner Handler Config Relay ReplyConsumer Sweeper.
From S2P Require Import Wiring Footprint System Threads Stepwise Courier Races.

Local Open Scope string_scope.

Section System.
Context {X : Type} `{!Env X}.
Variables (cfg : Config) (redis : bool) (transport : Transport).
Variable bind : string -> option SubscribeRequest.
Implicit Types w : World X.

(** net/http hands on only requests whose method is an HTTP token. *)
Definition well_formed_op (op : Op) : Prop :=
  match op with OpRequest req => valid_utf8 (r_Method req) = true | _ => True end.

Lemma run_op_effects op : well_formed_op op -> effects anything (run_op cfg redis transport bind op).
Proof.
  destruct op as [req| | |body|]; simpl; intros Hop;
    [|by apply run_scan_effects|by apply drain_effects|by apply run_delivery_effects
     |apply Sweep_effects].
  apply effects_bind; [|auto with go_db]. apply run_request_effects; [done|by right].
Qed.

(** No operation of the monolith panics on a metric: whatever requests, scans, drains,
    replies and sweeps are run, every series that was counted, observed or set
    belongs to a registered collector, with one value for each of its declared
    labels and all of them UTF-8, which is what [WithLabelValues] requires; a series outside
    the registry never appears. The methods of the requests are text, as
    net/http ensures. *)
Theorem system_metrics_typed ops w w' :
  (forall op, op ∈ ops -> well_formed_op op) -> counts w ->
  runs cfg redis transport bind ops w w' -> counts w'.
Proof.
  intros Hops Hw Hrun. induction Hrun as [w|op ops w w' Hrun IH|x ops w w' Hrun IH]; [done| |].
  - apply IH; [intros op' Hin; apply Hops, elem_of_cons; by right|].
    apply (effects_invariant anything counts); [intros w1 w2; by apply effect_counts|apply run_op_effects|done].
    apply Hops, elem_of_cons. by left.
  - by apply IH.
Qed.
End System.

(** ** The goroutines *)

Section Interleaved.
Context {X : Type} `{!Env X}.
Variables (cfg : Config) (redis : bool) (transport : Transport).
Variable bind : string -> option SubscribeRequest.
Implicit Types (w : World X) (c : Pool X).
Local Abbreviation typed p := (made anything p).
Local Abbreviation github := (run_github X cfg redis).

Ltac solve_typed :=
  solve_every ltac:(solve_effects; try first
    [ solve_inc SubscriptionsCreated | solve_inc SubscriptionsConfirmed | solve_inc Unsubscribes
    | solve_inc ScannerErrorsTotal | solve_inc ReleasesDetected | solve_inc NotificationsSent
    | solve_inc ScannerRunsTotal | solve_inc ScannerCycleDuration
    | solve_inc ScannerLastRunTimestamp ]).

Lemma Subscribe_t_typed email repo :
  typed (Subscribe_t (github_service github) (transport_sender transport) (BaseURL cfg) email repo).
Proof.
  assert (forall owner name, effects anything (CheckRepoExists (github_service github) owner name)) as Hg
    by (intros; apply run_github_effects).
  pose proof (fun email repo token url => StartConfirmation_effects (X := X) anything TransportBroker
    email repo token url I) as Hs.
  pose proof (fun id email repo token url => ReactivateConfirmation_effects (X := X) anything
    TransportBroker id email repo token url I) as Hr.
  pose proof (createSubscriptionAndSaga_effects (X := X) anything) as Hc.
  pose proof (fun email repo url => SendConfirmation_effects (X := X) anything email repo url I) as Hn.
  unfold Subscribe_t, StartConfirmation_t, ReactivateConfirmation_t, dispatchSync_t, compensateSync_t,
    GetSubscriptionByEmailAndRepo.
  destruct transport; cbn [transport_sender] in *; solve_typed.
Qed.

Lemma dispatch_route_t_typed req :
  typed (dispatch_route_t (github_service github) (transport_sender transport) (BaseURL cfg)
    (APIKey cfg) true bind req).
Proof.
  pose proof Subscribe_t_typed. pose proof (GetSubscriptions_effects (X := X) anything).
  unfold dispatch_route_t, APIKeyAuth_t, handler_Subscribe_t, handleTokenAction_t,
    handler_GetSubscriptions_t, handler_GetSubscriptions, Confirm_t, Unsubscribe_t,
    GetSubscriptionByToken, ConfirmSubscription, DeleteSubscription. solve_typed.
Qed.

Lemma BuildRouter_t_typed req :
  valid_utf8 (r_Method req) = true ->
  typed (BuildRouter_t (github_service github) (transport_sender transport) (BaseURL cfg)
    (APIKey cfg) true bind req).
Proof.
  intros Hm. pose proof dispatch_route_t_typed. unfold BuildRouter_t, RequestLogger_t, GinMiddleware_t.
  solve_typed; unfold observe; apply effects_inc; right;
    [by apply request_counted|by apply request_timed].
Qed.

Lemma op_t_typed op : well_formed_op op -> typed (op_t cfg redis transport bind op).
Proof.
  pose proof (fun key mid body => Publish_effects (X := X) anything key mid body I) as Hp.
  destruct op as [req| | |body|]; unfold op_t; intros Hop.
  - pose proof (BuildRouter_t_typed req Hop). solve_typed.
  - assert (forall owner name, effects anything (up_GetLatestRelease github owner name)) as Hg
      by (intros; apply run_github_effects).
    unfold scan_t, checkRepo_t, detectNewRelease_t, recordAndNotify_t, notify_t, scanner_error,
      GetRepoTracking, ActiveRepos, GetActiveRepos, SendReleaseNotification, publish, observe.
    solve_typed.
  - unfold drain_t. apply every_bind; [solve_typed|]. intros [msgs|e]; [|solve_typed].
    induction msgs as [|m msgs IH]; cbn [drain_batch_t]; solve_typed.
  - unfold run_delivery_t. apply every_bind; [apply every_try|].
    2: { intros r. apply every_atom. intros w. apply rtc_once, eff_emit. by destruct r. }
    assert (typed (HandleReply_t body)) as Hr
      by (unfold HandleReply_t, GetByID, advance_t, compensate_t; solve_typed).
    generalize 3%nat. intros n. induction n as [|n IH]; cbn [retry_reply_t]; solve_typed.
  - unfold Sweep_t, sweep_one_t. solve_typed.
Qed.

(** The steps of the goroutines that are left are typed, and the series so far. *)
Definition pool_typed c : Prop := (forall p, p ∈ c.1 -> typed p) /\ counts c.2.

Lemma pool_typed_turn t c : pool_typed c -> pool_typed (turn t c).
Proof.
  destruct c as [ps w]. intros [Hps Hw]. simpl in *.
  assert (forall i p w', typed p -> counts w' -> pool_typed (<[i := p]> ps, w')) as Hset.
  { intros i p w' Hp Hw'. split; [|done]. simpl. intros q (j & Hj)%list_elem_of_lookup_1.
    apply list_lookup_insert_Some in Hj as [(_ & <- & _)|[_ Hj]]; [done|].
    apply Hps. by eapply list_elem_of_lookup_2. }
  destruct t as [i|i|x]; unfold turn; simpl; [|by apply Hset|by split].
  destruct (ps !! i) as [p|] eqn:Ei; [|by split].
  assert (typed p) as Hp by (apply Hps; by eapply list_elem_of_lookup_2).
  destruct p as [r|B m k]; simpl; [by apply Hset|]. destruct Hp as [Hm Hk]. apply Hset; [done|].
  apply (effects_invariant anything counts); [intros w1 w2; by apply effect_counts|done|done].
Qed.

(** C35: No goroutine of the monolith panics on a metric: however the requests,
    scans, drains, replies and sweeps interleave, every series that was counted,
    observed or set belongs to a registered collector, with one value for each of
    its declared labels and all of them UTF-8, which is what [WithLabelValues]
    requires; a series outside the registry never appears. The methods of the
    requests are text, as net/http ensures. *)
Theorem interleaved_metrics_typed threads sched w :
  (forall ops op, ops ∈ threads -> op ∈ ops -> well_formed_op op) -> counts w ->
  counts (play_turns sched (process cfg redis transport bind threads w)).2.
Proof.
  intros Hops Hw.
  assert (pool_typed (process cfg redis transport bind threads w)) as Hc.
  { split; [|done]. simpl. intros p (ops & -> & Hin)%list_elem_of_fmap. unfold goroutine.
    assert (forall op, op ∈ ops -> well_formed_op op) as Ho by eauto. clear Hin.
    induction ops as [|op ops IH]; simpl; [done|]. apply every_bind.
    - apply every_bind; [apply every_try, op_t_typed, Ho, elem_of_cons; by left|solve_typed].
    - intros []. apply IH. intros op' Hin. apply Ho, elem_of_cons. by right. }
  revert Hc. generalize (process cfg redis transport bind threads w).
  induction sched as [|t sched IH]; intros c Hc; simpl; [apply Hc|]. by apply IH, pool_typed_turn.
Qed.
End Interleaved.

Section Witness.
#[local] Existing Instance calm_env.

Lemma system_metrics_typed_witness :
  w_metrics evening !! ("http_requests_total", ["POST"; "/api/subscribe"; "200"]) = Some 1 /\
  counts evening.
Proof.
  split; [vm_compute; reflexivity|].
  refine (system_metrics_typed (Env0 := calm_env) _ _ _ _ a_day morning evening _ _ a_day_runs).
  - intros op Hop. repeat (apply elem_of_cons in Hop as [->|Hop]; [reflexivity|]).
    by apply elem_of_nil in Hop.
  - intros k n. discriminate.
Defined.

(** The crowd of Races.v, in turns. *)
Definition turns_of_four : list (Turn Script) :=
  order (concat (replicate 12 [0; 1; 2; 3]%nat)).

Lemma interleaved_metrics_typed_witness :
  let c := play_turns turns_of_four (sample_process a_crowd empty_db) in
  is_Some (w_metrics c.2 !! ("http_requests_total", ["POST"; "/api/subscribe"; "200"])) /\
  counts c.2.
Proof.
  intros c. split; [vm_compute; by eexists|].
  apply (interleaved_metrics_typed (Env0 := calm_env) (sample_config "") true TransportBroker
    sample_bind a_crowd turns_of_four (play empty_db late)).
  - intros ops op Hops Hop. unfold a_crowd in Hops.
    repeat (apply elem_of_cons in Hops as [->|Hops]);
      try (apply list_elem_of_singleton in Hop as ->; reflexivity).
    by apply elem_of_nil in Hops.
  - intros k n. discriminate.
Defined.
End Witness.
