(* ===== verification/Loops.v ===== *)
(** * The ticker loops: Scanner.Start, Relay.Run and Sweeper.Run

    The three background workers run their body at once and then on every tick,
    until the context is canceled. [time.NewTicker] panics on an interval that
    is not positive. A loop takes fuel; [Cancelable] says that the context is
    canceled after finitely many selects, and gives a bound on the fuel. *)

From stdpp Require Import pretty.
From S2P Require Import Prelude GoErrors Tables Env Logic Script Schema Samples Json.
From S2P Require Import Notification Service Gateway Scanner Handler Config.
From S2P Require Import Relay ReplyConsumer Sweeper Wiring Footprint System.

Local Open Scope string_scope.
Local Open Scope Z_scope.

(** How a goroutine ends. *)
Inductive Exit := Returned | Panicked (msg : string).

Section Ticker.
Context {X : Type} `{!Env X}.
Local Abbreviation M := (GoM X).

(** [select { case <-ctx.Done(): ...; case <-ticker.C: ... }]: [true] when the
    context is canceled. *)
Definition select_done_or_tick : M bool := ext_read env_ctx_done.

(** [for { select ... }]; [None] when the fuel is used up. *)
Fixpoint ticker_loop (body : M unit) (fuel : nat) : M (option Exit) :=
  match fuel with
  | O => mret None
  | S fuel' =>
      stop ← select_done_or_tick;
      if (stop : bool) then mret (Some Returned)
      else body ;; ticker_loop body fuel'
  end.

(** The body at once, the ticker, the loop. *)
Definition run_ticker (interval : Z) (body : M unit) (fuel : nat) : M (option Exit) :=
  body ;;
  if interval <=? 0 then mret (Some (Panicked "non-positive interval for NewTicker"))
  else ticker_loop body fuel.
End Ticker.

(** ** The three workers *)

Section Workers.
Context {X : Type} `{!Env X}.
Local Abbreviation M := (GoM X).
Variables (cfg : Config) (redis : bool).

(** [releasetracking.New] takes the interval in seconds. *)
Definition Scanner_Start (fuel : nat) : M (option Exit) :=
  run_ticker (scan_interval cfg) (run_scan cfg redis) fuel.

Definition Relay_Run (fuel : nat) : M (option Exit) :=
  run_ticker (poll_interval cfg) (drain Publish) fuel.

(** An error of [Sweep] is logged. *)
Definition Sweeper_Run (fuel : nat) : M (option Exit) :=
  run_ticker (sweep_interval cfg) (try (Sweep (stale_after cfg)) ;; mret ()) fuel.
End Workers.

(** ** Termination *)

(** The context is canceled after at most [patience] selects: no answer of the
    environment makes it grow, and a select that finds the context open uses
    some of it. *)
Class Cancelable (X : Type) `{!Env X} : Type := {
  patience : X -> nat;
  patience_step : forall x x', env_step x x' -> (patience x' <= patience x)%nat;
  patience_open : forall x, (env_ctx_done x).1 = false ->
    (patience (env_ctx_done x).2 < patience x)%nat }.

(** A body that logs its errors. *)
Definition no_error {X A : Type} (m : GoM X A) : Prop := forall w, is_ok (m w).1 = true.

Section NoError.
Context {X : Type}.

Lemma no_error_ret {A} (a : A) : no_error (X := X) (mret a).
Proof. done. Qed.
Lemma no_error_try {A} (m : GoM X A) : no_error (try m).
Proof. done. Qed.
Lemma no_error_inc n ls : no_error (X := X) (inc n ls).
Proof. done. Qed.
Lemma no_error_observe n ls : no_error (X := X) (observe n ls).
Proof. done. Qed.
Lemma no_error_bind {A B} (m : GoM X A) (k : A -> GoM X B) :
  no_error m -> (forall a, no_error (k a)) -> no_error (m ≫= k).
Proof.
  intros Hm Hk w. unfold mbind, gom_bind. specialize (Hm w).
  destruct (m w) as [[a|e] w']; [apply Hk|done].
Qed.
Lemma no_error_for_each {A} (body : A -> GoM X unit) l :
  (forall a, no_error (body a)) -> no_error (for_each body l).
Proof. intros Hb. induction l; simpl; [done|by apply no_error_bind]. Qed.
End NoError.

#[export] Hint Resolve no_error_ret no_error_try no_error_inc no_error_observe : go_db.

Ltac solve_no_error :=
  repeat first
    [ solve [auto 2 with go_db nocore]
    | lazymatch goal with
      | |- no_error (mbind _ _) => apply no_error_bind; [|intros ?]
      | |- no_error (for_each _ _) => apply no_error_for_each; intros ?
      | |- no_error (match ?x with _ => _ end) => destruct x
      end ].

Section Termination.
Context {X : Type} `{!Env X}.
Implicit Types w : World X.

(** [passes body n w w']: from [w] the loop ran its body [n] times, each after a
    select that found the context open, and then found it canceled. *)
Inductive passes (body : GoM X unit) : nat -> World X -> World X -> Prop :=
  | passes_stop w : (env_ctx_done (w_ext w)).1 = true ->
      passes body 0 w (set_ext (env_ctx_done (w_ext w)).2 w)
  | passes_tick n w w' : (env_ctx_done (w_ext w)).1 = false ->
      passes body n (body (set_ext (env_ctx_done (w_ext w)).2 w)).2 w' ->
      passes body (S n) w w'.

Lemma run_scan_no_error cfg redis : no_error (run_scan (X := X) cfg redis).
Proof.
  unfold run_scan, scan, scanner_error, checkRepo, detectNewRelease, recordAndNotify, notify,
    scanner_error. solve_no_error.
Qed.

Lemma drain_no_error : no_error (drain (X := X) Publish).
Proof.
  unfold drain. solve_no_error.
  match goal with |- no_error (drain_batch _ ?l) => induction l as [|m l IH] end; simpl;
    solve_no_error.
Qed.

Context `{!Cancelable X}.

Lemma effects_patience {A} (m : GoM X A) w :
  effects anything m -> (patience (w_ext (m w).2) <= patience (w_ext w))%nat.
Proof.
  intros Hm. specialize (Hm w). induction Hm as [|w1 w2 w3 H12 H23 IH]; [done|].
  etrans; [exact IH|]. destruct H12; try done. by apply patience_step.
Qed.

Lemma ticker_loop_stops body fuel w :
  effects anything body -> no_error body -> (patience (w_ext w) < fuel)%nat ->
  wp (ticker_loop body fuel) (fun r w' => r = Ok (Some Returned) /\
    exists n, (n <= patience (w_ext w))%nat /\ passes body n w w') w.
Proof.
  intros Hb Hok. revert w. induction fuel as [|fuel IH]; intros w Hf; [lia|]. simpl.
  apply wp_bind. unfold wp, select_done_or_tick, ext_read. simpl.
  pose proof (patience_open (w_ext w)) as Hp.
  destruct (env_ctx_done (w_ext w)).1 eqn:Hd; simpl.
  - split; [done|]. exists 0%nat. split; [lia|]. by constructor.
  - set (w1 := set_ext (env_ctx_done (w_ext w)).2 w).
    pose proof (effects_patience body w1 Hb) as Hle. specialize (Hok w1).
    specialize (Hp eq_refl). change (w_ext w1) with (env_ctx_done (w_ext w)).2 in Hle.
    change (wp (body ;; ticker_loop body fuel) (fun r w' => r = Ok (Some Returned) /\
      exists n, (n <= patience (w_ext w))%nat /\ passes body n w w') w1).
    apply wp_bind. unfold wp at 1. destruct (body w1) as [[[]|e] w2] eqn:E; [|done]. simpl in *.
    eapply wp_mono; [apply IH; lia|]. intros r w3 (-> & n & Hn & Hrun).
    split; [done|]. exists (S n). split; [lia|]. apply passes_tick; [done|].
    fold w1. by rewrite E.
Qed.

(** The body runs at once; then either the ticker panics or the loop runs it on
    every tick until the context is canceled. *)
Definition worker_outcome (interval : Z) (body : GoM X unit) w (r : result (option Exit))
    (w' : World X) : Prop :=
  if 0 <? interval then
    r = Ok (Some Returned) /\
    exists n, (n <= patience (w_ext w))%nat /\ passes body n (body w).2 w'
  else r = Ok (Some (Panicked "non-positive interval for NewTicker")) /\ w' = (body w).2.

Lemma run_ticker_outcome interval body fuel w :
  effects anything body -> no_error body -> (patience (w_ext w) < fuel)%nat ->
  wp (run_ticker interval body fuel) (worker_outcome interval body w) w.
Proof.
  intros Hb Hok Hf. unfold run_ticker, worker_outcome. apply wp_bind. unfold wp at 1.
  pose proof (effects_patience body w Hb) as Hle. specialize (Hok w) as Hokw.
  destruct (body w) as [[[]|e] w1]; [|done]. simpl in *.
  rewrite Z.leb_antisym. destruct (0 <? interval); simpl; [|done].
  eapply wp_mono; [apply ticker_loop_stops; [done..|lia]|].
  intros r w' (-> & n & Hn & Hrun). split; [done|]. exists n. split; [lia|done].
Qed.
End Termination.

(** ** The properties of the workers *)

Section Properties.
Context {X : Type} `{!Env X}.
Implicit Types w : World X.

(** C18: The background workers terminate: once the context is to be canceled, with fuel
    beyond its patience the scanner, the relay and the sweeper come to an end
    whatever fails in between. Each runs its body at once and, if its interval
    is positive, once more for every tick, and returns at the first select that
    finds the context canceled; if it is not, the ticker panics after the first
    body. *)
Theorem workers_terminate `{!Cancelable X} cfg redis fuel w :
  (patience (w_ext w) < fuel)%nat ->
  wp (Scanner_Start cfg redis fuel)
     (worker_outcome (scan_interval cfg) (run_scan cfg redis) w) w /\
  wp (Relay_Run cfg fuel) (worker_outcome (poll_interval cfg) (drain Publish) w) w /\
  wp (Sweeper_Run cfg fuel)
     (worker_outcome (sweep_interval cfg) (try (Sweep (stale_after cfg)) ;; mret ()) w) w.
Proof.
  intros Hf. split_and!; apply run_ticker_outcome; try exact Hf.
  - by apply run_scan_effects.
  - apply run_scan_no_error.
  - by apply drain_effects.
  - apply drain_no_error.
  - solve_effects.
  - solve_no_error.
Qed.

(** The seconds that give a positive duration, and those that do not. *)
Lemma seconds_positive n :
  -9223372036 <= n <= 18446744073 -> (0 < wrap64 (n * Second) <-> 1 <= n <= 9223372036).
Proof.
  intros Hn. unfold wrap64, Second. change (2 ^ 63) with 9223372036854775808.
  change (2 ^ 64) with 18446744073709551616.
  destruct (Z_lt_le_dec 9223372036 n) as [Hlt|Hge].
  - rewrite (Z.mod_eq _ 18446744073709551616) by lia.
    assert ((n * 1000000000 + 9223372036854775808) / 18446744073709551616 = 1) as ->; [|lia].
    symmetry. apply (Z.div_unique_pos _ _ _ (n * 1000000000 + 9223372036854775808
      - 18446744073709551616)); lia.
  - rewrite Z.mod_small by lia. lia.
Qed.

(** C37: A scan interval that [config.Load] accepts can kill the process: when the
    variable holds 0, a negative number from -9223372036, or a number from
    9223372037 to 18446744073, whose product with the nanoseconds of a second
    wraps to a negative 64-bit duration, the scanner panics in its goroutine
    after the first scan. (Further out the product wraps again, and is positive
    for some numbers, -9223372037 for one.) *)
Theorem scan_interval_panics LookupEnv redis fuel w n :
  LookupEnv "SCAN_INTERVAL_SECONDS" = Some (pretty n) ->
  -9223372036 <= n <= 18446744073 -> ~ (1 <= n <= 9223372036) ->
  Scanner_Start (Load LookupEnv) redis fuel w =
    (Ok (Some (Panicked "non-positive interval for NewTicker")),
     (run_scan (Load LookupEnv) redis w).2).
Proof.
  intros Hl Hn Hbad. assert (scan_interval (Load LookupEnv) <=? 0 = true) as Hz.
  { unfold scan_interval. cbn [ScanIntervalSecs Load]. unfold getEnvInt.
    rewrite Hl, Atoi_pretty_lemma by (unfold int_min, int_max; lia).
    apply Z.leb_le. pose proof (seconds_positive n Hn). lia. }
  unfold Scanner_Start, run_ticker. rewrite Hz. unfold mbind, gom_bind.
  pose proof (run_scan_no_error (Load LookupEnv) redis w) as Hok.
  destruct (run_scan (Load LookupEnv) redis w) as [[[]|e] w1]; done.
Qed.
End Properties.

(** ** Witnesses *)

(** The scripted services, with a context that is canceled when the script of
    its answers is used up. *)
Definition stopping_env : Env Script := {|
  env_pg := @env_pg _ calm_env; env_clock := @env_clock _ calm_env;
  env_uuid := @env_uuid _ calm_env;
  env_ctx_done x :=
    let '(b, l) := pop true (sc_canceled x) in
    (b, mkScript (sc_pg x) (sc_clock x) (sc_uuid x) l (sc_redis x) (sc_redis_up x)
          (sc_http x) (sc_publish x) (sc_smtp x) (sc_grpc x));
  env_redis_get := @env_redis_get _ calm_env; env_redis_set := @env_redis_set _ calm_env;
  env_redis_exists := @env_redis_exists _ calm_env; env_http := @env_http _ calm_env;
  env_publish := @env_publish _ calm_env; env_smtp := @env_smtp _ calm_env;
  env_grpc := @env_grpc _ calm_env; env_server := script_server |}.

#[export] Instance stopping_cancelable : @Cancelable Script stopping_env.
Proof.
  unshelve econstructor; [exact (fun x => length (sc_canceled x))|..].
  - intros x x' []; simpl; try lia; unfold redis; simpl; repeat (case_match; simpl); try lia.
    unfold pop in *. repeat case_match; simplify_eq; simpl; lia.
  - intros x. simpl. destruct (sc_canceled x) as [|[] l]; simpl; [done|done|lia].
Defined.

Section Witnesses.
#[local] Existing Instance stopping_env.

(** Three ticks, then the cancellation. *)
Definition patient : World Script :=
  play (sample_db StateSubscriptionCreated)
    (mkScript [] 100 7 [false; false; false] ∅ [] [] [] [] []).

Lemma workers_terminate_witness :
  (Relay_Run (sample_config "") 4 patient).1 = Ok (Some Returned) /\
  exists n, (n <= 3)%nat /\ passes (drain Publish) n (drain Publish patient).2
    (Relay_Run (sample_config "") 4 patient).2.
Proof.
  refine (proj1 (proj2 (workers_terminate (Env0 := stopping_env) (sample_config "") true 4
    patient _))). simpl. lia.
Defined.

Definition zero_scan (name : string) : option string :=
  if String.eqb name "SCAN_INTERVAL_SECONDS" then Some "0" else None.

Lemma scan_interval_panics_witness :
  (Scanner_Start (Load zero_scan) true 0 patient).1 =
    Ok (Some (Panicked "non-positive interval for NewTicker")).
Proof.
  refine (f_equal fst (scan_interval_panics (Env0 := stopping_env) zero_scan true 0 patient 0
    eq_refl _ _)); lia.
Defined.
End Witnesses.
