(* ===== verification/Amqp.v ===== *)
(** * The AMQP connections: internal/orchestrator/reply_consumer.go,
      cmd/notifier/consumer.go, internal/notification/broker_publisher.go

    Dialing, the declaration of the topology, the receive loops and the release
    of what was opened. The answers of the broker are the class [Platform]; a
    delivery is handled by the code of ReplyConsumer.v and Notifier.v. *)

From S2P Require Import Prelude GoErrors Tables Env Logic Script Schema Samples Json Wire.
From S2P Require Import Notification Notifier ReplyConsumer Footprint System Loops.

Local Open Scope string_scope.
Local Open Scope Z_scope.

(** What the select of a receive loop finds: the context canceled, the channel
    of deliveries closed, or a delivery. *)
Inductive Received := RcvDone | RcvClosed | RcvDelivery (d : Delivery).

(** What [m.Up()] of golang-migrate says. *)
Inductive MigrateResult := UpDone | UpNoChange | UpFailed (msg : string).

(** What the main goroutine of the notifier is woken by; that of the monolith
    waits for an error of its server or ([None]) a signal. *)
Inductive Wake :=
  | WokeSignal
  | WokeServer (msg : string)
  | WokeConsumer (msg : string)
  | WokeGRPC (msg : string).

(** The broker's side of a connection, and the platform a process starts on. *)
Class Platform (X : Type) := {
  plat_amqp : AmqpCall -> X -> ext_result unit * X;
  plat_receive : X -> Received * X;
  plat_call : ProcCall -> X -> ext_result unit * X;
  plat_migrate : X -> MigrateResult * X;
  plat_server : X -> option string * X;
  plat_wait : X -> Wake * X }.

Section Calls.
Context {X : Type} `{!Platform X}.
Local Abbreviation M := (GoM X).

Definition amqp (c : AmqpCall) : M unit := ext_call (plat_amqp c) (Some (EvAmqp c)).

(** [defer conn.Close()]: the error of the close is dropped. *)
Definition defer {A} (cleanup : M unit) (body : M A) : M A := fun w =>
  let '(r, w') := body w in (r, (cleanup w').2).

(** [amqp.Dial], [conn.Channel()] and the deferred closes of the two [Run]s. *)
Definition with_channel {A} (url : string) (body : M A) : M A :=
  wrap "dial rabbitmq" (amqp (AmqpDial url)) ;;
  defer (amqp CloseConnection) (
    wrap "open channel" (amqp AmqpChannel) ;;
    defer (amqp CloseChannel) body).

(** [for { select { ... } }] over the deliveries; [None] when the fuel is used
    up. *)
Fixpoint receive_loop (on_delivery : Delivery -> M unit) (fuel : nat) : M (option unit) :=
  match fuel with
  | O => mret None
  | S fuel' =>
      got ← ext_read plat_receive;
      match got with
      | RcvDone => mret (Some ())
      | RcvClosed => throw (EPlain "deliveries channel closed")
      | RcvDelivery d => on_delivery d ;; receive_loop on_delivery fuel'
      end
  end.
End Calls.

(** ** reply_consumer.go *)

Definition replyQueueName : string := "saga.replies".

Section ReplyRun.
Context {X : Type} `{!Env X} `{!Platform X}.
Local Abbreviation M := (GoM X).

Definition ReplyConsumer_declareTopology : M unit :=
  wrap "declare exchange"
    (amqp (ExchangeDeclare ExchangeName "direct" true false false false)) ;;
  wrap "declare reply queue" (amqp (QueueDeclare replyQueueName true false false false [])) ;;
  wrap "bind reply queue"
    (amqp (QueueBind replyQueueName RoutingSagaReply ExchangeName false)) ;;
  amqp (Qos 10 0 false).

Definition ReplyConsumer_Run (url : string) (fuel : nat) : M (option unit) :=
  with_channel url (
    ReplyConsumer_declareTopology ;;
    wrap "consume" (amqp (Consume replyQueueName "" false false false false)) ;;
    receive_loop (fun d => run_delivery (d_Body d)) fuel).

(** The goroutine of main.go: [Run], and again five seconds after it ended,
    until the context is canceled; [fuel] bounds the runs and [inner] each of
    their loops. *)
Definition reconnect_pause : Z := 5000000000.

Fixpoint reply_worker (url : string) (inner fuel : nat) : M (option unit) :=
  match fuel with
  | O => mret None
  | S fuel' =>
      r ← try (ReplyConsumer_Run url inner);
      match r with
      | Ok None => mret None
      | _ =>
          stop ← select_done_or_after reconnect_pause;
          if (stop : bool) then mret (Some ()) else reply_worker url inner fuel'
      end
  end.
End ReplyRun.

(** ** cmd/notifier/consumer.go *)

Definition queueName : string := "notifications".
Definition dlxName : string := "notifications.dlx".
Definition dlqName : string := "notifications.dlq".

Section ConsumerRun.
Context {X : Type} `{!Env X} `{!Platform X}.
Local Abbreviation M := (GoM X).
Variables (sender : emailSender X) (dedup : deduper X).

Definition Consumer_declareTopology : M unit :=
  wrap "declare exchange"
    (amqp (ExchangeDeclare ExchangeName "direct" true false false false)) ;;
  wrap "declare dlx" (amqp (ExchangeDeclare dlxName "fanout" true false false false)) ;;
  wrap "declare dlq" (amqp (QueueDeclare dlqName true false false false [])) ;;
  wrap "bind dlq" (amqp (QueueBind dlqName "" dlxName false)) ;;
  wrap "declare queue"
    (amqp (QueueDeclare queueName true false false false
             [("x-dead-letter-exchange", dlxName)])) ;;
  for_each (fun key =>
      wrap ("bind queue " +:+ key) (amqp (QueueBind queueName key ExchangeName false)))
    [RoutingConfirm; RoutingRelease] ;;
  amqp (Qos 10 0 false).

Definition Consumer_Run (url : string) (fuel : nat) : M (option unit) :=
  with_channel url (
    Consumer_declareTopology ;;
    wrap "consume" (amqp (Consume queueName "" false false false false)) ;;
    receive_loop (consume sender dedup) fuel).
End ConsumerRun.

(** ** broker_publisher.go *)

Section Publisher.
Context {X : Type} `{!Platform X}.
Local Abbreviation M := (GoM X).

(** What fails after the dial closes the connection first. *)
Definition or_close {A} (m : M A) : M A :=
  r ← try m;
  match r with
  | Ok a => mret a
  | Err e => try (amqp CloseConnection) ;; throw e
  end.

Definition NewBrokerPublisher (url : string) : M unit :=
  wrap "dial rabbitmq" (amqp (AmqpDial url)) ;;
  or_close (wrap "open channel" (amqp AmqpChannel)) ;;
  or_close (wrap "declare exchange"
    (amqp (ExchangeDeclare ExchangeName "direct" true false false false))).
End Publisher.

(** ** What a session leaves on the wire *)

(** The calls of a setup that was carried out, or up to the first refused. *)
Inductive issued : list AmqpCall -> list Event -> bool -> Prop :=
  | issued_nil : issued [] [] true
  | issued_fail c cs : issued (c :: cs) [EvAmqp c false] false
  | issued_ok c cs evs ok : issued cs evs ok -> issued (c :: cs) (EvAmqp c true :: evs) ok.

(** The handling of one delivery: its effects, then one ack or one nack. *)
Definition delivery_segment (seg : list Event) : Prop :=
  exists pre ev, seg = app pre [ev] /\ (ev = EvAck \/ ev = EvNack) /\
    Forall (business unsettled) pre.

(** A run of a consumer: it opened a connection and a channel, issued the calls
    of its setup, and, if none was refused, handled deliveries one after the
    other; on the way out it closed what it had opened, the channel first. The
    flag says whether the deliveries were reached. *)
Inductive session (url : string) (calls : list AmqpCall) : list Event -> bool -> Prop :=
  | session_no_dial : session url calls [EvAmqp (AmqpDial url) false] false
  | session_no_channel b :
      session url calls [EvAmqp (AmqpDial url) true; EvAmqp AmqpChannel false;
                         EvAmqp CloseConnection b] false
  | session_no_setup evs b1 b2 :
      issued calls evs false ->
      session url calls (app (EvAmqp (AmqpDial url) true :: EvAmqp AmqpChannel true :: evs)
        [EvAmqp CloseChannel b1; EvAmqp CloseConnection b2]) false
  | session_served evs segs b1 b2 :
      issued calls evs true -> Forall delivery_segment segs ->
      session url calls (app (EvAmqp (AmqpDial url) true :: EvAmqp AmqpChannel true :: evs)
        (app (List.concat segs) [EvAmqp CloseChannel b1; EvAmqp CloseConnection b2])) true.

Definition reply_calls : list AmqpCall :=
  [ExchangeDeclare ExchangeName "direct" true false false false;
   QueueDeclare replyQueueName true false false false [];
   QueueBind replyQueueName RoutingSagaReply ExchangeName false;
   Qos 10 0 false;
   Consume replyQueueName "" false false false false].

Definition consumer_calls : list AmqpCall :=
  [ExchangeDeclare ExchangeName "direct" true false false false;
   ExchangeDeclare dlxName "fanout" true false false false;
   QueueDeclare dlqName true false false false [];
   QueueBind dlqName "" dlxName false;
   QueueDeclare queueName true false false false [("x-dead-letter-exchange", dlxName)];
   QueueBind queueName RoutingConfirm ExchangeName false;
   QueueBind queueName RoutingRelease ExchangeName false;
   Qos 10 0 false;
   Consume queueName "" false false false false].

Section Sessions.
Context {X : Type} `{!Env X} `{!Platform X}.
Implicit Types w : World X.

(** The trace grew by [evs]. *)
Definition added (evs : list Event) w w' : Prop := w_trace w' = app (w_trace w) evs.

Lemma added_app evs evs' w w1 w2 : added evs w w1 -> added evs' w1 w2 -> added (app evs evs') w w2.
Proof. unfold added. intros -> Heq. by rewrite Heq, app_assoc. Qed.

Lemma wp_amqp c (Q : result unit -> World X -> Prop) w :
  (forall r w', added [EvAmqp c (is_ok r)] w w' -> Q r w') -> wp (amqp c) Q w.
Proof. intros H. by apply wp_ext_call; intros a x _; apply H. Qed.

Lemma wp_defer {A} cleanup (body : GoM X A) (Q : result A -> World X -> Prop) w :
  wp body (fun r w' => wp cleanup (fun _ w'' => Q r w'') w') w -> wp (defer cleanup body) Q w.
Proof. unfold wp, defer. by destruct (body w). Qed.

(** A computation that issues these calls in order and stops at a refusal. *)
Definition issues (m : GoM X unit) (calls : list AmqpCall) : Prop :=
  forall w, wp m (fun r w' => exists evs, added evs w w' /\ issued calls evs (is_ok r)) w.

Lemma issues_one s c : issues (wrap s (amqp c)) [c].
Proof.
  intros w. apply wp_wrap, wp_amqp. intros [[]|e] w' Hw'; eexists; (split; [exact Hw'|]);
    [apply issued_ok, issued_nil|apply issued_fail].
Qed.
Lemma issues_bare c : issues (amqp c) [c].
Proof.
  intros w. apply wp_amqp. intros [[]|e] w' Hw'; eexists; (split; [exact Hw'|]);
    [apply issued_ok, issued_nil|apply issued_fail].
Qed.

Lemma issued_app cs cs' evs evs' ok :
  issued cs evs true -> issued cs' evs' ok -> issued (app cs cs') (app evs evs') ok.
Proof.
  intros H H'. remember true as t eqn:Ht. induction H; [done|done|]. by constructor; apply IHissued.
Qed.
Lemma issued_stop cs cs' evs : issued cs evs false -> issued (app cs cs') evs false.
Proof.
  intros H. remember false as t eqn:Ht. induction H; [done|constructor|].
  by constructor; apply IHissued.
Qed.

Lemma issues_bind m k cs cs' :
  issues m cs -> issues k cs' -> issues (m ;; k) (app cs cs').
Proof.
  intros Hm Hk w. apply wp_bind. eapply wp_mono; [apply Hm|].
  intros [[]|e] w1 (evs & Hw1 & Hi).
  - eapply wp_mono; [apply Hk|]. intros r w2 (evs' & Hw2 & Hi').
    exists (app evs evs'). split; [by eapply added_app|]. by apply issued_app.
  - exists evs. split; [done|]. by apply issued_stop.
Qed.

(** Setup calls, and once they are all accepted a number of deliveries. *)
Definition serves (m : GoM X (option unit)) (calls : list AmqpCall) : Prop :=
  forall w, wp m (fun r w' => exists evs segs ok,
    added (app evs (List.concat segs)) w w' /\ issued calls evs ok /\
    Forall delivery_segment segs /\ (ok = false -> segs = [] /\ is_ok r = false)) w.

Lemma serves_bind m k cs cs' : issues m cs -> serves k cs' -> serves (m ;; k) (app cs cs').
Proof.
  intros Hm Hk w. apply wp_bind. eapply wp_mono; [apply Hm|].
  intros [[]|e] w1 (evs & Hw1 & Hi).
  - eapply wp_mono; [apply Hk|]. intros r w2 (evs' & segs & ok & Hw2 & Hi' & Hs & Hr).
    exists (app evs evs'), segs, ok. rewrite <- app_assoc. split; [by eapply added_app|].
    split; [by apply issued_app|done].
  - exists evs, [], false. simpl. rewrite app_nil_r. split; [done|].
    split; [by apply issued_stop|]. split; [constructor|done].
Qed.

(** One delivery: a computation of the business logic, then the settlement. *)
Definition settles (on_delivery : Delivery -> GoM X unit) : Prop :=
  forall d w, wp (on_delivery d) (fun r w' => r = Ok () /\
    exists seg, added seg w w' /\ delivery_segment seg) w.

Lemma receive_loop_serves on_delivery fuel :
  settles on_delivery -> serves (receive_loop on_delivery fuel) [].
Proof.
  intros Hd. induction fuel as [|fuel IH]; intros w; simpl.
  - apply wp_ret. exists [], [], true. split; [by unfold added; rewrite app_nil_r|].
    split; [constructor|]. split; [constructor|done].
  - apply wp_bind, wp_ext_read. intros x _.
    assert (forall w', w_trace w' = w_trace w -> added (app [] (List.concat [])) w w') as Hsame
      by (intros w' Hw'; unfold added; by rewrite Hw', app_nil_r).
    destruct (plat_receive (w_ext w)).1 as [| |d].
    + apply wp_ret. exists [], [], true. split; [by apply Hsame|].
      split; [constructor|]. split; [constructor|done].
    + apply wp_throw. exists [], [], true. split; [by apply Hsame|].
      split; [constructor|]. split; [constructor|done].
    + apply wp_bind. eapply wp_mono; [apply Hd|]. intros r w1 (-> & seg & Hw1 & Hseg).
      eapply wp_mono; [apply IH|]. intros r w2 (evs & segs & ok & Hw2 & Hi & Hs & Hr).
      inversion Hi; subst. exists [], (seg :: segs), true. simpl.
      split; [by eapply added_app|]. split; [constructor|]. split; [by constructor|done].
Qed.

Lemma with_channel_session url (body : GoM X (option unit)) calls w :
  serves body calls ->
  wp (with_channel url body) (fun r w' => exists evs ok, added evs w w' /\
    session url calls evs ok /\ (ok = false -> is_ok r = false)) w.
Proof.
  intros Hb. unfold with_channel. apply wp_bind, wp_wrap, wp_amqp.
  intros [[]|e] w1 Hw1; [|exists [EvAmqp (AmqpDial url) false], false; by repeat constructor].
  apply wp_defer, wp_bind, wp_wrap, wp_amqp. intros [[]|e] w2 Hw2.
  2: { apply wp_amqp. intros r3 w3 Hw3. eexists _, false.
       split; [exact (added_app _ _ _ _ _ (added_app _ _ _ _ _ Hw1 Hw2) Hw3)|].
       split; [constructor|done]. }
  apply wp_defer. eapply wp_mono; [apply Hb|].
  intros r w3 (evs & segs & ok & Hw3 & Hi & Hs & Hr). apply wp_amqp. intros r4 w4 Hw4.
  apply wp_amqp. intros r5 w5 Hw5.
  pose proof (added_app _ _ _ _ _ (added_app _ _ _ _ _ (added_app _ _ _ _ _
    (added_app _ _ _ _ _ Hw1 Hw2) Hw3) Hw4) Hw5) as H. simpl in H.
  rewrite <- !app_assoc in H. simpl in H. destruct ok.
  - eexists _, true. split; [exact H|]. split; [by apply session_served|done].
  - destruct (Hr eq_refl) as [-> ?]. eexists _, false. split; [exact H|].
    split; [by apply session_no_setup|done].
Qed.

(** What a delivery handler adds, when its work is business logic. *)
Lemma settle_segment {A} (m : GoM X A) ev w :
  effects unsettled m -> (ev = EvAck \/ ev = EvNack) ->
  exists seg, added seg w (emit ev (m w).2) /\ delivery_segment seg.
Proof.
  intros Hm Hev. destruct (effects_trace unsettled m w Hm) as (pre & Htr & Hpre).
  exists (app pre [ev]). split; [unfold added; simpl; by rewrite Htr, app_assoc|].
  by exists pre, ev.
Qed.

Lemma run_delivery_settles : settles (fun d => run_delivery (d_Body d)).
Proof.
  intros d w. unfold wp, run_delivery.
  pose proof (settle_segment (handleWithRetry (d_Body d))) as H.
  destruct (handleWithRetry (d_Body d) w) as [r w'] eqn:E. simpl. split; [done|].
  specialize (H (match r with Ok _ => EvAck | Err _ => EvNack end) w). rewrite E in H.
  apply H; [apply retry_reply_effects|]. destruct r; auto.
Qed.

Lemma consume_settles smtp ttl : settles (consume (SMTP smtp) (redisDeduper ttl)).
Proof.
  intros d w. unfold wp, consume.
  pose proof (settle_segment (handle (SMTP smtp) (redisDeduper ttl) d)) as H.
  destruct (handle (SMTP smtp) (redisDeduper ttl) d w) as [r w'] eqn:E. simpl. split; [done|].
  specialize (H (match r with Ok _ => EvAck | Err _ => EvNack end) w). rewrite E in H.
  apply H; [by apply (handle_effects unsettled)|]. destruct r; auto.
Qed.

Lemma ReplyConsumer_serves fuel :
  serves (ReplyConsumer_declareTopology ;;
    wrap "consume" (amqp (Consume replyQueueName "" false false false false)) ;;
    receive_loop (fun d => run_delivery (d_Body d)) fuel) reply_calls.
Proof.
  unfold ReplyConsumer_declareTopology.
  refine (serves_bind _ _ [_; _; _; _] [_] _ (serves_bind _ _ [_] [] (issues_one _ _)
    (receive_loop_serves _ fuel run_delivery_settles))).
  do 3 refine (issues_bind _ _ [_] _ (issues_one _ _) _). apply issues_bare.
Qed.

Lemma Consumer_serves smtp ttl fuel :
  serves (Consumer_declareTopology ;;
    wrap "consume" (amqp (Consume queueName "" false false false false)) ;;
    receive_loop (consume (SMTP smtp) (redisDeduper ttl)) fuel) consumer_calls.
Proof.
  unfold Consumer_declareTopology. cbn [for_each].
  refine (serves_bind _ _ [_; _; _; _; _; _; _; _] [_] _ (serves_bind _ _ [_] [] (issues_one _ _)
    (receive_loop_serves _ fuel (consume_settles smtp ttl)))).
  do 5 refine (issues_bind _ _ [_] _ (issues_one _ _) _).
  refine (issues_bind _ _ [_; _] [_] _ (issues_bare _)).
  do 2 refine (issues_bind _ _ [_] _ (issues_one _ _) _).
  intros w. apply wp_ret. exists []. split; [by unfold added; rewrite app_nil_r|constructor].
Qed.
End Sessions.

(** ** Termination *)

(** The platform's calls do not lengthen the wait for the cancellation, and a
    delivery shortens it: the context is canceled after finitely many. *)
Class CancelablePlatform (X : Type) `{!Env X} `{!Platform X} `{!Cancelable X} : Prop := {
  patience_amqp : forall c x, (patience (plat_amqp c x).2 <= patience x)%nat;
  patience_receive : forall x, (patience (plat_receive x).2 <= patience x)%nat;
  patience_delivery : forall x d, (plat_receive x).1 = RcvDelivery d ->
    (patience (plat_receive x).2 < patience x)%nat }.

Section Termination.
Context {X : Type} `{!Env X} `{!Platform X} `{!Cancelable X} `{!CancelablePlatform X}.
Implicit Types w : World X.

(** [m] does not lengthen the wait. *)
Definition calm_steps {A} (m : GoM X A) : Prop :=
  forall w, (patience (w_ext (m w).2) <= patience (w_ext w))%nat.

Lemma calm_amqp c : calm_steps (amqp c).
Proof.
  intros w. pose proof (patience_amqp c (w_ext w)) as H. unfold amqp, ext_call.
  by destruct (plat_amqp c (w_ext w)) as [[m|[]] x].
Qed.
Lemma calm_wrap {A} s (m : GoM X A) : calm_steps m -> calm_steps (wrap s m).
Proof. intros Hm w. unfold wrap. specialize (Hm w). by destruct (m w) as [[a|e] w']. Qed.
Lemma calm_bind {A B} (m : GoM X A) (k : A -> GoM X B) :
  calm_steps m -> (forall a, calm_steps (k a)) -> calm_steps (m ≫= k).
Proof.
  intros Hm Hk w. unfold mbind, gom_bind. specialize (Hm w).
  destruct (m w) as [[a|e] w']; [|done]. specialize (Hk a w'). simpl in *. lia.
Qed.

(** [m] does not lengthen the wait and does not run out of fuel when the wait
    is below [n]. *)
Definition finishes (n : nat) (m : GoM X (option unit)) : Prop :=
  forall w, (patience (w_ext w) < n)%nat ->
    wp m (fun r w' => r <> Ok None /\ (patience (w_ext w') <= patience (w_ext w))%nat) w.

Lemma finishes_bind n (m : GoM X unit) k : calm_steps m -> finishes n k -> finishes n (m ;; k).
Proof.
  intros Hm Hk w Hw. apply wp_bind. unfold wp at 1. specialize (Hm w).
  destruct (m w) as [[[]|e] w1]; simpl in *; [|done].
  eapply wp_mono; [apply Hk; lia|]. intros r w2 [? ?]. split; [done|lia].
Qed.

Lemma finishes_defer n cleanup m : calm_steps cleanup -> finishes n m -> finishes n (defer cleanup m).
Proof.
  intros Hc Hm w Hw. apply wp_defer. eapply wp_mono; [by apply Hm|].
  intros r w1 [Hr Hle]. unfold wp. specialize (Hc w1). split; [done|lia].
Qed.

Lemma receive_loop_finishes on_delivery n :
  (forall d, effects anything (on_delivery d)) ->
  (forall d w, (on_delivery d w).1 = Ok ()) ->
  finishes n (receive_loop on_delivery n).
Proof.
  intros Hd Hok. induction n as [|n IH]; intros w Hw; [lia|]. simpl.
  apply wp_bind, wp_ext_read. intros x ->.
  pose proof (patience_receive (w_ext w)) as Hle.
  pose proof (patience_delivery (w_ext w)) as Hlt.
  destruct (plat_receive (w_ext w)).1 as [| |d]; [apply wp_ret|apply wp_throw|]; [done..|].
  specialize (Hlt d eq_refl). apply wp_bind.
  set (w1 := set_ext (plat_receive (w_ext w)).2 w).
  assert (patience (w_ext w1) < n)%nat as Hw1 by (simpl; lia).
  pose proof (effects_patience (on_delivery d) w1 (Hd d)) as Hle1.
  unfold wp at 1. rewrite Hok. eapply wp_mono; [apply IH; lia|].
  intros r w2 [? ?]. split; [done|]. simpl in *. lia.
Qed.

Lemma with_channel_finishes n url body : finishes n body -> finishes n (with_channel url body).
Proof.
  intros Hb. unfold with_channel.
  apply finishes_bind; [apply calm_wrap, calm_amqp|].
  apply finishes_defer; [apply calm_amqp|].
  apply finishes_bind; [apply calm_wrap, calm_amqp|].
  apply finishes_defer; [apply calm_amqp|done].
Qed.

Lemma ReplyConsumer_Run_finishes url n : finishes n (ReplyConsumer_Run url n).
Proof.
  apply with_channel_finishes, finishes_bind.
  { unfold ReplyConsumer_declareTopology. repeat (apply calm_bind; [|intros []]);
      try apply calm_wrap; apply calm_amqp. }
  apply finishes_bind; [apply calm_wrap, calm_amqp|].
  apply receive_loop_finishes; intros d; [by apply run_delivery_effects|].
  intros w. unfold run_delivery. by destruct (handleWithRetry (d_Body d) w).
Qed.

Lemma Consumer_Run_finishes smtp ttl url n :
  finishes n (Consumer_Run (SMTP smtp) (redisDeduper ttl) url n).
Proof.
  apply with_channel_finishes, finishes_bind.
  { unfold Consumer_declareTopology. repeat (apply calm_bind; [|intros []]);
      first [apply calm_wrap, calm_amqp | apply calm_amqp | by intros w]. }
  apply finishes_bind; [apply calm_wrap, calm_amqp|].
  apply receive_loop_finishes; intros d; [by apply consume_effects|].
  intros w. unfold consume. by destruct (handle (SMTP smtp) (redisDeduper ttl) d w).
Qed.

Lemma reply_worker_returns url inner fuel w :
  (patience (w_ext w) < inner)%nat -> (patience (w_ext w) < fuel)%nat ->
  (reply_worker url inner fuel w).1 = Ok (Some ()).
Proof.
  revert w. induction fuel as [|fuel IH]; intros w Hi Hf; [lia|].
  change (wp (reply_worker url inner (S fuel)) (fun r _ => r = Ok (Some ())) w). simpl.
  apply wp_bind, wp_try. eapply wp_mono; [by apply ReplyConsumer_Run_finishes|].
  intros r w1 [Hr Hle]. destruct r as [[[]|]|e]; [|done|]; apply wp_bind;
    unfold wp at 1, select_done_or_after; pose proof (patience_open (w_ext w1)) as Hp;
    destruct (env_ctx_done (w_ext w1)) as [[] x]; simpl in *; try done;
    specialize (Hp eq_refl); (apply IH; simpl; lia).
Qed.
End Termination.

(** ** The properties of the connections *)

Section Properties.
Context {X : Type} `{!Env X} `{!Platform X}.
Implicit Types w : World X.

(** C19: The two consumers set up before they consume, settle what they take, and leave
    nothing open: a run dials, opens a channel, issues the calls of its topology
    in the documented order up to the first that is refused, takes deliveries
    only when all were accepted, ends the handling of each with exactly one ack
    or nack before it takes the next, and closes the channel and then the
    connection on every way out; whatever comes first, a refusal is an error. *)
Theorem consumers_session url smtp ttl fuel w :
  wp (ReplyConsumer_Run url fuel) (fun r w' => exists evs served, added evs w w' /\
    session url reply_calls evs served /\ (served = false -> is_ok r = false)) w /\
  wp (Consumer_Run (SMTP smtp) (redisDeduper ttl) url fuel) (fun r w' => exists evs served,
    added evs w w' /\
    session url consumer_calls evs served /\ (served = false -> is_ok r = false)) w.
Proof.
  split; apply with_channel_session; [apply ReplyConsumer_serves|apply Consumer_serves].
Qed.

(** C22: The receive loops terminate: with fuel beyond the patience of the environment
    (the number of deliveries and selects before the context is canceled) a run
    of either consumer ends, with the result of the cancellation or with an
    error, and the goroutine that runs the reply consumer again and again,
    five seconds after each failure, returns. *)
Theorem consumers_terminate `{!Cancelable X, !CancelablePlatform X} url smtp ttl fuel inner w :
  (patience (w_ext w) < inner)%nat -> (patience (w_ext w) < fuel)%nat ->
  (Consumer_Run (SMTP smtp) (redisDeduper ttl) url inner w).1 <> Ok None /\
  (ReplyConsumer_Run url inner w).1 <> Ok None /\
  (reply_worker url inner fuel w).1 = Ok (Some ()).
Proof.
  intros Hi Hf. split_and!.
  - by apply (Consumer_Run_finishes smtp ttl url inner w Hi).
  - by apply (ReplyConsumer_Run_finishes url inner w Hi).
  - by apply reply_worker_returns.
Qed.
End Properties.

(** ** Witnesses *)

(** A platform that refuses some calls, delivers [d] for each tick the script
    has left, and is then asked to stop. *)
Definition script_platform (amqp_up : AmqpCall -> bool) (up : ProcCall -> bool)
    (migrated : MigrateResult) (server : option string) (wake : Wake) (d : Delivery) : Platform Script := {|
  plat_amqp c x := ((if amqp_up c then inr () else inl "refused"), x);
  plat_receive x :=
    match sc_canceled x with
    | false :: l =>
        (RcvDelivery d, mkScript (sc_pg x) (sc_clock x) (sc_uuid x) l (sc_redis x)
           (sc_redis_up x) (sc_http x) (sc_publish x) (sc_smtp x) (sc_grpc x))
    | _ => (RcvDone, x)
    end;
  plat_call c x := ((if up c then inr () else inl "refused"), x);
  plat_migrate x := (migrated, x);
  plat_server x := (server, x);
  plat_wait x := (wake, x) |}.

Section Witnesses.
#[local] Existing Instance stopping_env.

Definition sent_reply : Delivery :=
  mkDelivery RoutingSagaReply "saga-reply" (marshal (mkSagaReply sample_uuid SagaStatusSent)).
#[local] Instance up_platform : Platform Script :=
  script_platform (fun _ => true) (fun _ => true) UpDone None WokeSignal sent_reply.

#[local] Instance up_cancelable : @CancelablePlatform Script stopping_env up_platform _.
Proof.
  split; simpl; intros.
  - done.
  - destruct (sc_canceled x) as [|[] l] eqn:E; simpl; rewrite ?E; simpl; lia.
  - destruct (sc_canceled x) as [|[] l] eqn:E; simpl in *; try done; lia.
Qed.

Definition two_replies : World Script :=
  play (sample_db StateSubscriptionCreated) (mkScript [] 100 7 [false; false] ∅ [] [] [] [] []).

Lemma consumers_terminate_witness :
  (reply_worker "amqp://broker" 3 3 two_replies).1 = Ok (Some ()) /\
  saga_State <$> saga (w_db (reply_worker "amqp://broker" 3 3 two_replies).2) = [StateCompleted].
Proof.
  split; [|vm_compute; reflexivity].
  refine (proj2 (proj2 (consumers_terminate (Env0 := stopping_env) (Platform0 := up_platform)
    "amqp://broker" (mkSMTPSender "" "" "" "" "") 0 3 3 two_replies _ _))); simpl; lia.
Defined.
End Witnesses.
