(* ===== verification/Main.v ===== *)
(** * main.go and cmd/notifier/main.go: the life of the two processes

    What [run] opens, starts and stops, in order, with its deferred closes on
    every way out. The workers are started here; what they do is in the other
    files. *)

From S2P Require Import Prelude GoErrors Tables Env Logic Script Schema Samples Json Wire.
From S2P Require Import Notification Handler Config Notifier Footprint Loops Amqp.

Local Open Scope string_scope.
Local Open Scope Z_scope.

Section Processes.
Context {X : Type} `{!Env X} `{!Platform X}.
Local Abbreviation M := (GoM X).
Variable LookupEnv : string -> option string.

Definition proc (c : ProcCall) : M unit := ext_call (plat_call c) (Some (EvProc c)).

(** A step that cannot fail: a context, a goroutine, a client without I/O. *)
Definition step (c : ProcCall) : M unit := fun w => (Ok (), emit (EvProc c true) w).

Definition five_seconds : Z := 5 * Second.

(** [m.Up()]: that nothing was to be done is not an error. *)
Definition migrate_up : M unit := fun w =>
  let '(r, x) := plat_migrate (w_ext w) in
  match r with
  | UpDone | UpNoChange => (Ok (), emit (EvProc MigrateUp true) (set_ext x w))
  | UpFailed m => (Err (EPlain m), emit (EvProc MigrateUp false) (set_ext x w))
  end.

Definition runMigrations (dbURL : string) : M unit :=
  proc (MigrateNew "file://migrations" dbURL) ;; migrate_up.

(** [cache.New]. *)
Definition Cache_New (redisURL : string) : M unit :=
  proc (RedisParseURL redisURL) ;;
  step RedisNewClient ;;
  proc RedisPing.

(** The workers, the wait, and the graceful stop. *)
Definition serve : M unit :=
  step WithCancel ;;
  defer (step Cancel) (
    step (GoStart GoScanner) ;;
    step (GoStart GoReplyConsumer) ;;
    step (GoStart GoRelay) ;;
    step (GoStart GoSweeper) ;;
    step (GoStart GoHTTPServer) ;;
    serverErr ← ext_read plat_server;
    match serverErr with
    | Some m => throw (EWrap "http server" (EPlain m))
    | None =>
        step Cancel ;;
        step (WithTimeout five_seconds) ;;
        defer (step CancelTimeout) (wrap "server shutdown" (proc Shutdown))
    end).

(** From the broker on. *)
Definition run_connected (cfg : Config) : M unit :=
  wrap "connect to broker" (NewBrokerPublisher (RabbitMQURL cfg)) ;;
  defer (amqp CloseConnection) (
    match select_transport cfg with
    | Err e => throw e
    | Ok TransportGRPC =>
        wrap "dial notifier grpc" (proc (GrpcNewClient (NotifierGRPCAddr cfg))) ;;
        defer (proc GrpcClose) serve
    | Ok TransportBroker => serve
    end).

(** [run] of main.go. Without Redis the process goes on without a cache. *)
Definition monolith_run : M unit :=
  let cfg := Load LookupEnv in
  wrap "connect to database" (proc (SqlConnect (DatabaseURL cfg))) ;;
  defer (proc SqlClose) (
    wrap "run migrations" (runMigrations (DatabaseURL cfg)) ;;
    redisCache ← try (Cache_New (RedisURL cfg));
    match redisCache with
    | Err _ => run_connected cfg
    | Ok _ => defer (proc RedisClose) (run_connected cfg)
    end).

(** The client is not pinged: only a malformed address is an error. *)
Definition newRedisDeduper (url : string) : M unit :=
  proc (RedisParseURL url) ;;
  step RedisNewClient.

(** [run] of cmd/notifier/main.go. *)
Definition notifier_run : M unit :=
  step WithCancel ;;
  defer (step Cancel) (
    wrap "connect to redis"
      (newRedisDeduper (getEnv LookupEnv "REDIS_URL" "redis://localhost:6379/0")) ;;
    defer (proc RedisClose) (
      step (GoStart GoConsumer) ;;
      step (GoStart GoGRPCServer) ;;
      step (GoStart GoHTTPServer) ;;
      woke ← ext_read plat_wait;
      match woke with
      | WokeServer m => throw (EWrap "notifier http server" (EPlain m))
      | WokeConsumer m => throw (EWrap "notifier consumer" (EPlain m))
      | WokeGRPC m => throw (EWrap "notifier grpc server" (EPlain m))
      | WokeSignal =>
          step Cancel ;;
          step GracefulStop ;;
          step (WithTimeout five_seconds) ;;
          defer (step CancelTimeout) (wrap "notifier shutdown" (proc Shutdown))
      end)).

(** [main]: the exit status, once the deferred calls of [run] have run. *)
Definition exit_status (m : M unit) : M Z :=
  r ← try m;
  mret (match r with Ok _ => 0 | Err _ => 1 end).
End Processes.

(** The SMTP sender of the notifier, from its variables. *)
Definition notifier_sender (LookupEnv : string -> option string) : SMTPSender :=
  mkSMTPSender (getEnv LookupEnv "SMTP_HOST" "localhost") (getEnv LookupEnv "SMTP_PORT" "1025")
    (getEnv LookupEnv "SMTP_USER" "") (getEnv LookupEnv "SMTP_PASS" "")
    (getEnv LookupEnv "SMTP_FROM" "noreply@github-notifier.local").

(** ** What is opened and closed *)

(** [HMigrate] is the source and the database connection that a [Migrate]
    instance holds until its [Close] is called. *)
Inductive Resource := HDatabase | HMigrate | HRedis | HBroker | HGrpc.
#[export] Instance resource_eq_dec : EqDecision Resource.
Proof. solve_decision. Defined.

Definition opens (ev : Event) : option Resource :=
  match ev with
  | EvProc (SqlConnect _) true => Some HDatabase
  | EvProc (MigrateNew _ _) true => Some HMigrate
  | EvProc RedisNewClient true => Some HRedis
  | EvAmqp (AmqpDial _) true => Some HBroker
  | EvProc (GrpcNewClient _) true => Some HGrpc
  | _ => None
  end.

(** A close that fails is a close: its error is dropped. [runMigrations] has no
    call that closes its instance, so there is no event for one. *)
Definition closes (ev : Event) : option Resource :=
  match ev with
  | EvProc SqlClose _ => Some HDatabase
  | EvProc RedisClose _ => Some HRedis
  | EvAmqp CloseConnection _ => Some HBroker
  | EvProc GrpcClose _ => Some HGrpc
  | _ => None
  end.

Definition starts (ev : Event) : option Worker :=
  match ev with EvProc (GoStart wk) _ => Some wk | _ => None end.

(** ** The traces of the monolith *)

Definition exchange_call : AmqpCall := ExchangeDeclare ExchangeName "direct" true false false false.

Definition five_starts : list Event :=
  (fun wk => EvProc (GoStart wk) true) <$>
    [GoScanner; GoReplyConsumer; GoRelay; GoSweeper; GoHTTPServer].

(** After the workers were started: the server failed, or a signal came. *)
Inductive serve_end : bool -> list Event -> Prop :=
  | end_server : serve_end false [EvProc Cancel true]
  | end_signal ok : serve_end ok
      [EvProc Cancel true; EvProc (WithTimeout five_seconds) true; EvProc Shutdown ok;
       EvProc CancelTimeout true; EvProc Cancel true].

(** [broker_down cfg evs]: the broker could not be set up, or the transport not;
    [broker_set cfg pre post]: it was, with the calls [pre], and is released by
    [post] at the end. *)
Inductive broker_down (cfg : Config) : list Event -> Prop :=
  | down_dial : broker_down cfg [EvAmqp (AmqpDial (RabbitMQURL cfg)) false]
  | down_channel b : broker_down cfg
      [EvAmqp (AmqpDial (RabbitMQURL cfg)) true; EvAmqp AmqpChannel false;
       EvAmqp CloseConnection b]
  | down_exchange b : broker_down cfg
      [EvAmqp (AmqpDial (RabbitMQURL cfg)) true; EvAmqp AmqpChannel true;
       EvAmqp exchange_call false; EvAmqp CloseConnection b]
  | down_transport b : broker_down cfg
      [EvAmqp (AmqpDial (RabbitMQURL cfg)) true; EvAmqp AmqpChannel true;
       EvAmqp exchange_call true; EvAmqp CloseConnection b]
  | down_grpc b : broker_down cfg
      [EvAmqp (AmqpDial (RabbitMQURL cfg)) true; EvAmqp AmqpChannel true;
       EvAmqp exchange_call true; EvProc (GrpcNewClient (NotifierGRPCAddr cfg)) false;
       EvAmqp CloseConnection b].

Inductive broker_set (cfg : Config) : list Event -> list Event -> Prop :=
  | set_broker b : select_transport cfg = Ok TransportBroker -> broker_set cfg
      [EvAmqp (AmqpDial (RabbitMQURL cfg)) true; EvAmqp AmqpChannel true;
       EvAmqp exchange_call true] [EvAmqp CloseConnection b]
  | set_grpc b c : select_transport cfg = Ok TransportGRPC -> broker_set cfg
      [EvAmqp (AmqpDial (RabbitMQURL cfg)) true; EvAmqp AmqpChannel true;
       EvAmqp exchange_call true; EvProc (GrpcNewClient (NotifierGRPCAddr cfg)) true]
      [EvProc GrpcClose c; EvAmqp CloseConnection b].

(** The Redis calls of the start, with or without a cache, and the release. *)
Inductive cache_set (cfg : Config) : list Event -> list Event -> Prop :=
  | cache_url : cache_set cfg [EvProc (RedisParseURL (RedisURL cfg)) false] []
  | cache_down : cache_set cfg
      [EvProc (RedisParseURL (RedisURL cfg)) true; EvProc RedisNewClient true;
       EvProc RedisPing false] []
  | cache_up b : cache_set cfg
      [EvProc (RedisParseURL (RedisURL cfg)) true; EvProc RedisNewClient true;
       EvProc RedisPing true] [EvProc RedisClose b].

Inductive monolith_trace (cfg : Config) : bool -> list Event -> Prop :=
  | mono_no_db : monolith_trace cfg false [EvProc (SqlConnect (DatabaseURL cfg)) false]
  | mono_no_source b : monolith_trace cfg false
      [EvProc (SqlConnect (DatabaseURL cfg)) true;
       EvProc (MigrateNew "file://migrations" (DatabaseURL cfg)) false; EvProc SqlClose b]
  | mono_no_migration b : monolith_trace cfg false
      [EvProc (SqlConnect (DatabaseURL cfg)) true;
       EvProc (MigrateNew "file://migrations" (DatabaseURL cfg)) true; EvProc MigrateUp false;
       EvProc SqlClose b]
  | mono_no_broker cache uncache evs b :
      cache_set cfg cache uncache -> broker_down cfg evs -> monolith_trace cfg false
      (app [EvProc (SqlConnect (DatabaseURL cfg)) true;
            EvProc (MigrateNew "file://migrations" (DatabaseURL cfg)) true;
            EvProc MigrateUp true]
         (app cache (app evs (app uncache [EvProc SqlClose b]))))
  | mono_served cache uncache pre post ok evs b :
      cache_set cfg cache uncache -> broker_set cfg pre post -> serve_end ok evs ->
      monolith_trace cfg ok
      (app [EvProc (SqlConnect (DatabaseURL cfg)) true;
            EvProc (MigrateNew "file://migrations" (DatabaseURL cfg)) true;
            EvProc MigrateUp true]
         (app cache (app pre (app (EvProc WithCancel true :: five_starts)
            (app evs (app post (app uncache [EvProc SqlClose b]))))))).

Section Traces.
Context {X : Type} `{!Env X} `{!Platform X}.
Implicit Types w : World X.

Lemma wp_proc c (Q : result unit -> World X -> Prop) w :
  (forall r w', added [EvProc c (is_ok r)] w w' -> Q r w') -> wp (proc c) Q w.
Proof. intros H. by apply wp_ext_call; intros a x _; apply H. Qed.

Lemma wp_stepc c (Q : result unit -> World X -> Prop) w :
  (forall w', added [EvProc c true] w w' -> Q (Ok ()) w') -> wp (step c) Q w.
Proof. intros H. by apply H. Qed.

Lemma wp_migrate_up (Q : result unit -> World X -> Prop) w :
  (forall r w', added [EvProc MigrateUp (is_ok r)] w w' -> Q r w') -> wp migrate_up Q w.
Proof.
  intros H. unfold wp, migrate_up. destruct (plat_migrate (w_ext w)) as [[| |m] x]; by apply H.
Qed.
End Traces.

(** The trace of a computation, from those of its steps. *)
Ltac solve_added :=
  unfold added in *; cbn [w_trace set_ext emit] in *;
  repeat match goal with
    H : w_trace ?w' = _ |- context [w_trace ?w'] => rewrite H
  end;
  rewrite <- ?app_assoc; simpl; reflexivity.

(** The next step of [run], whatever it answers. *)
Ltac trace_step :=
  lazymatch goal with
  | |- wp (mbind _ _) _ _ => apply wp_bind
  | |- wp (wrap _ _) _ _ => apply wp_wrap
  | |- wp (try _) _ _ => apply wp_try
  | |- wp (throw _) _ _ => apply wp_throw
  | |- wp (mret _) _ _ => apply wp_ret
  | |- wp (defer _ _) _ _ => apply wp_defer
  | |- wp (step _) _ _ => apply wp_stepc; intros ? ?
  | |- wp (proc _) _ _ => apply wp_proc; intros [[]|?] ? ?
  | |- wp (amqp _) _ _ => apply wp_amqp; intros [[]|?] ? ?
  | |- wp migrate_up _ _ => apply wp_migrate_up; intros [[]|?] ? ?
  end; cbn [is_ok] in *.

Section Traces2.
Context {X : Type} `{!Env X} `{!Platform X}.
Implicit Types w : World X.

Lemma serve_trace w :
  wp serve (fun r w' => exists evs,
    added (app (EvProc WithCancel true :: five_starts) evs) w w' /\ serve_end (is_ok r) evs) w.
Proof.
  unfold serve. do 13 trace_step. trace_step.
  apply wp_ext_read. intros x _. destruct (plat_server (w_ext _)).1 as [m|].
  - repeat trace_step. eexists. split; [|apply end_server]. solve_added.
  - repeat trace_step; (eexists; split; [|apply end_signal]; solve_added).
Qed.

(** The broker, and what runs on it. *)
Lemma run_connected_trace cfg w :
  wp (run_connected cfg) (fun r w' => exists evs, added evs w w' /\
    ((is_ok r = false /\ broker_down cfg evs) \/
     exists pre post mid, evs = app pre (app (EvProc WithCancel true :: five_starts)
       (app mid post)) /\ broker_set cfg pre post /\ serve_end (is_ok r) mid)) w.
Proof.
  unfold run_connected, NewBrokerPublisher, or_close.
  repeat trace_step; 
    lazymatch goal with
    | |- wp _ _ _ => idtac
    | |- _ => eexists; first
        [ split; [|left; split; [done|apply down_dial]]; solve_added
        | split; [|left; split; [done|apply down_channel]]; solve_added
        | split; [|left; split; [done|apply down_exchange]]; solve_added ]
    end.
  destruct (select_transport cfg) as [[|]|e] eqn:Ht.
  - eapply wp_mono; [apply serve_trace|]. intros r wz (mid & Hadd & Hend).
    assert (forall b w'', added [EvAmqp CloseConnection b] wz w'' -> exists evs,
      added evs w w'' /\ ((is_ok r = false /\ broker_down cfg evs) \/
       exists pre post mid, evs = app pre (app (EvProc WithCancel true :: five_starts)
         (app mid post)) /\ broker_set cfg pre post /\ serve_end (is_ok r) mid)) as Hclose.
    { intros b w'' Hb. eexists. split; [|right; eexists _, _, mid; split; [reflexivity|];
        split; [by apply (set_broker cfg b)|done]]. solve_added. }
    trace_step; by eapply Hclose.
  - repeat trace_step.
    2,3: eexists; split; [|left; split; [done|apply down_grpc]]; solve_added.
    eapply wp_mono; [apply serve_trace|]. intros r wz (mid & Hadd & Hend).
    repeat trace_step; (eexists; split; [|right; eexists _, _, mid; split; [reflexivity|];
        split; [by eapply (set_grpc cfg)|done]]); solve_added.
  - repeat trace_step; (eexists; split; [|left; split; [done|apply down_transport]]); solve_added.
Qed.

Lemma cache_new_trace cfg w :
  wp (Cache_New (RedisURL cfg)) (fun r w' => exists cache,
    added cache w w' /\
    match r with
    | Ok _ => forall b, cache_set cfg cache [EvProc RedisClose b]
    | Err _ => cache_set cfg cache []
    end) w.
Proof.
  unfold Cache_New. repeat trace_step; (eexists; split; [solve_added|]).
  - intros b. constructor.
  - constructor.
  - constructor.
Qed.
End Traces2.

Section Monolith.
Context {X : Type} `{!Env X} `{!Platform X}.
Variable LookupEnv : string -> option string.
Implicit Types w : World X.
Local Abbreviation cfg := (Load LookupEnv).

Lemma monolith_run_trace w :
  wp (monolith_run LookupEnv) (fun r w' => exists evs, added evs w w' /\
    monolith_trace cfg (is_ok r) evs) w.
Proof.
  unfold monolith_run, runMigrations.
  repeat trace_step;
    lazymatch goal with
    | |- wp _ _ _ => idtac
    | |- _ => eexists; first
        [ split; [|apply mono_no_db]; solve_added
        | split; [|apply mono_no_source]; solve_added
        | split; [|apply mono_no_migration]; solve_added ]
    end.
  eapply wp_mono; [apply cache_new_trace|]. intros rc wc (cache & Hc & Hcache).
  destruct rc as [[]|e]; [apply wp_defer|];
    (eapply wp_mono; [apply run_connected_trace|]; intros r wz (evs & Hz & Hevs)).
  - trace_step; trace_step;
      (destruct Hevs as [[-> Hd]|(pre & post & mid & -> & Hset & Hend)];
       [eexists; split; [|by eapply mono_no_broker]
       |eexists; split; [|by eapply mono_served]]; solve_added).
  - trace_step;
      (destruct Hevs as [[-> Hd]|(pre & post & mid & -> & Hset & Hend)];
       [eexists; split; [|by eapply (mono_no_broker _ _ [])]
       |eexists; split; [|by eapply (mono_served _ _ [])]]; solve_added).
Qed.
End Monolith.

(** What a process closed, in order, and what it had opened. *)
Definition released (evs : list Event) : list Resource := omap closes evs.
Definition acquired (evs : list Event) : list Resource := omap opens evs.
Definition started_workers (evs : list Event) : list Worker := omap starts evs.

(** The ping of the Redis client was refused. *)
Definition ping_failed (evs : list Event) : bool :=
  existsb (fun ev => match ev with EvProc RedisPing ok => negb ok | _ => false end) evs.

(** What is never closed: the instance of [runMigrations], and the client whose
    ping failed, which [cache.New] drops. *)
Definition dropped (evs : list Event) (h : Resource) : bool :=
  match h with
  | HMigrate => true
  | HRedis => ping_failed evs
  | _ => false
  end.

(** What is to be closed. *)
Definition owed (evs : list Event) : list Resource :=
  filter (fun h => dropped evs h = false) (acquired evs).

(** *** The consequences of the grammar *)

Lemma monolith_trace_released cfg ok evs :
  monolith_trace cfg ok evs ->
  released evs = reverse (owed evs) /\ (ok = true -> HMigrate ∈ acquired evs).
Proof.
  destruct 1 as [| | |? ? ? ? Hc Hb|? ? ? ? ? ? ? Hc Hb Hs]; [by split..| |].
  - split; [by destruct Hc, Hb|done].
  - split; [by destruct Hc, Hb, Hs|]. intros _. unfold acquired. simpl.
    rewrite !elem_of_cons. tauto.
Qed.

(** The workers, between what was prepared and what follows their stop. *)
Definition starts_ready (ok : bool) (evs : list Event) : Prop :=
  exists pre post, evs = app pre (app five_starts post) /\
    started_workers (app pre post) = [] /\ released pre = [] /\
    EvProc MigrateUp true ∈ pre /\ EvAmqp exchange_call true ∈ pre /\
    HDatabase ∈ acquired pre /\ HBroker ∈ acquired pre /\
    if ok then exists rest, post = app
      [EvProc Cancel true; EvProc (WithTimeout five_seconds) true; EvProc Shutdown true] rest
    else exists rest, post = EvProc Cancel true :: rest.

Lemma monolith_trace_starts cfg ok evs :
  monolith_trace cfg ok evs ->
  (ok = false /\ started_workers evs = []) \/ starts_ready ok evs.
Proof.
  destruct 1 as [| | |? ? ? ? Hc Hb|? ? ? ? ? ? ? Hc Hb Hs]; [by left..| |].
  - left. split; [done|]. by destruct Hc, Hb.
  - right.
    exists (app [EvProc (SqlConnect (DatabaseURL cfg)) true;
                 EvProc (MigrateNew "file://migrations" (DatabaseURL cfg)) true;
                 EvProc MigrateUp true]
              (app cache (app pre [EvProc WithCancel true]))),
           (app evs (app post (app uncache [EvProc SqlClose b]))).
    assert (started_workers cache = [] /\ released cache = [] /\ started_workers uncache = [])
      as (Hc1 & Hc2 & Hc3) by by destruct Hc.
    assert (started_workers pre = [] /\ released pre = [] /\ started_workers post = [] /\
            EvAmqp exchange_call true ∈ pre /\ HBroker ∈ acquired pre) as (Hb1 & Hb2 & Hb3 & Hb4 & Hb5).
    { destruct Hb; (split_and!; [reflexivity..|rewrite !elem_of_cons; tauto|]);
        unfold acquired; simpl; rewrite !elem_of_cons; tauto. }
    assert (started_workers evs = []) as Hs1 by by destruct Hs.
    unfold started_workers, released, acquired in *.
    rewrite !omap_app, Hc1, Hc2, Hc3, Hb1, Hb2, Hb3, Hs1, !elem_of_app.
    split; [by rewrite <- !app_assoc|]. split; [done|]. split; [done|].
    split; [left; rewrite !elem_of_cons; tauto|]. split; [auto|].
    split; [left; simpl; rewrite !elem_of_cons; tauto|]. split; [auto|].
    destruct Hs as [|[]]; eexists; reflexivity.
Qed.

(** ** The traces of the notifier *)

Definition three_starts : list Event :=
  (fun wk => EvProc (GoStart wk) true) <$> [GoConsumer; GoGRPCServer; GoHTTPServer].

Definition redis_url (LookupEnv : string -> option string) : string :=
  getEnv LookupEnv "REDIS_URL" "redis://localhost:6379/0".

(** The error of the server that ended the wait; a signal is none. *)
Definition wake_error (woke : Wake) : option error :=
  match woke with
  | WokeServer m => Some (EWrap "notifier http server" (EPlain m))
  | WokeConsumer m => Some (EWrap "notifier consumer" (EPlain m))
  | WokeGRPC m => Some (EWrap "notifier grpc server" (EPlain m))
  | WokeSignal => None
  end.

(** The run of the notifier, by what the parse of the Redis address gives and
    what wakes the process up. *)
Inductive notifier_trace (url : string)
    : ext_result unit -> Wake -> result unit -> list Event -> Prop :=
  | noti_no_redis m woke : notifier_trace url (inl m) woke
      (Err (EWrap "connect to redis" (EPlain m)))
      [EvProc WithCancel true; EvProc (RedisParseURL url) false; EvProc Cancel true]
  | noti_failed woke e b : wake_error woke = Some e -> notifier_trace url (inr ()) woke (Err e)
      (app [EvProc WithCancel true; EvProc (RedisParseURL url) true; EvProc RedisNewClient true]
        (app three_starts [EvProc RedisClose b; EvProc Cancel true]))
  | noti_signal r b :
      (forall e, r = Err e -> exists m, e = EWrap "notifier shutdown" (EPlain m)) ->
      notifier_trace url (inr ()) WokeSignal r
      (app [EvProc WithCancel true; EvProc (RedisParseURL url) true; EvProc RedisNewClient true]
        (app three_starts
          [EvProc Cancel true; EvProc GracefulStop true; EvProc (WithTimeout five_seconds) true;
           EvProc Shutdown (is_ok r); EvProc CancelTimeout true; EvProc RedisClose b;
           EvProc Cancel true])).

Section NotifierTrace.
Context {X : Type} `{!Env X} `{!Platform X}.
Variable LookupEnv : string -> option string.
Implicit Types w : World X.

(** The two steps of the environment that decide the run: the address is parsed
    first, and nothing else is asked before the wait. *)
Definition parsed w : ext_result unit * X :=
  plat_call (RedisParseURL (redis_url LookupEnv)) (w_ext w).
Definition woken w : Wake := (plat_wait (parsed w).2).1.

Lemma notifier_run_trace w :
  wp (notifier_run LookupEnv) (fun r w' => exists evs, added evs w w' /\
    notifier_trace (redis_url LookupEnv) (parsed w).1 (woken w) r evs) w.
Proof.
  unfold notifier_run, newRedisDeduper. fold (redis_url LookupEnv).
  pose proof (eq_refl : parsed w = parsed w) as Hp. unfold parsed at 1 in Hp.
  unfold wp, woken. destruct (parsed w) as [[m|[]] x]; cbn [fst snd];
    unfold defer, wrap, step, proc, ext_call, mbind, gom_bind;
    cbn [w_ext emit]; rewrite Hp; cbn; [eexists; split; [solve_added|constructor]|].
  destruct (plat_wait x) as [[|msg|msg|msg] x2]; unfold throw; cbn.
  - destruct (plat_call Shutdown x2) as [[m|[]] x3]; cbn;
      destruct (plat_call RedisClose x3) as [[m'|[]] x4]; cbn;
      (eexists; split; [|apply noti_signal]; [solve_added|]); intros e [= <-]; by eexists.
  - destruct (plat_call RedisClose x2) as [[m'|[]] x3]; cbn;
      (eexists; split; [|by apply noti_failed]); solve_added.
  - destruct (plat_call RedisClose x2) as [[m'|[]] x3]; cbn;
      (eexists; split; [|by apply noti_failed]); solve_added.
  - destruct (plat_call RedisClose x2) as [[m'|[]] x3]; cbn;
      (eexists; split; [|by apply noti_failed]); solve_added.
Qed.
End NotifierTrace.

(** ** The properties of the two processes *)

Section Properties.
Context {X : Type} `{!Env X} `{!Platform X}.
Variable LookupEnv : string -> option string.
Implicit Types w : World X.

(** C21: What the monolith releases, on every way out: whatever fails in [run], the
    connections closed are those that were opened, the last one first, with two
    exceptions, which are never closed: the source and the database connection
    of the [Migrate] instance of [runMigrations], which every run that gets
    that far (every graceful one) keeps until the process ends, and the Redis
    client of a start whose ping failed, which [cache.New] drops. *)
Theorem monolith_releases w :
  wp (monolith_run LookupEnv) (fun r w' => exists evs, added evs w w' /\
    released evs = reverse (owed evs) /\
    (is_ok r = true -> HMigrate ∈ acquired evs) /\ HMigrate ∉ released evs) w.
Proof.
  eapply wp_mono; [apply monolith_run_trace|]. intros r w' (evs & Hadd & Htr).
  destruct (monolith_trace_released _ _ _ Htr) as [Hrel Hm].
  exists evs. split; [done|]. split; [done|]. split; [done|].
  rewrite Hrel. unfold owed. rewrite elem_of_reverse, list_elem_of_filter. by intros [[=] _].
Qed.

(** C20: The monolith starts its workers only when it is ready, and stops them before
    anything else: either no goroutine was started and [run] failed, or all
    five were, in the order of the source (the reply consumer before the
    relay), after the migrations succeeded and the exchange was declared, with
    the database and the broker still open; what follows begins with the
    cancellation of their context, and when [run] returns no error the HTTP
    server was shut down with five seconds to finish before anything was
    closed. The exit status is 0 only then. *)
Theorem monolith_starts w :
  wp (exit_status (monolith_run LookupEnv)) (fun r w' => exists evs status,
    r = Ok status /\ added evs w w' /\
    ((status = 1 /\ started_workers evs = []) \/
     (status = 0 /\ starts_ready true evs) \/ (status = 1 /\ starts_ready false evs))) w.
Proof.
  unfold exit_status. apply wp_bind, wp_try. eapply wp_mono; [apply monolith_run_trace|].
  intros r w' (evs & Hadd & Htr%monolith_trace_starts). apply wp_ret.
  exists evs. eexists. split; [reflexivity|]. split; [done|].
  destruct r; destruct Htr as [[? ?]|?]; try done; auto.
Qed.

(** C36: The life of the notifier, by what its environment does. When its Redis
    address does not parse, it ends with that error and has started nothing.
    Otherwise it starts its consumer, its gRPC server and its HTTP server, in
    this order, and waits. When a server ends the wait, it ends with the error
    of that server, and neither the servers are stopped nor the shutdown is
    tried. When a signal ends it, the context of the servers is cancelled, then
    the gRPC server is stopped and the HTTP server shut down, with five seconds
    to finish, before anything is closed; the run ends without an error exactly
    when that shutdown does. Every way out cancels the context and closes what
    was opened. *)
Theorem notifier_lifecycle w :
  wp (notifier_run LookupEnv) (fun r w' => exists evs, added evs w w' /\
    released evs = reverse (acquired evs) /\ EvProc Cancel true ∈ evs /\
    match (parsed LookupEnv w).1 with
    | inl m => r = Err (EWrap "connect to redis" (EPlain m)) /\ started_workers evs = []
    | inr _ =>
        started_workers evs = [GoConsumer; GoGRPCServer; GoHTTPServer] /\
        match wake_error (woken LookupEnv w) with
        | Some e => r = Err e /\ EvProc GracefulStop true ∉ evs /\
            forall ok, EvProc Shutdown ok ∉ evs
        | None =>
            (forall e, r = Err e -> exists m, e = EWrap "notifier shutdown" (EPlain m)) /\
            exists pre mid post, evs = app pre (app (app three_starts
              [EvProc Cancel true; EvProc GracefulStop true; EvProc (WithTimeout five_seconds) true;
               EvProc Shutdown (is_ok r)]) (app mid post)) /\ released (app pre mid) = []
        end
    end) w.
Proof.
  eapply wp_mono; [apply notifier_run_trace|]. intros r w' (evs & Hadd & Htr).
  exists evs. split; [done|].
  destruct Htr as [m woke|woke e b He|r b Hr]; (split; [reflexivity|]; split;
    [cbn; rewrite !elem_of_cons; tauto|]).
  - done.
  - rewrite He. split; [done|]. split; [done|]. split; [|intros ok]; cbn; set_solver.
  - split; [done|]. split; [done|]. eexists [_; _; _], [_], _. split; reflexivity.
Qed.
End Properties.
