(* ===== verification/Bench.v ===== *)
(** * cmd/confirmbench/main.go: the transport benchmark

    [drive]: the workers of the load driver as a step relation, one step for
    each atomic claim of an index and each call; the percentiles, in binary64;
    the byte counters. The program around them is in BenchMain.v. *)

From Stdlib Require Import SpecFloat.
From stdpp Require Import pretty.
From S2P Require Import Prelude GoErrors Json.

Local Open Scope Z_scope.

Definition warmup : Z := 3000.
Definition total : Z := 30000.
Definition concurrencies : list nat := [1; 8; 64]%nat.

(** ** drive *)

(** A worker is about to claim an index, is in its call, or has returned. *)
Inductive BenchWorker := Claiming | Calling (i : Z) | Exited.

Record Drive := mkDrive {
  idx : Z; lat : list Z; workers : list BenchWorker }.

Definition drive_start (concurrency : nat) (count : Z) : Drive :=
  mkDrive (-1) (replicate (Z.to_nat count) 0) (replicate concurrency Claiming).

(** One step of one worker, with the call it finished. [atomic.AddInt64] and the
    test on its result are one step: the index is local from then on. *)
Inductive drive_step (count : Z) : Drive -> option (Z * Z) -> Drive -> Prop :=
  | drive_claim s w : workers s !! w = Some Claiming -> idx s + 1 < count ->
      drive_step count s None
        (mkDrive (idx s + 1) (lat s) (<[w := Calling (idx s + 1)]> (workers s)))
  | drive_exit s w : workers s !! w = Some Claiming -> count <= idx s + 1 ->
      drive_step count s None (mkDrive (idx s + 1) (lat s) (<[w := Exited]> (workers s)))
  | drive_call s w i d : workers s !! w = Some (Calling i) ->
      drive_step count s (Some (i, d))
        (mkDrive (idx s) (<[Z.to_nat i := d]> (lat s)) (<[w := Claiming]> (workers s))).

(** [n] steps, in any interleaving, and the calls they finished. *)
Inductive drive_run (count : Z) : nat -> Drive -> list (Z * Z) -> Drive -> Prop :=
  | drive_none s : drive_run count 0 s [] s
  | drive_more n s tr s1 ev s2 :
      drive_run count n s tr s1 -> drive_step count s1 ev s2 ->
      drive_run count (S n) s (app tr (option_list ev)) s2.

(** [wg.Wait()] returns. *)
Definition all_exited (s : Drive) : Prop := forall w, w ∈ workers s -> w = Exited.

(** ** Each index is served once *)

Definition calling (ws : list BenchWorker) : list Z :=
  omap (fun w => match w with Calling i => Some i | _ => None end) ws.

Record drive_inv (count : Z) (tr : list (Z * Z)) (s : Drive) : Prop := {
  inv_idx : -1 <= idx s;
  inv_len : length (lat s) = Z.to_nat count;
  inv_once : app tr.*1 (calling (workers s)) ≡ₚ seqZ 0 (Z.min (idx s + 1) count);
  inv_lat : forall i d, (i, d) ∈ tr -> lat s !! Z.to_nat i = Some d;
  inv_exit : Exited ∈ workers s -> count <= idx s + 1 }.

Lemma calling_insert ws w x y :
  ws !! w = Some x ->
  exists rest, calling ws ≡ₚ app (calling [x]) rest /\
               calling (<[w := y]> ws) ≡ₚ app (calling [y]) rest.
Proof.
  intros Hw. exists (calling (app (take w ws) (drop (S w) ws))). unfold calling. split.
  - rewrite <- (take_drop_middle ws w x Hw) at 1. rewrite !omap_app.
    change (x :: drop (S w) ws) with (app [x] (drop (S w) ws)). rewrite omap_app.
    rewrite !(assoc_L app), (comm app (omap _ (take w ws))). done.
  - rewrite insert_take_drop by by eapply lookup_lt_Some. rewrite !omap_app.
    change (y :: drop (S w) ws) with (app [y] (drop (S w) ws)). rewrite omap_app.
    rewrite !(assoc_L app), (comm app (omap _ (take w ws))). done.
Qed.

Lemma elem_of_insert_inv {A} (l : list A) w x y : x ∈ <[w := y]> l -> x = y \/ x ∈ l.
Proof.
  intros [j Hj]%list_elem_of_lookup_1. apply list_lookup_insert_Some in Hj.
  destruct Hj as [(_ & -> & _)|[_ Hj]]; [by left|right; by eapply list_elem_of_lookup_2].
Qed.

Lemma drive_start_inv n count : 0 <= count -> drive_inv count [] (drive_start n count).
Proof.
  intros Hc. assert (forall m, calling (replicate m Claiming) = []) as Hnone
    by (intros m; induction m; done).
  split; simpl; [lia|apply length_replicate| | |].
  - rewrite Hnone. by rewrite Z.min_l by lia.
  - intros i d Hin. by apply elem_of_nil in Hin.
  - intros [? _]%elem_of_replicate. done.
Qed.

Lemma drive_step_inv count tr s ev s' :
  0 <= count -> drive_inv count tr s -> drive_step count s ev s' ->
  drive_inv count (app tr (option_list ev)) s'.
Proof.
  intros Hc [Hi Hl Ho Hlat Hex]. destruct 1 as [s w Hw Hlt|s w Hw Hge|s w i d Hw]; simpl.
  - rewrite app_nil_r. destruct (calling_insert _ w _ (Calling (idx s + 1)) Hw) as (rest & H1 & H2).
    split; simpl; [lia|done| |done|].
    + rewrite H2. rewrite H1 in Ho. simpl in Ho |- *.
      rewrite !Z.min_l in * by lia. rewrite <- Permutation_middle, Ho.
      rewrite (seqZ_app 0 (idx s + 1) 1), (seqZ_cons _ 1), (seqZ_nil _ (Z.pred 1)) by lia.
      by rewrite <- Permutation_cons_append.
    + intros Hin%elem_of_insert_inv. destruct Hin as [|Hin]; [done|].
      specialize (Hex Hin). lia.
  - rewrite app_nil_r. destruct (calling_insert _ w _ Exited Hw) as (rest & H1 & H2).
    split; simpl; [lia|done| |done|lia].
    rewrite H2. rewrite H1 in Ho. simpl in *. by rewrite Z.min_r in Ho |- * by lia.
  - destruct (calling_insert _ w _ Claiming Hw) as (rest & H1 & H2). simpl in H1, H2.
    assert (i ∈ seqZ 0 (Z.min (idx s + 1) count)) as Hin.
    { rewrite <- Ho, H1. set_solver. }
    apply elem_of_seqZ in Hin.
    split; simpl; [lia|by rewrite length_insert| | |].
    + rewrite fmap_app, H2. simpl. rewrite <- app_assoc. simpl. by rewrite <- H1.
    + intros j e. rewrite elem_of_app, list_elem_of_singleton. intros [Hj|[= -> ->]].
      * rewrite list_lookup_insert_ne; [by apply Hlat|]. intros Heq.
        assert (NoDup (app tr.*1 (calling (workers s)))) as Hnd by (rewrite Ho; apply NoDup_seqZ).
        apply NoDup_app in Hnd as (_ & Hnd & _).
        assert (0 <= j) as Hj0.
        { assert (j ∈ seqZ 0 (Z.min (idx s + 1) count)) as Hjs.
          { rewrite <- Ho. apply elem_of_app. left. change j with (j, e).1.
            by apply list_elem_of_fmap_2. }
          apply elem_of_seqZ in Hjs. lia. }
        assert (j = i) as -> by lia. apply (Hnd i).
        { change i with (i, e).1. by apply list_elem_of_fmap_2. }
        rewrite H1. set_solver.
      * apply list_lookup_insert_eq. lia.
    + intros Hin'%elem_of_insert_inv. destruct Hin' as [|Hin']; [done|].
      by apply Hex.
Qed.

Lemma drive_run_inv count n k tr s :
  0 <= count -> drive_run count n (drive_start k count) tr s -> drive_inv count tr s.
Proof.
  intros Hc Hrun. remember (drive_start k count) as s0 eqn:Hs0.
  induction Hrun as [s|n s tr s1 ev s2 Hrun IH Hstep]; subst; [by apply drive_start_inv|].
  eapply drive_step_inv; [done|by apply IH|done].
Qed.

(** ** Termination *)

Definition worker_steps (w : BenchWorker) : nat :=
  match w with Claiming => 1 | Calling _ => 2 | Exited => 0 end.

(** What is still to do: a claim and a call for each index left, and what each
    worker has begun. *)
Definition drive_measure (count : Z) (s : Drive) : nat :=
  2 * Z.to_nat (count - (idx s + 1)) + sum_list_with worker_steps (workers s).

Lemma sum_insert ws w x y :
  ws !! w = Some x ->
  (sum_list_with worker_steps (<[w := y]> ws) + worker_steps x =
   sum_list_with worker_steps ws + worker_steps y)%nat.
Proof.
  intros Hw. rewrite <- (take_drop_middle ws w x Hw) at 2.
  rewrite insert_take_drop by by eapply lookup_lt_Some.
  rewrite !sum_list_with_app. simpl. lia.
Qed.

Lemma drive_step_measure count s ev s' :
  drive_step count s ev s' -> (drive_measure count s' < drive_measure count s)%nat.
Proof.
  unfold drive_measure. destruct 1 as [s w Hw Hlt|s w Hw Hge|s w i d Hw]; simpl.
  - pose proof (sum_insert _ w _ (Calling (idx s + 1)) Hw). simpl in *. lia.
  - pose proof (sum_insert _ w _ Exited Hw). simpl in *. lia.
  - pose proof (sum_insert _ w _ Claiming Hw). simpl in *. lia.
Qed.

Lemma drive_run_measure count n s tr s' :
  drive_run count n s tr s' -> (n + drive_measure count s' <= drive_measure count s)%nat.
Proof.
  induction 1 as [s|n s tr s1 ev s2 Hrun IH Hstep]; [lia|].
  apply drive_step_measure in Hstep. lia.
Qed.

(** A worker that has not returned can step. *)
Lemma drive_progress count s : all_exited s \/ exists ev s', drive_step count s ev s'.
Proof.
  destruct (list_find (fun w => negb (match w with Exited => true | _ => false end)) (workers s))
    as [[i w]|] eqn:E.
  - right. apply list_find_Some in E as (Hi & Hw & _). destruct w as [|j|]; [| |done].
    + destruct (Z_lt_le_dec (idx s + 1) count); eexists _, _;
        [by eapply drive_claim|by eapply drive_exit].
    + eexists _, _. by eapply (drive_call _ _ _ _ 0).
  - left. apply list_find_None in E. rewrite Forall_forall in E. intros w Hw.
    specialize (E w Hw). destruct w; [| |done]; exfalso; by apply E.
Qed.

(** When all have returned, every index was served. *)
Lemma drive_all_served concurrency count n tr s :
  0 <= count -> (0 < concurrency)%nat ->
  drive_run count n (drive_start concurrency count) tr s -> all_exited s ->
  tr.*1 ≡ₚ seqZ 0 count.
Proof.
  intros Hc Hk Hrun Hall. pose proof (drive_run_inv _ _ _ _ _ Hc Hrun) as [Hi Hl Ho Hlat Hex].
  assert (length (workers s) = concurrency) as Hlen.
  { clear -Hrun. remember (drive_start concurrency count) as s0 eqn:Hs0.
    induction Hrun as [s|n s tr s1 ev s2 Hrun IH Hstep]; subst; [apply length_replicate|].
    rewrite <- IH by done. destruct Hstep; simpl; apply length_insert. }
  assert (forall ws, (forall w, w ∈ ws -> w = Exited) -> calling ws = []) as Hnone.
  { clear. intros ws. induction ws as [|w ws IH]; [done|]. intros H.
    rewrite (H w) by set_solver. apply IH. intros w' Hw'. apply H. set_solver. }
  rewrite (Hnone _ Hall), app_nil_r in Ho. rewrite Ho, Z.min_r; [done|]. apply Hex.
  destruct (workers s) as [|w ws] eqn:E; [simpl in Hlen; lia|].
  rewrite <- (Hall w) by (rewrite E; set_solver). set_solver.
Qed.

Section Drive.
(** The load driver terminates: for any number of workers and calls, whatever the
    interleaving of their steps, a run takes at most two steps for each call
    and one for each worker, and as long as it is not over some worker can
    step; so [wg.Wait()] returns. *)
Theorem drive_terminates concurrency count n tr s :
  0 <= count -> drive_run count n (drive_start concurrency count) tr s ->
  (n <= 2 * Z.to_nat count + concurrency)%nat /\
  (all_exited s \/ exists ev s', drive_step count s ev s').
Proof.
  intros Hc Hrun. split; [|apply drive_progress].
  apply drive_run_measure in Hrun. unfold drive_measure in Hrun at 2. simpl in Hrun.
  assert (sum_list_with worker_steps (replicate concurrency Claiming) = concurrency) as Hs
    by (clear; induction concurrency as [|k IH]; simpl; [done|by rewrite IH]).
  rewrite Hs in Hrun. replace (count - (-1 + 1)) with count in Hrun by lia. lia.
Qed.

(** C38: The load driver makes each call once and keeps its latency: at every moment the
    indices that are served or in a call are distinct and below the count, and
    when all workers have returned, every index from 0 to the count was served
    by exactly one call, and its slot of the slice holds that call's duration. *)
Theorem drive_serves_each_once concurrency count n tr s :
  0 <= count -> (0 < concurrency)%nat ->
  drive_run count n (drive_start concurrency count) tr s ->
  NoDup (app tr.*1 (calling (workers s))) /\
  (forall i, i ∈ app tr.*1 (calling (workers s)) -> 0 <= i < count) /\
  length (lat s) = Z.to_nat count /\
  (all_exited s -> tr.*1 ≡ₚ seqZ 0 count /\
     forall i d, (i, d) ∈ tr -> lat s !! Z.to_nat i = Some d).
Proof.
  intros Hc Hk Hrun. pose proof (drive_run_inv _ _ _ _ _ Hc Hrun) as [Hi Hl Ho Hlat Hex].
  split; [rewrite Ho; apply NoDup_seqZ|].
  split; [intros i Hin; rewrite Ho in Hin; apply elem_of_seqZ in Hin; lia|].
  split; [done|]. intros Hall. split; [by eapply drive_all_served|done].
Qed.
End Drive.

(** ** The percentiles, in binary64 *)

Definition float64 (z : Z) : spec_float := binary_normalize 53 1024 z 0 false.
Definition float_mul : spec_float -> spec_float -> spec_float := SFmul 53 1024.
Definition float_div : spec_float -> spec_float -> spec_float := SFdiv 53 1024.

(** The constants 0.50, 0.95 and 0.99, rounded to nearest. *)
Definition p50 : spec_float := S754_finite false 4503599627370496 (-53).
Definition p95 : spec_float := S754_finite false 8556839292003942 (-53).
Definition p99 : spec_float := S754_finite false 8917127262193582 (-53).

(** [int(f)]: truncation toward zero. *)
Definition float_int (f : spec_float) : Z :=
  match f with
  | S754_finite s m e =>
      let a := if 0 <=? e then Z.pos m * 2 ^ e else Z.pos m / 2 ^ (- e) in
      if (s : bool) then - a else a
  | _ => 0
  end.

Definition pct_index (n : Z) (p : spec_float) : Z :=
  float_int (float_mul p (float64 (n - 1))).

(** [None] is an index out of range, which panics. *)
Definition pct (sorted : list Z) (p : spec_float) : option Z :=
  match sorted with
  | [] => Some 0
  | _ =>
      let i := pct_index (Z.of_nat (length sorted)) p in
      if 0 <=? i then sorted !! Z.to_nat i else None
  end.

Definition latency_le (a b : Z) : Prop := a <= b.
#[export] Instance latency_le_dec : RelDecision latency_le.
Proof. unfold RelDecision, latency_le. intros. apply _. Defined.

(** The percentiles of [printRow], which sorts the latencies first. *)
Definition row_percentiles (latencies : list Z) : option (Z * Z * Z) :=
  let sorted := merge_sort latency_le latencies in
  a ← pct sorted p50; b ← pct sorted p95; c ← pct sorted p99; Some (a, b, c).

(** [fmt.Sprintf("%.2f", f)] of a positive number: the nearest hundredth of its
    exact value, to even on a tie. *)
Definition hundredths (f : spec_float) : Z :=
  match f with
  | S754_finite _ m e =>
      if 0 <=? e then Z.pos m * 2 ^ e * 100
      else
        let d := 2 ^ (- e) in
        let q := Z.pos m * 100 / d in
        let r := Z.pos m * 100 mod d in
        if (2 * r <? d) || ((2 * r =? d) && Z.even q) then q else q + 1
  | _ => 0
  end.

Definition two_digits (z : Z) : string :=
  if z <? 10 then String "0" (pretty z) else pretty z.

Definition Microseconds (d : Z) : Z := Z.quot d 1000.

Definition dur (d : Z) : string :=
  if d <? 1000000
  then (pretty (Microseconds d) +:+ String (byte 194) (String (byte 181) "s"))%string
  else
    let h := hundredths (float_div (float64 (Microseconds d)) (float64 1000)) in
    (pretty (h / 100) +:+ "." +:+ two_digits (h mod 100) +:+ "ms")%string.

(** ** The byte counters *)

(** [atomic.AddInt64] on a counter. *)
Definition add_int64 (a n : Z) : Z := (a + n + 2 ^ 63) mod 2 ^ 64 - 2 ^ 63.

Section Counting.
Context {C : Type}.

(** The connection that is wrapped: the bytes it moved, with an error or not. *)
Variables conn_Read conn_Write : C -> (Z * option string) * C.

Record countingConn := mkCountingConn { cc_Conn : C; cc_in : Z; cc_out : Z }.

Definition counting_Read (c : countingConn) : (Z * option string) * countingConn :=
  let '((n, err), conn) := conn_Read (cc_Conn c) in
  ((n, err), mkCountingConn conn (add_int64 (cc_in c) n) (cc_out c)).

Definition counting_Write (c : countingConn) : (Z * option string) * countingConn :=
  let '((n, err), conn) := conn_Write (cc_Conn c) in
  ((n, err), mkCountingConn conn (cc_in c) (add_int64 (cc_out c) n)).

(** Any sequence of reads ([true]) and writes, with the bytes each way. *)
Fixpoint transfer (ops : list bool) (c : countingConn) : (Z * Z) * countingConn :=
  match ops with
  | [] => ((0, 0), c)
  | op :: ops' =>
      let '((n, _), c1) := if (op : bool) then counting_Read c else counting_Write c in
      let '((i, o), c2) := transfer ops' c1 in
      (if op then (n + i, o) else (i, n + o), c2)
  end.

Lemma add_int64_add a n m : add_int64 (add_int64 a n) m = add_int64 a (n + m).
Proof.
  unfold add_int64. f_equal.
  replace ((a + n + 2 ^ 63) mod 2 ^ 64 - 2 ^ 63 + m + 2 ^ 63)
    with ((a + n + 2 ^ 63) mod 2 ^ 64 + m) by lia.
  rewrite Z.add_mod_idemp_l by done. f_equal. lia.
Qed.

(** The counters hold what went over the wire, modulo their width. *)
Lemma transfer_counts ops c :
  cc_in c = add_int64 (cc_in c) 0 -> cc_out c = add_int64 (cc_out c) 0 ->
  cc_in (transfer ops c).2 = add_int64 (cc_in c) (transfer ops c).1.1 /\
  cc_out (transfer ops c).2 = add_int64 (cc_out c) (transfer ops c).1.2.
Proof.
  revert c. induction ops as [|[] ops IH]; intros c Hi Ho; [done|..]; simpl.
  - unfold counting_Read. destruct (conn_Read (cc_Conn c)) as [[n err] conn].
    specialize (IH (mkCountingConn conn (add_int64 (cc_in c) n) (cc_out c))).
    destruct (transfer ops _) as [[i o] c2]. simpl in *.
    rewrite add_int64_add, Z.add_0_r in IH. destruct (IH eq_refl Ho) as [-> ->].
    by rewrite add_int64_add.
  - unfold counting_Write. destruct (conn_Write (cc_Conn c)) as [[n err] conn].
    specialize (IH (mkCountingConn conn (cc_in c) (add_int64 (cc_out c) n))).
    destruct (transfer ops _) as [[i o] c2]. simpl in *.
    rewrite add_int64_add, Z.add_0_r in IH. destruct (IH Hi eq_refl) as [-> ->].
    by rewrite add_int64_add.
Qed.
End Counting.

(** ** The percentiles of a run *)

(** The three indices are in order and in range for [n] latencies. *)
Definition indices_ok (n : Z) : bool :=
  let a := pct_index n p50 in let b := pct_index n p95 in let c := pct_index n p99 in
  (0 <=? a) && (a <=? b) && (b <=? c) && (c <? n).

Lemma indices_total : indices_ok total = true.
Proof. vm_compute. reflexivity. Qed.

Lemma pct_nonempty l p :
  (0 < length l)%nat -> 0 <= pct_index (Z.of_nat (length l)) p ->
  pct l p = l !! Z.to_nat (pct_index (Z.of_nat (length l)) p).
Proof.
  intros Hl Hp. destruct l as [|x l]; [simpl in Hl; lia|]. unfold pct.
  destruct (Z.leb_spec 0 (pct_index (Z.of_nat (length (x :: l))) p)); [done|lia].
Qed.

Lemma sorted_lookup_le l i j a b :
  StronglySorted latency_le l -> (i <= j)%nat -> l !! i = Some a -> l !! j = Some b -> a <= b.
Proof.
  intros Hs Hij Hi Hj. destruct (decide (i = j)) as [->|Hne].
  { rewrite Hi in Hj. injection Hj as ->. lia. }
  assert (latency_le a b) as H; [|exact H].
  eapply (StronglySorted_app_1_elem_of latency_le (take j l) (drop j l)); [by rewrite take_drop|..].
  - apply list_elem_of_lookup. exists i. rewrite lookup_take_lt by lia. done.
  - apply list_elem_of_lookup. exists 0%nat. by rewrite lookup_drop, Nat.add_0_r.
Qed.

Section Percentiles.
(** The percentiles that are printed exist and are ordered: for any latencies, of
    the number the benchmark measures, the indices computed in binary64 are in
    range, so [pct] does not panic; the three percentiles are measured
    latencies, and p50 <= p95 <= p99. *)
Theorem percentiles_ordered latencies :
  Z.of_nat (length latencies) = total ->
  exists a b c, row_percentiles latencies = Some (a, b, c) /\ a <= b <= c /\
    a ∈ latencies /\ b ∈ latencies /\ c ∈ latencies.
Proof.
  intros Htotal. unfold row_percentiles.
  pose proof (merge_sort_Permutation latency_le latencies) as Hperm.
  assert (StronglySorted latency_le (merge_sort latency_le latencies)) as Hsort.
  { apply StronglySorted_merge_sort; unfold latency_le; [intros a b c; lia|intros a b; lia]. }
  pose proof (Permutation_length Hperm) as Hlen.
  set (sorted := merge_sort latency_le latencies) in *.
  assert (indices_ok (Z.of_nat (length sorted)) = true) as Hidx.
  { rewrite Hlen, Htotal. exact indices_total. }
  unfold indices_ok in Hidx. rewrite !andb_true_iff in Hidx.
  destruct Hidx as [[[Ha Hab] Hbc] Hc].
  assert (forall p, 0 <= pct_index (Z.of_nat (length sorted)) p < Z.of_nat (length sorted) ->
    exists x, pct sorted p = Some x /\
      sorted !! Z.to_nat (pct_index (Z.of_nat (length sorted)) p) = Some x) as Hpct.
  { intros p Hp. destruct (lookup_lt_is_Some_2 sorted
      (Z.to_nat (pct_index (Z.of_nat (length sorted)) p))) as [x Hx]; [lia|].
    exists x. split; [|done]. rewrite pct_nonempty; [done| |apply Hp]. lia. }
  destruct (Hpct p50) as (a & -> & Hxa); [lia|]. destruct (Hpct p95) as (b & -> & Hxb); [lia|].
  destruct (Hpct p99) as (c & -> & Hxc); [lia|].
  exists a, b, c. split; [done|]. split.
  - split; [eapply (sorted_lookup_le sorted); [exact Hsort| |exact Hxa|exact Hxb]
           |eapply (sorted_lookup_le sorted); [exact Hsort| |exact Hxb|exact Hxc]]; lia.
  - rewrite <- Hperm. split_and!; by eapply list_elem_of_lookup_2.
Qed.
End Percentiles.

(** ** Witnesses *)

Section Witnesses.
(** Two workers, one call each, interleaved. *)
Definition two_calls : Drive := mkDrive 3 [7; 9] [Exited; Exited].

Lemma two_calls_run : drive_run 2 6 (drive_start 2 2) [(1, 9); (0, 7)] two_calls.
Proof.
  refine (drive_more _ _ _ [(1, 9); (0, 7)] _ None _ _ (drive_exit 2 (mkDrive 2 [7; 9] [Exited; Claiming]) 1%nat eq_refl _));
    [|simpl; lia].
  refine (drive_more _ _ _ [(1, 9); (0, 7)] _ None _ _ (drive_exit 2 (mkDrive 1 [7; 9] [Claiming; Claiming]) 0%nat eq_refl _));
    [|simpl; lia].
  refine (drive_more _ _ _ [(1, 9)] _ (Some (0, 7)) _ _ (drive_call 2 (mkDrive 1 [0; 9] [Calling 0; Claiming]) 0%nat 0 7 eq_refl)).
  refine (drive_more _ _ _ [] _ (Some (1, 9)) _ _ (drive_call 2 (mkDrive 1 [0; 0] [Calling 0; Calling 1]) 1%nat 1 9 eq_refl)).
  refine (drive_more _ _ _ [] _ None _ _ (drive_claim 2 (mkDrive 0 [0; 0] [Calling 0; Claiming]) 1%nat eq_refl _));
    [|simpl; lia].
  refine (drive_more _ _ _ [] _ None _ _ (drive_claim 2 (drive_start 2 2) 0%nat eq_refl _));
    [apply drive_none|simpl; lia].
Qed.

Lemma drive_terminates_witness : (6 <= 2 * Z.to_nat 2 + 2)%nat.
Proof. refine (proj1 (drive_terminates 2 2 6 _ _ _ two_calls_run)). lia. Defined.

Lemma drive_serves_each_once_witness : [(1, 9); (0, 7)].*1 ≡ₚ seqZ 0 2.
Proof.
  refine (proj1 (proj2 (proj2 (proj2 (drive_serves_each_once 2 2 6 _ _ _ _ two_calls_run))) _));
    [lia|lia|].
  intros w Hw. simpl in Hw. rewrite !elem_of_cons, elem_of_nil in Hw. naive_solver.
Defined.

Lemma percentiles_ordered_witness :
  exists a b c, row_percentiles (replicate 30000 5) = Some (a, b, c) /\ a <= b <= c.
Proof.
  destruct (percentiles_ordered (replicate 30000 5)) as (a & b & c & H1 & H2 & _).
  - by rewrite length_replicate.
  - exists a, b, c. split; [exact H1|exact H2].
Defined.

Example dur_microseconds : dur 999999 = (pretty 999 +:+ String (byte 194) (String (byte 181) "s"))%string.
Proof. vm_compute. reflexivity. Qed.
Example dur_milliseconds : dur 1234567 = "1.23ms"%string.
Proof. vm_compute. reflexivity. Qed.
End Witnesses.
