(* ===== verification/BenchMain.v ===== *)
(** * cmd/confirmbench/main.go: the whole benchmark

    [main] as a program over two pairs of byte counters and a trace: the two
    servers, the six cells of the table, each a reset of the counters, a warm-up,
    the measured calls and a row, and the table of the payload sizes. What
    the libraries decide (the latencies, the bytes on the wire, the interleaving
    of the workers, whether a listen or a dial fails) is left open: a program is
    a relation between a state, an outcome and a state. *)

From Stdlib Require Import SpecFloat.
From stdpp Require Import pretty.
From S2P Require Import Prelude GoErrors Tables Env Json Bench.

Local Open Scope string_scope.
Local Open Scope Z_scope.

(** ** Printing *)

Definition newline : string := String "010"%char "".
Fixpoint spaces (n : nat) : string :=
  match n with O => "" | S k => String " " (spaces k) end.

(** The runes of a valid UTF-8 text: its bytes but the continuations. *)
Fixpoint rune_count (s : string) : nat :=
  match s with
  | EmptyString => 0
  | String c s' => (if ((128 <=? code c) && (code c <? 192))%N then 0 else 1) + rune_count s'
  end.

(** The widths of [fmt]: [%12s] and [%-6s]. *)
Definition pad_left (n : nat) (s : string) : string := spaces (n - rune_count s) +:+ s.
Definition pad_right (n : nat) (s : string) : string := s +:+ spaces (n - rune_count s).

Definition round_half_even (a d : Z) : Z :=
  let q := a / d in
  let r := a mod d in
  if (2 * r <? d) || ((2 * r =? d) && Z.even q) then q else q + 1.

Definition sign_of (s : bool) : string := if s then "-" else "".

(** [%.0f] and [%.2f]. *)
Definition fmt_f0 (f : spec_float) : string :=
  match f with
  | S754_zero s => sign_of s +:+ "0"
  | S754_infinity s => if s then "-Inf" else "+Inf"
  | S754_nan => "NaN"
  | S754_finite s m e => sign_of s +:+
      pretty (if 0 <=? e then Z.pos m * 2 ^ e else round_half_even (Z.pos m) (2 ^ (- e)))
  end.
Definition fmt_f2 (f : spec_float) : string :=
  match f with
  | S754_zero s => sign_of s +:+ "0.00"
  | S754_infinity s => if s then "-Inf" else "+Inf"
  | S754_nan => "NaN"
  | S754_finite s _ _ => sign_of s +:+
      pretty (hundredths f / 100) +:+ "." +:+ two_digits (hundredths f mod 100)
  end.

(** [%q] of a printable ASCII text without quotes or backslashes. *)
Definition fmt_q (s : string) : string := String dquote (s +:+ String dquote "").

(** ** The rows of the table *)

Record BenchResult := mkBenchResult {
  reqs : Z; elapsed : Z; latencies : list Z }.

(** [Duration.Seconds]. *)
Definition Seconds (d : Z) : spec_float :=
  SFadd 53 1024 (float64 (Z.quot d 1000000000))
    (float_div (float64 (Z.rem d 1000000000)) (float64 1000000000)).

Definition per_request (bytes count : Z) : string :=
  fmt_f0 (float_div (float64 bytes) (float64 count)).

(** What [printRow] prints; [None] is the panic of an index out of range. *)
Definition row_text (name : string) (conc : nat) (r : BenchResult) (bytesIn bytesOut : Z)
    : option string :=
  '(a, b, c) ← row_percentiles (latencies r);
  Some (pad_right 6 name +:+ " " +:+ pad_right 6 (pretty conc) +:+ " " +:+
    pad_left 12 (fmt_f0 (float_div (float64 (reqs r)) (Seconds (elapsed r)))) +:+ " " +:+
    pad_left 10 (dur a) +:+ " " +:+ pad_left 10 (dur b) +:+ " " +:+ pad_left 10 (dur c) +:+ " " +:+
    pad_left 9 (per_request bytesIn (reqs r)) +:+ " " +:+
    pad_left 9 (per_request bytesOut (reqs r)) +:+ newline).

(** ** The state and the programs *)

Inductive Proto := GRPC | REST.
#[export] Instance Proto_eq_dec : EqDecision Proto.
Proof. solve_decision. Defined.

Inductive BenchEvent :=
  | BeListen (p : Proto) (ok : bool)
  | BeDial (ok : bool)
  | BeConnClose
  | BeReset (p : Proto)
  | BeTraffic (p : Proto) (i o : Z)
  | BeCall (p : Proto) (latency : Z)
  | BeStop (p : Proto)
  | BePrint (s : string)
  | BeFatal (s : string).

(** The counters of the two listeners, and what happened. *)
Record Bench := mkBench { bn_in : Proto -> Z; bn_out : Proto -> Z; bn_trace : list BenchEvent }.

Definition be_log (ev : BenchEvent) (b : Bench) : Bench :=
  mkBench (bn_in b) (bn_out b) (app (bn_trace b) [ev]).
Definition upd (p : Proto) (n : Z) (f : Proto -> Z) : Proto -> Z :=
  fun q => if decide (q = p) then n else f q.

(** [os.Exit(1)] and a panic end the program. *)
Inductive Halt := Exit1 | Panic.
Inductive Outcome (A : Type) := Returned (a : A) | Halted (h : Halt).
Arguments Returned {A}. Arguments Halted {A}.

Definition Act (A : Type) : Type := Bench -> Outcome A -> Bench -> Prop.

#[export] Instance act_ret : MRet Act := fun A a b r b' => r = Returned a /\ b' = b.
#[export] Instance act_bind : MBind Act := fun A B k m b r b' =>
  (exists a b1, m b (Returned a) b1 /\ k a b1 r b') \/
  (exists h, m b (Halted h) b' /\ r = Halted h).

Definition say (ev : BenchEvent) : Act unit := fun b r b' => r = Returned () /\ b' = be_log ev b.
Definition print (s : string) : Act unit := say (BePrint s).

(** [defer]: not run by [os.Exit]. *)
Definition be_defer {A} (cleanup : BenchEvent) (body : Act A) : Act A := fun b r b' =>
  exists b1, body b r b1 /\ b' = match r with Halted Exit1 => b1 | _ => be_log cleanup b1 end.

(** A call that may fail, which is fatal. *)
Definition attempt (ev : bool -> BenchEvent) (what : string) : Act unit := fun b r b' =>
  (r = Returned () /\ b' = be_log (ev true) b) \/
  (exists msg, r = Halted Exit1 /\
     b' = be_log (BeFatal (what +:+ ": " +:+ msg +:+ newline)) (be_log (ev false) b)).

Fixpoint act_for {A} (body : A -> Act unit) (l : list A) : Act unit :=
  match l with
  | [] => mret ()
  | a :: l' => body a ;; act_for body l'
  end.

(** [atomic.StoreInt64] of both counters of a listener, as one step: what the
    idle connections of the listener may move between the two is left out. *)
Definition reset (p : Proto) : Act unit := fun b r b' =>
  r = Returned () /\
  b' = be_log (BeReset p) (mkBench (upd p 0 (bn_in b)) (upd p 0 (bn_out b)) (bn_trace b)).

(** Bytes that go over the counted connections of a listener. *)
Definition moved (p : Proto) (i o : Z) (b : Bench) : Bench :=
  be_log (BeTraffic p i o)
    (mkBench (upd p (add_int64 (bn_in b p) i) (bn_in b))
             (upd p (add_int64 (bn_out b p) o) (bn_out b)) (bn_trace b)).

(** [drive], while the connections move bytes: the steps of its workers, and
    traffic at any time. *)
Inductive drives (p : Proto) (count : Z) : Drive -> Bench -> Drive -> Bench -> Prop :=
  | dv_none s b : drives p count s b s b
  | dv_step s b s1 b1 s2 :
      drives p count s b s1 b1 -> drive_step count s1 None s2 -> drives p count s b s2 b1
  | dv_call s b s1 b1 i d s2 :
      drives p count s b s1 b1 -> drive_step count s1 (Some (i, d)) s2 ->
      drives p count s b s2 (be_log (BeCall p d) b1)
  | dv_traffic q i o s b s1 b1 :
      drives p count s b s1 b1 -> 0 <= i -> 0 <= o -> drives p count s b s1 (moved q i o b1).

Definition drive (p : Proto) (concurrency : nat) (count : Z) : Act BenchResult := fun b r b' =>
  exists s t, drives p count (drive_start concurrency count) b s b' /\ all_exited s /\ 0 <= t /\
    r = Returned (mkBenchResult count t (lat s)).

Definition benchGRPC (concurrency : nat) : Act BenchResult :=
  attempt BeDial "grpc dial" ;;
  be_defer BeConnClose
    (drive GRPC concurrency warmup ;; drive GRPC concurrency total).

Definition benchHTTP (concurrency : nat) : Act BenchResult :=
  drive REST concurrency warmup ;; drive REST concurrency total.

(** Between two calls of the program the connections may move bytes too. *)
Inductive idles (b : Bench) : Bench -> Prop :=
  | id_none : idles b b
  | id_more q i o b1 : idles b b1 -> 0 <= i -> 0 <= o -> idles b (moved q i o b1).

(** [atomic.LoadInt64] of one counter and then of the other, some time after the
    calls have returned (gRPC has closed its connection meanwhile). *)
Definition load (p : Proto) : Act (Z * Z) := fun b r b' =>
  exists b1, idles b b1 /\ idles b1 b' /\ r = Returned (bn_in b1 p, bn_out b' p).

Definition printRow (name : string) (conc : nat) (r : BenchResult) (bytesIn bytesOut : Z)
    : Act unit :=
  match row_text name conc r bytesIn bytesOut with
  | Some line => print line
  | None => fun b o b' => o = Halted Panic /\ b' = b
  end.

Definition startGRPC : Act unit := attempt (BeListen GRPC) "grpc listen".
Definition startHTTP : Act unit := attempt (BeListen REST) "http listen".

(** The body of the loop of [main]. *)
Definition gRPC_cell (c : nat) : Act unit :=
  reset GRPC ;; gr ← benchGRPC c; '(i, o) ← load GRPC; printRow "gRPC" c gr i o.
Definition REST_cell (c : nat) : Act unit :=
  reset REST ;; hrr ← benchHTTP c; '(i, o) ← load REST; printRow "REST" c hrr i o.

(** ** The payload sizes *)

Section Main.
(** [proto.Marshal] of the generated code. *)
Variable proto_Marshal : SendConfirmationRequest -> string.

(** [jsonReq], as encoding/json writes it. *)
Definition json_request (r : SendConfirmationRequest) : string :=
  Marshal [("email", req_Email r); ("repo", req_Repo r); ("confirm_url", req_ConfirmUrl r)].

Definition small_request : SendConfirmationRequest := mkSendConfirmationRequest
  "user@example.com" "golang/go"
  "http://localhost:8080/api/confirm/8b1e6a3c-0f4d-4c2a-9b7e-1d2c3f4a5b6c".
Definition large_request : SendConfirmationRequest := mkSendConfirmationRequest
  "some.longer.name+release-tag@mail.subdomain.example.co.uk" "kubernetes/kubernetes"
  "https://notifications.example.com/api/v1/confirm/8b1e6a3c-0f4d-4c2a-9b7e-1d2c3f4a5b6c?src=email&campaign=weekly".

Definition size_line (label : string) (r : SendConfirmationRequest) : string :=
  let pb := Z.of_nat (String.length (proto_Marshal r)) in
  let js := Z.of_nat (String.length (json_request r)) in
  pad_right 8 label +:+ " " +:+ pad_left 9 (pretty pb) +:+ "B " +:+ pad_left 9 (pretty js) +:+
  "B " +:+ pad_left 7 (fmt_f2 (float_div (float64 js) (float64 pb))) +:+ "x" +:+ newline.

Definition payload_lines : list string :=
  [newline +:+ "payload size (serialization only, one request):" +:+ newline;
   pad_right 8 "size" +:+ " " +:+ pad_left 10 "Protobuf" +:+ " " +:+ pad_left 10 "JSON" +:+ " " +:+
     pad_left 8 "ratio" +:+ newline;
   "--------------------------------------------" +:+ newline;
   size_line "small" small_request; size_line "large" large_request;
   newline +:+ "(req B/w and resp B/w above are total bytes on the wire per request," +:+ newline;
   " including HTTP framing + headers: HTTP/2 HPACK vs HTTP/1.1 plain text.)" +:+ newline].

Definition printPayloadSizes : Act unit := act_for print payload_lines.

Definition header_lines : list string :=
  ["confirmbench — " +:+ pretty total +:+ " measured requests per cell, warmup " +:+
     pretty warmup +:+ newline;
   "payload: email=" +:+ fmt_q (req_Email small_request) +:+ " repo=" +:+
     fmt_q (req_Repo small_request) +:+ " confirm_url=" +:+ fmt_q (req_ConfirmUrl small_request) +:+
     newline +:+ newline;
   pad_right 6 "proto" +:+ " " +:+ pad_right 6 "conc" +:+ " " +:+ pad_left 12 "req/s" +:+ " " +:+
     pad_left 10 "p50" +:+ " " +:+ pad_left 10 "p95" +:+ " " +:+ pad_left 10 "p99" +:+ " " +:+
     pad_left 10 "req B/w" +:+ " " +:+ pad_left 10 "resp B/w" +:+ newline;
   "-------------------------------------------------------------------------------------" +:+
     newline].

Definition bench_main : Act unit :=
  startGRPC ;;
  be_defer (BeStop GRPC) (
    startHTTP ;;
    be_defer (BeStop REST) (
      act_for print header_lines ;;
      act_for (fun c => gRPC_cell c ;; REST_cell c) concurrencies ;;
      printPayloadSizes)).
End Main.

Example header_shown : nth 2 header_lines "" =
  "proto  conc          req/s        p50        p95        p99    req B/w   resp B/w" +:+ newline.
Proof. vm_compute. reflexivity. Qed.
Example small_json : json_request small_request =
  Marshal [("email", "user@example.com"); ("repo", "golang/go");
           ("confirm_url", "http://localhost:8080/api/confirm/8b1e6a3c-0f4d-4c2a-9b7e-1d2c3f4a5b6c")].
Proof. reflexivity. Qed.
Example row_shown :
  row_text "gRPC" 8 (mkBenchResult 30000 1500000000 [2000000; 950; 7000; 1234567]) 3300000 99 =
  Some ("gRPC   8             20000        7µs     1.23ms     1.23ms       110         0" +:+ newline).
Proof. vm_compute. reflexivity. Qed.

(** ** What a program adds to the trace *)

Definition calls_of (p : Proto) (evs : list BenchEvent) : list Z :=
  omap (fun ev => match ev with BeCall q d => if decide (q = p) then Some d else None | _ => None end) evs.
Definition traffic_of (p : Proto) (evs : list BenchEvent) : list (Z * Z) :=
  omap (fun ev => match ev with
                  | BeTraffic q i o => if decide (q = p) then Some (i, o) else None
                  | _ => None end) evs.
Definition sum_of (l : list Z) : Z := foldr Z.add 0 l.
Definition in_of (p : Proto) (evs : list BenchEvent) : Z := sum_of (traffic_of p evs).*1.
Definition out_of (p : Proto) (evs : list BenchEvent) : Z := sum_of (traffic_of p evs).*2.
Definition printed (evs : list BenchEvent) : list string :=
  omap (fun ev => match ev with BePrint s => Some s | _ => None end) evs.

Lemma sum_of_app l k : sum_of (app l k) = sum_of l + sum_of k.
Proof. unfold sum_of. induction l as [|z l IH]; simpl; lia. Qed.
Lemma in_of_app p e1 e2 : in_of p (app e1 e2) = in_of p e1 + in_of p e2.
Proof. unfold in_of, traffic_of. by rewrite omap_app, fmap_app, sum_of_app. Qed.
Lemma out_of_app p e1 e2 : out_of p (app e1 e2) = out_of p e1 + out_of p e2.
Proof. unfold out_of, traffic_of. by rewrite omap_app, fmap_app, sum_of_app. Qed.
Lemma calls_of_app p e1 e2 : calls_of p (app e1 e2) = app (calls_of p e1) (calls_of p e2).
Proof. apply omap_app. Qed.
Lemma printed_app e1 e2 : printed (app e1 e2) = app (printed e1) (printed e2).
Proof. apply omap_app. Qed.

(** A listen or a dial failed, and that was the end. *)
Definition fatal (evs : list BenchEvent) : Prop :=
  exists pre ev msg, evs = app pre [ev; BeFatal msg] /\
    ev ∈ [BeListen GRPC false; BeListen REST false; BeDial false].

Lemma fatal_app e1 e2 : fatal e2 -> fatal (app e1 e2).
Proof. intros (pre & ev & msg & -> & H). exists (app e1 pre), ev, msg. by rewrite app_assoc. Qed.

(** [m] returns with [Q], or is stopped by a failed listen or dial; it never
    panics. *)
Definition returns {A} (m : Act A) (Q : A -> list BenchEvent -> Bench -> Prop) (b : Bench) : Prop :=
  forall r b', m b r b' -> exists evs, bn_trace b' = app (bn_trace b) evs /\
    match r with Returned a => Q a evs b' | Halted h => h = Exit1 /\ fatal evs end.

Lemma returns_mono {A} (m : Act A) (Q Q' : A -> list BenchEvent -> Bench -> Prop) b :
  returns m Q b -> (forall a evs b', Q a evs b' -> Q' a evs b') -> returns m Q' b.
Proof.
  intros Hm HQ r b' Hr. destruct (Hm r b' Hr) as (evs & Htr & H). exists evs. split; [done|].
  destruct r; auto.
Qed.

Lemma returns_ret {A} (a : A) (Q : A -> list BenchEvent -> Bench -> Prop) b :
  Q a [] b -> returns (mret a) Q b.
Proof. intros HQ r b' [-> ->]. exists []. by rewrite app_nil_r. Qed.

Lemma returns_bind {A B} (m : Act A) (k : A -> Act B) P (Q : B -> list BenchEvent -> Bench -> Prop) b :
  returns m P b ->
  (forall a e1 b1, P a e1 b1 -> returns (k a) (fun c e2 b2 => Q c (app e1 e2) b2) b1) ->
  returns (m ≫= k) Q b.
Proof.
  intros Hm Hk r b' [(a & b1 & H1 & H2)|(h & H & ->)].
  - destruct (Hm _ _ H1) as (e1 & Htr1 & HP). destruct (Hk a e1 b1 HP _ _ H2) as (e2 & Htr2 & HQ).
    exists (app e1 e2). split; [by rewrite Htr2, Htr1, app_assoc|]. destruct r as [c|h]; [done|].
    destruct HQ as [-> Hf]. split; [done|by apply fatal_app].
  - destruct (Hm _ _ H) as (evs & Htr & Hf). by exists evs.
Qed.

Lemma returns_say ev (Q : unit -> list BenchEvent -> Bench -> Prop) b :
  Q () [ev] (be_log ev b) -> returns (say ev) Q b.
Proof. intros HQ r b' [-> ->]. by exists [ev]. Qed.

Lemma returns_attempt ev what (Q : unit -> list BenchEvent -> Bench -> Prop) b :
  ev false ∈ [BeListen GRPC false; BeListen REST false; BeDial false] ->
  Q () [ev true] (be_log (ev true) b) -> returns (attempt ev what) Q b.
Proof.
  intros Hev HQ r b' [[-> ->]|(msg & -> & ->)]; [by exists [ev true]|].
  eexists [_; _]. split; [simpl; by rewrite <- app_assoc|]. split; [done|]. by eexists [], (ev false), _.
Qed.

Lemma returns_defer {A} ev (m : Act A) (Q : A -> list BenchEvent -> Bench -> Prop) b :
  returns m (fun a evs b' => Q a (app evs [ev]) (be_log ev b')) b -> returns (be_defer ev m) Q b.
Proof.
  intros Hm r b' (b1 & H1 & ->). destruct (Hm _ _ H1) as (evs & Htr & H).
  destruct r as [a|h].
  - exists (app evs [ev]). split; [simpl; by rewrite Htr, app_assoc|done].
  - destruct H as [-> Hf]. by exists evs.
Qed.

Lemma returns_for {A} (body : A -> Act unit) (Seg : A -> list BenchEvent -> Prop) l b :
  (forall a b', a ∈ l -> returns (body a) (fun _ evs _ => Seg a evs) b') ->
  returns (act_for body l) (fun _ evs _ => exists segs, Forall2 Seg l segs /\ evs = concat segs) b.
Proof.
  revert b. induction l as [|a l IH]; intros b Hb; simpl.
  { apply returns_ret. by exists []. }
  eapply returns_bind; [apply Hb; set_solver|]. intros [] e1 b1 H1.
  eapply returns_mono; [apply IH; intros a' b' Ha'; apply Hb; set_solver|].
  intros [] e2 b2 (segs & Hs & ->). exists (e1 :: segs). by split; [constructor|].
Qed.

Lemma returns_print l b :
  returns (act_for print l) (fun _ evs _ => evs = BePrint <$> l) b.
Proof.
  eapply returns_mono.
  - apply (returns_for _ (fun s evs => evs = [BePrint s])). intros s b' _. by apply returns_say.
  - intros [] evs b' (segs & Hs & ->). clear -Hs. induction Hs as [|s seg l segs -> Hs IH]; [done|].
    simpl. by rewrite IH.
Qed.

(** ** The drivers *)

(** A counter holds a 64-bit integer. *)
Definition canonical (z : Z) : Prop := add_int64 z 0 = z.

Lemma canonical_add a n : canonical (add_int64 a n).
Proof. unfold canonical. by rewrite add_int64_add, Z.add_0_r. Qed.

(** The counters of [p] went from [b] to [b'] with the traffic of [evs]. *)
Definition counted (p : Proto) (evs : list BenchEvent) (b b' : Bench) : Prop :=
  (canonical (bn_in b p) -> bn_in b' p = add_int64 (bn_in b p) (in_of p evs)) /\
  (canonical (bn_out b p) -> bn_out b' p = add_int64 (bn_out b p) (out_of p evs)).

Lemma counted_refl p b : counted p [] b b.
Proof. by split; intros H. Qed.
Lemma counted_trans p e1 e2 b1 b2 b3 :
  counted p e1 b1 b2 -> counted p e2 b2 b3 -> counted p (app e1 e2) b1 b3.
Proof.
  intros [Hi1 Ho1] [Hi2 Ho2]. split; intros Hc.
  - rewrite Hi2 by by rewrite Hi1; [apply canonical_add|]. by rewrite Hi1, add_int64_add, in_of_app.
  - rewrite Ho2 by by rewrite Ho1; [apply canonical_add|]. by rewrite Ho1, add_int64_add, out_of_app.
Qed.
(** An event that is no traffic, logged. *)
Lemma counted_log p ev b : traffic_of p [ev] = [] -> counted p [ev] b (be_log ev b).
Proof. intros H. unfold counted, in_of, out_of. rewrite H. by split; intros Hc. Qed.
Lemma counted_moved p q i o b : counted p [BeTraffic q i o] b (moved q i o b).
Proof.
  unfold counted, in_of, out_of, moved, upd. simpl.
  destruct (decide (p = q)) as [->|Hne]; [rewrite decide_True by done|rewrite (decide_False (P := q = p)) by congruence];
    simpl; [by rewrite !Z.add_0_r|done].
Qed.

Lemma drives_trace p count s b s' b' :
  drives p count s b s' b' -> exists evs n tr,
    bn_trace b' = app (bn_trace b) evs /\ drive_run count n s tr s' /\
    calls_of p evs = tr.*2 /\ printed evs = [] /\ forall q, counted q evs b b'.
Proof.
  induction 1 as [s b|s b s1 b1 s2 Hd IH Hs|s b s1 b1 i d s2 Hd IH Hs|q i o s b s1 b1 Hd IH Hi Ho].
  - exists [], 0%nat, []. split; [by rewrite app_nil_r|]. split; [constructor|].
    split; [done|]. split; [done|]. intros q. apply counted_refl.
  - destruct IH as (evs & n & tr & Htr & Hrun & Hc & Hp & Hq). exists evs, (S n), tr.
    split; [done|]. split; [|done]. rewrite <- (app_nil_r tr). by eapply (drive_more _ _ _ _ _ None).
  - destruct IH as (evs & n & tr & Htr & Hrun & Hc & Hp & Hq).
    exists (app evs [BeCall p d]), (S n), (app tr [(i, d)]).
    split; [simpl; by rewrite Htr, app_assoc|].
    split; [by eapply (drive_more _ _ _ _ _ (Some (i, d)))|].
    split; [rewrite calls_of_app, fmap_app, Hc; simpl; by rewrite decide_True|].
    split; [by rewrite printed_app, Hp|]. intros q. eapply counted_trans; [apply Hq|].
    by apply counted_log.
  - destruct IH as (evs & n & tr & Htr & Hrun & Hc & Hp & Hq).
    exists (app evs [BeTraffic q i o]), n, tr. split; [simpl; by rewrite Htr, app_assoc|].
    split; [done|]. split; [by rewrite calls_of_app, Hc; simpl; rewrite app_nil_r|].
    split; [by rewrite printed_app, Hp|]. intros q'. eapply counted_trans; [apply Hq|].
    apply counted_moved.
Qed.

(** What a run of the driver adds: as many calls as asked for. *)
Definition driven (p : Proto) (count : Z) (b : Bench) (evs : list BenchEvent) (b' : Bench) : Prop :=
  length (calls_of p evs) = Z.to_nat count /\ printed evs = [] /\ forall q, counted q evs b b'.

Lemma returns_drive p conc count b :
  0 <= count -> (0 < conc)%nat ->
  returns (drive p conc count) (fun r evs b' => driven p count b evs b' /\
    exists t l, r = mkBenchResult count t l /\ 0 <= t /\ Z.of_nat (length l) = count) b.
Proof.
  intros Hc Hk r b' (s & t & Hd & Hall & Ht & ->).
  destruct (drives_trace _ _ _ _ _ _ Hd) as (evs & n & tr & Htr & Hrun & Hcalls & Hp & Hq).
  exists evs. split; [done|].
  pose proof (drive_all_served _ _ _ _ _ Hc Hk Hrun Hall) as Hperm.
  pose proof (inv_len _ _ _ (drive_run_inv _ _ _ _ _ Hc Hrun)) as Hlen.
  split; [split; [|done]|exists t, (lat s); split; [done|split; [done|lia]]].
  rewrite Hcalls, length_fmap. apply Permutation_length in Hperm.
  by rewrite length_fmap, length_seqZ in Hperm.
Qed.

Lemma idles_trace b b' :
  idles b b' -> exists evs, bn_trace b' = app (bn_trace b) evs /\ printed evs = [] /\
    forall q, calls_of q evs = [] /\ counted q evs b b'.
Proof.
  induction 1 as [|q i o b1 _ (evs & Htr & Hp & Hq)].
  - exists []. rewrite app_nil_r. split; [done|]. split; [done|]. intros q. split; [done|apply counted_refl].
  - exists (app evs [BeTraffic q i o]). split; [simpl; by rewrite Htr, app_assoc|].
    split; [by rewrite printed_app, Hp|]. intros q'. destruct (Hq q') as [Hc Hcount].
    split; [by rewrite calls_of_app, Hc|]. eapply counted_trans; [exact Hcount|apply counted_moved].
Qed.

(** The warm-up and the measured calls. *)
Lemma returns_bench p conc b :
  (0 < conc)%nat ->
  returns (drive p conc warmup ;; drive p conc total) (fun r evs b' =>
    driven p (warmup + total) b evs b' /\
    exists t l, r = mkBenchResult total t l /\ 0 <= t /\ Z.of_nat (length l) = total) b.
Proof.
  intros Hk. eapply returns_bind; [by apply returns_drive|].
  intros r e1 b1 [(Hc1 & Hp1 & Hq1) _]. eapply returns_mono; [by apply returns_drive|].
  intros r2 e2 b2 [(Hc2 & Hp2 & Hq2) Hr]. split; [|exact Hr].
  split; [rewrite calls_of_app, length_app, Hc1, Hc2; unfold warmup, total; lia|].
  split; [by rewrite printed_app, Hp1, Hp2|]. intros q. by eapply counted_trans.
Qed.

(** ** The cells of the table *)

Definition proto_name (p : Proto) : string := match p with GRPC => "gRPC" | REST => "REST" end.

(** A cell of [conc] workers: the counters are reset, the calls made ([evs1]),
    the row printed. Its latencies are the measured ones; its bytes are all that
    went over the connections since the reset, up to the load of each counter. *)
Definition cell (p : Proto) (conc : nat) (seg : list BenchEvent) : Prop :=
  exists evs1 evs2 t l line, seg = BeReset p :: app evs1 (app evs2 [BePrint line]) /\
    printed (app evs1 evs2) = [] /\ length (calls_of p evs1) = Z.to_nat (warmup + total) /\
    calls_of p evs2 = [] /\ 0 <= t /\ Z.of_nat (length l) = total /\
    row_text (proto_name p) conc (mkBenchResult total t l)
      (add_int64 0 (in_of p evs1)) (add_int64 0 (out_of p (app evs1 evs2))) = Some line.

Lemma row_text_total name conc t l i o :
  Z.of_nat (length l) = total ->
  exists line, row_text name conc (mkBenchResult total t l) i o = Some line.
Proof.
  intros Hl. unfold row_text. simpl.
  destruct (percentiles_ordered l Hl) as (a & b & c & -> & _). by eexists.
Qed.

(** After the calls: the row, from the counters. *)
Lemma returns_row p conc t l evs b0 b :
  bn_in b0 p = 0 -> bn_out b0 p = 0 -> counted p evs b0 b -> printed evs = [] ->
  length (calls_of p evs) = Z.to_nat (warmup + total) -> 0 <= t -> Z.of_nat (length l) = total ->
  returns ('(i, o) ← load p; printRow (proto_name p) conc (mkBenchResult total t l) i o)
    (fun _ e2 _ => cell p conc (BeReset p :: app evs e2)) b.
Proof.
  intros Hi0 Ho0 Hb Hp Hc Ht Hl.
  apply (returns_bind _ _ (fun a e b2 => exists e1 e2, e = app e1 e2 /\
    printed e = [] /\ calls_of p e = [] /\
    a = (add_int64 0 (in_of p (app evs e1)), add_int64 0 (out_of p (app evs e))))).
  { intros r b2 (b1 & H1 & H2 & ->).
    destruct (idles_trace _ _ H1) as (e1 & Ht1 & Hp1 & Hq1).
    destruct (idles_trace _ _ H2) as (e2 & Ht2 & Hp2 & Hq2).
    destruct (Hq1 p) as [Hc1 Hn1], (Hq2 p) as [Hc2 Hn2].
    pose proof (counted_trans _ _ _ _ _ _ Hb Hn1) as Hb1.
    pose proof (counted_trans _ _ _ _ _ _ Hb1 Hn2) as [_ Ho]. destruct Hb1 as [Hi _].
    exists (app e1 e2). split; [by rewrite Ht2, Ht1, app_assoc|]. exists e1, e2. split; [done|].
    split; [by rewrite printed_app, Hp1, Hp2|]. split; [by rewrite calls_of_app, Hc1, Hc2|].
    rewrite Hi0 in Hi. rewrite Ho0 in Ho. by rewrite Hi, Ho, app_assoc. }
  intros a e b2 (e1 & e2 & -> & Hpe & Hce & ->). simpl. unfold printRow.
  destruct (row_text_total (proto_name p) conc t l (add_int64 0 (in_of p (app evs e1)))
    (add_int64 0 (out_of p (app evs (app e1 e2)))) Hl) as [line Hline].
  rewrite Hline. apply returns_say. rewrite calls_of_app in Hce. apply app_eq_nil in Hce as [Hc1 Hc2].
  exists (app evs e1), e2, t, l, line. rewrite <- !app_assoc. split; [done|].
  split; [by rewrite printed_app, Hp, Hpe|]. split; [by rewrite calls_of_app, Hc1, app_nil_r|done].
Qed.

Lemma returns_REST_cell conc b :
  (0 < conc)%nat -> returns (REST_cell conc) (fun _ evs _ => cell REST conc evs) b.
Proof.
  intros Hk. unfold REST_cell, benchHTTP.
  apply (returns_bind _ _ (fun _ e1 b1 => e1 = [BeReset REST] /\ bn_in b1 REST = 0 /\ bn_out b1 REST = 0)).
  { intros r b' [-> ->]. by exists [BeReset REST]. }
  intros [] e1 b1 (-> & Hi & Ho). eapply returns_bind; [by apply returns_bench|].
  intros r evs b2 [(Hc & Hp & Hq) (t & l & -> & Ht & Hl)].
  eapply returns_mono; [by apply (returns_row REST conc t l evs b1)|]. done.
Qed.

Lemma returns_gRPC_cell conc b :
  (0 < conc)%nat -> returns (gRPC_cell conc) (fun _ evs _ => cell GRPC conc evs) b.
Proof.
  intros Hk. unfold gRPC_cell, benchGRPC.
  apply (returns_bind _ _ (fun _ e1 b1 => e1 = [BeReset GRPC] /\ bn_in b1 GRPC = 0 /\ bn_out b1 GRPC = 0)).
  { intros r b' [-> ->]. by exists [BeReset GRPC]. }
  intros [] e1 b1 (-> & Hi & Ho).
  apply (returns_bind _ _ (fun r evs b2 => driven GRPC (warmup + total) b1 evs b2 /\
    exists t l, r = mkBenchResult total t l /\ 0 <= t /\ Z.of_nat (length l) = total)).
  { eapply returns_bind; [apply (returns_attempt _ _ (fun _ evs b2 => evs = [BeDial true] /\
      b2 = be_log (BeDial true) b1)); [set_solver|done]|].
    intros [] e2 b2 [-> ->]. apply returns_defer.
    eapply returns_mono; [by apply returns_bench|].
    intros r evs b2 [(Hc & Hp & Hq) Hr]. split; [|exact Hr].
    split; [by rewrite !calls_of_app, !length_app, Hc|].
    split; [by rewrite !printed_app, Hp|]. intros q.
    eapply counted_trans; [by apply (counted_log q)|].
    eapply counted_trans; [apply Hq|by apply (counted_log q)]. }
  intros r evs b2 [(Hc & Hp & Hq) (t & l & -> & Ht & Hl)].
  eapply returns_mono; [by apply (returns_row GRPC conc t l evs b1)|]. done.
Qed.

Definition both_cells (conc : nat) (seg : list BenchEvent) : Prop :=
  exists s1 s2, seg = app s1 s2 /\ cell GRPC conc s1 /\ cell REST conc s2.

Lemma returns_cells b :
  returns (act_for (fun c => gRPC_cell c ;; REST_cell c) concurrencies)
    (fun _ evs _ => exists segs, Forall2 both_cells concurrencies segs /\ evs = concat segs) b.
Proof.
  apply returns_for. intros conc b' Hin.
  assert (0 < conc)%nat as Hk by (unfold concurrencies in Hin; rewrite !elem_of_cons in Hin;
    destruct Hin as [->|[->|[->|Hin]]]; [lia..|by apply elem_of_nil in Hin]).
  eapply returns_bind; [by apply returns_gRPC_cell|]. intros [] e1 b1 H1.
  eapply returns_mono; [by apply returns_REST_cell|]. intros [] e2 b2 H2. by exists e1, e2.
Qed.

(** ** Every program can run to its end *)

Definition can_return {A} (m : Act A) : Prop := forall b, exists a b', m b (Returned a) b'.

Lemma can_bind {A B} (m : Act A) (k : A -> Act B) :
  can_return m -> (forall a, can_return (k a)) -> can_return (m ≫= k).
Proof.
  intros Hm Hk b. destruct (Hm b) as (a & b1 & H1). destruct (Hk a b1) as (c & b2 & H2).
  exists c, b2. left. by exists a, b1.
Qed.
Lemma can_say ev : can_return (say ev).
Proof. intros b. by eexists (), _. Qed.
Lemma can_attempt ev what : can_return (attempt ev what).
Proof. intros b. eexists (), _. by left. Qed.
Lemma can_defer {A} ev (m : Act A) : can_return m -> can_return (be_defer ev m).
Proof. intros Hm b. destruct (Hm b) as (a & b1 & H). exists a, (be_log ev b1). by exists b1. Qed.
Lemma can_for {A} (body : A -> Act unit) l :
  (forall a, can_return (body a)) -> can_return (act_for body l).
Proof.
  intros Hb. induction l as [|a l IH]; simpl; [intros b; by exists (), b|].
  apply can_bind; [apply Hb|by intros []].
Qed.

Lemma drives_complete p count s b : exists s' b', drives p count s b s' b' /\ all_exited s'.
Proof.
  remember (drive_measure count s) as k eqn:Hk.
  assert (forall k s1 b1, drive_measure count s1 = k -> drives p count s b s1 b1 ->
    exists s' b', drives p count s b s' b' /\ all_exited s') as H; [|by eapply H; [|constructor]].
  clear k Hk. intros k. induction k as [k IH] using lt_wf_ind. intros s1 b1 Hk Hd.
  destruct (drive_progress count s1) as [Hall|(ev & s2 & Hs)]; [by exists s1, b1|].
  pose proof (drive_step_measure _ _ _ _ Hs). destruct ev as [[i d]|].
  - eapply (IH (drive_measure count s2)); [lia|done|by eapply dv_call].
  - eapply (IH (drive_measure count s2)); [lia|done|by eapply dv_step].
Qed.

Lemma can_drive p conc count : can_return (drive p conc count).
Proof.
  intros b. destruct (drives_complete p count (drive_start conc count) b) as (s & b' & Hd & Hall).
  by exists (mkBenchResult count 0 (lat s)), b', s, 0.
Qed.

Lemma can_bind_post {A B} (m : Act A) (k : A -> Act B) (P : A -> Prop) :
  can_return m -> (forall b, returns m (fun a _ _ => P a) b) ->
  (forall a, P a -> can_return (k a)) -> can_return (m ≫= k).
Proof.
  intros Hm HP Hk b. destruct (Hm b) as (a & b1 & H1). destruct (HP b _ _ H1) as (_ & _ & Ha).
  destruct (Hk a Ha b1) as (c & b2 & H2). exists c, b2. left. by exists a, b1.
Qed.

Definition measured (r : BenchResult) : Prop :=
  exists t l, r = mkBenchResult total t l /\ Z.of_nat (length l) = total.

Lemma can_row p conc r :
  measured r -> can_return ('(i, o) ← load p; printRow (proto_name p) conc r i o).
Proof.
  intros (t & l & -> & Hl). apply can_bind; [|intros [i o]].
  { intros b. exists (bn_in b p, bn_out b p), b, b. split_and!; [constructor..|done]. }
  unfold printRow. destruct (row_text_total (proto_name p) conc t l i o Hl) as [line ->].
  apply can_say.
Qed.

Lemma can_cells conc :
  (0 < conc)%nat -> can_return (gRPC_cell conc ;; REST_cell conc).
Proof.
  intros Hk.
  assert (forall p, can_return (reset p)) as Hreset by (intros p b; by eexists (), _).
  assert (forall p, can_return (drive p conc warmup ;; drive p conc total)) as Hdrive
    by (intros p; apply can_bind; intros; apply can_drive).
  assert (forall p b, returns (drive p conc warmup ;; drive p conc total)
    (fun r _ _ => measured r) b) as Hm.
  { intros p b. eapply returns_mono; [by apply returns_bench|].
    intros r evs b' [_ (t & l & -> & _ & Hl)]. by exists t, l. }
  apply can_bind; [|intros []]; (apply can_bind; [apply Hreset|intros []]).
  - apply (can_bind_post _ _ measured); [|intros b|apply (can_row GRPC)].
    + apply can_bind; [apply can_attempt|intros []]. apply can_defer, Hdrive.
    + eapply returns_bind; [apply (returns_attempt _ _ (fun _ _ _ => True)); [set_solver|done]|].
      intros [] e1 b1 _. apply returns_defer, Hm.
  - apply (can_bind_post _ _ measured); [apply Hdrive|intros b; apply Hm|apply (can_row REST)].
Qed.

(** ** The property of the benchmark *)

(** C39: What confirmbench prints: every run of [main] ends by itself or by a failed
    listen or dial, never by a panic, and one that ends by itself prints the
    header, then for 1, 8 and 64 workers the row of gRPC and the row of REST,
    then the payload sizes, and stops both servers. A row is computed from
    exactly [total] latencies; its columns of bytes divide by [total] what went
    over the connections from the reset of the counters to their loads, which is
    the traffic of [warmup + total] calls and of what comes after them (gRPC
    closes its connection before the loads). A run to the end exists. *)
Theorem confirmbench_table proto_Marshal b :
  (forall r b', bench_main proto_Marshal b r b' ->
     exists evs, bn_trace b' = app (bn_trace b) evs /\
       match r with
       | Returned _ => exists segs, Forall2 both_cells concurrencies segs /\
           evs = app [BeListen GRPC true; BeListen REST true]
             (app (BePrint <$> header_lines) (app (concat segs)
               (app (BePrint <$> payload_lines proto_Marshal) [BeStop REST; BeStop GRPC])))
       | Halted h => h = Exit1 /\ fatal evs
       end) /\
  exists b', bench_main proto_Marshal b (Returned ()) b'.
Proof.
  split.
  - change (returns (bench_main proto_Marshal) (fun _ evs _ => exists segs,
      Forall2 both_cells concurrencies segs /\
      evs = app [BeListen GRPC true; BeListen REST true]
        (app (BePrint <$> header_lines) (app (concat segs)
          (app (BePrint <$> payload_lines proto_Marshal) [BeStop REST; BeStop GRPC])))) b).
    unfold bench_main, startGRPC, startHTTP.
    eapply returns_bind; [apply (returns_attempt _ _ (fun _ evs _ => evs = [BeListen GRPC true]));
      [set_solver|done]|]. intros [] e1 b1 ->. apply returns_defer.
    eapply returns_bind; [apply (returns_attempt _ _ (fun _ evs _ => evs = [BeListen REST true]));
      [set_solver|done]|]. intros [] e2 b2 ->. apply returns_defer.
    eapply returns_bind; [apply returns_print|]. intros [] e3 b3 ->.
    eapply returns_bind; [apply returns_cells|]. intros [] e4 b4 (segs & Hsegs & ->).
    eapply returns_mono; [apply returns_print|]. intros [] e5 b5 ->.
    exists segs. split; [done|]. simpl. by rewrite <- !app_assoc.
  - assert (can_return (bench_main proto_Marshal)) as Hcan.
    { unfold bench_main, startGRPC, startHTTP.
      apply can_bind; [apply can_attempt|intros []]. apply can_defer.
      apply can_bind; [apply can_attempt|intros []]. apply can_defer.
      apply can_bind; [apply can_for; intros; apply can_say|intros []].
      apply can_bind; [|intros []; apply can_for; intros; apply can_say].
      unfold concurrencies. simpl.
      repeat (apply can_bind; [apply can_cells; lia|intros []]).
      intros b'. by exists (), b'. }
    destruct (Hcan b) as ([] & b' & H). by exists b'.
Qed.

(** A server that reads 100 bytes for each call is shown as reading 110. *)
Example bytes_per_request_of_constant_traffic :
  per_request ((warmup + total) * 100) total = "110".
Proof. vm_compute. reflexivity. Qed.
